(** * Mesh file decoders (PLY and STL) and the fallback DataView

    A shallow embedding of [THREE.PLYLoader], [THREE.STLLoader] and the
    [DataView] fallback, with the properties their specification states
    (C1 to C10) and further properties of the code (X1 to X25).

    The loaders read through [new DataView]: the view of the host where
    there is one, which is [DataView] below, and otherwise the view that
    the file defines itself, which is [Fallback].

    Conventions of the embedding:
    - a byte buffer is a [list byte]; offsets and lengths are [nat];
    - integer-valued JavaScript numbers are [Z]; the 32-bit operators
      ([<<], [>>], [>>>], [|], [&]) are written out with their wrap-around;
    - a JavaScript number that is not known to be an integer is a binary64
      value, [spec_float] with precision 53 and maximal exponent 1024;
    - a thrown exception is the [Throw] case of [result];
    - strings are [string] (8-bit characters, as [bin2str] produces them). *)

From Stdlib Require Import ZArith List Bool Lia SpecFloat Ascii.
From Stdlib.Strings Require Byte.
From stdpp Require Import gmap strings.

Local Open Scope Z_scope.

Abbreviation byte := Byte.byte.

(** ** Exceptions *)

Inductive exn : Type :=
| RangeError   (* a DataView read outside the buffer *)
| TypeError    (* a property read on [undefined] *)
| Error.       (* what the fallback throws for a read outside the buffer *)

Inductive result (A : Type) : Type :=
| Ok (a : A)
| Throw (e : exn).

Arguments Ok {A} a.
Arguments Throw {A} e.

Definition bind {A B : Type} (m : result A) (k : A -> result B) : result B :=
  match m with
  | Ok a => k a
  | Throw e => Throw e
  end.

Notation "'let*' x ':=' m 'in' k" := (bind m (fun x => k))
  (at level 10, x name, m at level 100, k at level 200).

(** ** 32-bit integer operators of JavaScript *)

Module JS.

Definition ToInt32 (z : Z) : Z := (z + 2 ^ 31) mod 2 ^ 32 - 2 ^ 31.
Definition ToUint32 (z : Z) : Z := z mod 2 ^ 32.

(** [a << k], [a >> k], [a >>> k], [a | b], [a & b] *)
Definition shl (a k : Z) : Z := ToInt32 (Z.shiftl (ToInt32 a) (k mod 32)).
Definition sar (a k : Z) : Z := Z.shiftr (ToInt32 a) (k mod 32).
Definition shr (a k : Z) : Z := Z.shiftr (ToUint32 a) (k mod 32).
Definition bor (a b : Z) : Z := Z.lor (ToInt32 a) (ToInt32 b).
Definition band (a b : Z) : Z := Z.land (ToInt32 a) (ToInt32 b).

End JS.

(** ** JavaScript numbers: binary64 *)

Module Num.

Abbreviation number := spec_float.

Definition prec : Z := 53.
Definition emax : Z := 1024.

Definition NaN : number := S754_nan.
Definition Infinity : number := S754_infinity false.

(** The number nearest to [m * 2 ^ e] (ties to even). *)
Definition of_dyadic (m e : Z) : number := binary_normalize prec emax m e false.

(** An integer as a number. *)
Definition of_Z (z : Z) : number := of_dyadic z 0.

Definition mul : number -> number -> number := SFmul prec emax.
Definition add : number -> number -> number := SFadd prec emax.
Definition div : number -> number -> number := SFdiv prec emax.

(** [Math.pow(2, k)] for an integer [k], taken to be the exact power. *)
Definition pow2 (k : Z) : number := of_dyadic 1 k.

(** The conversion a [Float32Array] applies to a stored number:
    rounding to binary32, the result again held as a number. *)
Definition fround (x : number) : number :=
  match x with
  | S754_finite s m e =>
      match binary_round 24 128 s m e with
      | S754_finite s' m' e' => binary_round prec emax s' m' e'
      | y => y
      end
  | _ => x
  end.

End Num.

Import Num.

(** ** Bytes *)

Definition u8 (b : byte) : Z := Z.of_N (Byte.to_N b).

(** The byte with value [z mod 256]; used to write buffers down. *)
Definition byte_of_Z (z : Z) : byte :=
  match Byte.of_N (Z.to_N (z mod 256)) with
  | Some b => b
  | None => Byte.x00
  end.

(** [b[i]] on an array of bytes; an index outside the array reads
    [undefined], which the 32-bit operators take as 0. *)
Definition at_ (b : list byte) (i : nat) : Z :=
  match nth_error b i with
  | Some x => u8 x
  | None => 0
  end.

(** ** The DataView of the host *)

(** The view through which the loaders read the bytes of a buffer. Its
    reads are written with the arithmetic of the fallback, which on an
    array of bytes returns the same numbers ([FallbackFacts.reads_of_array]):
    the integers that the bytes spell ([IntFacts]) and the numbers that
    they encode ([FloatFacts.getFloat_ieee]). A read outside the buffer
    throws a [RangeError]. *)

Module DataView.

(** [new DataView(buffer, byteOffset)]: [byteLength] is never passed in this
    program, so the view ends where the buffer ends. *)
Record t : Type := new_at { this_buffer : list byte; this_byteOffset : nat }.

Definition new (buffer : list byte) : t := new_at buffer 0.

Definition byteLength (d : t) : nat := length (this_buffer d).

(** [buffer.slice(from, to)] for [from <= to] *)
Definition slice (l : list byte) (from to : nat) : list byte :=
  firstn (to - from) (skipn from l).

(** [littleEndian] is [None] when the argument is left out; it then takes
    the value of [this._littleEndian], which is never assigned. *)
Definition truthy (littleEndian : option bool) : bool :=
  match littleEndian with
  | Some b => b
  | None => false
  end.

(** The bytes of a read, in the order in which the accessors take them:
    reversed for a big-endian read of more than one byte. A read that
    would pass the end of the buffer throws. *)
Definition _getBytes (d : t) (length byteOffset : nat)
           (littleEndian : option bool) : result (list byte) :=
  let byteOffset := (this_byteOffset d + byteOffset)%nat in
  if (byteLength d <? byteOffset + length)%nat then Throw RangeError
  else
    let result := slice (this_buffer d) byteOffset (byteOffset + length) in
    if negb (truthy littleEndian) && (1 <? length)%nat
    then Ok (rev result)
    else Ok result.

(** [mantissa] and [exponent] are integers below [2 ^ 53], so their
    arithmetic is exact and written in [Z]; the returned expression is
    evaluated in binary64, left to right as written. *)
Definition getFloat64 (d : t) (byteOffset : nat) (littleEndian : option bool)
  : result number :=
  let* b := _getBytes d 8 byteOffset littleEndian in
  let sign := 1 - 2 * JS.sar (at_ b 7) 7 in
  let exponent :=
    JS.bor (JS.shl (JS.band (JS.shl (at_ b 7) 1) 255) 3) (JS.sar (at_ b 6) 4)
    - (JS.shl 1 10 - 1) in
  let mantissa :=
    JS.band (at_ b 6) 15 * 2 ^ 48 + at_ b 5 * 2 ^ 40 + at_ b 4 * 2 ^ 32
    + at_ b 3 * 2 ^ 24 + at_ b 2 * 2 ^ 16 + at_ b 1 * 2 ^ 8 + at_ b 0 in
  if exponent =? 1024 then
    if negb (mantissa =? 0) then Ok NaN
    else Ok (mul (of_Z sign) Infinity)
  else if exponent =? -1023 then
    Ok (mul (mul (of_Z sign) (of_Z mantissa)) (pow2 (-1022 - 52)))
  else
    Ok (mul (mul (of_Z sign) (add (of_Z 1) (mul (of_Z mantissa) (pow2 (-52)))))
            (pow2 exponent)).

Definition getFloat32 (d : t) (byteOffset : nat) (littleEndian : option bool)
  : result number :=
  let* b := _getBytes d 4 byteOffset littleEndian in
  let sign := 1 - 2 * JS.sar (at_ b 3) 7 in
  let exponent :=
    JS.bor (JS.band (JS.shl (at_ b 3) 1) 255) (JS.sar (at_ b 2) 7) - 127 in
  let mantissa :=
    JS.bor (JS.bor (JS.shl (JS.band (at_ b 2) 127) 16) (JS.shl (at_ b 1) 8))
           (at_ b 0) in
  if exponent =? 128 then
    if negb (mantissa =? 0) then Ok NaN
    else Ok (mul (of_Z sign) Infinity)
  else if exponent =? -127 then
    Ok (mul (mul (of_Z sign) (of_Z mantissa)) (pow2 (-126 - 23)))
  else
    Ok (mul (mul (of_Z sign) (add (of_Z 1) (mul (of_Z mantissa) (pow2 (-23)))))
            (pow2 exponent)).

Definition getInt32 (d : t) (byteOffset : nat) (littleEndian : option bool)
  : result Z :=
  let* b := _getBytes d 4 byteOffset littleEndian in
  Ok (JS.bor (JS.bor (JS.bor (JS.shl (at_ b 3) 24) (JS.shl (at_ b 2) 16))
                     (JS.shl (at_ b 1) 8))
             (at_ b 0)).

Definition getUint32 (d : t) (byteOffset : nat) (littleEndian : option bool)
  : result Z :=
  let* i := getInt32 d byteOffset littleEndian in
  Ok (JS.shr i 0).

Definition getUint16 (d : t) (byteOffset : nat) (littleEndian : option bool)
  : result Z :=
  let* b := _getBytes d 2 byteOffset littleEndian in
  Ok (JS.bor (JS.shl (at_ b 1) 8) (at_ b 0)).

Definition getInt16 (d : t) (byteOffset : nat) (littleEndian : option bool)
  : result Z :=
  let* u := getUint16 d byteOffset littleEndian in
  Ok (JS.sar (JS.shl u 16) 16).

Definition getUint8 (d : t) (byteOffset : nat) : result Z :=
  let* b := _getBytes d 1 byteOffset None in
  Ok (at_ b 0).

Definition getInt8 (d : t) (byteOffset : nat) : result Z :=
  let* u := getUint8 d byteOffset in
  Ok (JS.sar (JS.shl u 24) 24).

End DataView.


(** ** Loops *)

(** A [for] loop over the indices in [l], its body threading a state and
    possibly throwing. *)
Fixpoint foldM {A S : Type} (body : S -> A -> result S) (l : list A) (s : S)
  : result S :=
  match l with
  | [] => Ok s
  | a :: l' => let* s' := body s a in foldM body l' s'
  end.

(** ** THREE.STLLoader *)

Module STLLoader.

(** [isBinary]: the byte scan, [for (index = 0; index < fileLength; index++)],
    leaving the loop at the first byte above 127. *)
Fixpoint isBinary_scan (reader : DataView.t) (indices : list nat)
  : result bool :=
  match indices with
  | [] => Ok false
  | index :: rest =>
      let* c := DataView.getUint8 reader index in
      if 127 <? c then Ok true else isBinary_scan reader rest
  end.

Definition isBinary (binData : list byte) : result bool :=
  let reader := DataView.new binData in
  let face_size := 32 / 8 * 3 + 32 / 8 * 3 * 3 + 16 / 8 in
  let* n_faces := DataView.getUint32 reader 80 (Some true) in
  let expect := 80 + 32 / 8 + n_faces * face_size in
  if expect =? Z.of_nat (DataView.byteLength reader) then Ok true
  else
    let fileLength := DataView.byteLength reader in
    isBinary_scan reader (seq 0 fileLength).

(** What the header scan of [parseBinary] leaves behind; a default is
    [None] while the variable is still [undefined]. *)
Record header_color : Type := {
  hasColors : bool;
  colors0 : option (list number);
  defaultR : option number;
  defaultG : option number;
  defaultB : option number;
  alpha : option number
}.

Definition no_color : header_color :=
  {| hasColors := false; colors0 := None; defaultR := None;
     defaultG := None; defaultB := None; alpha := None |}.

(** [new Float32Array(n)] *)
Definition Float32Array (n : Z) : list number :=
  replicate (Z.to_nat n) (S754_zero false).

(** [array[i] = v] on a [Float32Array]: a store outside the array is
    dropped, and [undefined] is stored as [NaN]. *)
Definition store (array : list number) (i : nat) (v : option number)
  : list number :=
  <[ i := match v with Some x => fround x | None => NaN end ]> array.

Definition scan_header (reader : DataView.t) (faces : Z)
           (h : header_color) (index : nat) : result header_color :=
  let* c := DataView.getUint32 reader index (Some false) in
  let* is_sig :=
    if c =? 0x434F4C4F then
      let* c4 := DataView.getUint8 reader (index + 4) in
      if c4 =? 0x52 then
        let* c5 := DataView.getUint8 reader (index + 5) in
        Ok (c5 =? 0x3D)
      else Ok false
    else Ok false in
  if is_sig : bool then
    let* r := DataView.getUint8 reader (index + 6) in
    let* g := DataView.getUint8 reader (index + 7) in
    let* b := DataView.getUint8 reader (index + 8) in
    let* a := DataView.getUint8 reader (index + 9) in
    Ok {| hasColors := true;
          colors0 := Some (Float32Array (faces * 3 * 3));
          defaultR := Some (div (of_Z r) (of_Z 255));
          defaultG := Some (div (of_Z g) (of_Z 255));
          defaultB := Some (div (of_Z b) (of_Z 255));
          alpha := Some (div (of_Z a) (of_Z 255)) |}
  else Ok h.

(** The state of the loop over the faces. *)
Record arrays : Type := {
  vertices : list number;
  normals : list number;
  colors : option (list number);
  offset : nat
}.

(** The color of one face: [r], [g], [b] as left by
    [if (hasColors) { ... }]. *)
Definition face_color (h : header_color) (packedColor : Z)
  : option number * option number * option number :=
  if JS.band packedColor 0x8000 =? 0 then
    (Some (div (of_Z (JS.band packedColor 0x1F)) (of_Z 31)),
     Some (div (of_Z (JS.band (JS.sar packedColor 5) 0x1F)) (of_Z 31)),
     Some (div (of_Z (JS.band (JS.sar packedColor 10) 0x1F)) (of_Z 31)))
  else (defaultR h, defaultG h, defaultB h).

(** The inner loop, [for (i = 1; i <= 3; i++)]. *)
Definition vertex_body (reader : DataView.t) (h : header_color)
           (start : nat) (normal : number * number * number)
           (rgb : option number * option number * option number)
           (st : arrays) (i : nat) : result arrays :=
  let '(normalX, normalY, normalZ) := normal in
  let '(r, g, b) := rgb in
  let vertexstart := (start + i * 12)%nat in
  let o := offset st in
  let* x := DataView.getFloat32 reader vertexstart (Some true) in
  let* y := DataView.getFloat32 reader (vertexstart + 4) (Some true) in
  let* z := DataView.getFloat32 reader (vertexstart + 8) (Some true) in
  let vertices :=
    store (store (store (vertices st) o (Some x)) (o + 1) (Some y))
          (o + 2) (Some z) in
  let normals :=
    store (store (store (normals st) o (Some normalX)) (o + 1) (Some normalY))
          (o + 2) (Some normalZ) in
  let colors :=
    if hasColors h
    then option_map (fun c => store (store (store c o r) (o + 1) g) (o + 2) b)
                    (colors st)
    else colors st in
  Ok {| vertices := vertices; normals := normals; colors := colors;
        offset := (o + 3)%nat |}.

Definition face_body (reader : DataView.t) (h : header_color)
           (st : arrays) (face : nat) : result arrays :=
  let dataOffset := 84%nat in
  let faceLength := (12 * 4 + 2)%nat in
  let start := (dataOffset + face * faceLength)%nat in
  let* normalX := DataView.getFloat32 reader start (Some true) in
  let* normalY := DataView.getFloat32 reader (start + 4) (Some true) in
  let* normalZ := DataView.getFloat32 reader (start + 8) (Some true) in
  let* rgb :=
    if hasColors h then
      let* packedColor := DataView.getUint16 reader (start + 48) (Some true) in
      Ok (face_color h packedColor)
    else Ok (None, None, None) in
  foldM (vertex_body reader h start (normalX, normalY, normalZ) rgb)
        [1; 2; 3]%nat st.

(** The [THREE.BufferGeometry] that [parseBinary] returns: its attributes
    and the two fields set when the header carries a color. *)
Record BufferGeometry : Type := {
  position : list number;
  normal : list number;
  color : option (list number);
  geometry_hasColors : bool;
  geometry_alpha : option number
}.

Definition parseBinary (data : list byte) : result BufferGeometry :=
  let reader := DataView.new data in
  let* faces := DataView.getUint32 reader 80 (Some true) in
  let* h := foldM (scan_header reader faces) (seq 0 (80 - 10)) no_color in
  let st0 := {| vertices := Float32Array (faces * 3 * 3);
                normals := Float32Array (faces * 3 * 3);
                colors := colors0 h;
                offset := 0 |} in
  let* st := foldM (face_body reader h) (seq 0 (Z.to_nat faces)) st0 in
  Ok {| position := vertices st;
        normal := normals st;
        color := if hasColors h then colors st else None;
        geometry_hasColors := hasColors h;
        geometry_alpha := if hasColors h then alpha h else None |}.

(** [ensureBinary] on a string: one byte per character, [charCodeAt(i) & 0xff]. *)
Definition ensureBinary (buf : string) : list byte :=
  map (fun c => byte_of_Z (Z.of_N (Ascii.N_of_ascii c))) (String.list_ascii_of_string buf).

End STLLoader.


(** ** Strings *)

Module Str.

Definition code (c : Ascii.ascii) : Z := Z.of_N (Ascii.N_of_ascii c).

(** The characters that [\s] and [trim] take as white space, among the
    8-bit ones: tab, line feed, vertical tab, form feed, carriage return,
    space and no-break space. *)
Definition is_ws (c : Ascii.ascii) : bool :=
  let n := code c in
  ((9 <=? n) && (n <=? 13)) || (n =? 32) || (n =? 160).

Fixpoint rev_append (s acc : string) : string :=
  match s with
  | EmptyString => acc
  | String c s' => rev_append s' (String c acc)
  end.

Definition rev (s : string) : string := rev_append s EmptyString.

Fixpoint trimStart (s : string) : string :=
  match s with
  | EmptyString => EmptyString
  | String c s' => if is_ws c then trimStart s' else s
  end.

Definition trim (s : string) : string := rev (trimStart (rev (trimStart s))).

(** [s.split(sep)] for a one-character separator *)
Fixpoint split (sep : Ascii.ascii) (s : string) : list string :=
  match s with
  | EmptyString => [EmptyString]
  | String c s' =>
      if Ascii.eqb c sep then EmptyString :: split sep s'
      else match split sep s' with
           | t :: ts => String c t :: ts
           | [] => [String c EmptyString]
           end
  end.

(** [s.split(/\s+/)]; [in_ws] says that the previous character was
    white space. *)
Fixpoint split_ws_from (in_ws : bool) (s : string) : list string :=
  match s with
  | EmptyString => [EmptyString]
  | String c s' =>
      if is_ws c then
        if in_ws then split_ws_from true s'
        else EmptyString :: split_ws_from true s'
      else match split_ws_from false s' with
           | t :: ts => String c t :: ts
           | [] => [String c EmptyString]
           end
  end.

Definition split_ws (s : string) : list string := split_ws_from false s.

(** [l.join(sep)] *)
Fixpoint join (sep : string) (l : list string) : string :=
  match l with
  | [] => EmptyString
  | [x] => x
  | x :: l' => String.append x (String.append sep (join sep l'))
  end.

Fixpoint drop (n : nat) (s : string) : string :=
  match n, s with
  | O, _ => s
  | S n', String _ s' => drop n' s'
  | S _, EmptyString => EmptyString
  end.

Fixpoint take (n : nat) (s : string) : string :=
  match n, s with
  | S n', String c s' => String c (take n' s')
  | _, _ => EmptyString
  end.

(** The first position at or after [i] where [p] holds of the rest of the
    string, and the last one. *)
Fixpoint first_match (p : string -> bool) (s : string) (i : nat) : option nat :=
  if p s then Some i
  else match s with
       | EmptyString => None
       | String _ s' => first_match p s' (S i)
       end.

Fixpoint last_match (p : string -> bool) (s : string) (i : nat) : option nat :=
  match s with
  | EmptyString => if p s then Some i else None
  | String _ s' =>
      match last_match p s' (S i) with
      | Some j => Some j
      | None => if p s then Some i else None
      end
  end.

End Str.

(** ** [parseInt] and [parseFloat] *)

Module Parse.

Import Str.

Definition digit (radix : Z) (c : Ascii.ascii) : option Z :=
  let n := code c in
  let v := if (48 <=? n) && (n <=? 57) then n - 48
           else if (97 <=? n) && (n <=? 122) then n - 87
           else if (65 <=? n) && (n <=? 90) then n - 55
           else radix in
  if v <? radix then Some v else None.

(** The longest prefix of digits: how many, their value after [acc], and
    the rest of the string. *)
Fixpoint digits (radix : Z) (s : string) (n : nat) (acc : Z)
  : nat * Z * string :=
  match s with
  | EmptyString => (n, acc, s)
  | String c s' =>
      match digit radix c with
      | Some v => digits radix s' (S n) (acc * radix + v)
      | None => (n, acc, s)
      end
  end.

Definition sign (s : string) : bool * string :=
  match s with
  | String "-"%char s' => (true, s')
  | String "+"%char s' => (false, s')
  | _ => (false, s)
  end.

(** [ToString] of a token that may be [undefined] *)
Definition ToString (o : option string) : string :=
  match o with
  | Some s => s
  | None => "undefined"
  end.

Definition signed_integer (neg : bool) (z : Z) : number :=
  if z =? 0 then S754_zero neg else of_Z (cond_Zopp neg z).

(** [parseInt(o)], no radix given *)
Definition parseInt (o : option string) : number :=
  let '(neg, s) := sign (trimStart (ToString o)) in
  let '(radix, s) :=
    match s with
    | String "0"%char (String "x"%char s') => (16, s')
    | String "0"%char (String "X"%char s') => (16, s')
    | _ => (10, s)
    end in
  let '(n, z, _) := digits radix s 0 0 in
  match n with
  | O => NaN
  | S _ => signed_integer neg z
  end.

(** The number nearest to [m * 10 ^ e] for a natural number [m]. *)
Definition of_decimal (neg : bool) (m e : Z) : number :=
  if m =? 0 then S754_zero neg
  else if 0 <=? e then of_Z (cond_Zopp neg (m * 10 ^ e))
  else
    let '(q, e', l) := SFdiv_core_binary prec emax m 0 (10 ^ (- e)) 0 in
    binary_round_aux prec emax neg q e' l.

(** The exponent part, [e] or [E], an optional sign and at least one digit;
    0 when there is none. *)
Definition exponent_part (s : string) : Z :=
  let after_e (s' : string) : Z :=
    let '(neg, s'') := sign s' in
    let '(n, z, _) := digits 10 s'' 0 0 in
    match n with
    | O => 0
    | S _ => cond_Zopp neg z
    end in
  match s with
  | String "e"%char s' => after_e s'
  | String "E"%char s' => after_e s'
  | _ => 0
  end.

(** [parseFloat(o)] *)
Definition parseFloat (o : option string) : number :=
  let '(neg, s) := sign (trimStart (ToString o)) in
  if String.prefix "Infinity" s then S754_infinity neg
  else
    let '(ni, i, s1) := digits 10 s 0 0 in
    let '(nf, m, s2) :=
      match s1 with
      | String "."%char s' => digits 10 s' 0 i
      | _ => (O, i, s1)
      end in
    match (ni + nf)%nat with
    | O => NaN
    | S _ => of_decimal neg m (exponent_part s2 - Z.of_nat nf)
    end.

End Parse.


(** ** THREE.PLYLoader *)

Module PLYLoader.

Import Str Parse.

(** *** The header *)

(** A property as [make_ply_element_property] builds it; a field is [None]
    when it is [undefined]. *)
Record property : Type := {
  type : option string;
  name : option string;
  countType : option string;
  itemType : option string
}.

Record element : Type := {
  element_name : option string;
  count : number;
  properties : list property
}.

Record header : Type := {
  format : option string;
  version : option string;
  comments : list string;
  elements : list element;
  headerLength : nat
}.

(** [propertValues[i]] *)
Definition nth_token (l : list string) (i : nat) : option string := nth_error l i.

Definition is_string (o : option string) (s : string) : bool :=
  match o with
  | Some s' => String.eqb s' s
  | None => false
  end.

(** [propertyNameMapping] is a table from names to names; the names every
    object inherits are not among its keys. *)
Definition make_ply_element_property (propertValues : list string)
           (propertyNameMapping : gmap string string) : property :=
  let type := nth_token propertValues 0 in
  let property :=
    if is_string type "list" then
      {| type := type;
         name := nth_token propertValues 3;
         countType := nth_token propertValues 1;
         itemType := nth_token propertValues 2 |}
    else
      {| type := type;
         name := nth_token propertValues 1;
         countType := None;
         itemType := None |} in
  match propertyNameMapping !! ToString (name property) with
  | Some mapped =>
      {| type := PLYLoader.type property;
         name := Some mapped;
         countType := countType property;
         itemType := itemType property |}
  | None => property
  end.

(** The state of the loop over the header lines. *)
Record header_state : Type := {
  hdr : header;
  currentElement : option element
}.

Definition push_element (h : header) (e : option element) : header :=
  match e with
  | Some e =>
      {| format := format h; version := version h; comments := comments h;
         elements := elements h ++ [e]; headerLength := headerLength h |}
  | None => h
  end.

Definition header_line (propertyNameMapping : gmap string string)
           (st : header_state) (line : string) : result header_state :=
  let h := hdr st in
  let line := trim line in
  if String.eqb line "" then Ok st
  else
    let lineValues := split_ws line in
    let lineType := hd_error lineValues in
    let lineValues := tl lineValues in
    let line := join " " lineValues in
    if is_string lineType "format" then
      Ok {| hdr := {| format := nth_token lineValues 0;
                      version := nth_token lineValues 1;
                      comments := comments h; elements := elements h;
                      headerLength := headerLength h |};
            currentElement := currentElement st |}
    else if is_string lineType "comment" then
      Ok {| hdr := {| format := format h; version := version h;
                      comments := comments h ++ [line];
                      elements := elements h;
                      headerLength := headerLength h |};
            currentElement := currentElement st |}
    else if is_string lineType "element" then
      Ok {| hdr := push_element h (currentElement st);
            currentElement :=
              Some {| element_name := nth_token lineValues 0;
                      count := parseInt (nth_token lineValues 1);
                      properties := [] |} |}
    else if is_string lineType "property" then
      match currentElement st with
      | None => Throw TypeError
      | Some e =>
          Ok {| hdr := h;
                currentElement :=
                  Some {| element_name := element_name e;
                          count := count e;
                          properties :=
                            properties e
                            ++ [make_ply_element_property
                                  lineValues propertyNameMapping] |} |}
      end
    else Ok st.

(** [end_header\s] at the start of [s] *)
Definition is_terminator (s : string) : bool :=
  String.prefix "end_header" s
  && match drop 10 s with
     | String c _ => is_ws c
     | EmptyString => false
     end.

(** [patternHeader.exec(data)], the pattern being [ply], any characters
    (captured, as many as possible), [end_header] and one white space
    character: the first [ply] and the last terminator after it; the
    captured text and the length of the whole match. *)
Definition patternHeader (data : string) : option (string * nat) :=
  match first_match (String.prefix "ply") data 0 with
  | None => None
  | Some i =>
      match last_match is_terminator (drop (i + 3) data) (i + 3) with
      | None => None
      | Some j => Some (take (j - (i + 3)) (drop (i + 3) data), (j + 11 - i)%nat)
      end
  end.

Definition parseHeader (propertyNameMapping : gmap string string)
           (data : string) : result header :=
  let '(headerText, headerLength) :=
    match patternHeader data with
    | Some r => r
    | None => (EmptyString, O)
    end in
  let header := {| format := None; version := None; comments := [];
                   elements := []; headerLength := headerLength |} in
  let lines := split "010" headerText in
  let* st := foldM (header_line propertyNameMapping) lines
                   {| hdr := header; currentElement := None |} in
  Ok (push_element (hdr st) (currentElement st)).

(** *** Records and the mesh *)

(** The value of a record field: a number, [undefined] (what
    [parseASCIINumber] returns for a type it does not know), or the array of
    a list property. *)
Inductive jsval : Type :=
| Undefined
| Num (x : number)
| Arr (l : list (option number)).

Definition of_scalar (o : option number) : jsval :=
  match o with
  | Some x => Num x
  | None => Undefined
  end.

(** [element.key]: [undefined] when the record has no such field. *)
Definition get (element : gmap string jsval) (key : string) : jsval :=
  match element !! key with
  | Some v => v
  | None => Undefined
  end.

(** [key in element] *)
Definition has (element : gmap string jsval) (key : string) : bool :=
  bool_decide (is_Some (element !! key)).

(** [ToNumber], as the division by 255 applies it: an array goes through
    its string, which is empty for [[]] and [[undefined]], the number
    itself for one number (with [-0] printed as ["0"]) and has a comma
    otherwise. *)
Definition ToNumber (v : jsval) : number :=
  match v with
  | Undefined => NaN
  | Num x => x
  | Arr [] => S754_zero false
  | Arr [None] => S754_zero false
  | Arr [Some (S754_zero _)] => S754_zero false
  | Arr [Some x] => x
  | Arr _ => NaN
  end.

Record Vector3 : Type := { x : jsval; y : jsval; z : jsval }.
Record Color : Type := { r : number; g : number; b : number }.

Record Face3 : Type := {
  a : option number;
  b_ : option number;
  c : option number;
  vertexColors : option (list (option Color))
}.

(** The fields of [THREE.Geometry] the loader touches. *)
Record Geometry : Type := {
  vertices : list Vector3;
  colors : list Color;
  faces : list Face3;
  useColor : bool;
  elementsNeedUpdate : bool
}.

(** [new THREE.Geometry()], where [useColor] is not set yet *)
Definition new_Geometry : Geometry :=
  {| vertices := []; colors := []; faces := []; useColor := false;
     elementsNeedUpdate := false |}.

Definition new_Face3 (a b c : option number) : Face3 :=
  {| a := a; b_ := b; c := c; vertexColors := None |}.

(** [vertex_indices[i]] *)
Definition index (l : list (option number)) (i : nat) : option number :=
  match nth_error l i with
  | Some v => v
  | None => None
  end.

Definition handleElement (geometry : Geometry) (elementName : option string)
           (element : gmap string jsval) : result Geometry :=
  if is_string elementName "vertex" then
    let vertices :=
      vertices geometry
      ++ [{| x := get element "x"; y := get element "y"; z := get element "z" |}] in
    if has element "red" && has element "green" && has element "blue" then
      let color :=
        {| r := div (ToNumber (get element "red")) (of_Z 255);
           g := div (ToNumber (get element "green")) (of_Z 255);
           b := div (ToNumber (get element "blue")) (of_Z 255) |} in
      Ok {| vertices := vertices;
            colors := colors geometry ++ [color];
            faces := faces geometry;
            useColor := true;
            elementsNeedUpdate := elementsNeedUpdate geometry |}
    else
      Ok {| vertices := vertices;
            colors := colors geometry;
            faces := faces geometry;
            useColor := useColor geometry;
            elementsNeedUpdate := elementsNeedUpdate geometry |}
  else if is_string elementName "face" then
    match get element "vertex_indices" with
    | Undefined => Throw TypeError
    | Num _ => Ok geometry
    | Arr vertex_indices =>
        let push (fs : list Face3) :=
          Ok {| vertices := vertices geometry;
                colors := colors geometry;
                faces := faces geometry ++ fs;
                useColor := useColor geometry;
                elementsNeedUpdate := elementsNeedUpdate geometry |} in
        if (length vertex_indices =? 3)%nat then
          push [new_Face3 (index vertex_indices 0) (index vertex_indices 1)
                          (index vertex_indices 2)]
        else if (length vertex_indices =? 4)%nat then
          push [new_Face3 (index vertex_indices 0) (index vertex_indices 1)
                          (index vertex_indices 3);
                new_Face3 (index vertex_indices 1) (index vertex_indices 2)
                          (index vertex_indices 3)]
        else Ok geometry
    end
  else Ok geometry.

(** The array index a number names, if any: [colors[i]] is [undefined] for
    an [i] that is not a natural number. *)
Definition array_index (o : option number) : option nat :=
  match o with
  | Some (S754_zero _) => Some O
  | Some (S754_finite false m e) =>
      if 0 <=? e then Some (Z.to_nat (Z.pos m * 2 ^ e))
      else if Z.pos m mod 2 ^ (- e) =? 0 then Some (Z.to_nat (Z.pos m / 2 ^ (- e)))
      else None
  | _ => None
  end.

Definition color_at (colors : list Color) (i : option number) : option Color :=
  match array_index i with
  | Some n => nth_error colors n
  | None => None
  end.

(** [computeBoundingSphere] sets the bounding sphere only, which is not
    among the fields kept here. *)
Definition postProcess (geometry : Geometry) : Geometry :=
  if useColor geometry then
    {| vertices := vertices geometry;
       colors := colors geometry;
       faces :=
         map (fun f =>
                {| a := a f; b_ := b_ f; c := c f;
                   vertexColors :=
                     Some [color_at (colors geometry) (a f);
                           color_at (colors geometry) (b_ f);
                           color_at (colors geometry) (c f)] |})
             (faces geometry);
       useColor := true;
       elementsNeedUpdate := true |}
  else geometry.

(** *** The ASCII body *)

Definition is_integer_type (t : string) : bool :=
  existsb (String.eqb t)
          ["char"; "uchar"; "short"; "ushort"; "int"; "uint";
           "int8"; "uint8"; "int16"; "uint16"; "int32"; "uint32"]%string.

Definition is_float_type (t : string) : bool :=
  existsb (String.eqb t) ["float"; "double"; "float32"; "float64"]%string.

(** [undefined] for a type outside the two lists. *)
Definition parseASCIINumber (n : option string) (type : option string)
  : option number :=
  match type with
  | Some t =>
      if is_integer_type t then Some (parseInt n)
      else if is_float_type t then Some (parseFloat n)
      else None
  | None => None
  end.

(** How often [for (j = 0; j < n; j++)] runs its body: the least natural
    number that is not below [n]; [None] when that is [2 ^ 32] or more
    (and for [Infinity]), where [list.push] runs out of array indices. *)
Definition loop_count (n : option number) : option nat :=
  match n with
  | Some (S754_finite false m e) =>
      let k := if 0 <=? e then Z.pos m * 2 ^ e
               else (Z.pos m + 2 ^ (- e) - 1) / 2 ^ (- e) in
      if k <? 2 ^ 32 then Some (Z.to_nat k) else None
  | Some (S754_infinity false) => None
  | _ => Some O
  end.

(** [values.shift()] [n] times, each token read as an [itemType]. *)
Fixpoint read_list (n : nat) (itemType : option string) (values : list string)
  : list (option number) * list string :=
  match n with
  | O => ([], values)
  | S n' =>
      let v := parseASCIINumber (hd_error values) itemType in
      let '(l, rest) := read_list n' itemType (tl values) in
      (v :: l, rest)
  end.

Definition read_property (st : list string * gmap string jsval) (p : property)
  : result (list string * gmap string jsval) :=
  let '(values, element) := st in
  if is_string (type p) "list" then
    match loop_count (parseASCIINumber (hd_error values) (countType p)) with
    | None => Throw RangeError
    | Some n =>
        let '(list, rest) := read_list n (itemType p) (tl values) in
        Ok (rest, <[ ToString (name p) := Arr list ]> element)
    end
  else
    Ok (tl values,
        <[ ToString (name p) :=
             of_scalar (parseASCIINumber (hd_error values) (type p)) ]> element).

Definition parseASCIIElement (properties : list property) (line : string)
  : result (gmap string jsval) :=
  let values := split_ws line in
  let* st := foldM read_property properties (values, ∅) in
  Ok (snd st).

(** [patternBody.exec(data)]: what follows the first terminator. *)
Definition patternBody (data : string) : option string :=
  match first_match is_terminator data 0 with
  | Some j => Some (drop (j + 11) data)
  | None => None
  end.

(** The state of the loop over the body lines. *)
Record body_state : Type := {
  geometry : Geometry;
  currentElementIndex : nat;
  currentElementCount : Z
}.

(** [a >= b] on numbers *)
Definition geq (a b : number) : bool := SFleb b a.

Definition body_line (header : header) (st : body_state) (line : string)
  : result body_state :=
  let line := trim line in
  if String.eqb line "" then Ok st
  else
    match nth_error (elements header) (currentElementIndex st) with
    | None => Throw TypeError
    | Some e =>
        let '(currentElement, currentElementCount) :=
          if geq (of_Z (currentElementCount st)) (count e)
          then (S (currentElementIndex st), 0)
          else (currentElementIndex st, currentElementCount st) in
        match nth_error (elements header) currentElement with
        | None => Throw TypeError
        | Some e =>
            let* element := parseASCIIElement (properties e) line in
            let* geometry := handleElement (geometry st) (element_name e) element in
            Ok {| geometry := geometry;
                  currentElementIndex := currentElement;
                  currentElementCount := currentElementCount + 1 |}
        end
    end.

Definition parseASCII (propertyNameMapping : gmap string string)
           (data : string) : result Geometry :=
  let* header := parseHeader propertyNameMapping data in
  let body := match patternBody data with
              | Some body => body
              | None => EmptyString
              end in
  let lines := split "010" body in
  let* st := foldM (body_line header) lines
                   {| geometry := new_Geometry; currentElementIndex := 0;
                      currentElementCount := 0 |} in
  Ok (postProcess (geometry st)).

(** The records of a decode handed to the assembler one by one, as both
    [parseASCII] and [parseBinary] do, then [postProcess]. *)
Definition assemble (records : list (option string * gmap string jsval))
  : result Geometry :=
  let* geometry :=
    foldM (fun g r => handleElement g (fst r) (snd r)) records new_Geometry in
  Ok (postProcess geometry).

End PLYLoader.

(** ** THREE.PLYLoader: binary bodies and [parse] *)

Module PLYBinary.
Import Str Parse PLYLoader.

(** [bin2str]: one character for each byte. *)
Definition bin2str (buf : list byte) : string :=
  String.string_of_list_ascii (map Ascii.ascii_of_byte buf).

Definition isASCII (propertyNameMapping : gmap string string) (data : list byte)
  : result bool :=
  let* header := parseHeader propertyNameMapping (bin2str data) in
  Ok (is_string (format header) "ascii").

Definition is_type (o : option string) (names : list string) : bool :=
  existsb (is_string o) names.

(** [binaryRead]: the value and the number of bytes read, or [None] where
    the [switch] has no case for the type and the function returns
    [undefined]. *)
Definition binaryRead (dataview : DataView.t) (pos : nat) (type : option string)
           (little_endian : bool) : result (option (number * nat)) :=
  if is_type type ["int8"; "char"]%string then
    let* v := DataView.getInt8 dataview pos in Ok (Some (of_Z v, 1%nat))
  else if is_type type ["uint8"; "uchar"]%string then
    let* v := DataView.getUint8 dataview pos in Ok (Some (of_Z v, 1%nat))
  else if is_type type ["int16"; "short"]%string then
    let* v := DataView.getInt16 dataview pos (Some little_endian) in
    Ok (Some (of_Z v, 2%nat))
  else if is_type type ["uint16"; "ushort"]%string then
    let* v := DataView.getUint16 dataview pos (Some little_endian) in
    Ok (Some (of_Z v, 2%nat))
  else if is_type type ["int32"; "int"]%string then
    let* v := DataView.getInt32 dataview pos (Some little_endian) in
    Ok (Some (of_Z v, 4%nat))
  else if is_type type ["uint32"; "uint"]%string then
    let* v := DataView.getUint32 dataview pos (Some little_endian) in
    Ok (Some (of_Z v, 4%nat))
  else if is_type type ["float32"; "float"]%string then
    let* v := DataView.getFloat32 dataview pos (Some little_endian) in
    Ok (Some (v, 4%nat))
  else if is_type type ["float64"; "double"]%string then
    let* v := DataView.getFloat64 dataview pos (Some little_endian) in
    Ok (Some (v, 8%nat))
  else Ok None.

(** [result[0]] and [result[1]], which throw when [result] is [undefined]. *)
Definition fields (r : option (number * nat)) : result (number * nat) :=
  match r with
  | Some r => Ok r
  | None => Throw TypeError
  end.

(** The body of the loop over the items of a list; the state is the list
    and the number of bytes read so far. *)
Definition read_item (dataview : DataView.t) (pos : nat) (itemType : option string)
           (little_endian : bool) (st : list (option number) * nat) (j : nat)
  : result (list (option number) * nat) :=
  let '(list, read) := st in
  let* r := binaryRead dataview (pos + read) itemType little_endian in
  let* r := fields r in
  let '(v, size) := r in
  Ok (list ++ [Some v], (read + size)%nat).

(** The body of the loop over the properties. A list whose count is
    [2 ^ 32] or more never completes: its first item is read, which throws
    for a type without a case; after that a later read passes the end of
    the buffer, or [list.push] runs out of indices. *)
Definition read_binary_property (dataview : DataView.t) (pos : nat)
           (little_endian : bool) (st : gmap string jsval * nat) (p : property)
  : result (gmap string jsval * nat) :=
  let '(element, read) := st in
  if is_string (type p) "list" then
    let* r := binaryRead dataview (pos + read) (countType p) little_endian in
    let* r := fields r in
    let '(n, size) := r in
    let read := (read + size)%nat in
    match loop_count (Some n) with
    | Some k =>
        let* r :=
          foldM (read_item dataview pos (itemType p) little_endian) (seq 0 k) ([], read) in
        let '(list, read) := r in
        Ok (<[ ToString (name p) := Arr list ]> element, read)
    | None =>
        let* _ := read_item dataview pos (itemType p) little_endian ([], read) O in
        Throw RangeError
    end
  else
    let* r := binaryRead dataview (pos + read) (type p) little_endian in
    let* r := fields r in
    let '(v, size) := r in
    Ok (<[ ToString (name p) := Num v ]> element, (read + size)%nat).

Definition binaryReadElement (dataview : DataView.t) (pos : nat)
           (properties : list property) (little_endian : bool)
  : result (gmap string jsval * nat) :=
  foldM (read_binary_property dataview pos little_endian) properties (∅, O).

(** How often [for (n = 0; n < count; n++)] runs its body if nothing
    throws: the least natural number that is not below [count]. [None] when
    the loop does not end by itself: for [Infinity], and above [2 ^ 53],
    where [n++] no longer changes [n]. *)
Definition iterations (count : number) : option nat :=
  match count with
  | S754_finite false m e =>
      let k := if 0 <=? e then Z.pos m * 2 ^ e
               else (Z.pos m + 2 ^ (- e) - 1) / 2 ^ (- e) in
      if k <=? 2 ^ 53 then Some (Z.to_nat k) else None
  | S754_infinity false => None
  | _ => Some O
  end.

(** The body of the loop over the records of one element; the state is the
    mesh and [loc]. *)
Definition read_record (body : DataView.t) (e : element) (little_endian : bool)
           (st : Geometry * nat) (currentElementCount : nat) : result (Geometry * nat) :=
  let '(geometry, loc) := st in
  let* r := binaryReadElement body loc (properties e) little_endian in
  let '(element, read) := r in
  let* geometry := handleElement geometry (element_name e) element in
  Ok (geometry, (loc + read)%nat).

(** The loop over the elements. The result is [None] when it reaches an
    element whose records are not counted by [iterations]: what such a loop
    does is not followed. *)
Fixpoint read_elements (body : DataView.t) (little_endian : bool)
         (elements : list element) (st : Geometry * nat)
  : option (result (Geometry * nat)) :=
  match elements with
  | [] => Some (Ok st)
  | e :: rest =>
      match iterations (count e) with
      | None => None
      | Some k =>
          match foldM (read_record body e little_endian) (seq 0 k) st with
          | Ok st' => read_elements body little_endian rest st'
          | Throw x => Some (Throw x)
          end
      end
  end.

Definition parseBinary (propertyNameMapping : gmap string string) (data : list byte)
  : option (result Geometry) :=
  match parseHeader propertyNameMapping (bin2str data) with
  | Throw x => Some (Throw x)
  | Ok header =>
      let little_endian := is_string (format header) "binary_little_endian" in
      let body := DataView.new_at data (headerLength header) in
      match read_elements body little_endian (elements header) (new_Geometry, O) with
      | Some (Ok st) => Some (Ok (postProcess (fst st)))
      | Some (Throw x) => Some (Throw x)
      | None => None
      end
  end.

(** What [parse] is given: an [ArrayBuffer] or a string. *)
Inductive input : Type :=
| ArrayBuffer (data : list byte)
| Text (data : string).

Definition parse (propertyNameMapping : gmap string string) (data : input)
  : option (result Geometry) :=
  match data with
  | ArrayBuffer data =>
      match isASCII propertyNameMapping data with
      | Ok true => Some (parseASCII propertyNameMapping (bin2str data))
      | Ok false => parseBinary propertyNameMapping data
      | Throw x => Some (Throw x)
      end
  | Text data => Some (parseASCII propertyNameMapping data)
  end.

End PLYBinary.

(** ** Regular expressions *)

Module RegExp.

Import Str.

(** The patterns that the loaders use: character classes, sequences,
    greedy [?], [*] and [+], the lazy [*?], and groups that capture. *)
Inductive regex : Type :=
| Empty
| Char (p : Ascii.ascii -> bool)
| Seq (r1 r2 : regex)
| Opt (r : regex)
| Star (r : regex)
| LazyStar (r : regex)
| Group (i : nat) (r : regex).

Definition Plus (r : regex) : regex := Seq r (Star r).

(** The characters of a word, one after the other. *)
Fixpoint Word (w : string) : regex :=
  match w with
  | EmptyString => Empty
  | String c w' => Seq (Char (Ascii.eqb c)) (Word w')
  end.

(** The captures: what each group matched last. *)
Definition captures : Type := nat -> option string.

Definition capture (i : nat) (s : string) (c : captures) : captures :=
  fun j => if (j =? i)%nat then Some s else c j.

(** A backtracking matcher in the style of the language definition: [m r k
    s c] matches [r] at the start of [s] and hands what is left of [s] to
    the continuation [k]; if [k] fails the next way to match [r] is
    tried. An iteration of [*] that matches nothing is refused. *)
Fixpoint m {R : Type} (r : regex) (k : string -> captures -> option R)
         (s : string) (c : captures) : option R :=
  match r with
  | Empty => k s c
  | Char p =>
      match s with
      | String a s' => if p a then k s' c else None
      | EmptyString => None
      end
  | Seq r1 r2 => m r1 (fun s' c' => m r2 k s' c') s c
  | Opt r' =>
      match m r' k s c with
      | Some x => Some x
      | None => k s c
      end
  | Star r' =>
      (fix star (n : nat) (s : string) (c : captures) : option R :=
         match n with
         | O => k s c
         | S n' =>
             match m r' (fun s' c' =>
                           if (String.length s' <? String.length s)%nat
                           then star n' s' c' else None) s c with
             | Some x => Some x
             | None => k s c
             end
         end) (S (String.length s)) s c
  | LazyStar r' =>
      (fix star (n : nat) (s : string) (c : captures) : option R :=
         match n with
         | O => k s c
         | S n' =>
             match k s c with
             | Some x => Some x
             | None =>
                 m r' (fun s' c' =>
                         if (String.length s' <? String.length s)%nat
                         then star n' s' c' else None) s c
             end
         end) (S (String.length s)) s c
  | Group i r' =>
      m r' (fun s' c' => k s' (capture i (take (String.length s - String.length s') s) c'))
        s c
  end.

(** A match: the text matched, the captures, and what follows. *)
Record found : Type := {
  matched : string;
  groups : captures;
  rest : string
}.

(** A match of [r] at the start of [s]. *)
Definition match_here (r : regex) (s : string) : option found :=
  m r (fun s' c =>
         Some {| matched := take (String.length s - String.length s') s;
                 groups := c; rest := s' |})
    s (fun _ => None).

(** [r.exec(s)] from the start of [s]: the first position with a match. *)
Fixpoint exec (r : regex) (s : string) : option found :=
  match match_here r s with
  | Some x => Some x
  | None =>
      match s with
      | EmptyString => None
      | String _ s' => exec r s'
      end
  end.

(** The matches that [while ((result = r.exec(s)) !== null)] goes through
    for a pattern with the flag [g], each search starting where the last
    match ended. None of the patterns here matches the empty text; [n]
    bounds the number of matches. *)
Fixpoint matches (n : nat) (r : regex) (s : string) : list found :=
  match n with
  | O => []
  | S n' =>
      match exec r s with
      | Some x => x :: matches n' r (rest x)
      | None => []
      end
  end.

Definition exec_all (r : regex) (s : string) : list found :=
  matches (String.length s) r s.

End RegExp.

(** ** THREE.STLLoader: texts and [parse] *)

Module STLText.

Import Str Parse RegExp.

Definition ws : regex := Char is_ws.
Definition digit : regex := Char (fun c => (48 <=? code c) && (code c <=? 57)).
Definition sign : regex := Char (fun c => (code c =? 45) || (code c =? 43)).
Definition dot : regex := Char (fun c => code c =? 46).
Definition any : regex := Char (fun _ => true).

(** [([eE][\-+]?[0-9]+)?]; the group it forms is never read and is left
    without a number. *)
Definition exponent : regex :=
  Opt (Seq (Char (fun c => (code c =? 101) || (code c =? 69)))
           (Seq (Opt sign) (Plus digit))).

(** [[\-+]?[0-9]+\.?[0-9]*([eE][\-+]?[0-9]+)?] *)
Definition number_first : regex :=
  Seq (Opt sign) (Seq (Plus digit) (Seq (Opt dot) (Seq (Star digit) exponent))).

(** [[\-+]?[0-9]*\.?[0-9]+([eE][\-+]?[0-9]+)?] *)
Definition number_next : regex :=
  Seq (Opt sign) (Seq (Star digit) (Seq (Opt dot) (Seq (Plus digit) exponent))).

(** The three numbers after a key word, groups 1, 3 and 5. *)
Definition triple (word : string) : regex :=
  Seq (Word word)
    (Seq (Plus ws) (Seq (Plus (Group 1 number_first))
    (Seq (Plus ws) (Seq (Plus (Group 3 number_next))
    (Seq (Plus ws) (Plus (Group 5 number_next))))))).

(** [/facet([\s\S]*?)endfacet/g] *)
Definition patternFace : regex :=
  Seq (Word "facet") (Seq (Group 1 (LazyStar any)) (Word "endfacet")).

Definition patternNormal : regex := triple "normal".
Definition patternVertex : regex := triple "vertex".

(** What [parseASCII] builds: the vertices and the faces of a
    [THREE.Geometry]; a face is what [new THREE.Face3] is given, the
    indices of its corners and the normal, [None] for [undefined]. *)
Record Vector3 : Type := { x : number; y : number; z : number }.

Record Face3 : Type := {
  a : Z;
  b : Z;
  c : Z;
  normal : option Vector3
}.

Record Geometry : Type := {
  vertices : list Vector3;
  faces : list Face3
}.

(** [new THREE.Vector3(parseFloat(result[1]), parseFloat(result[3]),
    parseFloat(result[5]))] *)
Definition vector (result : RegExp.found) : Vector3 :=
  {| x := parseFloat (groups result 1%nat);
     y := parseFloat (groups result 3%nat);
     z := parseFloat (groups result 5%nat) |}.

(** The body of the loop over the facets; the state is the geometry and
    the variable [normal], which is declared outside the loop. *)
Definition facet (st : Geometry * option Vector3) (result : RegExp.found)
  : Geometry * option Vector3 :=
  let '(geometry, normal) := st in
  let text := matched result in
  let normal :=
    fold_left (fun _ result => Some (vector result)) (exec_all patternNormal text) normal in
  let vertices :=
    fold_left (fun vs result => vs ++ [vector result]) (exec_all patternVertex text)
              (vertices geometry) in
  let length := Z.of_nat (length vertices) in
  ({| vertices := vertices;
      faces := faces geometry
               ++ [{| a := length - 3; b := length - 2; c := length - 1;
                      normal := normal |}] |},
   normal).

(** [computeBoundingBox] and [computeBoundingSphere] set fields that are
    not kept here. *)
Definition parseASCII (data : string) : Geometry :=
  fst (fold_left facet (exec_all patternFace data)
                 ({| vertices := []; faces := [] |}, None)).

(** What [parse] is given, an [ArrayBuffer] or a string, ... *)
Inductive input : Type :=
| ArrayBuffer (buf : list byte)
| Text (s : string).

(** ... and what it returns, a [THREE.BufferGeometry] or a
    [THREE.Geometry]. *)
Inductive mesh : Type :=
| Binary (g : STLLoader.BufferGeometry)
| ASCII (g : Geometry).

Definition ensureString (buf : input) : string :=
  match buf with
  | ArrayBuffer buf => String.string_of_list_ascii (map Ascii.ascii_of_byte buf)
  | Text s => s
  end.

Definition ensureBinary (buf : input) : list byte :=
  match buf with
  | ArrayBuffer buf => buf
  | Text s => STLLoader.ensureBinary s
  end.

Definition parse (data : input) : result mesh :=
  let binData := ensureBinary data in
  let* isBinary := STLLoader.isBinary binData in
  if isBinary : bool then
    let* g := STLLoader.parseBinary binData in Ok (Binary g)
  else Ok (ASCII (parseASCII (ensureString data))).

End STLText.

(** ** The fallback DataView *)

Module Fallback.

Import Str.

(** What [new DataView] is given as [buffer]: an array of bytes (an
    [Array] of numbers, or a typed array), an [ArrayBuffer], or a string. *)
Inductive buffer : Type :=
| Bytes (l : list byte)
| ArrayBuffer (l : list byte)
| Text (s : string).

(** What [b[i]] can be: [undefined], a byte, or a string of one
    character. *)
Inductive value : Type :=
| Undefined
| Number (n : byte)
| Character (c : Ascii.ascii).

(** The indexed elements of a buffer; an [ArrayBuffer] has none. *)
Definition elements (b : buffer) : list value :=
  match b with
  | Bytes l => map Number l
  | ArrayBuffer _ => []
  | Text s => map Character (String.list_ascii_of_string s)
  end.

(** [buffer.byteLength] and [buffer.length], [None] for [undefined]. A typed
    array has both, with the same value. *)
Definition buffer_byteLength (b : buffer) : option nat :=
  match b with
  | ArrayBuffer l => Some (length l)
  | _ => None
  end.

Definition buffer_length (b : buffer) : option nat :=
  match b with
  | Bytes l => Some (length l)
  | ArrayBuffer _ => None
  | Text s => Some (String.length s)
  end.

(** [a || b] on lengths: [undefined] and 0 give [b]. *)
Definition or_else (a b : option nat) : option nat :=
  match a with
  | Some (S _) => a
  | _ => b
  end.

(** The fields of a view; [byteLength] is [None] when it is [undefined]. *)
Record t : Type := {
  this_buffer : buffer;
  this_byteOffset : nat;
  this_byteLength : option nat;
  this__isString : bool
}.

(** The constructor; an argument that is left out is [None]. *)
Definition new (buffer : buffer) (byteOffset byteLength : option nat) : t :=
  {| this_buffer := buffer;
     this_byteOffset := match byteOffset with
                        | Some n => n
                        | None => 0%nat
                        end;
     this_byteLength :=
       or_else byteLength (or_else (buffer_byteLength buffer) (buffer_length buffer));
     this__isString := match buffer with
                       | Text _ => true
                       | _ => false
                       end |}.

(** [this.isString]: a field that nothing assigns (the constructor sets
    [_isString]), so it reads [undefined]. *)
Definition this_isString (d : t) : bool := false.

(** [buffer.charCodeAt(i) & 0xff]: 0 past the end of the string, where
    [charCodeAt] gives [NaN]. *)
Definition charCode (s : string) (i : nat) : value :=
  match String.get i s with
  | Some c => Number (Ascii.byte_of_ascii c)
  | None => Number Byte.x00
  end.

(** [_getCharCodes]: the codes from [start] to [start + length], [length]
    being the length of the buffer when it is 0; a buffer that is not a
    string has no [charCodeAt]. *)
Definition _getCharCodes (buffer : buffer) (start length : nat) : result (list value) :=
  match buffer with
  | Text s =>
      let length := match length with
                    | O => String.length s
                    | _ => length
                    end in
      Ok (map (charCode s) (seq start length))
  | Bytes l =>
      match length, l with
      | O, [] => Ok []
      | _, _ => Throw TypeError
      end
  | ArrayBuffer _ =>
      match length with
      | O => Ok []
      | _ => Throw TypeError
      end
  end.

(** [buffer.slice(from, to)] for [from <= to]: a buffer of the same kind. *)
Definition slice (b : buffer) (from to : nat) : buffer :=
  match b with
  | Bytes l => Bytes (DataView.slice l from to)
  | ArrayBuffer l => ArrayBuffer (DataView.slice l from to)
  | Text s => Text (take (to - from) (drop from s))
  end.

(** [_getBytes], with [length] given as it is in every call. [byteOffset]
    is [None] when it is left out, and so is [littleEndian], which then
    takes the value of [this._littleEndian], a field that is never
    assigned. With [this.byteLength] undefined the test of the bounds is
    false. The result is held as the list of its indexed elements:
    [Array.prototype.slice.call] copies just these into the array that is
    reversed. *)
Definition _getBytes (d : t) (length : nat) (byteOffset : option nat)
           (littleEndian : option bool) : result (list value) :=
  let byteOffset := match byteOffset with
                    | None => this_byteOffset d
                    | Some o => (this_byteOffset d + o)%nat
                    end in
  if match this_byteLength d with
     | Some n => (n <? byteOffset + length)%nat
     | None => false
     end
  then Throw Error
  else
    let* result :=
      if this_isString d
      then _getCharCodes (this_buffer d) byteOffset (byteOffset + length)
      else Ok (elements (slice (this_buffer d) byteOffset (byteOffset + length))) in
    if negb (DataView.truthy littleEndian) && (1 <? length)%nat
    then Ok (List.rev result)
    else Ok result.

(** [b[i]] *)
Definition item (b : list value) (i : nat) : value := nth i b Undefined.

(** [ToNumber] of an element, [None] for [NaN]: a string of one character
    is a number when the character is a digit, and 0 when it is white
    space. *)
Definition ToNumber (v : value) : option Z :=
  match v with
  | Undefined => None
  | Number n => Some (u8 n)
  | Character c =>
      if is_ws c then Some 0
      else if (48 <=? code c) && (code c <=? 57) then Some (code c - 48)
      else None
  end.

(** An element as the operand of a 32-bit operator, which takes [NaN]
    as 0. *)
Definition int (v : value) : Z :=
  match ToNumber v with
  | Some z => z
  | None => 0
  end.

(** [x * Math.pow(2, k)] and [x + y] on numbers that are [NaN] ([None]) or
    integers below [2 ^ 53], where they are exact. *)
Definition times (x : option Z) (k : Z) : option Z :=
  match x with
  | Some z => Some (z * 2 ^ k)
  | None => None
  end.

Definition plus (x y : option Z) : option Z :=
  match x, y with
  | Some a, Some b => Some (a + b)
  | _, _ => None
  end.

(** What [x + b[0]] is: a number, or, when [b[0]] is a string, the string
    of [x] followed by the character. *)
Inductive sum : Type :=
| Sum (x : option Z)
| Joined (x : option Z) (c : Ascii.ascii).

Definition plus_item (x : option Z) (v : value) : sum :=
  match v with
  | Character c => Joined x c
  | _ => Sum (plus x (ToNumber v))
  end.

(** [mantissa !== 0] *)
Definition is_not_0 (mantissa : sum) : bool :=
  match mantissa with
  | Sum (Some z) => negb (z =? 0)
  | _ => true
  end.

(** [ToNumber] of a sum, as [*] applies it. The string of a natural number
    [z] below [10 ^ 21] is its decimal numeral; followed by a digit it is
    the numeral of [10 * z + d], followed by white space or by a point it
    still reads [z], and followed by anything else it is no numeral. The
    string of [NaN] is no numeral, whatever follows. *)
Definition number_of (mantissa : sum) : number :=
  match mantissa with
  | Sum (Some z) => of_Z z
  | Sum None => NaN
  | Joined (Some z) c =>
      if is_ws c || (code c =? 46) then of_Z z
      else if (48 <=? code c) && (code c <=? 57) then of_Z (10 * z + (code c - 48))
      else NaN
  | Joined None _ => NaN
  end.

Definition getFloat64 (d : t) (byteOffset : option nat) (littleEndian : option bool)
  : result number :=
  let* b := _getBytes d 8 byteOffset littleEndian in
  let sign := 1 - 2 * JS.sar (int (item b 7)) 7 in
  let exponent :=
    JS.bor (JS.shl (JS.band (JS.shl (int (item b 7)) 1) 255) 3) (JS.sar (int (item b 6)) 4)
    - (JS.shl 1 10 - 1) in
  let mantissa :=
    plus_item
      (plus (plus (plus (plus (plus (Some (JS.band (int (item b 6)) 15 * 2 ^ 48))
                                    (times (ToNumber (item b 5)) 40))
                              (times (ToNumber (item b 4)) 32))
                        (times (ToNumber (item b 3)) 24))
                  (times (ToNumber (item b 2)) 16))
            (times (ToNumber (item b 1)) 8))
      (item b 0) in
  if exponent =? 1024 then
    if is_not_0 mantissa then Ok NaN
    else Ok (mul (of_Z sign) Infinity)
  else if exponent =? -1023 then
    Ok (mul (mul (of_Z sign) (number_of mantissa)) (pow2 (-1022 - 52)))
  else
    Ok (mul (mul (of_Z sign) (add (of_Z 1) (mul (number_of mantissa) (pow2 (-52)))))
            (pow2 exponent)).

Definition getFloat32 (d : t) (byteOffset : option nat) (littleEndian : option bool)
  : result number :=
  let* b := _getBytes d 4 byteOffset littleEndian in
  let sign := 1 - 2 * JS.sar (int (item b 3)) 7 in
  let exponent :=
    JS.bor (JS.band (JS.shl (int (item b 3)) 1) 255) (JS.sar (int (item b 2)) 7) - 127 in
  let mantissa :=
    JS.bor (JS.bor (JS.shl (JS.band (int (item b 2)) 127) 16) (JS.shl (int (item b 1)) 8))
           (int (item b 0)) in
  if exponent =? 128 then
    if negb (mantissa =? 0) then Ok NaN
    else Ok (mul (of_Z sign) Infinity)
  else if exponent =? -127 then
    Ok (mul (mul (of_Z sign) (of_Z mantissa)) (pow2 (-126 - 23)))
  else
    Ok (mul (mul (of_Z sign) (add (of_Z 1) (mul (of_Z mantissa) (pow2 (-23)))))
            (pow2 exponent)).

Definition getInt32 (d : t) (byteOffset : option nat) (littleEndian : option bool)
  : result Z :=
  let* b := _getBytes d 4 byteOffset littleEndian in
  Ok (JS.bor (JS.bor (JS.bor (JS.shl (int (item b 3)) 24) (JS.shl (int (item b 2)) 16))
                     (JS.shl (int (item b 1)) 8))
             (int (item b 0))).

Definition getUint32 (d : t) (byteOffset : option nat) (littleEndian : option bool)
  : result Z :=
  let* i := getInt32 d byteOffset littleEndian in
  Ok (JS.shr i 0).

Definition getUint16 (d : t) (byteOffset : option nat) (littleEndian : option bool)
  : result Z :=
  let* b := _getBytes d 2 byteOffset littleEndian in
  Ok (JS.bor (JS.shl (int (item b 1)) 8) (int (item b 0))).

Definition getInt16 (d : t) (byteOffset : option nat) (littleEndian : option bool)
  : result Z :=
  let* u := getUint16 d byteOffset littleEndian in
  Ok (JS.sar (JS.shl u 16) 16).

(** [getUint8] returns the element as it is. *)
Definition getUint8 (d : t) (byteOffset : option nat) : result value :=
  let* b := _getBytes d 1 byteOffset None in
  Ok (item b 0).

Definition getInt8 (d : t) (byteOffset : option nat) : result Z :=
  let* u := getUint8 d byteOffset in
  Ok (JS.sar (JS.shl (int u) 24) 24).

End Fallback.

(** * Part II: the vocabulary of the specification *)

(** ** Words in a buffer *)

(** The unsigned integers that the bytes at offset [o] spell, low byte first
    ([_le]) or high byte first ([_be]). *)
Definition uint32_le (buf : list byte) (o : nat) : Z :=
  at_ buf o + 2 ^ 8 * at_ buf (o + 1) + 2 ^ 16 * at_ buf (o + 2) + 2 ^ 24 * at_ buf (o + 3).

Definition uint32_be (buf : list byte) (o : nat) : Z :=
  at_ buf (o + 3) + 2 ^ 8 * at_ buf (o + 2) + 2 ^ 16 * at_ buf (o + 1) + 2 ^ 24 * at_ buf o.

Definition uint16_le (buf : list byte) (o : nat) : Z :=
  at_ buf o + 2 ^ 8 * at_ buf (o + 1).

(** The integer a sequence of bytes spells, the first byte the least
    significant, ... *)
Definition le_word (bs : list byte) : Z :=
  fold_right (fun b acc => u8 b + 2 ^ 8 * acc) 0 bs.

(** ... and the one it spells in the requested byte order. *)
Definition word (littleEndian : bool) (bs : list byte) : Z :=
  if littleEndian then le_word bs else le_word (rev bs).

(** The integer that the unsigned [w]-bit word [u] stands for in two's
    complement. *)
Definition signed (w : Z) (u : Z) : Z := if u <? 2 ^ (w - 1) then u else u - 2 ^ w.

(** ** IEEE-754 interchange formats *)

(** A datum of a binary interchange format: not a number, an infinity, or
    the finite number [(-1) ^ s * m * 2 ^ e]. *)
Inductive ieee : Type :=
| IEEE_NaN
| IEEE_Inf (s : bool)
| IEEE_Fin (s : bool) (m e : Z).

(** The datum that the bit string [bits] encodes in the format with [w]
    exponent bits and [t] fraction bits (8 and 23 for binary32, 11 and 52 for
    binary64): sign, biased exponent and fraction; an exponent field of all
    ones is an infinity or not a number, one of all zeros a subnormal number
    or a zero. *)
Definition decode (w t : Z) (bits : Z) : ieee :=
  let s := Z.testbit bits (w + t) in
  let E := (bits / 2 ^ t) mod 2 ^ w in
  let T := bits mod 2 ^ t in
  let bias := 2 ^ (w - 1) - 1 in
  if E =? 2 ^ w - 1 then (if T =? 0 then IEEE_Inf s else IEEE_NaN)
  else if E =? 0 then IEEE_Fin s T (1 - bias - t)
  else IEEE_Fin s (2 ^ t + T) (E - bias - t).

(** By how many binary places binary64 scales the mantissa [m] of
    [m * 2 ^ e]: up to 53 bits, but not below the least exponent. *)
Definition scale (m e : Z) : Z := Z.min (prec - (Z.log2 m + 1)) (e + 1074).

(** The number [(-1) ^ s * m * 2 ^ e], for an [m] of at most 53 bits and an
    [e] in the range of binary64: the same value, written with the mantissa
    and the exponent that binary64 gives it. No rounding takes place. *)
Definition dyadic (s : bool) (m e : Z) : number :=
  if m =? 0 then S754_zero s
  else S754_finite s (Z.to_pos (m * 2 ^ scale m e)) (e - scale m e).

Definition to_number (x : ieee) : number :=
  match x with
  | IEEE_NaN => NaN
  | IEEE_Inf s => S754_infinity s
  | IEEE_Fin s m e => dyadic s m e
  end.

(** ** The fallback DataView *)

Module FallbackSpec.
Import Str Fallback.

(** The place in the buffer where a read starts. *)
Definition position (d : t) (byteOffset : option nat) : nat :=
  (this_byteOffset d + match byteOffset with
                       | Some o => o
                       | None => 0
                       end)%nat.

(** The read of [n] bytes passes the end of the view. *)
Definition outside (d : t) (byteOffset : option nat) (n : nat) : bool :=
  match this_byteLength d with
  | Some len => (len <? position d byteOffset + n)%nat
  | None => false
  end.

(** The bytes that the 32-bit operators find in a buffer: those of an
    array of bytes; none in an [ArrayBuffer]; in a string a digit for each
    digit character and 0 for any other character. *)
Definition digit_of (c : Ascii.ascii) : byte :=
  byte_of_Z (if (48 <=? code c) && (code c <=? 57) then code c - 48 else 0).

Definition found (b : buffer) : list byte :=
  match b with
  | Bytes l => l
  | ArrayBuffer _ => []
  | Text s => map digit_of (String.list_ascii_of_string s)
  end.

(** The bytes that a list of elements stands for under the 32-bit
    operators. *)
Definition operands (vs : list value) : list byte := map (fun v => byte_of_Z (int v)) vs.

(** A result of the host's [DataView] as the fallback gives it: what it
    throws is an [Error]. *)
Definition rethrown {A : Type} (r : result A) : result A :=
  match r with
  | Ok a => Ok a
  | Throw _ => Throw Error
  end.

End FallbackSpec.

(** ** STL *)

Module STLSpec.

Import STLLoader.

Definition has_high_byte (buf : list byte) : bool :=
  existsb (fun b => 127 <? u8 b) buf.

(** The six bytes [COLOR=] at offset [i]. *)
Definition signature_at (buf : list byte) (i : nat) : bool :=
  (at_ buf i =? 67) && (at_ buf (i + 1) =? 79) && (at_ buf (i + 2) =? 76)
  && (at_ buf (i + 3) =? 79) && (at_ buf (i + 4) =? 82) && (at_ buf (i + 5) =? 61).

(** The greatest index below [n] where [p] holds. *)
Fixpoint last_below (p : nat -> bool) (n : nat) : option nat :=
  match n with
  | O => None
  | S k => if p k then Some k else last_below p k
  end.

(** Where the header carries the signature, the four bytes after it still
    inside the 80 bytes of the header; the last such place if several. *)
Definition last_signature (buf : list byte) : option nat :=
  last_below (signature_at buf) (80 - 10).

Definition header_at (buf : list byte) (faces : Z) (i : nat) : header_color :=
  {| hasColors := true;
     colors0 := Some (Float32Array (faces * 3 * 3));
     defaultR := Some (div (of_Z (at_ buf (i + 6))) (of_Z 255));
     defaultG := Some (div (of_Z (at_ buf (i + 7))) (of_Z 255));
     defaultB := Some (div (of_Z (at_ buf (i + 8))) (of_Z 255));
     alpha := Some (div (of_Z (at_ buf (i + 9))) (of_Z 255)) |}.

Definition header_of (buf : list byte) (faces : Z) (o : option nat) : header_color :=
  match o with
  | Some i => header_at buf faces i
  | None => no_color
  end.

(** The packed color of a face: the 16-bit word at offset 48 of its
    50-byte record. *)
Definition packed_color (buf : list byte) (face : nat) : Z :=
  uint16_le buf (84 + face * 50 + 48).

(** The color of a face as the format defines it, from the packed color
    of its record and the default color that follows the signature at
    [idx]. *)
Definition facet_color (buf : list byte) (idx face : nat) : number * number * number :=
  let p := packed_color buf face in
  if Z.testbit p 15 then
    (div (of_Z (at_ buf (idx + 6))) (of_Z 255),
     div (of_Z (at_ buf (idx + 7))) (of_Z 255),
     div (of_Z (at_ buf (idx + 8))) (of_Z 255))
  else
    (div (of_Z (Z.land p 31)) (of_Z 31),
     div (of_Z (Z.land (Z.shiftr p 5) 31)) (of_Z 31),
     div (of_Z (Z.land (Z.shiftr p 10) 31)) (of_Z 31)).

(** The three stores of one vertex into the color array. *)
Definition paint (c : list number) (o : nat)
           (rgb : option number * option number * option number) : list number :=
  let '(r, g, b) := rgb in store (store (store c o r) (o + 1) g) (o + 2) b.

(** The state of the loop after the faces below [k]: every one of their
    vertices has the color of its face. *)
Definition painted (buf : list byte) (idx : nat) (size k : nat) (st : arrays) : Prop :=
  offset st = (9 * k)%nat
  /\ length (vertices st) = size /\ length (normals st) = size
  /\ exists c, colors st = Some c /\ length c = size
     /\ forall face v, (face < k)%nat -> (v < 3)%nat ->
          let '(r, g, b) := facet_color buf idx face in
          c !! (9 * face + 3 * v)%nat = Some (fround r)
          /\ c !! (9 * face + 3 * v + 1)%nat = Some (fround g)
          /\ c !! (9 * face + 3 * v + 2)%nat = Some (fround b).

(** The binary32 number that the four bytes at offset [o] encode, low byte
    first. *)
Definition float32_at (buf : list byte) (o : nat) : number :=
  to_number (decode 8 23 (le_word (DataView.slice buf o (o + 4)))).

(** The state of the loop after the faces below [k]: the coordinates of
    their vertices and, three times over, their normals. *)
Definition filled (buf : list byte) (size k : nat) (st : arrays) : Prop :=
  offset st = (9 * k)%nat
  /\ length (vertices st) = size /\ length (normals st) = size
  /\ forall face v i, (face < k)%nat -> (v < 3)%nat -> (i < 3)%nat ->
       vertices st !! (9 * face + 3 * v + i)%nat
       = Some (float32_at buf (84 + 50 * face + 12 * (v + 1) + 4 * i))
       /\ normals st !! (9 * face + 3 * v + i)%nat
          = Some (float32_at buf (84 + 50 * face + 4 * i)).

(** The bytes of a record that the decoder reads: all 50 when the header
    carries a color, the 48 before the attribute otherwise. *)
Definition record_read (buf : list byte) : Z :=
  match last_signature buf with
  | Some _ => 50
  | None => 48
  end.

(** The buffer holds what the decoder reads: the count and, up to the part
    read of the last one, the records. *)
Definition fits (buf : list byte) : bool :=
  (84 <=? Z.of_nat (length buf))
  && ((uint32_le buf 80 =? 0)
      || (84 + 50 * (uint32_le buf 80 - 1) + record_read buf <=? Z.of_nat (length buf))).

End STLSpec.

(** ** PLY *)

Module PLYSpec.

Import Str PLYLoader.

(** A decoded record with the name of its element. *)
Abbreviation record := (option string * gmap string jsval)%type.

Definition is_vertex (r : record) : bool := is_string (fst r) "vertex".

(** The record carries all three of red, green and blue. *)
Definition has_rgb (r : record) : bool :=
  has (snd r) "red" && has (snd r) "green" && has (snd r) "blue".

Definition position_of (r : record) : Vector3 :=
  {| x := get (snd r) "x"; y := get (snd r) "y"; z := get (snd r) "z" |}.

Definition color_of (r : record) : Color :=
  {| r := div (ToNumber (get (snd r) "red")) (of_Z 255);
     g := div (ToNumber (get (snd r) "green")) (of_Z 255);
     b := div (ToNumber (get (snd r) "blue")) (of_Z 255) |}.

Definition vertex_records (records : list record) : list record :=
  List.filter is_vertex records.

Definition handle (g : Geometry) (r : record) : result Geometry :=
  handleElement g (fst r) (snd r).

(** The mesh [g] with the faces [fs] appended. *)
Definition with_faces (g : Geometry) (fs : list Face3) : Geometry :=
  {| vertices := vertices g; colors := colors g; faces := faces g ++ fs;
     useColor := useColor g; elementsNeedUpdate := elementsNeedUpdate g |}.

Definition corners (f : Face3) : option number * option number * option number :=
  (a f, b_ f, c f).

(** The mesh [g'] extends [g]: the same vertices and faces, then more. *)
Definition extends (g g' : Geometry) : Prop :=
  (exists vs, vertices g' = vertices g ++ vs)
  /\ (exists fs, map corners (faces g') = map corners (faces g) ++ fs).

(** The text between [ply] and the terminator, and the lines after it. *)
Definition headerText (data : string) : string :=
  match patternHeader data with
  | Some r => fst r
  | None => EmptyString
  end.

Definition body_lines (data : string) : list string :=
  split "010" match patternBody data with
              | Some body => body
              | None => EmptyString
              end.

(** The lines of the body that are not blank: one per record. *)
Definition nonblank (line : string) : bool := negb (String.eqb (trim line) "").

Definition record_lines (data : string) : list string :=
  List.filter nonblank (body_lines data).

(** The comment a header line contributes, if it is a comment line: its
    tokens after the first, joined by one space each. *)
Definition comment_of (line : string) : option string :=
  let tokens := split_ws (trim line) in
  if String.eqb (trim line) "" then None
  else if is_string (hd_error tokens) "comment" then Some (join " " (tl tokens))
  else None.

Definition no_ws (s : string) : bool :=
  forallb (fun c => negb (is_ws c)) (String.list_ascii_of_string s).

(** The comments of a header, none if it does not parse. *)
Definition comments_of (r : result header) : list string :=
  match r with
  | Ok h => comments h
  | Throw _ => []
  end.

End PLYSpec.

(** ** PLY: the layout of a binary body *)

Module PLYBinarySpec.
Import Str Parse PLYLoader PLYBinary PLYSpec.

(** The number of bytes of a scalar type, for the types that [binaryRead]
    has a case for. *)
Definition type_size (t : option string) : option nat :=
  if is_type t ["int8"; "char"; "uint8"; "uchar"]%string then Some 1%nat
  else if is_type t ["int16"; "short"; "uint16"; "ushort"]%string then Some 2%nat
  else if is_type t ["int32"; "int"; "uint32"; "uint"; "float32"; "float"]%string
       then Some 4%nat
  else if is_type t ["float64"; "double"]%string then Some 8%nat
  else None.

(** The bytes that a property takes in every record: its value, or for a
    list its count. *)
Definition fixed_size (p : property) : nat :=
  from_option id O
    (type_size (if is_string (type p) "list" then countType p else type p)).

Definition is_list (p : property) : bool := is_string (type p) "list".

Definition record_size (e : element) : nat :=
  foldr Nat.add O (map fixed_size (properties e)).

(** The number of records of an element. *)
Definition record_count (e : element) : nat := from_option id O (iterations (count e)).

(** The bytes that the records of a header take at least, and exactly when
    no element has a list. *)
Definition body_size (h : header) : nat :=
  foldr Nat.add O (map (fun e => (record_count e * record_size e)%nat) (elements h)).

(** The names of the elements, each as often as it has records. *)
Definition declared (h : header) : list (option string) :=
  flat_map (fun e => replicate (record_count e) (element_name e)) (elements h).

(** A read of [n] bytes at [o]: it returns when the bytes are in the
    buffer and throws a [RangeError] otherwise. *)
Definition reads {A : Type} (d : DataView.t) (o n : nat) (m : result A) : Prop :=
  ((DataView.this_byteOffset d + o + n <= DataView.byteLength d)%nat -> exists v, m = Ok v)
  /\ (forall v, m = Ok v -> (DataView.this_byteOffset d + o + n <= DataView.byteLength d)%nat)
  /\ (forall e, m = Throw e -> e = RangeError).

End PLYBinarySpec.

(** ** PLY: the records of a binary body *)

Module PLYRecordSpec.
Import Str Parse PLYLoader PLYBinary PLYSpec PLYBinarySpec.

(** The number that a scalar of type [t] at offset [o] stands for: the
    word of its bytes in the byte order of the file, read as an unsigned
    or a two's complement integer or as a binary32 or binary64 datum;
    [None] for a type without a size. *)
Definition scalar_at (buf : list byte) (o : nat) (t : option string) (little_endian : bool)
  : option number :=
  match type_size t with
  | None => None
  | Some n =>
      let w := word little_endian (DataView.slice buf o (o + n)) in
      Some (if is_type t ["float32"; "float"]%string then to_number (decode 8 23 w)
            else if is_type t ["float64"; "double"]%string then to_number (decode 11 52 w)
            else if is_type t ["int8"; "char"; "int16"; "short"; "int32"; "int"]%string
                 then of_Z (signed (8 * Z.of_nat n) w)
                 else of_Z w)
  end.

(** What a property holds at offset [o] and the bytes that it takes: a
    scalar, or a list, which is its count followed by its items. *)
Definition property_at (buf : list byte) (o : nat) (p : property) (little_endian : bool)
  : jsval * nat :=
  if is_list p then
    let size := from_option id O (type_size (countType p)) in
    let item_size := from_option id O (type_size (itemType p)) in
    let k := from_option id O (loop_count (scalar_at buf o (countType p) little_endian)) in
    (Arr (map (fun j => scalar_at buf (o + size + j * item_size) (itemType p) little_endian)
              (seq 0 k)),
     (size + k * item_size)%nat)
  else (of_scalar (scalar_at buf o (type p) little_endian), fixed_size p).

(** The record that starts at offset [o], property after property, and
    the bytes that it takes. *)
Definition record_at (buf : list byte) (o : nat) (ps : list property) (little_endian : bool)
  : gmap string jsval * nat :=
  fold_left (fun st p =>
               let '(v, n) := property_at buf (o + snd st) p little_endian in
               (<[ ToString (name p) := v ]> (fst st), (snd st + n)%nat))
            ps (∅, O).

(** The records of the elements [es], one element for each record, that
    lie one after the other from offset [o]. *)
Fixpoint records_at (buf : list byte) (little_endian : bool) (es : list element) (o : nat)
  : list record :=
  match es with
  | [] => []
  | e :: es' =>
      let r := record_at buf o (properties e) little_endian in
      (element_name e, fst r) :: records_at buf little_endian es' (o + snd r)
  end.

(** The offset at which these records end. *)
Fixpoint end_at (buf : list byte) (little_endian : bool) (es : list element) (o : nat) : nat :=
  match es with
  | [] => o
  | e :: es' =>
      end_at buf little_endian es' (o + snd (record_at buf o (properties e) little_endian))
  end.

(** The records of a binary file: those of its elements in the order of
    the header, each element as often as its count says, from the end of
    the header on. *)
Definition records_of (data : list byte) (h : header) : list record :=
  records_at data (is_string (format h) "binary_little_endian")
             (flat_map (fun e => replicate (record_count e) e) (elements h))
             (headerLength h).

End PLYRecordSpec.

(** ** PLY: texts *)

Module PLYTextSpec.
Import Str Parse PLYLoader PLYBinary PLYSpec.

(** The text of an input. *)
Definition text_of (data : input) : string :=
  match data with
  | ArrayBuffer buf => bin2str buf
  | Text s => s
  end.

(** The first word of a header line, if it has one. *)
Definition lineType (line : string) : option string :=
  if String.eqb (trim line) "" then None else hd_error (split_ws (trim line)).

End PLYTextSpec.

Module PLYDispatchSpec.
Import Str Parse PLYLoader PLYBinary PLYSpec PLYBinarySpec.

(** The count of the element is a whole number above 0 (and below
    [2 ^ 53], where the numbers cease to be consecutive). *)
Definition counted (e : element) : Prop :=
  exists k : Z, 0 < k < 2 ^ 53 /\ count e = of_Z k.

(** The element of each record line by the counts: the first lines go to
    the first element, as many as it has records, and so on; the lines
    that are left go to none. *)
Fixpoint assign (es : list element) (lines : list string)
  : list (option element * string) :=
  match es with
  | [] => map (fun l => (None, l)) lines
  | e :: es' =>
      map (fun l => (Some e, l)) (firstn (record_count e) lines)
      ++ assign es' (skipn (record_count e) lines)
  end.

(** A record line read as a record of its element and handed to the
    assembler; a line of no element cannot be read. *)
Definition record_of (g : Geometry) (r : option element * string) : result Geometry :=
  match fst r with
  | None => Throw TypeError
  | Some e =>
      let* element := parseASCIIElement (properties e) (trim (snd r)) in
      handleElement g (element_name e) element
  end.

(** The geometry that a loop ends with. *)
Definition geometry_of (r : result body_state) : result Geometry :=
  match r with
  | Ok st => Ok (geometry st)
  | Throw e => Throw e
  end.

End PLYDispatchSpec.

Module PLYHeaderSpec.
Import Str Parse PLYLoader PLYBinary PLYSpec PLYBinarySpec PLYTextSpec.

(** The name and the count that a header line declares, if it is an
    element line: its second and third words. *)
Definition declaration (line : string) : option (option string * number) :=
  if is_string (lineType line) "element" then
    let words := tl (split_ws (trim line)) in
    Some (nth_token words 0, parseInt (nth_token words 1))
  else None.

(** An element whose records are scalars of known types and do not go to
    the faces of the mesh. *)
Definition plain (e : element) : bool :=
  forallb (fun p => negb (is_list p) && bool_decide (type_size (type p) <> None))
          (properties e)
  && negb (is_string (element_name e) "face")
  && bool_decide (iterations (count e) <> None).

(** The names and the counts of the elements that the loop over the
    header lines has seen. *)
Definition declared_so_far (st : header_state) : list (option string * number) :=
  map (fun e => (element_name e, count e))
      (elements (hdr st) ++ match currentElement st with Some e => [e] | None => [] end).

End PLYHeaderSpec.

(** ** PLY: the lines of a body *)

Module PLYLinesSpec.
Import Str Parse PLYLoader PLYBinary PLYSpec PLYBinarySpec PLYDispatchSpec.

(** How many record lines it takes until [currentElementCount >= count]
    holds: the least natural number that is not below [count]. There is
    none for [NaN] and for [Infinity]: the test is then never true. *)
Definition lines_wanted (count : number) : option nat :=
  match count with
  | S754_nan => None
  | S754_infinity false => None
  | S754_finite false m e =>
      Some (Z.to_nat (if 0 <=? e then Z.pos m * 2 ^ e
                      else (Z.pos m + 2 ^ (- e) - 1) / 2 ^ (- e)))
  | _ => Some O
  end.

(** The element of each record line. The first element takes as many
    lines as it wants. When it has them, the next line moves the loop on by
    one element, to which the line goes whatever the count of that element
    is: an element after the first takes one line at least. An element
    whose count is not a number takes all the lines that are left, and the
    lines that are left after the last element go to none. *)
Fixpoint deal (first : bool) (es : list element) (lines : list string)
  : list (option element * string) :=
  match es with
  | [] => map (fun l => (None, l)) lines
  | e :: es' =>
      match lines_wanted (count e) with
      | None => map (fun l => (Some e, l)) lines
      | Some k =>
          let k := if first then k else Nat.max 1 k in
          map (fun l => (Some e, l)) (firstn k lines) ++ deal false es' (skipn k lines)
      end
  end.

(** The number of records that the elements declare together, if that is
    a number. *)
Fixpoint declared_total (es : list element) : option nat :=
  match es with
  | [] => Some O
  | e :: es' =>
      match lines_wanted (count e), declared_total es' with
      | Some k, Some n => Some (k + n)%nat
      | _, _ => None
      end
  end.

(** [n] record lines are no more than the records that are declared. *)
Definition within (n : nat) (es : list element) : Prop :=
  match declared_total es with
  | Some t => (n <= t)%nat
  | None => True
  end.

(** A count as [parseInt] returns it. *)
Definition parsed (e : element) : Prop := exists o, count e = parseInt o.

End PLYLinesSpec.

(** ** STL: texts *)

Module STLTextSpec.
Import Str Parse RegExp STLText.

(** The facets of a text, [facet] to the next [endfacet] each, ... *)
Definition facets (data : string) : list string :=
  map matched (exec_all patternFace data).

(** ... and the vertices and the normals that one of them holds. *)
Definition vertices_of (text : string) : list Vector3 :=
  map vector (exec_all patternVertex text).

Definition normals_of (text : string) : list Vector3 :=
  map vector (exec_all patternNormal text).

(** The last element of a list, if it has one. *)
Definition last_of {A : Type} (l : list A) : option A :=
  fold_left (fun _ x => Some x) l None.

(** The face that the last of the facets [texts] makes, after the ones
    before it: its corners are the last three vertices so far, its normal
    is the last normal so far. *)
Definition face_after (texts : list string) : Face3 :=
  let n := Z.of_nat (length (flat_map vertices_of texts)) in
  {| a := n - 3; b := n - 2; c := n - 1;
     normal := last_of (flat_map normals_of texts) |}.

(** The state of the loop after some facets, from a state in which the
    vertices [vs] and the normals [ns] had been found. *)
Definition state_after (vs ns : list Vector3) (fs : list Face3) (texts : list string)
  : Geometry * option Vector3 :=
  ({| vertices := vs ++ flat_map vertices_of texts;
      faces := fs ++ map (fun k =>
                            let n := Z.of_nat (length (vs ++ flat_map vertices_of
                                                               (firstn (S k) texts))) in
                            {| a := n - 3; b := n - 2; c := n - 1;
                               normal := last_of (ns ++ flat_map normals_of
                                                          (firstn (S k) texts)) |})
                         (seq 0 (length texts)) |},
   last_of (ns ++ flat_map normals_of texts)).

End STLTextSpec.

(** ** Sample inputs *)

Module Samples.

Import STLLoader PLYLoader.

Definition zeros (n : nat) : list byte := replicate n Byte.x00.

(** A text from its lines, each ended by a line feed. *)
Definition unlines (ls : list string) : string :=
  fold_right (fun l s => String.append l (String "010" s)) EmptyString ls.

(** A binary STL file of no triangle, 84 bytes. *)
Definition stl_empty : list byte := zeros 84.

(** 84 bytes with 1 in bytes 76 to 79 and 0 in bytes 80 to 83. *)
Definition stl_count_at_76 : list byte :=
  zeros 76 ++ map byte_of_Z [1; 0; 0; 0] ++ zeros 4.

(** Two triangles under a header that starts with [COLOR=] and the default
    color 255, 0, 0, 255. The packed color of the first has bit 15 set; the
    second has it clear and carries green alone, [0x03E0]. *)
Definition stl_colored : list byte :=
  map byte_of_Z [67; 79; 76; 79; 82; 61; 255; 0; 0; 255] ++ zeros 70
  ++ map byte_of_Z [2; 0; 0; 0]
  ++ zeros 12
  ++ map byte_of_Z [0; 0; 128; 63; 0; 0; 0; 0; 0; 0; 0; 0;
                    0; 0; 0; 0; 0; 0; 128; 63; 0; 0; 0; 0;
                    0; 0; 0; 0; 0; 0; 0; 0; 0; 0; 128; 63]
  ++ map byte_of_Z [0; 128]
  ++ zeros 48 ++ map byte_of_Z [224; 3].

Definition geometry_or_empty (r : result BufferGeometry) : BufferGeometry :=
  match r with
  | Ok g => g
  | Throw _ => {| position := []; normal := []; color := None;
                  geometry_hasColors := false; geometry_alpha := None |}
  end.

Definition stl_colored_geometry : BufferGeometry :=
  Eval vm_compute in geometry_or_empty (parseBinary stl_colored).

(** The little-endian bytes of the binary32 numbers 1 and -2, of the least
    subnormal number, of the two infinities and of a NaN; then the bytes of
    the binary64 number 1. *)
Definition float_bytes : list byte :=
  map byte_of_Z [0; 0; 128; 63;  0; 0; 0; 192;  1; 0; 0; 0;
                 0; 0; 128; 127;  0; 0; 128; 255;  0; 0; 192; 127;
                 0; 0; 0; 0; 0; 0; 240; 63].

Definition ply_header : list string :=
  ["ply"; "format ascii 1.0"; "comment made  by   hand";
   "element vertex 2";
   "property float x"; "property float y"; "property float z";
   "element face 1";
   "property list uchar int vertex_indices";
   "end_header"]%string.

(** The header declares two vertices and one face; the body has them, ... *)
Definition ply_complete : string :=
  unlines (ply_header ++ ["0 0 0"; "1 0 0"; "3 0 1 0"]%string).

(** ... stops after the first vertex, ... *)
Definition ply_truncated : string := unlines (ply_header ++ ["0 0 0"]%string).

(** ... or has a face of five indices. *)
Definition ply_pentagon : string :=
  unlines (ply_header ++ ["0 0 0"; "1 0 0"; "5 0 1 0 1 0"]%string).

(** Two vertex elements, the first with a color and the second without. *)
Definition ply_mixed : string :=
  unlines ["ply"; "format ascii 1.0";
           "element vertex 1";
           "property float x"; "property float y"; "property float z";
           "property uchar red"; "property uchar green"; "property uchar blue";
           "element vertex 1";
           "property float x"; "property float y"; "property float z";
           "end_header";
           "0 0 0 255 0 0";
           "1 0 0"]%string.

Definition zero : number := S754_zero false.
Definition one : number := S754_finite false 4503599627370496 (-52).

Definition origin : Vector3 := {| x := Num zero; y := Num zero; z := Num zero |}.
Definition unit_x : Vector3 := {| x := Num one; y := Num zero; z := Num zero |}.

Definition colored_vertex : gmap string jsval :=
  <["x" := Num zero]> (<["y" := Num zero]> (<["z" := Num zero]>
    (<["red" := Num (of_Z 255)]> (<["green" := Num zero]> (<["blue" := Num zero]> ∅))))).

Definition plain_vertex : gmap string jsval :=
  <["x" := Num one]> (<["y" := Num zero]> (<["z" := Num zero]> ∅)).

Definition pentagon : gmap string jsval :=
  <["vertex_indices" := Arr [Some zero; Some one; Some zero; Some one; Some zero]]> ∅.

Definition mixed_records : list (option string * gmap string jsval) :=
  [(Some "vertex"%string, colored_vertex); (Some "vertex"%string, plain_vertex)].

Definition mesh_or_empty (r : result Geometry) : Geometry :=
  match r with
  | Ok g => g
  | Throw _ => new_Geometry
  end.

Definition mixed_mesh : Geometry :=
  Eval vm_compute in mesh_or_empty (assemble mixed_records).

Definition ply_complete_mesh : Geometry :=
  Eval vm_compute in mesh_or_empty (parseASCII ∅ ply_complete).

Definition ply_schema : header :=
  Eval vm_compute in
    match parseHeader ∅ ply_complete with
    | Ok h => h
    | Throw _ => {| format := None; version := None; comments := [];
                    elements := []; headerLength := O |}
    end.

(** The bytes that encode 1 in binary32 and in binary64, little-endian. *)
Definition one_binary32 : list byte := map byte_of_Z [0; 0; 128; 63].
Definition one_binary64 : list byte := map byte_of_Z [0; 0; 0; 0; 0; 0; 240; 63].

End Samples.

(** ** More sample inputs *)

Module Inputs.

Import PLYLoader Samples.

(** A binary file of two vertices and a triangle, little-endian: the
    vertices (0, 0, 0) and (1, 0, 0), and the corners 0, 1, 0. *)
Definition ply_binary : list byte :=
  STLLoader.ensureBinary
    (unlines ["ply"; "format binary_little_endian 1.0";
              "element vertex 2";
              "property float x"; "property float y"; "property float z";
              "element face 1";
              "property list uchar int vertex_indices";
              "end_header"]%string)
  ++ zeros 12
  ++ map byte_of_Z [0; 0; 128; 63] ++ zeros 8
  ++ map byte_of_Z [3; 0; 0; 0; 0; 1; 0; 0; 0; 0; 0; 0; 0].

Definition no_header : header :=
  {| format := None; version := None; comments := []; elements := [];
     headerLength := O |}.

Definition header_or_none (r : result header) : header :=
  match r with
  | Ok h => h
  | Throw _ => no_header
  end.

Definition ply_binary_schema : header :=
  Eval vm_compute in header_or_none (parseHeader ∅ (PLYBinary.bin2str ply_binary)).

Definition ply_binary_mesh : Geometry :=
  Eval vm_compute in
    match PLYBinary.parseBinary ∅ ply_binary with
    | Some r => mesh_or_empty r
    | None => new_Geometry
    end.

(** The vertex element of that file, the view on its body, and its first
    record. *)
Definition vertex_element : element :=
  Eval vm_compute in
    match elements ply_binary_schema with
    | e :: _ => e
    | [] => {| element_name := None; count := NaN; properties := [] |}
    end.

Definition ply_binary_body : DataView.t :=
  DataView.new_at ply_binary (headerLength ply_binary_schema).

Definition first_record : gmap string jsval :=
  <["z" := Num zero]> (<["y" := Num zero]> (<["x" := Num zero]> ∅)).

(** A binary file of two colored points, big-endian, 15 bytes each. *)
Definition ply_points : list byte :=
  STLLoader.ensureBinary
    (unlines ["ply"; "format binary_big_endian 1.0";
              "element vertex 2";
              "property float x"; "property float y"; "property float z";
              "property uchar red"; "property uchar green"; "property uchar blue";
              "end_header"]%string)
  ++ zeros 12 ++ map byte_of_Z [255; 0; 0]
  ++ map byte_of_Z [63; 128; 0; 0] ++ zeros 8 ++ map byte_of_Z [0; 255; 0].

Definition ply_points_schema : header :=
  Eval vm_compute in header_or_none (parseHeader ∅ (PLYBinary.bin2str ply_points)).

(** A property of a type that the loader does not know, and a list of
    corners under another name than [vertex_indices]. *)
Definition odd_property : property :=
  {| type := Some "half"%string; name := Some "x"%string;
     countType := None; itemType := None |}.

Definition vertex_index : property :=
  {| type := Some "list"%string; name := Some "vertex_index"%string;
     countType := Some "uchar"%string; itemType := Some "int"%string |}.

(** The list of the corners of a face, and the record of the line
    [3 0 1], which is one number short. *)
Definition corners_list : property :=
  {| type := Some "list"%string; name := Some "vertex_indices"%string;
     countType := Some "uchar"%string; itemType := Some "int"%string |}.

Definition short_face : gmap string jsval :=
  <["vertex_indices" := Arr [Some zero; Some one; Some NaN]]> ∅.

(** A colored mesh of one triangle. *)
Definition red : Color := {| r := one; g := zero; b := zero |}.
Definition green : Color := {| r := zero; g := one; b := zero |}.

Definition colored_triangle : Geometry :=
  {| vertices := [origin; unit_x; origin];
     colors := [red; green];
     faces := [new_Face3 (Some (of_Z 0)) (Some (of_Z 1)) (Some (of_Z 2))];
     useColor := true;
     elementsNeedUpdate := false |}.

(** A header with a property line before its element line. *)
Definition ply_misplaced : string :=
  unlines ["ply"; "format ascii 1.0"; "property float x"; "element vertex 1";
           "end_header"; "0"]%string.

(** A text of two facets: a triangle with its normal, and a facet of two
    vertices and no normal; and one of two triangles. *)
Definition stl_text : string :=
  unlines ["solid s";
           "facet normal 0 0 1"; " outer loop";
           "  vertex 0 0 0"; "  vertex 1 0 0"; "  vertex 0 1 0";
           " endloop"; "endfacet";
           "facet"; " outer loop";
           "  vertex 0 0 1"; "  vertex 1 0 1";
           " endloop"; "endfacet";
           "endsolid s"]%string.


Definition second_facet : string :=
  Eval vm_compute in
    match STLTextSpec.facets stl_text with
    | [_; t] => t
    | _ => EmptyString
    end.

End Inputs.

(** * Part III: properties *)

(** ** Loops *)

Lemma foldM_app {A S : Type} (body : S -> A -> result S) (l1 l2 : list A) (s : S) :
  foldM body (l1 ++ l2) s = let* s1 := foldM body l1 s in foldM body l2 s1.
Proof.
  revert s. induction l1 as [|a l1 IH]; intros s; cbn; [reflexivity|].
  destruct (body s a); cbn; auto.
Qed.

(** A relation that every successful step of a loop establishes, and that is
    reflexive and transitive, holds between the first and the last state. *)
Lemma foldM_invariant {A S : Type} (R : S -> S -> Prop) (body : S -> A -> result S) :
  (forall s, R s s) ->
  (forall s1 s2 s3, R s1 s2 -> R s2 s3 -> R s1 s3) ->
  (forall s a s', body s a = Ok s' -> R s s') ->
  forall l s s', foldM body l s = Ok s' -> R s s'.
Proof.
  intros Hrefl Htrans Hstep l. induction l as [|a l IH]; intros s s'; cbn.
  - intros [= <-]. apply Hrefl.
  - destruct (body s a) as [s1|] eqn:E; [|discriminate]. cbn. intros H.
    eapply Htrans; [eapply Hstep; eassumption | eapply IH; eassumption].
Qed.

(** ** The 32-bit operators *)

Module JSFacts.
Import JS.

Lemma ToInt32_mod x : ToInt32 x mod 2 ^ 32 = x mod 2 ^ 32.
Proof.
  unfold ToInt32.
  rewrite <- Zminus_mod_idemp_l, Zmod_mod, Zminus_mod_idemp_l.
  f_equal. lia.
Qed.

Lemma ToInt32_small x : - 2 ^ 31 <= x < 2 ^ 31 -> ToInt32 x = x.
Proof. intros H. unfold ToInt32. rewrite Z.mod_small; lia. Qed.

Lemma lor_mod a b n : 0 <= n -> Z.lor a b mod 2 ^ n = Z.lor (a mod 2 ^ n) (b mod 2 ^ n).
Proof.
  intros Hn. rewrite <- !Z.land_ones by assumption. apply Z.land_lor_distr_l.
Qed.

Lemma bor_mod a b : bor a b mod 2 ^ 32 = Z.lor (a mod 2 ^ 32) (b mod 2 ^ 32).
Proof. unfold bor. rewrite lor_mod by lia. by rewrite !ToInt32_mod. Qed.

Lemma shl_mod a k : 0 <= k < 32 -> shl a k mod 2 ^ 32 = (a * 2 ^ k) mod 2 ^ 32.
Proof.
  intros Hk. unfold shl. rewrite ToInt32_mod, (Z.mod_small k 32) by lia.
  rewrite Z.shiftl_mul_pow2 by lia.
  rewrite <- Zmult_mod_idemp_l, ToInt32_mod, Zmult_mod_idemp_l. reflexivity.
Qed.

Lemma shr_0 a : shr a 0 = a mod 2 ^ 32.
Proof. unfold shr, ToUint32. cbn. apply Z.shiftr_0_r. Qed.

(** Joining a value below [2 ^ k] to a multiple of [2 ^ k] adds them. *)
Lemma lor_add hi lo k : 0 <= k -> 0 <= lo < 2 ^ k -> Z.lor (hi * 2 ^ k) lo = hi * 2 ^ k + lo.
Proof.
  intros Hk Hlo. symmetry. apply Z.add_nocarry_lor.
  apply Z.bits_inj'. intros n Hn. rewrite Z.land_spec, Z.bits_0.
  destruct (Z.lt_ge_cases n k).
  - rewrite Z.mul_pow2_bits_low by lia. reflexivity.
  - replace lo with (lo mod 2 ^ k) by (apply Z.mod_small; lia).
    rewrite Z.mod_pow2_bits_high by lia. apply andb_false_r.
Qed.

Lemma uint32_of_bytes b0 b1 b2 b3 :
  0 <= b0 < 256 -> 0 <= b1 < 256 -> 0 <= b2 < 256 -> 0 <= b3 < 256 ->
  shr (bor (bor (bor (shl b3 24) (shl b2 16)) (shl b1 8)) b0) 0
  = b0 + 2 ^ 8 * b1 + 2 ^ 16 * b2 + 2 ^ 24 * b3.
Proof.
  intros H0 H1 H2 H3.
  rewrite shr_0, !bor_mod, !shl_mod by lia.
  rewrite (Z.mod_small b0), (Z.mod_small (b1 * _)), (Z.mod_small (b2 * _)),
    (Z.mod_small (b3 * _)) by lia.
  rewrite (lor_add b3 (b2 * 2 ^ 16) 24) by lia.
  replace (b3 * 2 ^ 24 + b2 * 2 ^ 16) with ((b3 * 2 ^ 8 + b2) * 2 ^ 16) by lia.
  rewrite (lor_add _ (b1 * 2 ^ 8) 16) by lia.
  replace ((b3 * 2 ^ 8 + b2) * 2 ^ 16 + b1 * 2 ^ 8)
    with (((b3 * 2 ^ 8 + b2) * 2 ^ 8 + b1) * 2 ^ 8) by lia.
  rewrite (lor_add _ b0 8) by lia. lia.
Qed.

Lemma uint16_of_bytes b0 b1 :
  0 <= b0 < 256 -> 0 <= b1 < 256 ->
  bor (shl b1 8) b0 = b0 + 2 ^ 8 * b1.
Proof.
  intros H0 H1. unfold bor, shl.
  rewrite (ToInt32_small b1), (ToInt32_small b0) by lia.
  rewrite (Z.mod_small 8 32), Z.shiftl_mul_pow2 by lia.
  rewrite !(ToInt32_small (b1 * 2 ^ 8)) by lia.
  rewrite lor_add by lia. lia.
Qed.
End JSFacts.

(** ** Reads of the DataView *)

Module DataViewFacts.
Import DataView JSFacts.

Lemma u8_bound b : 0 <= u8 b < 256.
Proof.
  unfold u8. pose proof (Byte.to_N_bounded b). lia.
Qed.

Lemma at_bound buf i : 0 <= at_ buf i < 256.
Proof. unfold at_. destruct (nth_error buf i); [apply u8_bound|lia]. Qed.

Lemma at_slice buf o n i : (i < n)%nat -> at_ (slice buf o (o + n)) i = at_ buf (o + i).
Proof.
  intros Hi. unfold at_, slice.
  replace (o + n - o)%nat with n by lia.
  rewrite nth_error_firstn, nth_error_skipn.
  destruct (Nat.ltb_spec i n); [reflexivity|lia].
Qed.

Lemma length_slice buf o n : (o + n <= length buf)%nat -> length (slice buf o (o + n)) = n.
Proof.
  intros H. unfold slice. rewrite length_firstn, length_skipn. lia.
Qed.

Lemma at_rev_slice buf o n i :
  (o + n <= length buf)%nat -> (i < n)%nat ->
  at_ (rev (slice buf o (o + n))) i = at_ buf (o + (n - 1 - i)).
Proof.
  intros Hn Hi. unfold at_ at 1. rewrite nth_error_rev, length_slice by assumption.
  destruct (Nat.ltb_spec i n); [|lia].
  replace (n - S i)%nat with (n - 1 - i)%nat by lia.
  fold (at_ (slice buf o (o + n)) (n - 1 - i)). apply at_slice. lia.
Qed.

Lemma _getBytes_new buf n o le :
  _getBytes (new buf) n o le
  = if (length buf <? o + n)%nat then Throw RangeError
    else if negb (truthy le) && (1 <? n)%nat then Ok (rev (slice buf o (o + n)))
         else Ok (slice buf o (o + n)).
Proof. reflexivity. Qed.

Lemma getUint8_new buf o :
  getUint8 (new buf) o = if (length buf <? o + 1)%nat then Throw RangeError else Ok (at_ buf o).
Proof.
  unfold getUint8. rewrite _getBytes_new.
  destruct (Nat.ltb_spec (length buf) (o + 1)); [reflexivity|]. cbn [bind negb truthy andb].
  replace (1 <? 1)%nat with false by reflexivity. cbn [bind].
  rewrite at_slice by lia. do 2 f_equal. lia.
Qed.

Lemma getUint32_le buf o :
  getUint32 (new buf) o (Some true)
  = if (length buf <? o + 4)%nat then Throw RangeError else Ok (uint32_le buf o).
Proof.
  unfold getUint32, getInt32. rewrite _getBytes_new.
  destruct (Nat.ltb_spec (length buf) (o + 4)); [reflexivity|].
  cbn [truthy negb andb bind].
  rewrite !at_slice by lia. rewrite uint32_of_bytes by apply at_bound.
  unfold uint32_le. rewrite Nat.add_0_r. reflexivity.
Qed.

Lemma getUint32_be buf o :
  getUint32 (new buf) o (Some false)
  = if (length buf <? o + 4)%nat then Throw RangeError else Ok (uint32_be buf o).
Proof.
  unfold getUint32, getInt32. rewrite _getBytes_new.
  destruct (Nat.ltb_spec (length buf) (o + 4)); [reflexivity|].
  cbn [truthy negb andb bind]. replace (1 <? 4)%nat with true by reflexivity.
  cbn [bind].
  rewrite !at_rev_slice by lia. rewrite uint32_of_bytes by apply at_bound.
  unfold uint32_be. cbn [Nat.sub]. rewrite Nat.add_0_r. reflexivity.
Qed.

Lemma getUint16_le buf o :
  getUint16 (new buf) o (Some true)
  = if (length buf <? o + 2)%nat then Throw RangeError else Ok (uint16_le buf o).
Proof.
  unfold getUint16. rewrite _getBytes_new.
  destruct (Nat.ltb_spec (length buf) (o + 2)); [reflexivity|].
  cbn [truthy negb andb bind].
  rewrite !at_slice by lia. rewrite uint16_of_bytes by apply at_bound.
  unfold uint16_le. rewrite Nat.add_0_r. reflexivity.
Qed.
End DataViewFacts.

(** ** STL *)

Module STLFacts.
Import STLLoader STLSpec DataView DataViewFacts.

Lemma isBinary_scan_spec buf n : forall i,
  (i + n = length buf)%nat ->
  isBinary_scan (new buf) (seq i n) = Ok (has_high_byte (skipn i buf)).
Proof.
  induction n as [|n IH]; intros i Hi; cbn [seq isBinary_scan].
  - rewrite skipn_all2 by lia. reflexivity.
  - rewrite getUint8_new. destruct (Nat.ltb_spec (length buf) (i + 1)); [lia|].
    cbn [bind]. rewrite IH by lia.
    unfold at_. destruct (nth_error buf i) as [b|] eqn:E.
    + apply firstn_skipn_middle in E.
      assert (Hs : skipn i buf = b :: skipn (S i) buf).
      { rewrite <- E at 1. rewrite skipn_app, skipn_all2 by (rewrite length_firstn; lia).
        rewrite length_firstn. replace (i - Nat.min i (length buf))%nat with 0%nat by lia.
        reflexivity. }
      rewrite Hs. cbn [has_high_byte existsb]. destruct (127 <? u8 b); reflexivity.
    + apply nth_error_None in E. lia.
Qed.

Lemma isBinary_spec (buf : list byte) :
  (84 <= length buf)%nat ->
  isBinary buf
  = Ok ((Z.of_nat (length buf) =? 84 + 50 * uint32_le buf 80) || has_high_byte buf).
Proof.
  intros H. unfold isBinary. rewrite getUint32_le.
  destruct (Nat.ltb_spec (length buf) (80 + 4)); [lia|]. cbn [bind].
  change (32 / 8 * 3 + 32 / 8 * 3 * 3 + 16 / 8) with 50.
  change (80 + 32 / 8) with 84.
  unfold byteLength. cbn [this_buffer new].
  replace (84 + uint32_le buf 80 * 50 =? Z.of_nat (length buf))
    with (Z.of_nat (length buf) =? 84 + 50 * uint32_le buf 80)
    by (rewrite Z.eqb_sym; f_equal; lia).
  destruct (_ =? _); [reflexivity|].
  rewrite (isBinary_scan_spec buf (length buf) 0) by lia. reflexivity.
Qed.

Lemma at_removelast buf i : (i + 1 < length buf)%nat -> at_ (removelast buf) i = at_ buf i.
Proof.
  intros H. unfold at_. rewrite removelast_firstn_len, nth_error_firstn.
  destruct (Nat.ltb_spec i (Nat.pred (length buf))); [reflexivity|lia].
Qed.

Lemma length_removelast (buf : list byte) : length (removelast buf) = Nat.pred (length buf).
Proof.
  rewrite removelast_firstn_len, length_firstn. lia.
Qed.

(** C1 (amended): a buffer of at least 84 bytes is classified as binary if
    and only if its length is [84 + 50 * n], for [n] the little-endian
    32-bit unsigned integer at byte offset 80, or one of its bytes is above
    127; otherwise it is classified as ASCII. In particular a buffer of
    exactly [84 + 50 * n] bytes is binary, and for [n >= 1] the same buffer
    without its last byte fails the size check and is classified by the
    byte scan alone. *)
Theorem isBinary_classification (buf : list byte) :
  (84 <= length buf)%nat ->
  isBinary buf
  = Ok ((Z.of_nat (length buf) =? 84 + 50 * uint32_le buf 80) || has_high_byte buf)
  /\ (Z.of_nat (length buf) = 84 + 50 * uint32_le buf 80 ->
      isBinary buf = Ok true
      /\ (1 <= uint32_le buf 80 ->
          isBinary (removelast buf) = Ok (has_high_byte (removelast buf)))).
Proof.
  intros H. split; [apply isBinary_spec; assumption|].
  intros Hlen. split.
  - rewrite isBinary_spec by assumption.
    apply Z.eqb_eq in Hlen. rewrite Hlen. reflexivity.
  - intros Hn. rewrite isBinary_spec by (rewrite length_removelast; lia).
    assert (Hu : uint32_le (removelast buf) 80 = uint32_le buf 80).
    { unfold uint32_le. rewrite !at_removelast by lia. reflexivity. }
    rewrite Hu, length_removelast.
    destruct (Z.eqb_spec (Z.of_nat (Nat.pred (length buf))) (84 + 50 * uint32_le buf 80));
      [lia|reflexivity].
Qed.

(** *** The header color *)

Lemma scan_header_step buf faces h i :
  (84 <= length buf)%nat -> (i < 70)%nat ->
  scan_header (new buf) faces h i
  = Ok (if signature_at buf i then header_at buf faces i else h).
Proof.
  intros Hlen Hi. unfold scan_header. rewrite getUint32_be, !getUint8_new.
  repeat match goal with
         | |- context [(length buf <? ?n)%nat] =>
             destruct (Nat.ltb_spec (length buf) n); [lia|]
         end.
  cbn [bind]. unfold signature_at.
  assert (Hsig : (uint32_be buf i =? 0x434F4C4F)
                 = (at_ buf i =? 67) && (at_ buf (i + 1) =? 79)
                   && (at_ buf (i + 2) =? 76) && (at_ buf (i + 3) =? 79)).
  { unfold uint32_be.
    pose proof (at_bound buf i). pose proof (at_bound buf (i + 1)).
    pose proof (at_bound buf (i + 2)). pose proof (at_bound buf (i + 3)).
    destruct (Z.eqb_spec (at_ buf i) 67); cbn [andb]; [|apply Z.eqb_neq; lia].
    destruct (Z.eqb_spec (at_ buf (i + 1)) 79); cbn [andb]; [|apply Z.eqb_neq; lia].
    destruct (Z.eqb_spec (at_ buf (i + 2)) 76); cbn [andb]; [|apply Z.eqb_neq; lia].
    destruct (Z.eqb_spec (at_ buf (i + 3)) 79); cbn [andb]; [|apply Z.eqb_neq; lia].
    apply Z.eqb_eq. lia. }
  rewrite Hsig.
  destruct (at_ buf i =? 67), (at_ buf (i + 1) =? 79), (at_ buf (i + 2) =? 76),
    (at_ buf (i + 3) =? 79); cbn [andb bind]; try reflexivity.
  change 0x52 with 82. change 0x3D with 61.
  destruct (at_ buf (i + 4) =? 82); cbn [andb bind]; [|reflexivity].
  destruct (at_ buf (i + 5) =? 61); cbn [andb bind]; reflexivity.
Qed.

Lemma scan_header_fold buf faces l : forall o,
  (84 <= length buf)%nat -> Forall (fun i => (i < 70)%nat) l ->
  foldM (scan_header (new buf) faces) l (header_of buf faces o)
  = Ok (header_of buf faces
          (fold_left (fun acc i => if signature_at buf i then Some i else acc) l o)).
Proof.
  induction l as [|i l IH]; intros o Hlen Hl; cbn [foldM fold_left]; [reflexivity|].
  inversion Hl; subst. rewrite scan_header_step by assumption. cbn [bind].
  destruct (signature_at buf i).
  - apply (IH (Some i)); assumption.
  - apply IH; assumption.
Qed.

Lemma last_below_spec p n i :
  last_below p n = Some i ->
  (i < n)%nat /\ p i = true /\ forall j, (i < j < n)%nat -> p j = false.
Proof.
  induction n as [|n IH]; cbn; [discriminate|].
  destruct (p n) eqn:E.
  - intros [= <-]. repeat split; [lia|assumption|]. intros j Hj. lia.
  - intros H. apply IH in H. destruct H as (Hi & Hp & Hj).
    repeat split; [lia|assumption|].
    intros j Hj'. destruct (Nat.eq_dec j n) as [->|]; [assumption|apply Hj; lia].
Qed.

Lemma last_below_fold p n :
  fold_left (fun acc i => if p i : bool then Some i else acc) (seq 0 n) None
  = last_below p n.
Proof.
  induction n as [|n IH]; [reflexivity|].
  rewrite seq_S, fold_left_app, IH. reflexivity.
Qed.

Lemma scan_header_result buf faces :
  (84 <= length buf)%nat ->
  foldM (scan_header (new buf) faces) (seq 0 (80 - 10)) no_color
  = Ok (header_of buf faces (last_signature buf)).
Proof.
  intros Hlen. unfold last_signature. rewrite <- last_below_fold.
  apply (scan_header_fold buf faces (seq 0 (80 - 10)) None Hlen).
  apply List.Forall_forall. intros i Hi. apply in_seq in Hi. cbn in Hi. lia.
Qed.

(** *** The faces *)

Lemma uint16_le_bound buf o : 0 <= uint16_le buf o < 2 ^ 16.
Proof.
  unfold uint16_le. pose proof (at_bound buf o). pose proof (at_bound buf (o + 1)). lia.
Qed.

Lemma land_bit p k : 0 <= k -> (Z.land p (2 ^ k) =? 0) = negb (Z.testbit p k).
Proof.
  intros Hk. destruct (Z.testbit p k) eqn:E; cbn [negb].
  - apply Z.eqb_neq. intros H.
    apply (f_equal (fun x => Z.testbit x k)) in H.
    rewrite Z.land_spec, E, Z.pow2_bits_true, Z.bits_0 in H by assumption. discriminate.
  - apply Z.eqb_eq. apply Z.bits_inj'. intros n Hn.
    rewrite Z.land_spec, Z.bits_0, Z.pow2_bits_eqb by assumption.
    destruct (Z.eqb_spec k n) as [->|]; [by rewrite E|apply andb_false_r].
Qed.

Lemma face_color_spec buf faces idx face :
  face_color (header_at buf faces idx) (packed_color buf face)
  = let '(r, g, b) := facet_color buf idx face in (Some r, Some g, Some b).
Proof.
  unfold face_color, facet_color.
  pose proof (uint16_le_bound buf (84 + face * 50 + 48)) as Hp.
  fold (packed_color buf face) in Hp. set (p := packed_color buf face) in *.
  assert (Hs : forall k, 0 <= k < 32 -> JS.sar p k = Z.shiftr p k).
  { intros k Hk. unfold JS.sar. rewrite JSFacts.ToInt32_small, Z.mod_small by lia.
    reflexivity. }
  assert (Hb : forall x m, 0 <= x < 2 ^ 16 -> 0 <= m < 2 ^ 16 -> JS.band x m = Z.land x m).
  { intros x m Hx Hm. unfold JS.band. rewrite !JSFacts.ToInt32_small by lia. reflexivity. }
  assert (Hsh : forall k, 0 <= k -> 0 <= Z.shiftr p k < 2 ^ 16).
  { intros k Hk. rewrite Z.shiftr_div_pow2 by assumption. split.
    - apply Z.div_pos; lia.
    - apply Z.le_lt_trans with p; [|lia]. apply Z.div_le_upper_bound; [lia|].
      assert (1 <= 2 ^ k) by (apply Z.pow_le_mono_r with (b := 0); lia). nia. }
  rewrite !Hs by lia. rewrite !Hb by (try apply Hsh; lia).
  change 0x8000 with (2 ^ 15). rewrite land_bit by lia.
  destruct (Z.testbit p 15); reflexivity.
Qed.

Lemma length_store c i v : length (store c i v) = length c.
Proof. apply length_insert. Qed.

Lemma length_paint c o rgb : length (paint c o rgb) = length c.
Proof. destruct rgb as [[r g] b]. cbn. by rewrite !length_store. Qed.

Lemma paint_lookup c o r g b :
  (o + 3 <= length c)%nat ->
  paint c o (Some r, Some g, Some b) !! o = Some (fround r)
  /\ paint c o (Some r, Some g, Some b) !! (o + 1)%nat = Some (fround g)
  /\ paint c o (Some r, Some g, Some b) !! (o + 2)%nat = Some (fround b).
Proof.
  intros H. cbn. unfold store. repeat split.
  - rewrite !list_lookup_insert_ne by lia. apply list_lookup_insert_eq. lia.
  - rewrite list_lookup_insert_ne by lia. apply list_lookup_insert_eq.
    rewrite length_insert. lia.
  - apply list_lookup_insert_eq. rewrite !length_insert. lia.
Qed.

Lemma paint_lookup_other c o rgb j :
  (j < o \/ o + 3 <= j)%nat -> paint c o rgb !! j = c !! j.
Proof.
  intros H. destruct rgb as [[r g] b]. cbn. unfold store.
  rewrite !list_lookup_insert_ne by lia. reflexivity.
Qed.

Lemma vertex_body_colors reader h start normal rgb st i st' :
  vertex_body reader h start normal rgb st i = Ok st' ->
  offset st' = (offset st + 3)%nat
  /\ length (vertices st') = length (vertices st)
  /\ length (normals st') = length (normals st)
  /\ colors st' = (if hasColors h
                   then option_map (fun c => paint c (offset st) rgb) (colors st)
                   else colors st).
Proof.
  unfold vertex_body. destruct normal as [[nx ny] nz]. destruct rgb as [[r g] b].
  destruct (getFloat32 reader (start + i * 12) (Some true)); [|discriminate].
  destruct (getFloat32 reader (start + i * 12 + 4) (Some true)); [|discriminate].
  destruct (getFloat32 reader (start + i * 12 + 8) (Some true)); [|discriminate].
  cbn [bind]. intros [= <-]. cbn. rewrite !length_store. auto.
Qed.

Lemma getFloat32_bounds buf o le x :
  getFloat32 (new buf) o le = Ok x -> (o + 4 <= length buf)%nat.
Proof.
  unfold getFloat32. rewrite _getBytes_new.
  destruct (Nat.ltb_spec (length buf) (o + 4)); [discriminate|lia].
Qed.

Lemma face_body_colors buf faces idx st face st' :
  face_body (new buf) (header_at buf faces idx) st face = Ok st' ->
  (84 + face * 50 + 50 <= length buf)%nat
  /\ offset st' = (offset st + 9)%nat
  /\ length (vertices st') = length (vertices st)
  /\ length (normals st') = length (normals st)
  /\ colors st'
     = option_map
         (fun c =>
            let rgb := let '(r, g, b) := facet_color buf idx face in (Some r, Some g, Some b) in
            paint (paint (paint c (offset st) rgb) (offset st + 3) rgb) (offset st + 6) rgb)
         (colors st).
Proof.
  unfold face_body.
  destruct (getFloat32 (new buf) (84 + face * (12 * 4 + 2)) (Some true)) as [nx|];
    [|discriminate].
  destruct (getFloat32 (new buf) (84 + face * (12 * 4 + 2) + 4) (Some true)) as [ny|];
    [|discriminate].
  destruct (getFloat32 (new buf) (84 + face * (12 * 4 + 2) + 8) (Some true)) as [nz|];
    [|discriminate].
  cbn [bind hasColors header_at]. rewrite getUint16_le.
  change (12 * 4 + 2)%nat with 50%nat.
  destruct (Nat.ltb_spec (length buf) (84 + face * 50 + 48 + 2)); [discriminate|].
  cbn [bind]. fold (packed_color buf face). rewrite face_color_spec.
  set (rgb := let '(r, g, b) := facet_color buf idx face in (Some r, Some g, Some b)).
  cbn [foldM].
  destruct (vertex_body _ _ _ _ rgb st 1) as [s1|] eqn:E1; [|discriminate]. cbn [bind].
  destruct (vertex_body _ _ _ _ rgb s1 2) as [s2|] eqn:E2; [|discriminate]. cbn [bind].
  destruct (vertex_body _ _ _ _ rgb s2 3) as [s3|] eqn:E3; [|discriminate]. cbn [bind].
  intros [= <-].
  apply vertex_body_colors in E1, E2, E3. cbn [hasColors header_at] in *.
  destruct E1 as (O1 & V1 & N1 & C1), E2 as (O2 & V2 & N2 & C2), E3 as (O3 & V3 & N3 & C3).
  split; [lia|]. split; [lia|]. split; [congruence|]. split; [congruence|].
  rewrite C3, C2, C1, O2, O1. destruct (colors st); cbn [option_map]; [|reflexivity].
  replace (offset st + 3 + 3)%nat with (offset st + 6)%nat by lia. reflexivity.
Qed.

Lemma face_body_painted buf faces idx size k st st' :
  (9 * (k + 1) <= size)%nat ->
  painted buf idx size k st ->
  face_body (new buf) (header_at buf faces idx) st k = Ok st' ->
  painted buf idx size (k + 1) st'.
Proof.
  intros Hsize (Ho & Hv & Hn & c & Hc & Hlen & Hfaces) H.
  apply face_body_colors in H. destruct H as (_ & Ho' & Hv' & Hn' & Hc').
  split; [lia|]. split; [congruence|]. split; [congruence|].
  rewrite Hc in Hc'. cbn in Hc'. eexists. split; [exact Hc'|].
  split; [by rewrite !length_paint|].
  intros face v Hface Hv3. rewrite Ho.
  destruct (Nat.eq_dec face k) as [-> | Hne].
  - destruct (facet_color buf idx k) as [[r g] b].
    set (rgb := (Some r, Some g, Some b)).
    assert (v = 0 \/ v = 1 \/ v = 2)%nat as [-> | [-> | ->]] by lia.
    + rewrite !(paint_lookup_other _ (9 * k + 6)), !(paint_lookup_other _ (9 * k + 3)) by lia.
      replace (9 * k + 3 * 0)%nat with (9 * k)%nat by lia.
      apply paint_lookup. lia.
    + rewrite !(paint_lookup_other _ (9 * k + 6)) by lia.
      replace (9 * k + 3 * 1)%nat with (9 * k + 3)%nat by lia.
      apply paint_lookup. rewrite length_paint. lia.
    + replace (9 * k + 3 * 2)%nat with (9 * k + 6)%nat by lia.
      apply paint_lookup. rewrite !length_paint. lia.
  - specialize (Hfaces face v ltac:(lia) Hv3).
    destruct (facet_color buf idx face) as [[r g] b].
    rewrite !(paint_lookup_other _ (9 * k + 6)), !(paint_lookup_other _ (9 * k + 3)),
      !(paint_lookup_other _ (9 * k)) by lia.
    exact Hfaces.
Qed.

Lemma faces_painted buf faces idx size st0 : forall k st,
  (9 * k <= size)%nat ->
  painted buf idx size 0 st0 ->
  foldM (face_body (new buf) (header_at buf faces idx)) (seq 0 k) st0 = Ok st ->
  painted buf idx size k st.
Proof.
  induction k as [|k IH]; intros st Hsize H0.
  - cbn [seq foldM]. intros [= <-]. exact H0.
  - rewrite seq_S, foldM_app. cbn [Nat.add].
    destruct (foldM _ (seq 0 k) st0) as [s1|] eqn:E; [|discriminate].
    cbn [bind foldM].
    destruct (face_body _ _ s1 k) as [s2|] eqn:E2; [|discriminate].
    cbn [bind]. intros [= <-].
    replace (S k) with (k + 1)%nat by lia.
    eapply face_body_painted; [lia| |exact E2].
    apply IH; [lia|assumption|reflexivity].
Qed.

Lemma length_Float32Array n : length (Float32Array n) = Z.to_nat n.
Proof. apply length_replicate. Qed.

(** C6: in a binary decode whose header carries the [COLOR=] signature (the
    last one at [idx], the default color in the four bytes after it), the
    packed color of each face, the little-endian 16-bit word at offset 48
    of its 50-byte record, decides the color of all three of its vertices:
    with bit 15 clear the channels are [(p & 0x1F) / 31],
    [((p >> 5) & 0x1F) / 31] and [((p >> 10) & 0x1F) / 31], with bit 15 set
    they are the default color, each byte over 255, as the 32-bit floats of
    the color array hold them. *)
Theorem parseBinary_face_colors (buf : list byte) (g : BufferGeometry) (idx : nat) :
  parseBinary buf = Ok g ->
  last_signature buf = Some idx ->
  geometry_hasColors g = true
  /\ exists c,
      color g = Some c
      /\ length c = Z.to_nat (uint32_le buf 80 * 3 * 3)
      /\ forall face v,
          Z.of_nat face < uint32_le buf 80 -> (v < 3)%nat ->
          let '(r, g, b) := facet_color buf idx face in
          c !! (9 * face + 3 * v)%nat = Some (fround r)
          /\ c !! (9 * face + 3 * v + 1)%nat = Some (fround g)
          /\ c !! (9 * face + 3 * v + 2)%nat = Some (fround b).
Proof.
  unfold parseBinary. rewrite getUint32_le.
  destruct (Nat.ltb_spec (length buf) (80 + 4)); [discriminate|]. cbn [bind].
  rewrite scan_header_result by lia. cbn [bind]. intros Hg Hidx. rewrite Hidx in Hg.
  cbn [header_of] in Hg.
  destruct (foldM _ (seq 0 (Z.to_nat (uint32_le buf 80))) _) as [st|] eqn:E; [|discriminate].
  cbn [bind] in Hg. injection Hg as <-. cbn [geometry_hasColors color hasColors header_at].
  split; [reflexivity|].
  apply (faces_painted buf _ idx (Z.to_nat (uint32_le buf 80 * 3 * 3))) in E.
  - destruct E as (_ & _ & _ & c & Hc & Hlen & Hfaces).
    exists c. split; [assumption|]. split; [assumption|].
    intros face v Hface Hv. apply Hfaces; [lia|assumption].
  - lia.
  - cbn [header_at colors0]. split; [reflexivity|]. cbn [vertices normals colors].
    rewrite !length_Float32Array. split; [reflexivity|]. split; [reflexivity|].
    eexists. split; [reflexivity|]. split; [apply length_Float32Array|].
    intros face v Hface. lia.
Qed.

Lemma vertex_body_bounds buf h start normal rgb st i st' :
  vertex_body (new buf) h start normal rgb st i = Ok st' ->
  (start + i * 12 + 12 <= length buf)%nat.
Proof.
  unfold vertex_body. destruct normal as [[nx ny] nz]. destruct rgb as [[r g] b].
  destruct (getFloat32 (new buf) (start + i * 12) (Some true)); [|discriminate].
  destruct (getFloat32 (new buf) (start + i * 12 + 4) (Some true)); [|discriminate].
  destruct (getFloat32 (new buf) (start + i * 12 + 8) (Some true)) eqn:E; [|discriminate].
  intros _. apply getFloat32_bounds in E. lia.
Qed.

Lemma face_body_lengths buf h st face st' :
  face_body (new buf) h st face = Ok st' ->
  (84 + face * 50 + 48 <= length buf)%nat
  /\ length (vertices st') = length (vertices st)
  /\ length (normals st') = length (normals st).
Proof.
  unfold face_body.
  destruct (getFloat32 (new buf) (84 + face * (12 * 4 + 2)) (Some true)) as [nx|];
    [|discriminate].
  destruct (getFloat32 (new buf) (84 + face * (12 * 4 + 2) + 4) (Some true)) as [ny|];
    [|discriminate].
  destruct (getFloat32 (new buf) (84 + face * (12 * 4 + 2) + 8) (Some true)) as [nz|];
    [|discriminate].
  cbn [bind]. change (12 * 4 + 2)%nat with 50%nat.
  match goal with |- context [bind ?m _] => destruct m as [rgb|]; [|discriminate] end.
  cbn [bind foldM].
  destruct (vertex_body _ _ _ _ rgb st 1) as [s1|] eqn:E1; [|discriminate]. cbn [bind].
  destruct (vertex_body _ _ _ _ rgb s1 2) as [s2|] eqn:E2; [|discriminate]. cbn [bind].
  destruct (vertex_body _ _ _ _ rgb s2 3) as [s3|] eqn:E3; [|discriminate]. cbn [bind].
  intros [= <-]. apply vertex_body_bounds in E3 as B.
  apply vertex_body_colors in E1, E2, E3.
  destruct E1 as (_ & V1 & N1 & _), E2 as (_ & V2 & N2 & _), E3 as (_ & V3 & N3 & _).
  split; [lia|]. split; congruence.
Qed.

(** C7 (amended): the triangle count that drives the loop over the records
    is the little-endian 32-bit unsigned integer in bytes 80 to 83, the four
    bytes after the 80-byte header: a decode that succeeds yields 9
    coordinates and 9 normal components for each of that many triangles, and
    has read a record for each of them. *)
Theorem parseBinary_triangle_count (buf : list byte) (g : BufferGeometry) :
  parseBinary buf = Ok g ->
  length (position g) = Z.to_nat (uint32_le buf 80 * 3 * 3)
  /\ length (normal g) = Z.to_nat (uint32_le buf 80 * 3 * 3)
  /\ (1 <= uint32_le buf 80 -> 82 + 50 * uint32_le buf 80 <= Z.of_nat (length buf)).
Proof.
  unfold parseBinary. rewrite getUint32_le.
  destruct (Nat.ltb_spec (length buf) (80 + 4)); [discriminate|]. cbn [bind].
  rewrite scan_header_result by lia. cbn [bind].
  set (h := header_of buf _ _). set (n := uint32_le buf 80).
  destruct (foldM _ (seq 0 (Z.to_nat n)) _) as [st|] eqn:E; [|discriminate].
  cbn [bind]. intros [= <-]. cbn [position normal].
  pose proof E as E'.
  apply (foldM_invariant
           (fun s s' => length (vertices s') = length (vertices s)
                        /\ length (normals s') = length (normals s))) in E'.
  - cbn [vertices normals] in E'. rewrite !length_Float32Array in E'.
    destruct E' as [-> ->]. split; [reflexivity|]. split; [reflexivity|].
    intros Hn. destruct (Z.to_nat n) as [|k] eqn:Ek; [lia|].
    rewrite seq_S, foldM_app in E. cbn [Nat.add] in E.
    destruct (foldM _ (seq 0 k) _) as [s1|]; [|discriminate].
    cbn [bind foldM] in E.
    destruct (face_body (new buf) h s1 k) as [s2|] eqn:E2; [|discriminate].
    apply face_body_lengths in E2. lia.
  - auto.
  - intros s1 s2 s3 [? ?] [? ?]. split; congruence.
  - intros s a s' Hb. apply face_body_lengths in Hb. tauto.
Qed.

Lemma getFloat32_succeeds buf o le :
  (o + 4 <= length buf)%nat -> exists x, getFloat32 (new buf) o le = Ok x.
Proof.
  intros H. unfold getFloat32. rewrite _getBytes_new.
  destruct (Nat.ltb_spec (length buf) (o + 4)); [lia|].
  destruct (negb (truthy le) && (1 <? 4)%nat); cbn [bind];
    repeat match goal with |- context [if ?c then _ else _] => destruct c end; eauto.
Qed.

Lemma vertex_body_succeeds buf h start normal rgb st i :
  (start + i * 12 + 12 <= length buf)%nat ->
  exists st', vertex_body (new buf) h start normal rgb st i = Ok st'.
Proof.
  intros H. unfold vertex_body. destruct normal as [[nx ny] nz]. destruct rgb as [[r g] b].
  destruct (getFloat32_succeeds buf (start + i * 12) (Some true)) as [x ->]; [lia|].
  destruct (getFloat32_succeeds buf (start + i * 12 + 4) (Some true)) as [y ->]; [lia|].
  destruct (getFloat32_succeeds buf (start + i * 12 + 8) (Some true)) as [z ->]; [lia|].
  cbn [bind]. eauto.
Qed.

Lemma face_body_succeeds buf h st face :
  (84 + face * 50 + 50 <= length buf)%nat ->
  exists st', face_body (new buf) h st face = Ok st'.
Proof.
  intros H. unfold face_body. change (12 * 4 + 2)%nat with 50%nat.
  destruct (getFloat32_succeeds buf (84 + face * 50) (Some true)) as [x ->]; [lia|].
  destruct (getFloat32_succeeds buf (84 + face * 50 + 4) (Some true)) as [y ->]; [lia|].
  destruct (getFloat32_succeeds buf (84 + face * 50 + 8) (Some true)) as [z ->]; [lia|].
  cbn [bind]. rewrite getUint16_le.
  destruct (Nat.ltb_spec (length buf) (84 + face * 50 + 48 + 2)); [lia|].
  assert (Hrgb : exists rgb,
             (if hasColors h
              then let* packedColor := Ok (uint16_le buf (84 + face * 50 + 48)) in
                   Ok (face_color h packedColor)
              else Ok (None, None, None)) = Ok rgb)
    by (destruct (hasColors h); cbn [bind]; eauto).
  destruct Hrgb as [rgb ->]. cbn [bind foldM].
  destruct (vertex_body_succeeds buf h (84 + face * 50) (x, y, z) rgb st 1) as [s1 ->]; [lia|].
  cbn [bind].
  destruct (vertex_body_succeeds buf h (84 + face * 50) (x, y, z) rgb s1 2) as [s2 ->]; [lia|].
  cbn [bind].
  destruct (vertex_body_succeeds buf h (84 + face * 50) (x, y, z) rgb s2 3) as [s3 ->]; [lia|].
  cbn [bind]. eauto.
Qed.

Lemma faces_succeed buf h k : forall st,
  (84 + k * 50 <= length buf)%nat ->
  exists st', foldM (face_body (new buf) h) (seq 0 k) st = Ok st'.
Proof.
  induction k as [|k IH]; intros st H.
  - cbn. eauto.
  - rewrite seq_S, foldM_app. destruct (IH st ltac:(lia)) as [s1 ->]. cbn [bind foldM Nat.add].
    destruct (face_body_succeeds buf h s1 k ltac:(lia)) as [s2 ->]. cbn [bind]. eauto.
Qed.

(** A buffer that holds a record for each triangle it declares decodes: the
    two theorems above are about every such buffer. *)
Lemma parseBinary_succeeds (buf : list byte) :
  84 + 50 * uint32_le buf 80 <= Z.of_nat (length buf) ->
  exists g, parseBinary buf = Ok g.
Proof.
  intros H. unfold parseBinary. rewrite getUint32_le.
  assert (0 <= uint32_le buf 80).
  { unfold uint32_le. pose proof (at_bound buf 80). pose proof (at_bound buf (80 + 1)).
    pose proof (at_bound buf (80 + 2)). pose proof (at_bound buf (80 + 3)). lia. }
  destruct (Nat.ltb_spec (length buf) (80 + 4)); [lia|]. cbn [bind].
  rewrite scan_header_result by lia. cbn [bind].
  destruct (faces_succeed buf (header_of buf (uint32_le buf 80) (last_signature buf))
              (Z.to_nat (uint32_le buf 80))
              {| vertices := Float32Array (uint32_le buf 80 * 3 * 3);
                 normals := Float32Array (uint32_le buf 80 * 3 * 3);
                 colors := colors0 (header_of buf (uint32_le buf 80) (last_signature buf));
                 offset := 0 |} ltac:(lia)) as [st ->].
  cbn [bind]. eauto.
Qed.

End STLFacts.

(** ** PLY *)

Module PLYFacts.

Import Str Parse PLYLoader PLYSpec.

Lemma get_insert_eq (m : gmap string jsval) k v : get (<[k := v]> m) k = v.
Proof. unfold get. by rewrite lookup_insert_eq. Qed.

Lemma get_insert_ne (m : gmap string jsval) k k' v :
  k ≠ k' -> get (<[k := v]> m) k' = get m k'.
Proof. intros H. unfold get. by rewrite lookup_insert_ne. Qed.

(** C2: a face record whose index list is [i0, i1, i2, i3] appends exactly
    the two triangles [(i0, i1, i3)] and [(i1, i2, i3)], in that order, and
    one whose list is [i0, i1, i2] appends exactly the triangle
    [(i0, i1, i2)]; nothing else of the mesh changes. *)
Theorem handleElement_face_triangulation
        (g : Geometry) (m : gmap string jsval) (i0 i1 i2 i3 : option number) :
  handleElement g (Some "face"%string) (<["vertex_indices"%string := Arr [i0; i1; i2; i3]]> m)
  = Ok (with_faces g [new_Face3 i0 i1 i3; new_Face3 i1 i2 i3])
  /\ handleElement g (Some "face"%string) (<["vertex_indices"%string := Arr [i0; i1; i2]]> m)
     = Ok (with_faces g [new_Face3 i0 i1 i2]).
Proof.
  split; unfold handleElement; rewrite get_insert_eq; reflexivity.
Qed.

(** C4 (amended): a face record whose index list has a length other than 3
    or 4 raises no error: the face is dropped, and the mesh stays as it
    was. *)
Theorem handleElement_face_other_arity
        (g : Geometry) (m : gmap string jsval) (l : list (option number)) :
  length l <> 3%nat -> length l <> 4%nat ->
  handleElement g (Some "face"%string) (<["vertex_indices"%string := Arr l]> m) = Ok g.
Proof.
  intros H3 H4. unfold handleElement. rewrite get_insert_eq. cbn.
  destruct (Nat.eqb_spec (length l) 3); [contradiction|].
  destruct (Nat.eqb_spec (length l) 4); [contradiction|].
  reflexivity.
Qed.

Lemma handleElement_vertex (g : Geometry) (r : record) :
  is_vertex r = true ->
  exists g',
    handleElement g (fst r) (snd r) = Ok g'
    /\ vertices g' = vertices g ++ [position_of r]
    /\ colors g' = colors g ++ (if has_rgb r then [color_of r] else [])
    /\ useColor g' = useColor g || has_rgb r
    /\ faces g' = faces g.
Proof.
  intros Hv. unfold is_vertex in Hv. unfold handleElement. rewrite Hv.
  unfold has_rgb, position_of, color_of.
  destruct (has (snd r) "red" && has (snd r) "green" && has (snd r) "blue");
    eexists; (split; [reflexivity|]); cbn;
    rewrite ?app_nil_r, ?orb_true_r, ?orb_false_r; auto.
Qed.

Lemma handleElement_other (g g' : Geometry) (r : record) :
  is_vertex r = false ->
  handleElement g (fst r) (snd r) = Ok g' ->
  vertices g' = vertices g /\ colors g' = colors g /\ useColor g' = useColor g
  /\ exists fs, faces g' = faces g ++ fs.
Proof.
  intros Hv. unfold is_vertex in Hv. unfold handleElement. rewrite Hv.
  destruct (is_string (fst r) "face").
  - destruct (get (snd r) "vertex_indices") as [| |l]; [discriminate| |].
    + intros [= <-]. repeat split; auto. exists []. by rewrite app_nil_r.
    + destruct (length l =? 3)%nat; [|destruct (length l =? 4)%nat];
        intros [= <-]; cbn; repeat split; eauto.
      exists []. by rewrite app_nil_r.
  - intros [= <-]. repeat split; auto. exists []. by rewrite app_nil_r.
Qed.

(** C10: the position that a vertex record appends to the mesh is made of
    its fields [x], [y] and [z], in that order, and of nothing else: adding
    or changing any other field of the record leaves the position as it
    is. *)
Theorem handleElement_vertex_position (g : Geometry) (element : gmap string jsval) :
  exists g',
    handleElement g (Some "vertex"%string) element = Ok g'
    /\ vertices g'
       = vertices g
         ++ [{| x := get element "x"; y := get element "y"; z := get element "z" |}]
    /\ forall (k : string) (v : jsval) (g'' : Geometry),
        k <> "x"%string -> k <> "y"%string -> k <> "z"%string ->
        handleElement g (Some "vertex"%string) (<[k := v]> element) = Ok g'' ->
        vertices g'' = vertices g'.
Proof.
  destruct (handleElement_vertex g (Some "vertex"%string, element) eq_refl)
    as (g' & H & Hv & _).
  exists g'. split; [exact H|]. split; [exact Hv|].
  intros k v g'' Hx Hy Hz H'.
  destruct (handleElement_vertex g (Some "vertex"%string, <[k := v]> element) eq_refl)
    as (g2 & H2 & Hv2 & _).
  cbn [fst snd] in *. rewrite H' in H2. injection H2 as <-.
  rewrite Hv, Hv2. unfold position_of. cbn [snd].
  rewrite !get_insert_ne by assumption. reflexivity.
Qed.

Lemma fold_handle (records : list record) (g0 g : Geometry) :
  foldM handle records g0 = Ok g ->
  vertices g = vertices g0 ++ map position_of (vertex_records records)
  /\ colors g = colors g0 ++ map color_of (List.filter has_rgb (vertex_records records))
  /\ useColor g = useColor g0 || existsb has_rgb (vertex_records records).
Proof.
  revert g0. induction records as [|r records IH]; intros g0; cbn.
  - intros [= <-]. rewrite !app_nil_r, orb_false_r. auto.
  - unfold vertex_records. cbn [List.filter].
    destruct (is_vertex r) eqn:Hv.
    + destruct (handleElement_vertex g0 r Hv) as (g1 & H1 & Hvs & Hcs & Hu & _).
      unfold handle at 1. rewrite H1. cbn [bind]. intros H.
      apply IH in H. destruct H as (Hvs' & Hcs' & Hu').
      rewrite Hvs', Hcs', Hu', Hvs, Hcs, Hu. cbn [map List.filter existsb].
      destruct (has_rgb r); cbn [map app];
        rewrite <- ?app_assoc, ?app_nil_r, ?orb_true_r, ?orb_false_r; cbn; auto.
    + unfold handle at 1. destruct (handleElement g0 (fst r) (snd r)) as [g1|] eqn:H1;
        [|discriminate].
      cbn [bind]. intros H.
      apply (handleElement_other _ _ _ Hv) in H1. destruct H1 as (Hvs & Hcs & Hu & _).
      apply IH in H. destruct H as (Hvs' & Hcs' & Hu').
      rewrite Hvs', Hcs', Hu', Hvs, Hcs, Hu. auto.
Qed.

Lemma postProcess_fields (g : Geometry) :
  vertices (postProcess g) = vertices g
  /\ colors (postProcess g) = colors g
  /\ useColor (postProcess g) = useColor g
  /\ length (faces (postProcess g)) = length (faces g).
Proof.
  unfold postProcess. destruct (useColor g) eqn:E; cbn; rewrite ?length_map; auto.
Qed.

(** C5 (amended): the mesh is marked as colored if and only if at least one
    vertex record carries all three of red, green and blue, and the color
    array holds one color for each such record, in order. So when every
    vertex record carries them, and there is one, the mesh is colored with
    one color per vertex; when none does, it is not colored and has no
    color. *)
Theorem assemble_color_presence (records : list record) (g : Geometry) :
  assemble records = Ok g ->
  useColor g = existsb has_rgb (vertex_records records)
  /\ vertices g = map position_of (vertex_records records)
  /\ colors g = map color_of (List.filter has_rgb (vertex_records records))
  /\ (forallb has_rgb (vertex_records records) = true ->
      vertex_records records <> [] ->
      useColor g = true /\ length (colors g) = length (vertices g))
  /\ (existsb has_rgb (vertex_records records) = false ->
      useColor g = false /\ colors g = []).
Proof.
  unfold assemble. 
  destruct (foldM _ records new_Geometry) as [g1|] eqn:H; [|discriminate].
  cbn [bind]. intros [= <-].
  apply (fold_handle records new_Geometry g1) in H.
  destruct H as (Hv & Hc & Hu). cbn in Hv, Hc, Hu.
  destruct (postProcess_fields g1) as (Pv & Pc & Pu & _).
  rewrite Pv, Pc, Pu, Hv, Hc, Hu.
  split; [reflexivity|]. split; [reflexivity|]. split; [reflexivity|].
  generalize (vertex_records records) as vs. intros vs. split.
  - intros Hall Hne. split.
    + destruct vs as [|v vs]; [contradiction|]. cbn in *.
      apply andb_prop in Hall. destruct Hall as [-> _]. reflexivity.
    + rewrite !length_map. f_equal.
      clear Hne. induction vs as [|v vs IH]; [reflexivity|]. cbn in *.
      apply andb_prop in Hall. destruct Hall as [Hv1 Hall]. rewrite Hv1.
      f_equal. auto.
  - intros Hex. split; [exact Hex|].
    induction vs as [|v vs IH]; [reflexivity|]. cbn in *.
    apply orb_false_elim in Hex. destruct Hex as [-> Hex]. auto.
Qed.

Lemma extends_refl g : extends g g.
Proof. split; exists []; by rewrite app_nil_r. Qed.

Lemma extends_trans g1 g2 g3 : extends g1 g2 -> extends g2 g3 -> extends g1 g3.
Proof.
  intros [[vs Hv] [fs Hf]] [[vs' Hv'] [fs' Hf']]. split.
  - exists (vs ++ vs'). by rewrite Hv', Hv, app_assoc.
  - exists (fs ++ fs'). by rewrite Hf', Hf, app_assoc.
Qed.

Lemma handleElement_extends g name element g' :
  handleElement g name element = Ok g' -> extends g g'.
Proof.
  unfold handleElement.
  destruct (is_string name "vertex").
  { destruct (_ && _); intros [= <-]; (split; cbn; [eauto|exists []; by rewrite app_nil_r]). }
  destruct (is_string name "face"); [|intros [= <-]; apply extends_refl].
  destruct (get element "vertex_indices") as [| |l]; [discriminate| |].
  { intros [= <-]; apply extends_refl. }
  destruct (length l =? 3)%nat; [|destruct (length l =? 4)%nat];
    intros [= <-]; try apply extends_refl;
    (split; cbn; [exists []; by rewrite app_nil_r|rewrite map_app; eauto]).
Qed.

Lemma body_line_extends header st line st' :
  body_line header st line = Ok st' -> extends (geometry st) (geometry st').
Proof.
  unfold body_line.
  destruct (String.eqb (trim line) ""); [intros [= <-]; apply extends_refl|].
  destruct (nth_error (elements header) (currentElementIndex st)) as [e|]; [|discriminate].
  destruct (if geq _ _ then _ else _) as [i n].
  destruct (nth_error (elements header) i) as [e'|]; [|discriminate].
  destruct (parseASCIIElement (properties e') (trim line)) as [element|]; [|discriminate].
  cbn [bind].
  destruct (handleElement (geometry st) (element_name e') element) as [g'|] eqn:E;
    [|discriminate].
  cbn [bind]. intros [= <-]. cbn. eapply handleElement_extends; eassumption.
Qed.

Lemma postProcess_corners g : map corners (faces (postProcess g)) = map corners (faces g).
Proof.
  unfold postProcess. destruct (useColor g); [|reflexivity]. cbn.
  rewrite map_map. reflexivity.
Qed.

Lemma postProcess_vertices g : vertices (postProcess g) = vertices g.
Proof. unfold postProcess. destruct (useColor g); reflexivity. Qed.

Lemma body_lines_nonblank header lines : forall st,
  foldM (body_line header) lines st
  = foldM (body_line header) (List.filter nonblank lines) st.
Proof.
  induction lines as [|line lines IH]; intros st; [reflexivity|].
  cbn [List.filter foldM]. unfold nonblank at 1.
  destruct (String.eqb (trim line) "") eqn:E; cbn [negb].
  - unfold body_line at 1. rewrite E. cbn [bind]. apply IH.
  - cbn [foldM]. destruct (body_line header st line); cbn [bind]; auto.
Qed.

(** Whenever a text decodes, a text with the same header whose non-blank
    body lines are only the first of them decodes as well, and to a mesh
    that the mesh of the whole text extends: the same vertices and faces,
    then those of the missing lines. *)
Lemma parseASCII_prefix
        (mapping : gmap string string) (data data' : string) (header : header)
        (rest : list string) (g : Geometry) :
  parseHeader mapping data = Ok header ->
  parseHeader mapping data' = Ok header ->
  record_lines data = record_lines data' ++ rest ->
  parseASCII mapping data = Ok g ->
  exists g', parseASCII mapping data' = Ok g' /\ extends g' g.
Proof.
  unfold parseASCII, record_lines. fold (body_lines data) (body_lines data').
  intros -> -> Hlines. cbn [bind].
  rewrite (body_lines_nonblank header (body_lines data)),
    (body_lines_nonblank header (body_lines data')), Hlines, foldM_app.
  destruct (foldM (body_line header) (List.filter nonblank (body_lines data')) _)
    as [st1|]; [|discriminate].
  cbn [bind].
  destruct (foldM (body_line header) rest st1) as [st2|] eqn:E2; [|discriminate].
  cbn [bind]. intros [= <-]. eexists. split; [reflexivity|].
  assert (H : extends (geometry st1) (geometry st2)).
  { revert E2. apply (foldM_invariant (fun s s' => extends (geometry s) (geometry s'))).
    - intros; apply extends_refl.
    - intros; eapply extends_trans; eassumption.
    - intros; eapply body_line_extends; eassumption. }
  destruct H as [Hv Hf]. split.
  - by rewrite !postProcess_vertices.
  - by rewrite !postProcess_corners.
Qed.

(** Every ASCII decode is an assembly of records. *)
Lemma body_lines_records header lines st st' :
  foldM (body_line header) lines st = Ok st' ->
  exists records,
    foldM (fun g r => handleElement g (fst r) (snd r)) records (geometry st)
    = Ok (geometry st').
Proof.
  revert st. induction lines as [|line lines IH]; intros st; cbn.
  - intros [= <-]. exists []. reflexivity.
  - destruct (body_line header st line) as [st1|] eqn:E; [|discriminate].
    cbn [bind]. intros H. apply IH in H. destruct H as [records H].
    unfold body_line in E.
    destruct (String.eqb (trim line) ""); [injection E as <-; eauto|].
    destruct (nth_error (elements header) (currentElementIndex st)) as [e|]; [|discriminate].
    destruct (if geq _ _ then _ else _) as [i n].
    destruct (nth_error (elements header) i) as [e'|]; [|discriminate].
    destruct (parseASCIIElement (properties e') (trim line)) as [element|]; [|discriminate].
    cbn [bind] in E.
    destruct (handleElement (geometry st) (element_name e') element) as [g'|] eqn:E';
      [|discriminate].
    cbn [bind] in E. injection E as <-. cbn in H.
    exists ((element_name e', element) :: records). cbn. rewrite E'. exact H.
Qed.

Lemma parseASCII_assemble mapping data g :
  parseASCII mapping data = Ok g -> exists records, assemble records = Ok g.
Proof.
  unfold parseASCII, assemble.
  destruct (parseHeader mapping data) as [header|]; [|discriminate]. cbn [bind].
  destruct (foldM (body_line header) _ _) as [st|] eqn:E; [|discriminate].
  cbn [bind]. intros [= <-].
  apply body_lines_records in E. destruct E as [records E]. cbn in E.
  exists records. rewrite E. reflexivity.
Qed.

Lemma header_line_comments mapping st line st' :
  header_line mapping st line = Ok st' ->
  comments (hdr st') = comments (hdr st) ++ from_option (fun c => [c]) [] (comment_of line).
Proof.
  unfold header_line, comment_of.
  destruct (String.eqb (trim line) "") eqn:E.
  { intros [= <-]. cbn. by rewrite app_nil_r. }
  destruct (is_string (hd_error (split_ws (trim line))) "format") eqn:Ef.
  { intros [= <-]. cbn.
    destruct (hd_error (split_ws (trim line))) as [t|]; [|discriminate].
    cbn in Ef. apply String.eqb_eq in Ef. subst t. cbn. by rewrite app_nil_r. }
  destruct (is_string (hd_error (split_ws (trim line))) "comment") eqn:Ec.
  { intros [= <-]. reflexivity. }
  cbn [from_option]. rewrite app_nil_r.
  destruct (is_string (hd_error (split_ws (trim line))) "element") eqn:Ee.
  { intros [= <-]. cbn. destruct (currentElement st); reflexivity. }
  destruct (is_string (hd_error (split_ws (trim line))) "property") eqn:Ep.
  { destruct (currentElement st); [|discriminate]. intros [= <-]. reflexivity. }
  intros [= <-]. reflexivity.
Qed.

Lemma header_lines_comments mapping lines st st' :
  foldM (header_line mapping) lines st = Ok st' ->
  comments (hdr st') = comments (hdr st) ++ omap comment_of lines.
Proof.
  revert st. induction lines as [|l lines IH]; intros st; cbn.
  - intros [= <-]. by rewrite app_nil_r.
  - destruct (header_line mapping st l) as [st1|] eqn:E; [|discriminate].
    cbn. intros H. apply IH in H. rewrite H.
    apply header_line_comments in E. rewrite E, <- app_assoc. f_equal.
    destruct (comment_of l); reflexivity.
Qed.

Lemma split_ws_from_no_ws s : forall in_ws,
  Forall (fun t => no_ws t = true) (split_ws_from in_ws s).
Proof.
  induction s as [|c s IH]; intros in_ws; cbn.
  - repeat constructor.
  - destruct (is_ws c) eqn:E.
    + destruct in_ws; [apply IH|]. constructor; [reflexivity|apply IH].
    + specialize (IH false). destruct (split_ws_from false s) as [|t ts].
      * repeat constructor. unfold no_ws. cbn. by rewrite E.
      * inversion IH; subst. constructor; [|assumption].
        unfold no_ws in *. cbn. by rewrite E.
Qed.

(** C9 (amended): the comments of the header are the texts of its comment
    lines, in the order of the lines and with repetitions kept; the text of
    a comment line is its tokens after [comment] joined by one space each,
    so that white space around it is dropped and every run of white space
    inside it becomes one space. *)
Theorem parseHeader_comments
        (mapping : gmap string string) (data : string) (h : header) :
  parseHeader mapping data = Ok h ->
  comments h = omap comment_of (split "010" (headerText data))
  /\ Forall (fun c => exists tokens,
                 c = join " " tokens /\ Forall (fun t => no_ws t = true) tokens)
            (comments h).
Proof.
  unfold parseHeader, headerText. intros H.
  assert (Hc : comments h = omap comment_of
                 (split "010" match patternHeader data with Some r => r.1 | None => ""%string end)).
  { destruct (patternHeader data) as [[text len]|]; cbn [fst] in *;
    (match type of H with
     | context [foldM ?f ?l ?s] => destruct (foldM f l s) as [st|] eqn:E; [|discriminate]
     end);
    cbn in H; injection H as <-;
    apply header_lines_comments in E; cbn in E;
    destruct (currentElement st); cbn; exact E. }
  split; [exact Hc|].
  rewrite Hc. clear.
  generalize (split "010" match patternHeader data with Some r => r.1 | None => ""%string end).
  intros lines. induction lines as [|l lines IH]; cbn; [constructor|].
  destruct (comment_of l) as [c|] eqn:E; [|exact IH].
  constructor; [|exact IH].
  unfold comment_of in E.
  destruct (String.eqb (trim l) ""); [discriminate|].
  destruct (is_string _ "comment"); [|discriminate].
  injection E as <-. eexists. split; [reflexivity|].
  pose proof (split_ws_from_no_ws (trim l) false) as HF. unfold split_ws.
  destruct (split_ws_from false (trim l)); cbn; [constructor|].
  by inversion HF.
Qed.
(** *** The fields of a record *)

Lemma has_insert (m : gmap string jsval) k k' v :
  has (<[k' := v]> m) k = String.eqb k k' || has m k.
Proof.
  unfold has. destruct (String.eqb_spec k k') as [->|Hne].
  - rewrite lookup_insert_eq. reflexivity.
  - rewrite lookup_insert_ne by congruence. reflexivity.
Qed.

Lemma read_property_has values element p values' element' :
  read_property (values, element) p = Ok (values', element') ->
  forall k, has element' k = String.eqb k (ToString (name p)) || has element k.
Proof.
  unfold read_property. destruct (is_string (type p) "list").
  - destruct (loop_count _) as [n|]; [|discriminate].
    destruct (read_list n (itemType p) (tl values)) as [l rest].
    intros [= <- <-] k. apply has_insert.
  - intros [= <- <-] k. apply has_insert.
Qed.

Lemma read_properties_has properties : forall st st',
  foldM read_property properties st = Ok st' ->
  forall k, has (snd st') k
            = existsb (fun p => String.eqb k (ToString (name p))) properties
              || has (snd st) k.
Proof.
  induction properties as [|p properties IH]; intros st st'; cbn [foldM existsb].
  - intros [= <-] k. reflexivity.
  - destruct st as [values element].
    destruct (read_property (values, element) p) as [[values1 element1]|] eqn:E;
      [|discriminate].
    cbn [bind]. intros H k. rewrite (IH _ _ H k). cbn [snd].
    rewrite (read_property_has _ _ _ _ _ E k).
    rewrite orb_assoc. f_equal. apply orb_comm.
Qed.

(** The fields of a decoded record are the properties of its element,
    whatever the line: all records of one element have the same fields. *)
Lemma parseASCIIElement_has properties line element :
  parseASCIIElement properties line = Ok element ->
  forall k, has element k
            = existsb (fun p => String.eqb k (ToString (name p))) properties.
Proof.
  unfold parseASCIIElement.
  destruct (foldM read_property properties _) as [st|] eqn:E; [|discriminate].
  cbn [bind]. intros [= <-] k. rewrite (read_properties_has _ _ _ E k). cbn [snd].
  replace (has ∅ k) with false by (unfold has; by rewrite lookup_empty).
  apply orb_false_r.
Qed.

(** X15: the records of one element all have the same fields, so either
    all of them carry the three colors or none does. *)
Theorem same_element_same_color_presence properties line line' element element' name name' :
  parseASCIIElement properties line = Ok element ->
  parseASCIIElement properties line' = Ok element' ->
  has_rgb (name, element) = has_rgb (name', element').
Proof.
  intros H H'. unfold has_rgb. cbn [snd].
  rewrite !(parseASCIIElement_has _ _ _ H), !(parseASCIIElement_has _ _ _ H').
  reflexivity.
Qed.

End PLYFacts.

(** ** Floating-point reads *)

(** ** Exact rounding *)

Section Rounding.

Variables prec emax : Z.

Lemma digits2_pos_size p : digits2_pos p = Pos.size p.
Proof. induction p; cbn; congruence. Qed.

(** The number of binary digits of [p] is [d] when [2 ^ (d - 1) <= p < 2 ^ d]. *)
Lemma digits2_pos_bounds p : 2 ^ (Z.pos (digits2_pos p) - 1) <= Z.pos p < 2 ^ Z.pos (digits2_pos p).
Proof.
  rewrite digits2_pos_size. split.
  - pose proof (Pos.size_le p) as H.
    assert (Hz : Z.pos (2 ^ Pos.size p) <= Z.pos p~0) by exact H.
    rewrite Pos2Z.inj_pow in Hz.
    replace (2 ^ Z.pos (Pos.size p)) with (2 * 2 ^ (Z.pos (Pos.size p) - 1)) in Hz.
    + lia.
    + rewrite <- Z.pow_succ_r by lia. f_equal. lia.
  - pose proof (Pos.size_gt p) as H.
    assert (Hz : Z.pos p < Z.pos (2 ^ Pos.size p)) by exact H.
    by rewrite Pos2Z.inj_pow in Hz.
Qed.

Lemma digits2_pos_unique p d : 2 ^ (d - 1) <= Z.pos p < 2 ^ d -> Z.pos (digits2_pos p) = d.
Proof.
  intros [Hlo Hhi]. pose proof (digits2_pos_bounds p) as [Hlo' Hhi'].
  set (d' := Z.pos (digits2_pos p)) in *.
  assert (0 < d).
  { destruct (Z.le_gt_cases d 0) as [Hd|]; [|assumption].
    assert (2 ^ d <= 2 ^ 0) by (apply Z.pow_le_mono_r; lia). lia. }
  destruct (Z.lt_trichotomy d d') as [Hlt|[Heq|Hgt]]; [|congruence|].
  - assert (2 ^ d <= 2 ^ (d' - 1)) by (apply Z.pow_le_mono_r; lia). lia.
  - assert (2 ^ d' <= 2 ^ (d - 1)) by (apply Z.pow_le_mono_r; lia). lia.
Qed.

Lemma digits2_pos_log2 p : Z.pos (digits2_pos p) = Z.log2 (Z.pos p) + 1.
Proof.
  apply digits2_pos_unique.
  pose proof (Z.log2_spec (Z.pos p) ltac:(lia)) as H.
  replace (Z.log2 (Z.pos p) + 1 - 1) with (Z.log2 (Z.pos p)) by lia.
  replace (Z.log2 (Z.pos p) + 1) with (Z.succ (Z.log2 (Z.pos p))) by lia.
  exact H.
Qed.

Lemma pos_mul_pow2 p k : 0 <= k -> exists q, Z.pos p * 2 ^ k = Z.pos q.
Proof.
  intros Hk. assert (0 < Z.pos p * 2 ^ k) by (apply Z.mul_pos_pos; [lia|apply Z.pow_pos_nonneg; lia]).
  destruct (Z.pos p * 2 ^ k) as [|q|q]; [lia|eauto|lia].
Qed.

Lemma digits2_mul_pow2 p q k :
  0 <= k -> Z.pos p * 2 ^ k = Z.pos q ->
  Z.pos (digits2_pos q) = Z.pos (digits2_pos p) + k.
Proof.
  intros Hk Hq. apply digits2_pos_unique. rewrite <- Hq.
  pose proof (digits2_pos_bounds p) as [Hlo Hhi].
  set (d := Z.pos (digits2_pos p)) in *.
  assert (0 < 2 ^ k) by (apply Z.pow_pos_nonneg; lia).
  replace (d + k - 1) with (d - 1 + k) by lia.
  rewrite !Z.pow_add_r by lia. nia.
Qed.

Lemma iter_pos_nat {A : Type} (f : A -> A) p : forall x, SpecFloat.iter_pos f p x = Nat.iter (Pos.to_nat p) f x.
Proof.
  induction p as [p IH|p IH|]; intros x; cbn [SpecFloat.iter_pos].
  - rewrite !IH, Pos2Nat.inj_xI.
    replace (S (2 * Pos.to_nat p)) with (Pos.to_nat p + (Pos.to_nat p + 1))%nat by lia.
    rewrite !Nat.iter_add. reflexivity.
  - rewrite !IH, Pos2Nat.inj_xO.
    replace (2 * Pos.to_nat p)%nat with (Pos.to_nat p + Pos.to_nat p)%nat by lia.
    rewrite Nat.iter_add. reflexivity.
  - reflexivity.
Qed.

Lemma shr_1_exact n : forall m,
  Nat.iter n shr_1 {| shr_m := Z.pos m * 2 ^ Z.of_nat n; shr_r := false; shr_s := false |}
  = {| shr_m := Z.pos m; shr_r := false; shr_s := false |}.
Proof.
  induction n as [|n IH]; intros m.
  - change (Z.of_nat 0) with 0. rewrite Z.pow_0_r, Z.mul_1_r. reflexivity.
  - rewrite Nat.iter_succ_r.
    destruct (pos_mul_pow2 m (Z.of_nat n) ltac:(lia)) as [q Hq].
    replace (Z.pos m * 2 ^ Z.of_nat (S n)) with (Z.pos q~0).
    + cbn [shr_1 orb]. rewrite <- Hq. apply IH.
    + rewrite Nat2Z.inj_succ, Z.pow_succ_r by lia. lia.
Qed.

Lemma shr_exact m e k :
  0 <= k ->
  shr {| shr_m := Z.pos m * 2 ^ k; shr_r := false; shr_s := false |} e k
  = ({| shr_m := Z.pos m; shr_r := false; shr_s := false |}, e + k).
Proof.
  intros Hk. unfold shr. destruct k as [|p|p]; [|  |lia].
  - f_equal; [f_equal; rewrite Z.pow_0_r; lia|lia].
  - f_equal. rewrite iter_pos_nat.
    rewrite <- (positive_nat_Z p) at 1. apply shr_1_exact.
Qed.

(** A mantissa that ends in [k] zeros above a bounded one is rounded
    without error. *)
Lemma binary_round_aux_exact s m e k :
  bounded prec emax m e = true -> 0 <= k ->
  binary_round_aux prec emax s (Z.pos m * 2 ^ k) (e - k) loc_Exact = S754_finite s m e.
Proof.
  intros Hb Hk. unfold bounded, canonical_mantissa in Hb.
  apply andb_prop in Hb. destruct Hb as [Hc He].
  apply Z.eqb_eq in Hc. apply Z.leb_le in He.
  unfold binary_round_aux, shr_fexp.
  destruct (pos_mul_pow2 m k Hk) as [q Hq].
  rewrite Hq. cbn [Zdigits2]. rewrite (digits2_mul_pow2 m q k Hk Hq).
  replace (Z.pos (digits2_pos m) + k + (e - k)) with (Z.pos (digits2_pos m) + e) by lia.
  rewrite Hc. replace (e - (e - k)) with k by lia.
  cbn [shr_record_of_loc]. rewrite <- Hq, shr_exact by assumption.
  cbn [shr_m loc_of_shr_record round_nearest_even Zdigits2].
  replace (e - k + k) with e by lia. rewrite Hc, Z.sub_diag.
  cbn [shr shr_record_of_loc shr_m].
  apply Z.leb_le in He. rewrite He. reflexivity.
Qed.

Lemma pos_iter_xO q d : Z.pos (Pos.iter xO q d) = Z.pos q * 2 ^ Z.pos d.
Proof.
  induction d as [|d IH] using Pos.peano_ind.
  - cbn. lia.
  - rewrite Pos.iter_succ, Pos2Z.inj_xO, IH, Pos2Z.inj_succ, Z.pow_succ_r by lia. lia.
Qed.

(** [binary_round] is exact on a mantissa that is a bounded one followed by
    [k] zeros ... *)
Lemma binary_round_exact_shr s q m e k :
  bounded prec emax m e = true -> 0 <= k -> Z.pos q = Z.pos m * 2 ^ k ->
  binary_round prec emax s q (e - k) = S754_finite s m e.
Proof.
  intros Hb Hk Hq. unfold binary_round, shl_align.
  pose proof Hb as Hb'. unfold bounded, canonical_mantissa in Hb'.
  apply andb_prop in Hb'. destruct Hb' as [Hc _]. apply Z.eqb_eq in Hc.
  rewrite (digits2_mul_pow2 m q k Hk (eq_sym Hq)).
  replace (Z.pos (digits2_pos m) + k + (e - k)) with (Z.pos (digits2_pos m) + e) by lia.
  rewrite Hc. replace (e - (e - k)) with k by lia.
  destruct k as [|p|p]; [| |lia]; cbv beta iota zeta; rewrite Hq;
    apply binary_round_aux_exact; assumption || lia.
Qed.

(** ... and on one that needs [k] more zeros to become a bounded one. *)
Lemma binary_round_exact_shl s q m e k :
  bounded prec emax m e = true -> 0 <= k -> Z.pos m = Z.pos q * 2 ^ k ->
  binary_round prec emax s q (e + k) = S754_finite s m e.
Proof.
  intros Hb Hk Hm. unfold binary_round, shl_align.
  pose proof Hb as Hb'. unfold bounded, canonical_mantissa in Hb'.
  apply andb_prop in Hb'. destruct Hb' as [Hc _]. apply Z.eqb_eq in Hc.
  pose proof (digits2_mul_pow2 q m k Hk (eq_sym Hm)) as Hd.
  replace (Z.pos (digits2_pos q) + (e + k)) with (Z.pos (digits2_pos m) + e) by lia.
  rewrite Hc. destruct k as [|p|p]; [| |lia].
  - replace (e - (e + 0)) with 0 by lia. cbv beta iota zeta.
    rewrite Z.pow_0_r, Z.mul_1_r in Hm. injection Hm as Hm. subst q.
    replace (e + 0) with (e - 0) by lia.
    replace (Z.pos m) with (Z.pos m * 2 ^ 0) by (rewrite Z.pow_0_r; lia).
    apply binary_round_aux_exact; [assumption|lia].
  - replace (e - (e + Z.pos p)) with (Z.neg p) by lia. cbv beta iota zeta.
    assert (Hq : Pos.iter xO q p = m).
    { apply Pos2Z.inj. rewrite pos_iter_xO. congruence. }
    rewrite Hq. replace e with (e - 0) at 1 by lia.
    replace (Z.pos m) with (Z.pos m * 2 ^ 0) by (rewrite Z.pow_0_r; lia).
    apply binary_round_aux_exact; [assumption|lia].
Qed.
End Rounding.

(** ** Binary64 arithmetic on dyadic numbers *)

Section Binary64.

Lemma dyadic_pos s m e :
  0 < m -> dyadic s m e = S754_finite s (Z.to_pos (m * 2 ^ scale m e)) (e - scale m e).
Proof.
  intros Hm. unfold dyadic. destruct (Z.eqb_spec m 0); [lia|reflexivity].
Qed.

Lemma scaled_pos m k : 0 < m -> 0 <= k -> Z.pos (Z.to_pos (m * 2 ^ k)) = m * 2 ^ k.
Proof.
  intros Hm Hk. apply Z2Pos.id. apply Z.mul_pos_pos; [lia|apply Z.pow_pos_nonneg; lia].
Qed.

Lemma digits_scaled m k :
  0 < m -> 0 <= k -> Z.pos (digits2_pos (Z.to_pos (m * 2 ^ k))) = Z.log2 m + 1 + k.
Proof.
  intros Hm Hk. destruct m as [|p|p]; try lia.
  rewrite (digits2_mul_pow2 p (Z.to_pos (Z.pos p * 2 ^ k)) k Hk).
  - by rewrite digits2_pos_log2.
  - symmetry. apply scaled_pos; lia.
Qed.

Lemma dyadic_bounded m e :
  0 < m -> 0 <= scale m e -> e - scale m e <= emax - prec ->
  bounded prec emax (Z.to_pos (m * 2 ^ scale m e)) (e - scale m e) = true.
Proof.
  intros Hm Hk He. unfold bounded, canonical_mantissa.
  apply andb_true_intro. split; [|by apply Z.leb_le].
  apply Z.eqb_eq. rewrite digits_scaled by assumption.
  unfold fexp, SpecFloat.emin, scale, prec, emax in *. lia.
Qed.

Lemma of_dyadic_exact m e :
  0 < m -> 0 <= scale m e -> e - scale m e <= emax - prec ->
  of_dyadic m e = dyadic false m e.
Proof.
  intros Hm Hk He. rewrite dyadic_pos by assumption.
  unfold of_dyadic. destruct m as [|p|p]; try lia. cbn [binary_normalize].
  replace e with (e - scale (Z.pos p) e + scale (Z.pos p) e) at 1 by lia.
  apply binary_round_exact_shl; [by apply dyadic_bounded|assumption|].
  by apply scaled_pos.
Qed.

(** A product is exact when the mantissa of the result is no longer than
    those of the factors together. *)
Lemma mul_dyadic s1 m1 e1 s2 m2 e2 :
  0 < m1 -> 0 < m2 ->
  0 <= scale m1 e1 -> 0 <= scale m2 e2 ->
  0 <= scale (m1 * m2) (e1 + e2) <= scale m1 e1 + scale m2 e2 ->
  e1 + e2 - scale (m1 * m2) (e1 + e2) <= emax - prec ->
  mul (dyadic s1 m1 e1) (dyadic s2 m2 e2) = dyadic (xorb s1 s2) (m1 * m2) (e1 + e2).
Proof.
  intros Hm1 Hm2 Hk1 Hk2 Hk He.
  assert (Hm : 0 < m1 * m2) by (apply Z.mul_pos_pos; assumption).
  rewrite !dyadic_pos by assumption.
  set (k1 := scale m1 e1) in *. set (k2 := scale m2 e2) in *.
  set (k := scale (m1 * m2) (e1 + e2)) in *.
  unfold mul. cbn [SFmul]. rewrite Pos2Z.inj_mul, !scaled_pos by assumption.
  replace (m1 * 2 ^ k1 * (m2 * 2 ^ k2))
    with (Z.pos (Z.to_pos (m1 * m2 * 2 ^ k)) * 2 ^ (k1 + k2 - k)).
  - replace (e1 - k1 + (e2 - k2)) with (e1 + e2 - k - (k1 + k2 - k)) by lia.
    apply binary_round_aux_exact; [|lia]. apply dyadic_bounded; fold k; lia.
  - rewrite scaled_pos by lia.
    replace (m1 * 2 ^ k1 * (m2 * 2 ^ k2)) with (m1 * m2 * (2 ^ k1 * 2 ^ k2)) by lia.
    rewrite <- !Z.pow_add_r, <- Z.mul_assoc, <- Z.pow_add_r by lia.
    do 2 f_equal. lia.
Qed.

(** A sum of two positive numbers is exact when it fits. *)
Lemma add_dyadic m1 e1 m2 e2 m e :
  0 < m1 -> 0 < m2 -> 0 < m ->
  0 <= scale m1 e1 -> 0 <= scale m2 e2 -> 0 <= scale m e ->
  e - scale m e <= emax - prec ->
  e <= e1 -> e <= e2 ->
  m = m1 * 2 ^ (e1 - e) + m2 * 2 ^ (e2 - e) ->
  Z.min (e1 - scale m1 e1) (e2 - scale m2 e2) <= e - scale m e ->
  add (dyadic false m1 e1) (dyadic false m2 e2) = dyadic false m e.
Proof.
  intros Hm1 Hm2 Hm Hk1 Hk2 Hk He He1 He2 Hsum Hmin.
  rewrite !dyadic_pos by assumption.
  set (k1 := scale m1 e1) in *. set (k2 := scale m2 e2) in *. set (k := scale m e) in *.
  unfold add. cbn [SFadd cond_Zopp].
  set (ez := Z.min (e1 - k1) (e2 - k2)) in *.
  assert (Hal : forall mi ei ki, 0 < mi -> 0 <= ki -> ez <= ei - ki ->
            Z.pos (fst (shl_align (Z.to_pos (mi * 2 ^ ki)) (ei - ki) ez))
            = mi * 2 ^ (ei - ez)).
  { intros mi ei ki Hmi Hki Hez. unfold shl_align.
    destruct (ez - (ei - ki)) as [|p|p] eqn:Ed; try lia; cbn [fst].
    - rewrite scaled_pos by assumption. do 2 f_equal. lia.
    - rewrite pos_iter_xO, scaled_pos by assumption.
      rewrite <- Z.mul_assoc, <- Z.pow_add_r by lia. do 2 f_equal. lia. }
  rewrite (Hal m1 e1 k1), (Hal m2 e2 k2) by (assumption || lia).
  assert (Hs : m1 * 2 ^ (e1 - ez) + m2 * 2 ^ (e2 - ez)
               = Z.pos (Z.to_pos (m * 2 ^ k)) * 2 ^ (e - k - ez)).
  { rewrite scaled_pos by assumption.
    rewrite <- Z.mul_assoc, <- Z.pow_add_r by lia.
    replace (k + (e - k - ez)) with (e - ez) by lia.
    rewrite Hsum, Z.mul_add_distr_r, <- !Z.mul_assoc, <- !Z.pow_add_r by lia.
    do 4 f_equal; lia. }
  rewrite Hs.
  destruct (pos_mul_pow2 (Z.to_pos (m * 2 ^ k)) (e - k - ez) ltac:(lia)) as [q Hq].
  rewrite Hq. cbn [binary_normalize].
  replace (binary_round prec emax false q ez)
    with (binary_round prec emax false q (e - k - (e - k - ez))) by (f_equal; lia).
  apply binary_round_exact_shr; [apply dyadic_bounded; fold k; lia|lia|by symmetry].
Qed.
End Binary64.

Section Fields.
Import JSFacts.

Lemma log2_below m n : 0 < m < 2 ^ n -> 0 <= Z.log2 m < n.
Proof.
  intros [Hm Hn]. split; [apply Z.log2_nonneg|].
  apply Z.log2_lt_pow2; assumption.
Qed.

Lemma log2_implicit t T : 0 <= t -> 0 <= T < 2 ^ t -> Z.log2 (2 ^ t + T) = t.
Proof.
  intros Ht HT. apply Z.log2_unique; [assumption|].
  rewrite Z.pow_succ_r by assumption. lia.
Qed.

Lemma of_Z_sign (b : Z) : 0 <= b < 2 -> of_Z (1 - 2 * b) = dyadic (b =? 1) 1 0.
Proof.
  intros Hb. assert (b = 0 \/ b = 1) as [-> | ->] by lia; reflexivity.
Qed.

Lemma of_Z_dyadic T : 0 <= T < 2 ^ 53 -> of_Z T = dyadic false T 0.
Proof.
  intros HT. destruct (Z.eq_dec T 0) as [-> | Hne]; [reflexivity|].
  pose proof (log2_below T 53 ltac:(lia)).
  apply of_dyadic_exact; unfold scale, prec, emax; lia.
Qed.

Lemma pow2_dyadic k : - 1074 <= k <= 1023 -> pow2 k = dyadic false 1 k.
Proof.
  intros Hk. apply of_dyadic_exact; unfold scale, prec, emax;
    change (Z.log2 1) with 0; lia.
Qed.

Ltac side :=
  unfold scale, prec, emax; rewrite ?Z.mul_1_l, ?Z.mul_1_r;
  change (Z.log2 1) with 0; lia.

(** Multiplying by the sign. *)
Lemma mul_sign s s' m e :
  0 < m -> 0 <= scale m e -> e - scale m e <= emax - prec ->
  mul (dyadic s 1 0) (dyadic s' m e) = dyadic (xorb s s') m e.
Proof.
  intros Hm Hk He.
  rewrite mul_dyadic; rewrite ?Z.mul_1_l, ?Z.add_0_l; try reflexivity; try lia.
  - side.
  - unfold scale in *. change (Z.log2 1) with 0. unfold prec in *. lia.
Qed.

(** The value of the expression that [getFloat32] returns, from the three
    fields of the bit string. *)
Lemma float32_fields (b E T : Z) :
  0 <= b < 2 -> 0 <= E < 2 ^ 8 -> 0 <= T < 2 ^ 23 ->
  (if E - 127 =? 128 then
     if negb (T =? 0) then NaN else mul (of_Z (1 - 2 * b)) Infinity
   else if E - 127 =? -127 then
     mul (mul (of_Z (1 - 2 * b)) (of_Z T)) (pow2 (-126 - 23))
   else
     mul (mul (of_Z (1 - 2 * b)) (add (of_Z 1) (mul (of_Z T) (pow2 (-23)))))
         (pow2 (E - 127)))
  = to_number
      (if E =? 2 ^ 8 - 1 then (if T =? 0 then IEEE_Inf (b =? 1) else IEEE_NaN)
       else if E =? 0 then IEEE_Fin (b =? 1) T (1 - (2 ^ (8 - 1) - 1) - 23)
       else IEEE_Fin (b =? 1) (2 ^ 23 + T) (E - (2 ^ (8 - 1) - 1) - 23)).
Proof.
  intros Hb HE HT. rewrite of_Z_sign by assumption. set (s := b =? 1).
  change (2 ^ 8 - 1) with 255. change (2 ^ (8 - 1) - 1) with 127.
  change (1 - 127 - 23) with (-149). change (-126 - 23) with (-149).
  destruct (Z.eqb_spec (E - 127) 128) as [H1|H1].
  { destruct (Z.eqb_spec E 255); [|lia].
    destruct (T =? 0); cbn [negb to_number]; [|reflexivity]. by destruct s. }
  destruct (Z.eqb_spec E 255); [lia|].
  destruct (Z.eqb_spec (E - 127) (-127)) as [H0|H0].
  { destruct (Z.eqb_spec E 0); [|lia]. cbn [to_number].
    destruct (Z.eq_dec T 0) as [-> | HT0]; [by destruct s|].
    pose proof (log2_below T 23 ltac:(lia)).
    rewrite of_Z_dyadic, (pow2_dyadic (-149)) by lia.
    rewrite mul_sign by side. rewrite xorb_false_r.
    rewrite mul_dyadic by side. rewrite xorb_false_r, Z.mul_1_r. reflexivity. }
  destruct (Z.eqb_spec E 0); [lia|]. cbn [to_number].
  assert (Hadd : add (of_Z 1) (mul (of_Z T) (pow2 (-23))) = dyadic false (2 ^ 23 + T) (-23)).
  { destruct (Z.eq_dec T 0) as [-> | HT0]; [reflexivity|].
    pose proof (log2_below T 23 ltac:(lia)).
    pose proof (log2_implicit 23 T ltac:(lia) ltac:(lia)) as Hl.
    rewrite (of_Z_dyadic 1), (of_Z_dyadic T), (pow2_dyadic (-23)) by lia.
    rewrite mul_dyadic by side. rewrite xorb_false_r, Z.mul_1_r.
    apply add_dyadic; try lia; unfold scale, prec, emax; rewrite ?Hl;
      change (Z.log2 1) with 0; lia. }
  rewrite Hadd.
  pose proof (log2_implicit 23 T ltac:(lia) ltac:(lia)) as Hl.
  rewrite (pow2_dyadic (E - 127)) by lia.
  rewrite mul_sign by (unfold scale, prec, emax; rewrite ?Hl; lia).
  rewrite xorb_false_r.
  rewrite mul_dyadic
    by (unfold scale, prec, emax; rewrite ?Z.mul_1_r, ?Hl; change (Z.log2 1) with 0; lia).
  rewrite xorb_false_r, Z.mul_1_r. f_equal. lia.
Qed.

Lemma float64_fields (b E T : Z) :
  0 <= b < 2 -> 0 <= E < 2 ^ 11 -> 0 <= T < 2 ^ 52 ->
  (if E - 1023 =? 1024 then
     if negb (T =? 0) then NaN else mul (of_Z (1 - 2 * b)) Infinity
   else if E - 1023 =? -1023 then
     mul (mul (of_Z (1 - 2 * b)) (of_Z T)) (pow2 (-1022 - 52))
   else
     mul (mul (of_Z (1 - 2 * b)) (add (of_Z 1) (mul (of_Z T) (pow2 (-52)))))
         (pow2 (E - 1023)))
  = to_number
      (if E =? 2 ^ 11 - 1 then (if T =? 0 then IEEE_Inf (b =? 1) else IEEE_NaN)
       else if E =? 0 then IEEE_Fin (b =? 1) T (1 - (2 ^ (11 - 1) - 1) - 52)
       else IEEE_Fin (b =? 1) (2 ^ 52 + T) (E - (2 ^ (11 - 1) - 1) - 52)).
Proof.
  intros Hb HE HT. rewrite of_Z_sign by assumption. set (s := b =? 1).
  change (2 ^ 11 - 1) with 2047. change (2 ^ (11 - 1) - 1) with 1023.
  change (1 - 1023 - 52) with (-1074). change (-1022 - 52) with (-1074).
  destruct (Z.eqb_spec (E - 1023) 1024) as [H1|H1].
  { destruct (Z.eqb_spec E 2047); [|lia].
    destruct (T =? 0); cbn [negb to_number]; [|reflexivity]. by destruct s. }
  destruct (Z.eqb_spec E 2047); [lia|].
  destruct (Z.eqb_spec (E - 1023) (-1023)) as [H0|H0].
  { destruct (Z.eqb_spec E 0); [|lia]. cbn [to_number].
    destruct (Z.eq_dec T 0) as [-> | HT0]; [by destruct s|].
    pose proof (log2_below T 52 ltac:(lia)).
    rewrite of_Z_dyadic, (pow2_dyadic (-1074)) by lia.
    rewrite mul_sign by side. rewrite xorb_false_r.
    rewrite mul_dyadic by side. rewrite xorb_false_r, Z.mul_1_r. reflexivity. }
  destruct (Z.eqb_spec E 0); [lia|]. cbn [to_number].
  assert (Hadd : add (of_Z 1) (mul (of_Z T) (pow2 (-52))) = dyadic false (2 ^ 52 + T) (-52)).
  { destruct (Z.eq_dec T 0) as [-> | HT0]; [reflexivity|].
    pose proof (log2_below T 52 ltac:(lia)).
    pose proof (log2_implicit 52 T ltac:(lia) ltac:(lia)) as Hl.
    rewrite (of_Z_dyadic 1), (of_Z_dyadic T), (pow2_dyadic (-52)) by lia.
    rewrite mul_dyadic by side. rewrite xorb_false_r, Z.mul_1_r.
    apply add_dyadic; try lia; unfold scale, prec, emax; rewrite ?Hl;
      change (Z.log2 1) with 0; lia. }
  rewrite Hadd.
  pose proof (log2_implicit 52 T ltac:(lia) ltac:(lia)) as Hl.
  rewrite (pow2_dyadic (E - 1023)) by lia.
  rewrite mul_sign by (unfold scale, prec, emax; rewrite ?Hl; lia).
  rewrite xorb_false_r.
  rewrite mul_dyadic
    by (unfold scale, prec, emax; rewrite ?Z.mul_1_r, ?Hl; change (Z.log2 1) with 0; lia).
  rewrite xorb_false_r, Z.mul_1_r. f_equal. lia.
Qed.

(** *** The 32-bit operators on small values *)

Lemma sar_small a k : 0 <= a < 2 ^ 31 -> 0 <= k < 32 -> JS.sar a k = a / 2 ^ k.
Proof.
  intros Ha Hk. unfold JS.sar.
  rewrite ToInt32_small, Z.mod_small, Z.shiftr_div_pow2 by lia. reflexivity.
Qed.

Lemma shl_small a k : 0 <= a -> a * 2 ^ k < 2 ^ 31 -> 0 <= k < 32 -> JS.shl a k = a * 2 ^ k.
Proof.
  intros Ha Hak Hk. unfold JS.shl.
  assert (1 <= 2 ^ k) by (apply (Z.pow_le_mono_r 2 0 k); lia).
  rewrite (ToInt32_small a), Z.mod_small, Z.shiftl_mul_pow2 by nia.
  apply ToInt32_small. nia.
Qed.

Lemma band_ones a n : 0 <= a < 2 ^ 31 -> 0 <= n < 32 -> JS.band a (Z.ones n) = a mod 2 ^ n.
Proof.
  intros Ha Hn. unfold JS.band.
  assert (0 < 2 ^ n <= 2 ^ 31) by (split; [apply Z.pow_pos_nonneg|apply Z.pow_le_mono_r]; lia).
  rewrite !ToInt32_small by (rewrite ?Z.ones_equiv; lia).
  apply Z.land_ones. lia.
Qed.

Lemma bor_add hi lo k :
  0 <= k -> 0 <= lo < 2 ^ k -> 0 <= hi -> hi * 2 ^ k + lo < 2 ^ 31 ->
  JS.bor (hi * 2 ^ k) lo = hi * 2 ^ k + lo.
Proof.
  intros Hk Hlo Hhi Hs. unfold JS.bor.
  assert (0 <= hi * 2 ^ k) by (apply Z.mul_nonneg_nonneg; lia).
  rewrite !ToInt32_small by lia. apply lor_add; assumption.
Qed.

Lemma testbit_div a n : 0 <= n -> 0 <= a / 2 ^ n < 2 -> Z.testbit a n = (a / 2 ^ n =? 1).
Proof.
  intros Hn Ha. rewrite Z.testbit_eqb by assumption.
  rewrite Z.mod_small by assumption. reflexivity.
Qed.

Lemma fields32 z0 z1 z2 z3 :
  0 <= z0 < 256 -> 0 <= z1 < 256 -> 0 <= z2 < 256 -> 0 <= z3 < 256 ->
  let bits := z0 + 2 ^ 8 * (z1 + 2 ^ 8 * (z2 + 2 ^ 8 * (z3 + 2 ^ 8 * 0))) in
  0 <= JS.sar z3 7 < 2
  /\ (JS.sar z3 7 =? 1) = Z.testbit bits (8 + 23)
  /\ JS.bor (JS.band (JS.shl z3 1) 255) (JS.sar z2 7) = (bits / 2 ^ 23) mod 2 ^ 8
  /\ JS.bor (JS.bor (JS.shl (JS.band z2 127) 16) (JS.shl z1 8)) z0 = bits mod 2 ^ 23.
Proof.
  intros H0 H1 H2 H3 bits.
  pose proof (Z.div_mod z3 128 ltac:(lia)) as D3.
  pose proof (Z.mod_pos_bound z3 128 ltac:(lia)) as B3.
  pose proof (Z.div_mod z2 128 ltac:(lia)) as D2.
  pose proof (Z.mod_pos_bound z2 128 ltac:(lia)) as B2.
  set (sb := z3 / 128) in *. set (h := z3 mod 128) in *.
  set (l := z2 / 128) in *. set (f := z2 mod 128) in *.
  assert (Hsb : 0 <= sb < 2) by lia. assert (Hl : 0 <= l < 2) by lia.
  assert (Hbits : bits = (sb * 2 ^ 8 + (2 * h + l)) * 2 ^ 23 + (f * 2 ^ 16 + z1 * 2 ^ 8 + z0))
    by (unfold bits; lia).
  assert (Hlow : 0 <= f * 2 ^ 16 + z1 * 2 ^ 8 + z0 < 2 ^ 23) by lia.
  assert (Hdiv : bits / 2 ^ 23 = sb * 2 ^ 8 + (2 * h + l)).
  { symmetry. apply (Z.div_unique_pos bits (2 ^ 23) _ (f * 2 ^ 16 + z1 * 2 ^ 8 + z0)); lia. }
  assert (Hmod : bits mod 2 ^ 23 = f * 2 ^ 16 + z1 * 2 ^ 8 + z0).
  { symmetry. apply (Z.mod_unique_pos bits (2 ^ 23) (sb * 2 ^ 8 + (2 * h + l))); lia. }
  rewrite !sar_small by lia. change (2 ^ 7) with 128. fold sb l.
  split; [assumption|]. split.
  - assert (Hdiv31 : bits / 2 ^ 31 = sb).
    { symmetry.
      apply (Z.div_unique_pos bits (2 ^ 31) sb
               ((2 * h + l) * 2 ^ 23 + (f * 2 ^ 16 + z1 * 2 ^ 8 + z0))); lia. }
    change (8 + 23) with 31. rewrite testbit_div by lia. by rewrite Hdiv31.
  - split.
    + rewrite Hdiv. rewrite (shl_small z3 1) by lia.
      change 255 with (Z.ones 8). rewrite band_ones by lia.
      replace ((z3 * 2 ^ 1) mod 2 ^ 8) with (h * 2 ^ 1).
      * rewrite bor_add by lia.
        apply (Z.mod_unique_pos _ _ sb); lia.
      * apply (Z.mod_unique_pos _ _ sb); lia.
    + rewrite Hmod. change 127 with (Z.ones 7). rewrite band_ones by lia.
      change (2 ^ 7) with 128. fold f.
      rewrite (shl_small f 16), (shl_small z1 8) by lia.
      rewrite (bor_add f (z1 * 2 ^ 8) 16) by lia.
      replace (f * 2 ^ 16 + z1 * 2 ^ 8) with ((f * 2 ^ 8 + z1) * 2 ^ 8) by lia.
      rewrite bor_add by lia. lia.
Qed.

Lemma fields64 z0 z1 z2 z3 z4 z5 z6 z7 :
  0 <= z0 < 256 -> 0 <= z1 < 256 -> 0 <= z2 < 256 -> 0 <= z3 < 256 ->
  0 <= z4 < 256 -> 0 <= z5 < 256 -> 0 <= z6 < 256 -> 0 <= z7 < 256 ->
  let bits :=
    z0 + 2 ^ 8 * (z1 + 2 ^ 8 * (z2 + 2 ^ 8 * (z3 + 2 ^ 8 * (z4 + 2 ^ 8 * (z5
         + 2 ^ 8 * (z6 + 2 ^ 8 * (z7 + 2 ^ 8 * 0))))))) in
  0 <= JS.sar z7 7 < 2
  /\ (JS.sar z7 7 =? 1) = Z.testbit bits (11 + 52)
  /\ JS.bor (JS.shl (JS.band (JS.shl z7 1) 255) 3) (JS.sar z6 4)
     = (bits / 2 ^ 52) mod 2 ^ 11
  /\ JS.band z6 15 * 2 ^ 48 + z5 * 2 ^ 40 + z4 * 2 ^ 32 + z3 * 2 ^ 24 + z2 * 2 ^ 16
     + z1 * 2 ^ 8 + z0 = bits mod 2 ^ 52.
Proof.
  intros H0 H1 H2 H3 H4 H5 H6 H7 bits.
  pose proof (Z.div_mod z7 128 ltac:(lia)) as D7.
  pose proof (Z.mod_pos_bound z7 128 ltac:(lia)) as B7.
  pose proof (Z.div_mod z6 16 ltac:(lia)) as D6.
  pose proof (Z.mod_pos_bound z6 16 ltac:(lia)) as B6.
  set (sb := z7 / 128) in *. set (h := z7 mod 128) in *.
  set (l := z6 / 16) in *. set (f := z6 mod 16) in *.
  assert (Hsb : 0 <= sb < 2) by lia. assert (Hl : 0 <= l < 16) by lia.
  set (low := f * 2 ^ 48 + z5 * 2 ^ 40 + z4 * 2 ^ 32 + z3 * 2 ^ 24 + z2 * 2 ^ 16
              + z1 * 2 ^ 8 + z0).
  assert (Hlow : 0 <= low < 2 ^ 52) by (unfold low; lia).
  assert (Hbits : bits = (sb * 2 ^ 11 + (h * 2 ^ 4 + l)) * 2 ^ 52 + low)
    by (unfold bits, low; lia).
  assert (Hdiv : bits / 2 ^ 52 = sb * 2 ^ 11 + (h * 2 ^ 4 + l)).
  { symmetry. apply (Z.div_unique_pos bits (2 ^ 52) _ low); lia. }
  assert (Hmod : bits mod 2 ^ 52 = low).
  { symmetry. apply (Z.mod_unique_pos bits (2 ^ 52) (sb * 2 ^ 11 + (h * 2 ^ 4 + l))); lia. }
  rewrite !sar_small by lia. change (2 ^ 7) with 128. change (2 ^ 4) with 16. fold sb l.
  split; [assumption|]. split.
  - assert (Hdiv63 : bits / 2 ^ 63 = sb).
    { symmetry.
      apply (Z.div_unique_pos bits (2 ^ 63) sb ((h * 2 ^ 4 + l) * 2 ^ 52 + low)); lia. }
    change (11 + 52) with 63. rewrite testbit_div by lia. by rewrite Hdiv63.
  - split.
    + rewrite Hdiv. rewrite (shl_small z7 1) by lia.
      change 255 with (Z.ones 8). rewrite band_ones by lia.
      replace ((z7 * 2 ^ 1) mod 2 ^ 8) with (h * 2 ^ 1)
        by (apply (Z.mod_unique_pos _ _ sb); lia).
      rewrite (shl_small (h * 2 ^ 1) 3) by lia.
      replace (h * 2 ^ 1 * 2 ^ 3) with (h * 2 ^ 4) by lia.
      rewrite bor_add by lia.
      apply (Z.mod_unique_pos _ _ sb); lia.
    + rewrite Hmod. change 15 with (Z.ones 4). rewrite band_ones by lia.
      change (2 ^ 4) with 16. fold f. reflexivity.
Qed.
End Fields.

Module FloatFacts.
Import DataView DataViewFacts.

Lemma length_slice' d o n :
  (this_byteOffset d + o + n <= byteLength d)%nat ->
  length (slice (this_buffer d) (this_byteOffset d + o) (this_byteOffset d + o + n)) = n.
Proof. intros H. apply length_slice. exact H. Qed.

Lemma float32_of_bytes (b : list byte) :
  length b = 4%nat ->
  (let sign := 1 - 2 * JS.sar (at_ b 3) 7 in
   let exponent :=
     JS.bor (JS.band (JS.shl (at_ b 3) 1) 255) (JS.sar (at_ b 2) 7) - 127 in
   let mantissa :=
     JS.bor (JS.bor (JS.shl (JS.band (at_ b 2) 127) 16) (JS.shl (at_ b 1) 8))
            (at_ b 0) in
   if exponent =? 128 then
     if negb (mantissa =? 0) then Ok NaN
     else Ok (mul (of_Z sign) Infinity)
   else if exponent =? -127 then
     Ok (mul (mul (of_Z sign) (of_Z mantissa)) (pow2 (-126 - 23)))
   else
     Ok (mul (mul (of_Z sign) (add (of_Z 1) (mul (of_Z mantissa) (pow2 (-23)))))
             (pow2 exponent)))
  = Ok (to_number (decode 8 23 (le_word b))).
Proof.
  intros Hlen.
  destruct b as [|c0 [|c1 [|c2 [|c3 [|c4 b]]]]]; try discriminate Hlen.
  cbn [at_ nth_error le_word fold_right]. cbv zeta.
  pose proof (fields32 (u8 c0) (u8 c1) (u8 c2) (u8 c3)
                (u8_bound c0) (u8_bound c1) (u8_bound c2) (u8_bound c3))
    as (Hs & Hsign & HE & HT).
  cbv zeta in Hsign, HE, HT.
  set (bits := u8 c0 + 2 ^ 8 * (u8 c1 + 2 ^ 8 * (u8 c2 + 2 ^ 8 * (u8 c3 + 2 ^ 8 * 0)))) in *.
  unfold decode. rewrite <- Hsign, <- HE, <- HT.
  set (E := JS.bor _ (JS.sar (u8 c2) 7)) in *.
  set (T := JS.bor (JS.bor _ _) (u8 c0)) in *.
  assert (0 <= E < 2 ^ 8) by (rewrite HE; apply Z.mod_pos_bound; lia).
  assert (0 <= T < 2 ^ 23) by (rewrite HT; apply Z.mod_pos_bound; lia).
  rewrite <- (float32_fields (JS.sar (u8 c3) 7) E T) by assumption.
  destruct (E - 127 =? 128); [destruct (negb (T =? 0)); reflexivity|].
  destruct (E - 127 =? -127); reflexivity.
Qed.

Lemma float64_of_bytes (b : list byte) :
  length b = 8%nat ->
  (let sign := 1 - 2 * JS.sar (at_ b 7) 7 in
   let exponent :=
     JS.bor (JS.shl (JS.band (JS.shl (at_ b 7) 1) 255) 3) (JS.sar (at_ b 6) 4)
     - (JS.shl 1 10 - 1) in
   let mantissa :=
     JS.band (at_ b 6) 15 * 2 ^ 48 + at_ b 5 * 2 ^ 40 + at_ b 4 * 2 ^ 32
     + at_ b 3 * 2 ^ 24 + at_ b 2 * 2 ^ 16 + at_ b 1 * 2 ^ 8 + at_ b 0 in
   if exponent =? 1024 then
     if negb (mantissa =? 0) then Ok NaN
     else Ok (mul (of_Z sign) Infinity)
   else if exponent =? -1023 then
     Ok (mul (mul (of_Z sign) (of_Z mantissa)) (pow2 (-1022 - 52)))
   else
     Ok (mul (mul (of_Z sign) (add (of_Z 1) (mul (of_Z mantissa) (pow2 (-52)))))
             (pow2 exponent)))
  = Ok (to_number (decode 11 52 (le_word b))).
Proof.
  intros Hlen.
  destruct b as [|c0 [|c1 [|c2 [|c3 [|c4 [|c5 [|c6 [|c7 [|c8 b]]]]]]]]];
    try discriminate Hlen.
  cbn [at_ nth_error le_word fold_right]. cbv zeta.
  change (JS.shl 1 10 - 1) with 1023.
  pose proof (fields64 (u8 c0) (u8 c1) (u8 c2) (u8 c3) (u8 c4) (u8 c5) (u8 c6) (u8 c7)
                (u8_bound c0) (u8_bound c1) (u8_bound c2) (u8_bound c3)
                (u8_bound c4) (u8_bound c5) (u8_bound c6) (u8_bound c7))
    as (Hs & Hsign & HE & HT).
  cbv zeta in Hsign, HE, HT.
  set (bits := u8 c0 + 2 ^ 8 * _) in *.
  unfold decode. rewrite <- Hsign, <- HE, <- HT.
  set (E := JS.bor _ (JS.sar (u8 c6) 4)) in *.
  set (T := JS.band (u8 c6) 15 * 2 ^ 48 + _ + _ + _ + _ + _ + _) in *.
  assert (0 <= E < 2 ^ 11) by (rewrite HE; apply Z.mod_pos_bound; lia).
  assert (0 <= T < 2 ^ 52) by (rewrite HT; apply Z.mod_pos_bound; lia).
  rewrite <- (float64_fields (JS.sar (u8 c7) 7) E T) by assumption.
  destruct (E - 1023 =? 1024); [destruct (negb (T =? 0)); reflexivity|].
  destruct (E - 1023 =? -1023); reflexivity.
Qed.

Lemma _getBytes_spec d n o littleEndian :
  _getBytes d n o littleEndian
  = if (byteLength d <? this_byteOffset d + o + n)%nat then Throw RangeError
    else Ok (if negb (truthy littleEndian) && (1 <? n)%nat
             then rev (slice (this_buffer d) (this_byteOffset d + o)
                             (this_byteOffset d + o + n))
             else slice (this_buffer d) (this_byteOffset d + o)
                        (this_byteOffset d + o + n)).
Proof.
  unfold _getBytes. destruct (_ <? _)%nat; [reflexivity|].
  destruct (negb (truthy littleEndian) && (1 <? n)%nat); reflexivity.
Qed.

(** A 32-bit float read of the buffer returns the number that its four
    bytes encode in IEEE-754 binary32, and a 64-bit read the number that
    its eight bytes encode in binary64: a subnormal number, a zero, an
    infinity or NaN as the case may be, and without any rounding. The bytes
    are taken in the requested order, first byte least significant for
    little-endian and reversed otherwise. A read past the end of the buffer
    throws. *)
Lemma getFloat_ieee (d : DataView.t) (byteOffset : nat) (littleEndian : option bool) :
  getFloat32 d byteOffset littleEndian
  = (if (byteLength d <? this_byteOffset d + byteOffset + 4)%nat then Throw RangeError
     else Ok (to_number
                (decode 8 23
                   (word (truthy littleEndian)
                      (slice (this_buffer d) (this_byteOffset d + byteOffset)
                             (this_byteOffset d + byteOffset + 4))))))
  /\ getFloat64 d byteOffset littleEndian
     = (if (byteLength d <? this_byteOffset d + byteOffset + 8)%nat then Throw RangeError
        else Ok (to_number
                   (decode 11 52
                      (word (truthy littleEndian)
                         (slice (this_buffer d) (this_byteOffset d + byteOffset)
                                (this_byteOffset d + byteOffset + 8)))))).
Proof.
  split.
  - unfold getFloat32. rewrite _getBytes_spec.
    destruct (Nat.ltb_spec (byteLength d) (this_byteOffset d + byteOffset + 4));
      [reflexivity|].
    cbn [bind]. rewrite float32_of_bytes.
    + unfold word. destruct (truthy littleEndian); reflexivity.
    + destruct (negb (truthy littleEndian) && _);
        rewrite ?length_rev; apply length_slice'; assumption.
  - unfold getFloat64. rewrite _getBytes_spec.
    destruct (Nat.ltb_spec (byteLength d) (this_byteOffset d + byteOffset + 8));
      [reflexivity|].
    cbn [bind]. rewrite float64_of_bytes.
    + unfold word. destruct (truthy littleEndian); reflexivity.
    + destruct (negb (truthy littleEndian) && _);
        rewrite ?length_rev; apply length_slice'; assumption.
Qed.
End FloatFacts.

(** ** Integer reads *)

Module IntFacts.
Import JS JSFacts DataView DataViewFacts FloatFacts.

Lemma le_word_bound bs : 0 <= le_word bs < 2 ^ (8 * Z.of_nat (length bs)).
Proof.
  induction bs as [|b bs IH]; cbn [le_word fold_right length].
  - cbn. lia.
  - fold (le_word bs). pose proof (u8_bound b).
    replace (8 * Z.of_nat (S (length bs))) with (8 + 8 * Z.of_nat (length bs)) by lia.
    rewrite Z.pow_add_r by lia. nia.
Qed.

Lemma uint16_le_word b :
  length b = 2%nat -> bor (shl (at_ b 1) 8) (at_ b 0) = le_word b.
Proof.
  destruct b as [|c0 [|c1 [|c2 b]]]; try discriminate. intros _.
  cbn [at_ nth_error le_word fold_right].
  rewrite uint16_of_bytes by apply u8_bound. lia.
Qed.


Lemma ToInt32_wrap x : 2 ^ 31 <= x < 2 ^ 32 -> ToInt32 x = x - 2 ^ 32.
Proof.
  intros H. unfold ToInt32.
  rewrite <- (Z.mod_unique_pos (x + 2 ^ 31) (2 ^ 32) 1 (x - 2 ^ 31)); lia.
Qed.

Lemma int32_of_bytes b0 b1 b2 b3 :
  0 <= b0 < 256 -> 0 <= b1 < 256 -> 0 <= b2 < 256 -> 0 <= b3 < 256 ->
  bor (bor (bor (shl b3 24) (shl b2 16)) (shl b1 8)) b0
  = signed 32 (b0 + 2 ^ 8 * b1 + 2 ^ 16 * b2 + 2 ^ 24 * b3).
Proof.
  intros H0 H1 H2 H3.
  set (hi := if b3 <? 128 then b3 else b3 - 256).
  assert (Hhi : - 128 <= hi < 128) by (unfold hi; destruct (Z.ltb_spec b3 128); lia).
  assert (E3 : shl b3 24 = hi * 2 ^ 24).
  { unfold shl. rewrite (ToInt32_small b3) by lia.
    change (24 mod 32) with 24. rewrite Z.shiftl_mul_pow2 by lia.
    unfold hi. destruct (Z.ltb_spec b3 128).
    - apply ToInt32_small. lia.
    - rewrite ToInt32_wrap; lia. }
  assert (E2 : shl b2 16 = b2 * 2 ^ 16).
  { unfold shl. rewrite (ToInt32_small b2) by lia.
    change (16 mod 32) with 16. rewrite Z.shiftl_mul_pow2 by lia.
    apply ToInt32_small. lia. }
  assert (E1 : shl b1 8 = b1 * 2 ^ 8).
  { unfold shl. rewrite (ToInt32_small b1) by lia.
    change (8 mod 32) with 8. rewrite Z.shiftl_mul_pow2 by lia.
    apply ToInt32_small. lia. }
  rewrite E3, E2, E1.
  assert (L1 : bor (hi * 2 ^ 24) (b2 * 2 ^ 16) = (hi * 2 ^ 8 + b2) * 2 ^ 16).
  { unfold bor. rewrite !ToInt32_small by lia.
    rewrite lor_add by lia. lia. }
  rewrite L1.
  assert (L2 : bor ((hi * 2 ^ 8 + b2) * 2 ^ 16) (b1 * 2 ^ 8)
               = ((hi * 2 ^ 8 + b2) * 2 ^ 8 + b1) * 2 ^ 8).
  { unfold bor. rewrite !ToInt32_small by lia.
    rewrite lor_add by lia. lia. }
  rewrite L2.
  unfold bor. rewrite !ToInt32_small by lia. rewrite lor_add by lia.
  unfold signed, hi. change (2 ^ (32 - 1)) with (2 ^ 31).
  destruct (Z.ltb_spec b3 128);
    destruct (Z.ltb_spec (b0 + 2 ^ 8 * b1 + 2 ^ 16 * b2 + 2 ^ 24 * b3) (2 ^ 31)); lia.
Qed.

Lemma int32_le_word b :
  length b = 4%nat ->
  bor (bor (bor (shl (at_ b 3) 24) (shl (at_ b 2) 16)) (shl (at_ b 1) 8)) (at_ b 0)
  = signed 32 (le_word b).
Proof.
  destruct b as [|c0 [|c1 [|c2 [|c3 [|c4 b]]]]]; try discriminate. intros _.
  cbn [at_ nth_error le_word fold_right].
  rewrite int32_of_bytes by apply u8_bound. f_equal. lia.
Qed.

Lemma shr_signed u : 0 <= u < 2 ^ 32 -> shr (signed 32 u) 0 = u.
Proof.
  intros H. rewrite shr_0. unfold signed. change (2 ^ (32 - 1)) with (2 ^ 31).
  destruct (Z.ltb_spec u (2 ^ 31)).
  - apply Z.mod_small. lia.
  - symmetry. apply Z.mod_unique_pos with (q := -1); lia.
Qed.

Lemma sign_extend u k :
  0 < k < 32 -> 0 <= u < 2 ^ k -> sar (shl u (32 - k)) (32 - k) = signed k u.
Proof.
  intros Hk Hu. unfold sar, shl.
  assert (Hp : 2 ^ k * 2 ^ (32 - k) = 2 ^ 32) by (rewrite <- Z.pow_add_r by lia; f_equal; lia).
  assert (Hq : 2 ^ (k - 1) * 2 ^ (32 - k) = 2 ^ 31) by (rewrite <- Z.pow_add_r by lia; f_equal; lia).
  assert (Hr : 2 ^ k = 2 * 2 ^ (k - 1)) by (rewrite <- Z.pow_succ_r by lia; f_equal; lia).
  assert (0 < 2 ^ (32 - k)) by (apply Z.pow_pos_nonneg; lia).
  assert (0 < 2 ^ (k - 1)) by (apply Z.pow_pos_nonneg; lia).
  assert (2 ^ k <= 2 ^ 31) by (apply Z.pow_le_mono_r; lia).
  rewrite (Z.mod_small (32 - k) 32) by lia.
  rewrite (ToInt32_small u) by lia.
  rewrite Z.shiftl_mul_pow2 by lia.
  set (v := u * 2 ^ (32 - k)).
  unfold signed. rewrite Z.shiftr_div_pow2 by lia.
  destruct (Z.ltb_spec u (2 ^ (k - 1))).
  - rewrite !ToInt32_small; unfold v; try nia.
    + apply Z.div_mul. lia.
    + rewrite ToInt32_small by nia. nia.
  - assert (Hv : ToInt32 v = (u - 2 ^ k) * 2 ^ (32 - k)).
    { rewrite ToInt32_wrap; unfold v; nia. }
    rewrite Hv. rewrite ToInt32_small by nia. apply Z.div_mul. lia.
Qed.

Lemma getBytes_length d n o littleEndian b :
  _getBytes d n o littleEndian = Ok b -> length b = n.
Proof.
  rewrite _getBytes_spec.
  destruct (Nat.ltb_spec (byteLength d) (this_byteOffset d + o + n)); [discriminate|].
  intros [= <-]. destruct (negb (truthy littleEndian) && _);
    rewrite ?length_rev; apply length_slice'; assumption.
Qed.

(** The bytes of a read, in the order the accessors take them, spell the
    word of the requested byte order. *)
Lemma le_word_ordered (littleEndian : option bool) (n : nat) (bs : list byte) :
  (1 < n)%nat ->
  le_word (if negb (truthy littleEndian) && (1 <? n)%nat then rev bs else bs)
  = word (truthy littleEndian) bs.
Proof.
  intros Hn. unfold word. destruct (Nat.ltb_spec 1 n); [|lia].
  destruct (truthy littleEndian); reflexivity.
Qed.

(** An unsigned read of one, two or four bytes of the buffer returns the
    integer that the bytes at the offset spell in the requested byte order,
    big-endian when the flag is false or left out; a read past the end of
    the buffer throws. *)
Lemma getUint_bytes (d : DataView.t) (byteOffset : nat) (littleEndian : option bool) :
  getUint8 d byteOffset
  = (if (byteLength d <? this_byteOffset d + byteOffset + 1)%nat then Throw RangeError
     else Ok (at_ (this_buffer d) (this_byteOffset d + byteOffset)))
  /\ getUint16 d byteOffset littleEndian
     = (if (byteLength d <? this_byteOffset d + byteOffset + 2)%nat then Throw RangeError
        else Ok (word (truthy littleEndian)
                   (slice (this_buffer d) (this_byteOffset d + byteOffset)
                          (this_byteOffset d + byteOffset + 2))))
  /\ getUint32 d byteOffset littleEndian
     = (if (byteLength d <? this_byteOffset d + byteOffset + 4)%nat then Throw RangeError
        else Ok (word (truthy littleEndian)
                   (slice (this_buffer d) (this_byteOffset d + byteOffset)
                          (this_byteOffset d + byteOffset + 4)))).
Proof.
  split; [|split].
  - unfold getUint8. rewrite _getBytes_spec.
    destruct (Nat.ltb_spec (byteLength d) (this_byteOffset d + byteOffset + 1));
      [reflexivity|].
    cbn [bind Nat.ltb Nat.leb andb]. rewrite andb_false_r.
    rewrite (at_slice _ _ 1 0) by lia. do 2 f_equal. lia.
  - unfold getUint16.
    destruct (_getBytes d 2 byteOffset littleEndian) as [b|e] eqn:E.
    + pose proof (getBytes_length _ _ _ _ _ E) as Hlen.
      rewrite _getBytes_spec in E.
      destruct (_ <? _)%nat; [discriminate|]. injection E as <-.
      cbn [bind]. rewrite uint16_le_word by exact Hlen.
      rewrite le_word_ordered by lia. reflexivity.
    + rewrite _getBytes_spec in E. destruct (_ <? _)%nat; [|discriminate].
      injection E as <-. reflexivity.
  - unfold getUint32, getInt32.
    destruct (_getBytes d 4 byteOffset littleEndian) as [b|e] eqn:E.
    + pose proof (getBytes_length _ _ _ _ _ E) as Hlen.
      rewrite _getBytes_spec in E.
      destruct (_ <? _)%nat; [discriminate|]. injection E as <-.
      cbn [bind]. rewrite int32_le_word by exact Hlen.
      rewrite shr_signed.
      * rewrite le_word_ordered by lia. reflexivity.
      * pose proof (le_word_bound
                      (if negb (truthy littleEndian) && (1 <? 4)%nat
                       then rev (slice (this_buffer d) (this_byteOffset d + byteOffset)
                                       (this_byteOffset d + byteOffset + 4))
                       else slice (this_buffer d) (this_byteOffset d + byteOffset)
                                  (this_byteOffset d + byteOffset + 4))) as Hb.
        rewrite Hlen in Hb. exact Hb.
    + rewrite _getBytes_spec in E. destruct (_ <? _)%nat; [|discriminate].
      injection E as <-. reflexivity.
Qed.

(** A signed read of the buffer returns the two's complement reading of
    the same bytes: the unsigned value, less [2 ^ w] when its top bit is
    set. *)
Lemma getInt_bytes (d : DataView.t) (byteOffset : nat) (littleEndian : option bool) :
  getInt8 d byteOffset
  = (if (byteLength d <? this_byteOffset d + byteOffset + 1)%nat then Throw RangeError
     else Ok (signed 8 (at_ (this_buffer d) (this_byteOffset d + byteOffset))))
  /\ getInt16 d byteOffset littleEndian
     = (if (byteLength d <? this_byteOffset d + byteOffset + 2)%nat then Throw RangeError
        else Ok (signed 16
                   (word (truthy littleEndian)
                      (slice (this_buffer d) (this_byteOffset d + byteOffset)
                             (this_byteOffset d + byteOffset + 2)))))
  /\ getInt32 d byteOffset littleEndian
     = (if (byteLength d <? this_byteOffset d + byteOffset + 4)%nat then Throw RangeError
        else Ok (signed 32
                   (word (truthy littleEndian)
                      (slice (this_buffer d) (this_byteOffset d + byteOffset)
                             (this_byteOffset d + byteOffset + 4))))).
Proof.
  split; [|split].
  - unfold getInt8, getUint8. rewrite _getBytes_spec.
    destruct (Nat.ltb_spec (byteLength d) (this_byteOffset d + byteOffset + 1));
      [reflexivity|].
    cbn [bind Nat.ltb Nat.leb andb]. rewrite andb_false_r.
    rewrite (at_slice _ _ 1 0) by lia.
    rewrite (sign_extend _ 8) by (try apply at_bound; lia).
    do 3 f_equal. lia.
  - unfold getInt16, getUint16.
    destruct (_getBytes d 2 byteOffset littleEndian) as [b|e] eqn:E.
    + pose proof (getBytes_length _ _ _ _ _ E) as Hlen.
      rewrite _getBytes_spec in E.
      destruct (_ <? _)%nat; [discriminate|]. injection E as <-.
      cbn [bind]. rewrite uint16_le_word by exact Hlen.
      rewrite (sign_extend _ 16).
      * rewrite le_word_ordered by lia. reflexivity.
      * lia.
      * pose proof (le_word_bound
                      (if negb (truthy littleEndian) && (1 <? 2)%nat
                       then rev (slice (this_buffer d) (this_byteOffset d + byteOffset)
                                       (this_byteOffset d + byteOffset + 2))
                       else slice (this_buffer d) (this_byteOffset d + byteOffset)
                                  (this_byteOffset d + byteOffset + 2))) as Hb.
        rewrite Hlen in Hb. exact Hb.
    + rewrite _getBytes_spec in E. destruct (_ <? _)%nat; [|discriminate].
      injection E as <-. reflexivity.
  - unfold getInt32.
    destruct (_getBytes d 4 byteOffset littleEndian) as [b|e] eqn:E.
    + pose proof (getBytes_length _ _ _ _ _ E) as Hlen.
      rewrite _getBytes_spec in E.
      destruct (_ <? _)%nat; [discriminate|]. injection E as <-.
      cbn [bind]. rewrite int32_le_word by exact Hlen.
      rewrite le_word_ordered by lia. reflexivity.
    + rewrite _getBytes_spec in E. destruct (_ <? _)%nat; [|discriminate].
      injection E as <-. reflexivity.
Qed.

End IntFacts.

(** ** The fallback DataView *)

Module FallbackFacts.
Import JS JSFacts DataViewFacts FloatFacts IntFacts Str Fallback FallbackSpec.

Lemma u8_byte_of_Z z : 0 <= z < 256 -> u8 (byte_of_Z z) = z.
Proof.
  intros H. unfold u8, byte_of_Z. rewrite Z.mod_small by lia.
  destruct (Byte.of_N (Z.to_N z)) as [b|] eqn:E.
  - apply Byte.to_of_N in E. rewrite E. lia.
  - apply Byte.of_N_None_iff in E. lia.
Qed.

Lemma byte_of_Z_u8 b : byte_of_Z (u8 b) = b.
Proof.
  unfold byte_of_Z, u8. pose proof (Byte.to_N_bounded b) as H.
  rewrite Z.mod_small by lia. rewrite N2Z.id, Byte.of_to_N. reflexivity.
Qed.

Lemma int_bound v : 0 <= int v < 256.
Proof.
  destruct v as [|n|c]; cbn; [lia|apply u8_bound|].
  unfold int, ToNumber. destruct (is_ws c); [lia|].
  destruct (Z.leb_spec 48 (code c)); destruct (Z.leb_spec (code c) 57); cbn; lia.
Qed.

Lemma int_item vs i : int (item vs i) = at_ (operands vs) i.
Proof.
  unfold item, at_, operands. revert i.
  induction vs as [|v vs IH]; intros [|i]; cbn [nth nth_error map]; try reflexivity.
  - symmetry. apply u8_byte_of_Z, int_bound.
  - apply IH.
Qed.

Lemma operands_rev vs : operands (List.rev vs) = List.rev (operands vs).
Proof. unfold operands. apply map_rev. Qed.

Lemma int_Character c : byte_of_Z (int (Character c)) = digit_of c.
Proof.
  unfold int, ToNumber, digit_of, is_ws.
  destruct (Z.leb_spec 48 (code c)); destruct (Z.leb_spec (code c) 57); cbn [andb];
    destruct (_ || _) eqn:E; try reflexivity.
  exfalso. apply orb_prop in E as [E | E]; [apply orb_prop in E as [E | E]|].
  - apply andb_prop in E as [E1 E2]. apply Z.leb_le in E2. lia.
  - apply Z.eqb_eq in E. lia.
  - apply Z.eqb_eq in E. lia.
Qed.

Lemma operands_elements b : operands (elements b) = found b.
Proof.
  destruct b as [l|l|s]; cbn [elements found]; unfold operands.
  - rewrite map_map. cbn. rewrite <- (map_id l) at 2. apply map_ext.
    intros b. apply byte_of_Z_u8.
  - reflexivity.
  - rewrite map_map. apply map_ext. intros c. apply int_Character.
Qed.

Lemma list_ascii_drop n : forall s,
  String.list_ascii_of_string (drop n s) = skipn n (String.list_ascii_of_string s).
Proof. induction n as [|n IH]; intros [|c s]; cbn; auto. Qed.

Lemma list_ascii_take n : forall s,
  String.list_ascii_of_string (take n s) = firstn n (String.list_ascii_of_string s).
Proof. induction n as [|n IH]; intros [|c s]; cbn; try reflexivity. by rewrite IH. Qed.

Lemma found_slice b from to : found (slice b from to) = DataView.slice (found b) from to.
Proof.
  destruct b as [l|l|s]; cbn [slice found]; unfold DataView.slice.
  - reflexivity.
  - by rewrite skipn_nil, firstn_nil.
  - by rewrite list_ascii_take, list_ascii_drop, skipn_map, firstn_map.
Qed.

Lemma elements_slice b from to :
  elements (slice b from to) = firstn (to - from) (skipn from (elements b)).
Proof.
  destruct b as [l|l|s]; cbn [slice elements]; unfold DataView.slice.
  - by rewrite skipn_map, firstn_map.
  - by rewrite skipn_nil, firstn_nil.
  - by rewrite list_ascii_take, list_ascii_drop, skipn_map, firstn_map.
Qed.

(** What [_getBytes] returns. *)
Lemma getBytes_elements d n byteOffset littleEndian :
  _getBytes d n byteOffset littleEndian
  = if outside d byteOffset n then Throw Error
    else
      let b := elements (slice (this_buffer d) (position d byteOffset)
                               (position d byteOffset + n)) in
      Ok (if negb (DataView.truthy littleEndian) && (1 <? n)%nat then List.rev b else b).
Proof.
  unfold _getBytes, outside, position, this_isString.
  assert (E : match byteOffset with
              | Some o => (this_byteOffset d + o)%nat
              | None => this_byteOffset d
              end
              = (this_byteOffset d + match byteOffset with Some o => o | None => 0 end)%nat)
    by (destruct byteOffset; lia).
  rewrite E. destruct (match this_byteLength d with Some _ => _ | None => _ end);
    [reflexivity|].
  cbn [bind]. destruct (_ && _); reflexivity.
Qed.

Lemma length_slice_le (l : list byte) from n : (length (DataView.slice l from (from + n)) <= n)%nat.
Proof. unfold DataView.slice. rewrite length_firstn. lia. Qed.

(** The bytes that the operators find in what [_getBytes] returns. *)
Lemma getBytes_found d n byteOffset littleEndian b :
  _getBytes d n byteOffset littleEndian = Ok b ->
  let bs := DataView.slice (found (this_buffer d)) (position d byteOffset)
                           (position d byteOffset + n) in
  operands b = (if negb (DataView.truthy littleEndian) && (1 <? n)%nat then List.rev bs else bs)
  /\ (length (operands b) <= n)%nat.
Proof.
  rewrite getBytes_elements. destruct (outside d byteOffset n); [discriminate|].
  cbv zeta. intros [= <-].
  assert (E : operands (elements (slice (this_buffer d) (position d byteOffset)
                                        (position d byteOffset + n)))
              = DataView.slice (found (this_buffer d)) (position d byteOffset)
                               (position d byteOffset + n))
    by (by rewrite operands_elements, found_slice).
  destruct (negb (DataView.truthy littleEndian) && (1 <? n)%nat).
  - rewrite operands_rev, E. split; [reflexivity|]. rewrite length_rev. apply length_slice_le.
  - rewrite E. split; [reflexivity|]. apply length_slice_le.
Qed.

(** Bytes that are not there count as 0. *)
Lemma at_padded bs k i : at_ (bs ++ repeat Byte.x00 k) i = at_ bs i.
Proof.
  unfold at_. destruct (Nat.lt_ge_cases i (length bs)) as [H | H].
  - by rewrite nth_error_app1.
  - rewrite nth_error_app2 by exact H.
    rewrite (proj2 (nth_error_None bs i) H).
    destruct (nth_error (repeat Byte.x00 k) (i - length bs)) as [x|] eqn:E; [|reflexivity].
    apply nth_error_In, repeat_spec in E. by subst x.
Qed.

Lemma le_word_padded bs k : le_word (bs ++ repeat Byte.x00 k) = le_word bs.
Proof.
  unfold le_word. induction bs as [|b bs IH]; cbn [app fold_right].
  - induction k as [|k IH]; cbn [repeat fold_right]; [reflexivity|].
    rewrite IH. reflexivity.
  - by rewrite IH.
Qed.

Lemma length_padded (bs : list byte) n :
  (length bs <= n)%nat -> length (bs ++ repeat Byte.x00 (n - length bs)) = n.
Proof. intros H. rewrite length_app, repeat_length. lia. Qed.

Lemma uint16_of_operands bs :
  (length bs <= 2)%nat -> bor (shl (at_ bs 1) 8) (at_ bs 0) = le_word bs.
Proof.
  intros H. rewrite <- (le_word_padded bs (2 - length bs)), <- !(at_padded bs (2 - length bs)).
  apply uint16_le_word, length_padded, H.
Qed.

Lemma int32_of_operands bs :
  (length bs <= 4)%nat ->
  bor (bor (bor (shl (at_ bs 3) 24) (shl (at_ bs 2) 16)) (shl (at_ bs 1) 8)) (at_ bs 0)
  = signed 32 (le_word bs).
Proof.
  intros H. rewrite <- (le_word_padded bs (4 - length bs)), <- !(at_padded bs (4 - length bs)).
  apply int32_le_word, length_padded, H.
Qed.

Lemma le_word_below bs n : (length bs <= n)%nat -> 0 <= le_word bs < 2 ^ (8 * Z.of_nat n).
Proof.
  intros H. pose proof (le_word_bound bs) as Hb.
  assert (2 ^ (8 * Z.of_nat (length bs)) <= 2 ^ (8 * Z.of_nat n))
    by (apply Z.pow_le_mono_r; lia).
  lia.
Qed.

Lemma item_slice b p : item (elements (slice b p (p + 1))) 0 = item (elements b) p.
Proof.
  rewrite elements_slice. replace (p + 1 - p)%nat with 1%nat by lia.
  unfold item. generalize (elements b) as l. intros l. revert l.
  induction p as [|p IH]; intros [|v l]; cbn; try reflexivity. apply IH.
Qed.

(** *** Integers *)

Lemma getUint8_found (d : t) (byteOffset : option nat) :
  getUint8 d byteOffset
  = (if outside d byteOffset 1 then Throw Error
     else Ok (item (elements (this_buffer d)) (position d byteOffset))).
Proof.
  unfold getUint8. rewrite getBytes_elements.
  destruct (outside d byteOffset 1); [reflexivity|].
  cbn [bind Nat.ltb Nat.leb andb]. rewrite andb_false_r. by rewrite item_slice.
Qed.

Lemma getUint16_found (d : t) (byteOffset : option nat) (littleEndian : option bool) :
  getUint16 d byteOffset littleEndian
  = (if outside d byteOffset 2 then Throw Error
     else Ok (word (DataView.truthy littleEndian)
                (DataView.slice (found (this_buffer d)) (position d byteOffset)
                                (position d byteOffset + 2)))).
Proof.
  unfold getUint16.
  destruct (_getBytes d 2 byteOffset littleEndian) as [b|e] eqn:E.
  - destruct (getBytes_found _ _ _ _ _ E) as [Hb Hlen].
    rewrite getBytes_elements in E. destruct (outside d byteOffset 2); [discriminate|].
    cbn [bind]. rewrite !int_item, uint16_of_operands by exact Hlen.
    rewrite Hb, le_word_ordered by lia. reflexivity.
  - rewrite getBytes_elements in E. destruct (outside d byteOffset 2); [|discriminate].
    injection E as <-. reflexivity.
Qed.

Lemma getInt32_found (d : t) (byteOffset : option nat) (littleEndian : option bool) :
  getInt32 d byteOffset littleEndian
  = (if outside d byteOffset 4 then Throw Error
     else Ok (signed 32
                (word (DataView.truthy littleEndian)
                   (DataView.slice (found (this_buffer d)) (position d byteOffset)
                                   (position d byteOffset + 4))))).
Proof.
  unfold getInt32.
  destruct (_getBytes d 4 byteOffset littleEndian) as [b|e] eqn:E.
  - destruct (getBytes_found _ _ _ _ _ E) as [Hb Hlen].
    rewrite getBytes_elements in E. destruct (outside d byteOffset 4); [discriminate|].
    cbn [bind]. rewrite !int_item, int32_of_operands by exact Hlen.
    rewrite Hb, le_word_ordered by lia. reflexivity.
  - rewrite getBytes_elements in E. destruct (outside d byteOffset 4); [|discriminate].
    injection E as <-. reflexivity.
Qed.

Lemma getUint32_found (d : t) (byteOffset : option nat) (littleEndian : option bool) :
  getUint32 d byteOffset littleEndian
  = (if outside d byteOffset 4 then Throw Error
     else Ok (word (DataView.truthy littleEndian)
                (DataView.slice (found (this_buffer d)) (position d byteOffset)
                                (position d byteOffset + 4)))).
Proof.
  unfold getUint32. rewrite getInt32_found.
  destruct (outside d byteOffset 4); [reflexivity|]. cbn [bind].
  rewrite shr_signed; [reflexivity|].
  unfold word. destruct (DataView.truthy littleEndian);
    apply (le_word_below _ 4); rewrite ?length_rev; apply length_slice_le.
Qed.

Lemma getInt16_found (d : t) (byteOffset : option nat) (littleEndian : option bool) :
  getInt16 d byteOffset littleEndian
  = (if outside d byteOffset 2 then Throw Error
     else Ok (signed 16
                (word (DataView.truthy littleEndian)
                   (DataView.slice (found (this_buffer d)) (position d byteOffset)
                                   (position d byteOffset + 2))))).
Proof.
  unfold getInt16. rewrite getUint16_found.
  destruct (outside d byteOffset 2); [reflexivity|]. cbn [bind].
  rewrite (sign_extend _ 16); [reflexivity|lia|].
  unfold word. destruct (DataView.truthy littleEndian);
    apply (le_word_below _ 2); rewrite ?length_rev; apply length_slice_le.
Qed.

Lemma getInt8_found (d : t) (byteOffset : option nat) :
  getInt8 d byteOffset
  = (if outside d byteOffset 1 then Throw Error
     else Ok (signed 8 (at_ (found (this_buffer d)) (position d byteOffset)))).
Proof.
  unfold getInt8. rewrite getUint8_found.
  destruct (outside d byteOffset 1); [reflexivity|]. cbn [bind].
  rewrite int_item, operands_elements.
  rewrite (sign_extend _ 8) by (try apply at_bound; lia). reflexivity.
Qed.

(** X1: what the unsigned reads of the fallback return. A read of one byte
    returns the element at its place as it is: a byte of an array, a
    character of a string, [undefined] of an [ArrayBuffer]. A read of two
    or four bytes returns the integer that the bytes found at its place
    spell in the requested byte order, big-endian when the flag is false or
    left out: the bytes of an array; of a string the digits of its digit
    characters, and 0 for any other character; and of an [ArrayBuffer] no
    bytes at all, so that the read returns 0. A read that passes the end of
    the view throws an [Error]. *)
Theorem getUint_word (d : t) (byteOffset : option nat) (littleEndian : option bool) :
  getUint8 d byteOffset
  = (if outside d byteOffset 1 then Throw Error
     else Ok (item (elements (this_buffer d)) (position d byteOffset)))
  /\ getUint16 d byteOffset littleEndian
     = (if outside d byteOffset 2 then Throw Error
        else Ok (word (DataView.truthy littleEndian)
                   (DataView.slice (found (this_buffer d)) (position d byteOffset)
                                   (position d byteOffset + 2))))
  /\ getUint32 d byteOffset littleEndian
     = (if outside d byteOffset 4 then Throw Error
        else Ok (word (DataView.truthy littleEndian)
                   (DataView.slice (found (this_buffer d)) (position d byteOffset)
                                   (position d byteOffset + 4))))
  /\ forall l, this_buffer d = ArrayBuffer l ->
       item (elements (this_buffer d)) (position d byteOffset) = Undefined
       /\ forall n, word (DataView.truthy littleEndian)
                      (DataView.slice (found (this_buffer d)) (position d byteOffset)
                                      (position d byteOffset + n)) = 0.
Proof.
  split; [apply getUint8_found|]. split; [apply getUint16_found|].
  split; [apply getUint32_found|].
  intros l ->. cbn [elements found]. split.
  - unfold item. by destruct (position d byteOffset).
  - intros n. unfold DataView.slice. rewrite skipn_nil, firstn_nil.
    by destruct (DataView.truthy littleEndian).
Qed.

(** X2: a signed read of the fallback returns the two's complement reading
    of the word that the unsigned read of the same width finds: that word,
    less [2 ^ w] when its top bit is set. On a string that is the word of
    the digits, and on an [ArrayBuffer] it is 0. *)
Theorem getInt_signed (d : t) (byteOffset : option nat) (littleEndian : option bool) :
  getInt8 d byteOffset
  = (if outside d byteOffset 1 then Throw Error
     else Ok (signed 8 (at_ (found (this_buffer d)) (position d byteOffset))))
  /\ getInt16 d byteOffset littleEndian
     = (if outside d byteOffset 2 then Throw Error
        else Ok (signed 16
                   (word (DataView.truthy littleEndian)
                      (DataView.slice (found (this_buffer d)) (position d byteOffset)
                                      (position d byteOffset + 2)))))
  /\ getInt32 d byteOffset littleEndian
     = (if outside d byteOffset 4 then Throw Error
        else Ok (signed 32
                   (word (DataView.truthy littleEndian)
                      (DataView.slice (found (this_buffer d)) (position d byteOffset)
                                      (position d byteOffset + 4))))).
Proof.
  split; [apply getInt8_found|]. split; [apply getInt16_found|apply getInt32_found].
Qed.

(** *** Floats *)

Lemma getFloat32_found (d : t) (byteOffset : option nat) (littleEndian : option bool) :
  getFloat32 d byteOffset littleEndian
  = (if outside d byteOffset 4 then Throw Error
     else Ok (to_number
                (decode 8 23
                   (word (DataView.truthy littleEndian)
                      (DataView.slice (found (this_buffer d)) (position d byteOffset)
                                      (position d byteOffset + 4)))))).
Proof.
  unfold getFloat32.
  destruct (_getBytes d 4 byteOffset littleEndian) as [b|e] eqn:E.
  - destruct (getBytes_found _ _ _ _ _ E) as [Hb Hlen].
    rewrite getBytes_elements in E. destruct (outside d byteOffset 4); [discriminate|].
    cbn [bind]. rewrite !int_item.
    rewrite <- !(at_padded (operands b) (4 - length (operands b))).
    rewrite float32_of_bytes by (apply length_padded, Hlen).
    rewrite le_word_padded, Hb, le_word_ordered by lia. reflexivity.
  - rewrite getBytes_elements in E. destruct (outside d byteOffset 4); [|discriminate].
    injection E as <-. reflexivity.
Qed.

(** An [ArrayBuffer] has no indexed elements: every float read of 32 bits
    returns 0 and every one of 64 bits [NaN], whatever the bytes. *)
Lemma getFloat_ArrayBuffer (d : t) (byteOffset : option nat) (littleEndian : option bool) l :
  this_buffer d = ArrayBuffer l ->
  getFloat32 d byteOffset littleEndian
  = (if outside d byteOffset 4 then Throw Error else Ok (S754_zero false))
  /\ getFloat64 d byteOffset littleEndian
     = (if outside d byteOffset 8 then Throw Error else Ok NaN).
Proof.
  intros Hl. split.
  - rewrite getFloat32_found, Hl. destruct (outside d byteOffset 4); [reflexivity|].
    cbn [found]. unfold DataView.slice. rewrite skipn_nil, firstn_nil.
    by destruct (DataView.truthy littleEndian).
  - unfold getFloat64. rewrite getBytes_elements.
    destruct (outside d byteOffset 8); [reflexivity|].
    cbv zeta. rewrite elements_slice, Hl. cbn [elements]. rewrite skipn_nil, firstn_nil.
    by destruct (negb (DataView.truthy littleEndian) && (1 <? 8)%nat).
Qed.

Lemma ToNumber_item l i :
  (i < length l)%nat -> ToNumber (item (map Number l) i) = Some (at_ l i).
Proof.
  unfold item, at_. revert i. induction l as [|b l IH]; intros [|i] H; cbn in *; try lia.
  - reflexivity.
  - apply IH. lia.
Qed.

Lemma item_Number l i :
  (i < length l)%nat -> exists n, item (map Number l) i = Number n.
Proof.
  unfold item. revert i. induction l as [|b l IH]; intros [|i] H; cbn in *; try lia.
  - eauto.
  - apply IH. lia.
Qed.

(** On an array that holds the eight bytes, the read of 64 bits returns
    the number that they encode. *)
Lemma getFloat64_Bytes (d : t) (byteOffset : option nat) (littleEndian : option bool) l :
  this_buffer d = Bytes l ->
  (position d byteOffset + 8 <= length l)%nat ->
  getFloat64 d byteOffset littleEndian
  = (if outside d byteOffset 8 then Throw Error
     else Ok (to_number
                (decode 11 52
                   (word (DataView.truthy littleEndian)
                      (DataView.slice l (position d byteOffset)
                                      (position d byteOffset + 8)))))).
Proof.
  intros Hl Hp. unfold getFloat64. rewrite getBytes_elements.
  destruct (outside d byteOffset 8); [reflexivity|].
  cbv zeta. rewrite Hl. cbn [slice elements bind].
  set (bs := DataView.slice l (position d byteOffset) (position d byteOffset + 8)).
  assert (Hlen : length bs = 8%nat) by (apply DataViewFacts.length_slice; lia).
  set (b := if negb (DataView.truthy littleEndian) && (1 <? 8)%nat
            then List.rev (map Number bs) else map Number bs).
  set (b' := if negb (DataView.truthy littleEndian) && (1 <? 8)%nat
             then List.rev bs else bs).
  assert (Hb : b = map Number b').
  { unfold b, b'. destruct (_ && _); [by rewrite map_rev|reflexivity]. }
  assert (Hlen' : length b' = 8%nat).
  { unfold b'. destruct (_ && _); [by rewrite length_rev|exact Hlen]. }
  rewrite Hb.
  assert (Hint : forall i, int (item (map Number b') i) = at_ b' i).
  { intros i. rewrite int_item. unfold operands. rewrite map_map. cbn.
    do 2 f_equal. rewrite <- (map_id b') at 2. apply map_ext. intros x. apply byte_of_Z_u8. }
  rewrite !Hint, !ToNumber_item by lia.
  destruct (item_Number b' 0 ltac:(lia)) as [n0 Hn0].
  assert (H0 : ToNumber (item (map Number b') 0) = Some (at_ b' 0)) by (apply ToNumber_item; lia).
  rewrite Hn0 in *. cbn [plus_item times plus]. rewrite H0. cbn [plus is_not_0 number_of].
  replace (word (DataView.truthy littleEndian) bs) with (le_word b')
    by (unfold b'; apply le_word_ordered; lia).
  rewrite <- (float64_of_bytes b' Hlen'). reflexivity.
Qed.


(** *** Arrays of bytes *)

Ltac same :=
  match goal with
  | |- context [if ?c then _ else _] => destruct c; reflexivity
  end.

(** Given an array of bytes, the fallback reads what the [DataView] of the
    host reads in the buffer of these bytes. *)
Lemma reads_of_array (l : list byte) (off o : nat) (littleEndian : option bool) :
  let d := new (Bytes l) (Some off) None in
  let h := DataView.new_at l off in
  (let* v := getUint8 d (Some o) in Ok (int v)) = rethrown (DataView.getUint8 h o)
  /\ getInt8 d (Some o) = rethrown (DataView.getInt8 h o)
  /\ getUint16 d (Some o) littleEndian = rethrown (DataView.getUint16 h o littleEndian)
  /\ getInt16 d (Some o) littleEndian = rethrown (DataView.getInt16 h o littleEndian)
  /\ getUint32 d (Some o) littleEndian = rethrown (DataView.getUint32 h o littleEndian)
  /\ getInt32 d (Some o) littleEndian = rethrown (DataView.getInt32 h o littleEndian)
  /\ getFloat32 d (Some o) littleEndian = rethrown (DataView.getFloat32 h o littleEndian)
  /\ getFloat64 d (Some o) littleEndian = rethrown (DataView.getFloat64 h o littleEndian).
Proof.
  cbv zeta. set (d := new (Bytes l) (Some off) None). set (h := DataView.new_at l off).
  assert (Hout : forall n, outside d (Some o) n
                           = (DataView.byteLength h <? DataView.this_byteOffset h + o + n)%nat)
    by reflexivity.
  assert (Hpos : position d (Some o) = (DataView.this_byteOffset h + o)%nat) by reflexivity.
  assert (Hbuf : found (this_buffer d) = DataView.this_buffer h) by reflexivity.
  destruct (getUint_bytes h o littleEndian) as (U8 & U16 & U32).
  destruct (getInt_bytes h o littleEndian) as (I8 & I16 & I32).
  destruct (getFloat_ieee h o littleEndian) as (F32 & F64).
  split; [|split; [|split; [|split; [|split; [|split; [|split]]]]]].
  - rewrite getUint8_found, U8, Hout.
    match goal with |- context [if ?c then _ else _] => destruct c end; [reflexivity|].
    cbn [bind rethrown]. by rewrite int_item, operands_elements, Hbuf, Hpos.
  - rewrite getInt8_found, I8, Hout, Hbuf, Hpos. same.
  - rewrite getUint16_found, U16, Hout, Hbuf, Hpos. same.
  - rewrite getInt16_found, I16, Hout, Hbuf, Hpos. same.
  - rewrite getUint32_found, U32, Hout, Hbuf, Hpos. same.
  - rewrite getInt32_found, I32, Hout, Hbuf, Hpos. same.
  - rewrite getFloat32_found, F32, Hout, Hbuf, Hpos. same.
  - rewrite F64.
    destruct (Nat.ltb_spec (DataView.byteLength h) (DataView.this_byteOffset h + o + 8))
      as [Hl | Hl].
    + unfold getFloat64. rewrite getBytes_elements, Hout.
      destruct (Nat.ltb_spec (DataView.byteLength h) (DataView.this_byteOffset h + o + 8));
        [reflexivity|lia].
    + rewrite (getFloat64_Bytes d _ _ l) by (try reflexivity; rewrite Hpos; exact Hl).
      rewrite Hout, Hpos.
      destruct (Nat.ltb_spec (DataView.byteLength h) (DataView.this_byteOffset h + o + 8));
        [lia|reflexivity].
Qed.

End FallbackFacts.

(** ** PLY: binary bodies *)

Module PLYBinaryFacts.
Import Str Parse PLYLoader PLYBinary PLYSpec PLYBinarySpec DataView FloatFacts.

Lemma getBytes_ok d n o le b :
  _getBytes d n o le = Ok b -> (this_byteOffset d + o + n <= byteLength d)%nat.
Proof.
  rewrite _getBytes_spec.
  destruct (Nat.ltb_spec (byteLength d) (this_byteOffset d + o + n)); [discriminate|lia].
Qed.

Lemma getBytes_throw d n o le e : _getBytes d n o le = Throw e -> e = RangeError.
Proof. rewrite _getBytes_spec. destruct (_ <? _)%nat; congruence. Qed.

Lemma getBytes_fits d n o le :
  (this_byteOffset d + o + n <= byteLength d)%nat -> exists b, _getBytes d n o le = Ok b.
Proof.
  intros H. rewrite _getBytes_spec.
  destruct (Nat.ltb_spec (byteLength d) (this_byteOffset d + o + n)); [lia|]. eauto.
Qed.

Lemma reads_getBytes d n o le : reads d o n (_getBytes d n o le).
Proof.
  split; [|split].
  - apply getBytes_fits.
  - apply getBytes_ok.
  - apply getBytes_throw.
Qed.

Lemma reads_bind {A B : Type} d o n (m : result A) (k : A -> B) :
  reads d o n m -> reads d o n (let* v := m in Ok (k v)).
Proof.
  intros (H1 & H2 & H3). split; [|split].
  - intros H. destruct (H1 H) as [v ->]. cbn. eauto.
  - intros v. destruct m; [|discriminate]. intros _. eapply H2. reflexivity.
  - intros e. destruct m; [discriminate|]. cbn. intros [= <-]. apply H3. reflexivity.
Qed.

Lemma reads_getFloat32 d o le : reads d o 4 (getFloat32 d o le).
Proof.
  unfold getFloat32. rewrite _getBytes_spec. unfold reads.
  destruct (Nat.ltb_spec (byteLength d) (this_byteOffset d + o + 4)); cbn [bind].
  - split; [lia|]. split; [discriminate|]. congruence.
  - rewrite float32_of_bytes.
    + split; [eauto|]. split; [intros; lia|discriminate].
    + destruct (negb (truthy le) && _); rewrite ?length_rev; apply length_slice'; assumption.
Qed.

Lemma reads_getFloat64 d o le : reads d o 8 (getFloat64 d o le).
Proof.
  unfold getFloat64. rewrite _getBytes_spec. unfold reads.
  destruct (Nat.ltb_spec (byteLength d) (this_byteOffset d + o + 8)); cbn [bind].
  - split; [lia|]. split; [discriminate|]. congruence.
  - rewrite float64_of_bytes.
    + split; [eauto|]. split; [intros; lia|discriminate].
    + destruct (negb (truthy le) && _); rewrite ?length_rev; apply length_slice'; assumption.
Qed.

Ltac integer_case m :=
  intros [= <-]; split; [lia|];
  exists (let* v := m in Ok (of_Z v)); split;
  [destruct m; reflexivity
  |apply reads_bind;
   unfold getInt8, getInt16, getUint32, getInt32, getUint16, getUint8;
   repeat apply reads_bind; apply reads_getBytes].

Ltac float_case m H :=
  intros [= <-]; split; [lia|]; exists m; split; [destruct m; reflexivity|apply H].

Lemma binaryRead_reads d pos t le size :
  type_size t = Some size ->
  (0 < size)%nat
  /\ exists m : result number,
      binaryRead d pos t le = (let* v := m in Ok (Some (v, size)))
      /\ reads d pos size m.
Proof.
  unfold type_size, binaryRead, is_type. cbn [existsb].
  destruct (is_string t "int8"); cbn [orb]; [integer_case (getInt8 d pos)|].
  destruct (is_string t "char"); cbn [orb]; [integer_case (getInt8 d pos)|].
  destruct (is_string t "uint8"); cbn [orb]; [integer_case (getUint8 d pos)|].
  destruct (is_string t "uchar"); cbn [orb]; [integer_case (getUint8 d pos)|].
  destruct (is_string t "int16"); cbn [orb]; [integer_case (getInt16 d pos (Some le))|].
  destruct (is_string t "short"); cbn [orb]; [integer_case (getInt16 d pos (Some le))|].
  destruct (is_string t "uint16"); cbn [orb]; [integer_case (getUint16 d pos (Some le))|].
  destruct (is_string t "ushort"); cbn [orb]; [integer_case (getUint16 d pos (Some le))|].
  destruct (is_string t "int32"); cbn [orb]; [integer_case (getInt32 d pos (Some le))|].
  destruct (is_string t "int"); cbn [orb]; [integer_case (getInt32 d pos (Some le))|].
  destruct (is_string t "uint32"); cbn [orb]; [integer_case (getUint32 d pos (Some le))|].
  destruct (is_string t "uint"); cbn [orb]; [integer_case (getUint32 d pos (Some le))|].
  destruct (is_string t "float32"); cbn [orb];
    [float_case (getFloat32 d pos (Some le)) reads_getFloat32|].
  destruct (is_string t "float"); cbn [orb];
    [float_case (getFloat32 d pos (Some le)) reads_getFloat32|].
  destruct (is_string t "float64"); cbn [orb];
    [float_case (getFloat64 d pos (Some le)) reads_getFloat64|].
  destruct (is_string t "double"); cbn [orb];
    [float_case (getFloat64 d pos (Some le)) reads_getFloat64|].
  discriminate.
Qed.

Lemma binaryRead_unknown d pos t le : type_size t = None -> binaryRead d pos t le = Ok None.
Proof.
  unfold type_size, binaryRead, is_type. cbn [existsb].
  repeat (match goal with |- context [is_string t ?n] => destruct (is_string t n) end;
          cbn [orb]; [discriminate|]).
  reflexivity.
Qed.

(** What a read of a value returns, by the type. *)
Lemma binaryRead_cases d pos t le :
  match type_size t with
  | None => binaryRead d pos t le = Ok None
  | Some size =>
      (0 < size)%nat
      /\ if (byteLength d <? this_byteOffset d + pos + size)%nat
         then binaryRead d pos t le = Throw RangeError
         else exists v, binaryRead d pos t le = Ok (Some (v, size))
  end.
Proof.
  destruct (type_size t) as [size|] eqn:E; [|by apply binaryRead_unknown].
  destruct (binaryRead_reads d pos t le size E) as (Hs & m & -> & H1 & H2 & H3).
  split; [exact Hs|].
  destruct (Nat.ltb_spec (byteLength d) (this_byteOffset d + pos + size)).
  - destruct m as [v|e] eqn:Em; cbn [bind].
    + specialize (H2 v eq_refl). lia.
    + by rewrite (H3 e eq_refl).
  - destruct H1 as [v ->]; [lia|]. cbn [bind]. eauto.
Qed.

Lemma read_item_ok d pos t le l read j l' read' :
  read_item d pos t le (l, read) j = Ok (l', read') ->
  (read < read')%nat
  /\ (this_byteOffset d + pos + read' <= byteLength d)%nat
  /\ length l' = S (length l).
Proof.
  unfold read_item. pose proof (binaryRead_cases d (pos + read) t le) as H.
  destruct (type_size t) as [size|]; [|rewrite H; discriminate].
  destruct H as [Hs H].
  destruct (Nat.ltb_spec (byteLength d) (this_byteOffset d + (pos + read) + size));
    [rewrite H; discriminate|].
  destruct H as [v ->]. cbn. intros [= <- <-].
  rewrite length_app. cbn. lia.
Qed.

Lemma read_items_ok d pos t le : forall k i l read l' read',
  foldM (read_item d pos t le) (seq i k) (l, read) = Ok (l', read') ->
  (read <= read')%nat
  /\ (read' = read \/ (this_byteOffset d + pos + read' <= byteLength d)%nat)
  /\ length l' = (length l + k)%nat.
Proof.
  induction k as [|k IH]; intros i l read l' read'; cbn [seq foldM].
  - intros [= <- <-]. lia.
  - destruct (read_item d pos t le (l, read) i) as [[l1 r1]|] eqn:E; [|discriminate].
    cbn [bind]. intros H. apply read_item_ok in E. apply IH in H. lia.
Qed.

Lemma read_binary_property_ok d pos le el read p el' read' :
  read_binary_property d pos le (el, read) p = Ok (el', read') ->
  (0 < fixed_size p)%nat
  /\ (read + fixed_size p <= read')%nat
  /\ (this_byteOffset d + pos + read' <= byteLength d)%nat
  /\ (is_list p = false -> read' = (read + fixed_size p)%nat)
  /\ forall k, has el' k = String.eqb k (ToString (name p)) || has el k.
Proof.
  unfold read_binary_property, fixed_size, is_list.
  destruct (is_string (type p) "list").
  - pose proof (binaryRead_cases d (pos + read) (countType p) le) as H.
    destruct (type_size (countType p)) as [size|]; [|rewrite H; discriminate].
    destruct H as [Hs H].
    destruct (Nat.ltb_spec (byteLength d) (this_byteOffset d + (pos + read) + size));
      [rewrite H; discriminate|].
    destruct H as [n ->]. cbn [bind fields from_option id].
    destruct (loop_count (Some n)) as [k|].
    + destruct (foldM _ (seq 0 k) ([], (read + size)%nat)) as [[l r1]|] eqn:E; [|discriminate].
      cbn [bind]. intros [= <- <-]. apply read_items_ok in E.
      split; [lia|]. split; [lia|]. split; [lia|]. split; [discriminate|].
      intros k0. apply PLYFacts.has_insert.
    + destruct (read_item _ _ _ _ _ _); discriminate.
  - pose proof (binaryRead_cases d (pos + read) (type p) le) as H.
    destruct (type_size (type p)) as [size|]; [|rewrite H; discriminate].
    destruct H as [Hs H].
    destruct (Nat.ltb_spec (byteLength d) (this_byteOffset d + (pos + read) + size));
      [rewrite H; discriminate|].
    destruct H as [v ->]. cbn [bind fields from_option id]. intros [= <- <-].
    split; [lia|]. split; [lia|]. split; [lia|]. split; [reflexivity|].
    intros k0. apply PLYFacts.has_insert.
Qed.

Lemma read_properties_ok d pos le : forall ps el read el' read',
  foldM (read_binary_property d pos le) ps (el, read) = Ok (el', read') ->
  (read + foldr Nat.add O (map fixed_size ps) <= read')%nat
  /\ (ps <> [] -> (this_byteOffset d + pos + read' <= byteLength d)%nat)
  /\ (forallb (fun p => negb (is_list p)) ps = true ->
      read' = (read + foldr Nat.add O (map fixed_size ps))%nat)
  /\ forall k, has el' k
               = existsb (fun p => String.eqb k (ToString (name p))) ps
                 || has el k.
Proof.
  induction ps as [|p ps IH]; intros el read el' read'; cbn [foldM map foldr forallb existsb].
  - intros [= <- <-]. split; [lia|]. split; [congruence|]. split; [intros; lia|]. reflexivity.
  - destruct (read_binary_property d pos le (el, read) p) as [[el1 r1]|] eqn:E; [|discriminate].
    cbn [bind]. intros H. apply read_binary_property_ok in E. apply IH in H.
    destruct E as (E0 & E1 & E2 & E3 & E4), H as (H1 & H2 & H3 & H4).
    split; [lia|]. split; [|split].
    + intros _. destruct ps; [|apply H2; discriminate].
      cbn in H1. cbn in H3. specialize (H3 eq_refl). lia.
    + intros [Hp Hps]%andb_true_iff. apply negb_true_iff in Hp.
      rewrite (H3 Hps), (E3 Hp). lia.
    + intros k. rewrite H4, E4.
      by destruct (existsb _ ps), (String.eqb k _), (has el k).
Qed.

(** X7: a binary record that is read tells how many bytes it took: never
    fewer than the sizes of its scalars and of the counts of its lists, and
    exactly those when it has no list; they lie in the buffer; and the
    record has the fields that the properties name. *)
Theorem binaryReadElement_size
        (d : DataView.t) (pos : nat) (e : PLYLoader.element) (le : bool)
        (element : gmap string jsval) (read : nat) :
  binaryReadElement d pos (properties e) le = Ok (element, read) ->
  (record_size e <= read)%nat
  /\ (forallb (fun p => negb (is_list p)) (properties e) = true -> read = record_size e)
  /\ (properties e <> [] -> (this_byteOffset d + pos + read <= byteLength d)%nat)
  /\ forall k, has element k
               = existsb (fun p => String.eqb k (ToString (name p))) (properties e).
Proof.
  unfold binaryReadElement, record_size. intros H. apply read_properties_ok in H.
  destruct H as (H1 & H2 & H3 & H4). cbn [Nat.add] in *.
  split; [exact H1|]. split; [exact H3|]. split; [exact H2|].
  intros k. rewrite H4. unfold has. rewrite lookup_empty.
  rewrite orb_false_r. reflexivity.
Qed.


(** *** The records of a binary body *)

Lemma read_record_ok body e le g loc i g' loc' :
  read_record body e le (g, loc) i = Ok (g', loc') ->
  (loc + record_size e <= loc')%nat
  /\ (loc' = loc \/ (this_byteOffset body + loc' <= byteLength body)%nat)
  /\ exists element, handle g (element_name e, element) = Ok g'.
Proof.
  unfold read_record, binaryReadElement, record_size.
  destruct (foldM _ (properties e) (∅, O)) as [[element read]|] eqn:E; [|discriminate].
  cbn [bind]. destruct (handleElement g (element_name e) element) as [g1|] eqn:Eh; [|discriminate].
  cbn [bind]. intros [= <- <-]. apply read_properties_ok in E.
  destruct E as (E1 & E2 & E3 & _). cbn [Nat.add] in E1.
  split; [lia|]. split; [|exists element; exact Eh].
  destruct (properties e) as [|p ps]; [specialize (E3 eq_refl); cbn in E3; left; lia|].
  right. specialize (E2 ltac:(discriminate)). lia.
Qed.

Lemma read_records_ok body e le : forall k i g loc g' loc',
  foldM (read_record body e le) (seq i k) (g, loc) = Ok (g', loc') ->
  (loc + k * record_size e <= loc')%nat
  /\ (loc' = loc \/ (this_byteOffset body + loc' <= byteLength body)%nat)
  /\ exists records,
      foldM handle records g = Ok g'
      /\ map fst records = replicate k (element_name e).
Proof.
  induction k as [|k IH]; intros i g loc g' loc'; cbn [seq foldM].
  - intros [= <- <-]. split; [lia|]. split; [auto|]. exists []. auto.
  - destruct (read_record body e le (g, loc) i) as [[g1 l1]|] eqn:E; [|discriminate].
    cbn [bind]. intros H. apply read_record_ok in E. apply IH in H.
    destruct E as (E1 & E2 & element & E3), H as (H1 & H2 & records & H3 & H4).
    split; [lia|]. split; [lia|].
    exists ((element_name e, element) :: records). split.
    + cbn [foldM]. rewrite E3. exact H3.
    + cbn. by rewrite H4.
Qed.

Lemma read_elements_ok body le : forall es g loc g' loc',
  read_elements body le es (g, loc) = Some (Ok (g', loc')) ->
  (loc + foldr Nat.add O (map (fun e => (record_count e * record_size e)%nat) es) <= loc')%nat
  /\ (loc' = loc \/ (this_byteOffset body + loc' <= byteLength body)%nat)
  /\ exists records,
      foldM handle records g = Ok g'
      /\ map fst records
         = flat_map (fun e => replicate (record_count e) (element_name e)) es.
Proof.
  induction es as [|e es IH]; intros g loc g' loc'; cbn [read_elements map foldr flat_map].
  - intros [= <- <-]. split; [lia|]. split; [auto|]. exists []. auto.
  - unfold record_count at 1 3. destruct (iterations (count e)) as [k|]; [|discriminate].
    cbn [from_option id].
    destruct (foldM _ (seq 0 k) (g, loc)) as [[g1 l1]|] eqn:E; [|discriminate].
    intros H. apply read_records_ok in E. apply IH in H.
    destruct E as (E1 & E2 & r1 & E3 & E4), H as (H1 & H2 & r2 & H3 & H4).
    split; [lia|]. split; [lia|].
    exists (r1 ++ r2). split.
    + rewrite foldM_app, E3. exact H3.
    + by rewrite map_app, E4, H4.
Qed.

(** *** The length of the header *)

Lemma length_drop n : forall s, String.length (drop n s) = (String.length s - n)%nat.
Proof.
  induction n as [|n IH]; intros [|c s]; cbn; try lia. apply IH.
Qed.

Lemma last_match_spec p : forall s i j,
  last_match p s i = Some j ->
  (i <= j)%nat /\ (j - i <= String.length s)%nat /\ p (drop (j - i) s) = true.
Proof.
  induction s as [|c s IH]; intros i j; cbn [last_match].
  - destruct (p EmptyString) eqn:E; [|discriminate]. intros [= <-].
    rewrite Nat.sub_diag. cbn. auto with lia.
  - destruct (last_match p s (S i)) as [j'|] eqn:E.
    + intros [= <-]. apply IH in E. destruct E as (H1 & H2 & H3).
      replace (j' - i)%nat with (S (j' - S i)) by lia. cbn [drop String.length].
      split; [lia|]. split; [lia|]. exact H3.
    + destruct (p (String c s)) eqn:E'; [|discriminate]. intros [= <-].
      rewrite Nat.sub_diag. cbn [drop]. auto with lia.
Qed.

Lemma prefix_length s : forall t, String.prefix s t = true -> (String.length s <= String.length t)%nat.
Proof.
  induction s as [|c s IH]; intros [|c' t]; cbn; try lia; try discriminate.
  destruct (Ascii.ascii_dec c c'); [|discriminate]. intros H. apply IH in H. lia.
Qed.

Lemma is_terminator_length s : is_terminator s = true -> (11 <= String.length s)%nat.
Proof.
  unfold is_terminator. intros [H1 H2]%andb_true_iff.
  apply prefix_length in H1. cbn in H1.
  pose proof (length_drop 10 s) as Hd.
  destruct (drop 10 s); [discriminate|]. cbn in Hd. lia.
Qed.

Lemma patternHeader_length data text n :
  patternHeader data = Some (text, n) -> (n <= String.length data)%nat.
Proof.
  unfold patternHeader.
  destruct (first_match (String.prefix "ply") data 0) as [i|] eqn:Ei; [|discriminate].
  destruct (last_match is_terminator (drop (i + 3) data) (i + 3)) as [j|] eqn:Ej;
    [|discriminate].
  intros [= _ <-]. apply last_match_spec in Ej. destruct Ej as (H1 & H2 & H3).
  apply is_terminator_length in H3. rewrite !length_drop in *. lia.
Qed.

Lemma header_line_length mapping st line st' :
  header_line mapping st line = Ok st' -> headerLength (hdr st') = headerLength (hdr st).
Proof.
  unfold header_line. destruct (String.eqb (trim line) ""); [by intros [= <-]|].
  destruct (is_string _ "format"); [by intros [= <-]|].
  destruct (is_string _ "comment"); [by intros [= <-]|].
  destruct (is_string _ "element").
  { intros [= <-]. cbn. by destruct (currentElement st). }
  destruct (is_string _ "property"); [|by intros [= <-]].
  destruct (currentElement st); [|discriminate]. by intros [= <-].
Qed.

Lemma parseHeader_length mapping data h :
  parseHeader mapping data = Ok h -> (headerLength h <= String.length data)%nat.
Proof.
  unfold parseHeader.
  destruct (patternHeader data) as [[text n]|] eqn:E.
  - apply patternHeader_length in E.
    destruct (foldM _ _ _) as [st|] eqn:Ef; [|discriminate]. cbn [bind]. intros [= <-].
    apply (foldM_invariant (fun s s' => headerLength (hdr s') = headerLength (hdr s))) in Ef.
    + cbn in Ef. destruct (currentElement st); cbn; lia.
    + auto.
    + intros; congruence.
    + apply header_line_length.
  - destruct (foldM _ _ _) as [st|] eqn:Ef; [|discriminate]. cbn [bind]. intros [= <-].
    apply (foldM_invariant (fun s s' => headerLength (hdr s') = headerLength (hdr s))) in Ef.
    + cbn in Ef. destruct (currentElement st); cbn; lia.
    + auto.
    + intros; congruence.
    + apply header_line_length.
Qed.

Lemma length_bin2str buf : String.length (bin2str buf) = length buf.
Proof.
  unfold bin2str. induction buf as [|b buf IH]; cbn; [reflexivity|]. by rewrite IH.
Qed.

(** X9: a binary decode that returns a mesh has found the records in the
    buffer: after the header there are at least the bytes of the declared
    records. A body cut short is not decoded to a part of the mesh. *)
Theorem parseBinary_body_size
        (mapping : gmap string string) (data : list byte) (g : Geometry) :
  PLYBinary.parseBinary mapping data = Some (Ok g) ->
  exists header,
    parseHeader mapping (bin2str data) = Ok header
    /\ (headerLength header + body_size header <= length data)%nat.
Proof.
  unfold PLYBinary.parseBinary.
  destruct (parseHeader mapping (bin2str data)) as [header|] eqn:Eh; [|discriminate].
  destruct (read_elements _ _ _ _) as [[[g1 loc]|]|] eqn:E; try discriminate.
  intros _. apply read_elements_ok in E. destruct E as (H1 & H2 & _).
  exists header. split; [reflexivity|].
  apply parseHeader_length in Eh. rewrite length_bin2str in Eh.
  unfold byteLength in H2. cbn [this_byteOffset this_buffer] in H2. unfold body_size. lia.
Qed.

End PLYBinaryFacts.

(** ** PLY: the records of a binary body *)

Module PLYRecordFacts.
Import Str Parse PLYLoader PLYBinary PLYSpec PLYBinarySpec PLYRecordSpec.
Import DataView DataViewFacts FloatFacts IntFacts PLYBinaryFacts.

Lemma word_byte le (buf : list byte) o :
  (o + 1 <= length buf)%nat -> word le (slice buf o (o + 1)) = at_ buf o.
Proof.
  intros H. pose proof (at_slice buf o 1 0 ltac:(lia)) as Ha.
  rewrite Nat.add_0_r in Ha. rewrite <- Ha.
  pose proof (length_slice buf o 1 ltac:(lia)) as Hl.
  destruct (slice buf o (o + 1)) as [|b [|b' l]]; try discriminate.
  unfold word, at_. cbn. destruct le; lia.
Qed.

(** What a read of a value returns, by the type: the number that the
    bytes at its place stand for. *)
Lemma binaryRead_value d pos t le v size :
  binaryRead d pos t le = Ok (Some (v, size)) ->
  type_size t = Some size
  /\ scalar_at (this_buffer d) (this_byteOffset d + pos) t le = Some v.
Proof.
  destruct t as [t|]; [|discriminate].
  unfold binaryRead, is_type, is_string. cbn [existsb].
  destruct (getUint_bytes d pos (Some le)) as (U8 & U16 & U32).
  destruct (getInt_bytes d pos (Some le)) as (I8 & I16 & I32).
  destruct (getFloat_ieee d pos (Some le)) as (F32 & F64).
  cbn [truthy] in *.
  repeat (match goal with
          | |- context [String.eqb t ?n] =>
              destruct (String.eqb_spec t n) as [-> | _]; cbn [orb]
          end;
          [rewrite ?U8, ?U16, ?U32, ?I8, ?I16, ?I32, ?F32, ?F64;
           match goal with
           | |- context [(byteLength d <? ?k)%nat] =>
               destruct (Nat.ltb_spec (byteLength d) k) as [|Hin]; [discriminate|]
           end;
           cbn [bind]; intros [= <- <-]; split; [reflexivity|];
           unfold scalar_at; cbn; rewrite ?word_byte by (unfold byteLength in Hin; lia);
           reflexivity
          |]).
  discriminate.
Qed.


Lemma fields_ok r x : fields r = Ok x -> r = Some x.
Proof. destruct r; [intros [= ->]; reflexivity|discriminate]. Qed.

Lemma read_item_value d pos t le l read j l' read' :
  read_item d pos t le (l, read) j = Ok (l', read') ->
  exists size v,
    type_size t = Some size
    /\ scalar_at (this_buffer d) (this_byteOffset d + pos + read) t le = Some v
    /\ l' = l ++ [Some v] /\ read' = (read + size)%nat.
Proof.
  unfold read_item.
  destruct (binaryRead d (pos + read) t le) as [r|] eqn:E; [|discriminate]. cbn [bind].
  destruct (fields r) as [[v size]|] eqn:Ef; [|discriminate]. cbn [bind].
  apply fields_ok in Ef. subst r. apply binaryRead_value in E as [E1 E2].
  intros [= <- <-]. exists size, v. rewrite Nat.add_assoc in E2. auto.
Qed.

Lemma read_items_value d pos t le size : forall k i l read l' read',
  foldM (read_item d pos t le) (seq i k) (l, read) = Ok (l', read') ->
  size = from_option id O (type_size t) ->
  l' = l ++ map (fun j => scalar_at (this_buffer d)
                            (this_byteOffset d + pos + read + j * size) t le) (seq 0 k)
  /\ read' = (read + k * size)%nat.
Proof.
  induction k as [|k IH]; intros i l read l' read'; cbn [seq foldM map].
  - intros [= <- <-] _. rewrite app_nil_r. split; [reflexivity|lia].
  - destruct (read_item d pos t le (l, read) i) as [[l1 r1]|] eqn:E; [|discriminate].
    cbn [bind]. intros H Hs.
    apply read_item_value in E as (sz & v & E1 & E2 & -> & ->).
    rewrite E1 in Hs. cbn in Hs. subst sz.
    apply IH in H as [-> ->]; [|by rewrite E1].
    split; [|cbn [Nat.mul]; lia]. rewrite <- app_assoc. cbn [app]. f_equal.
    rewrite Nat.mul_0_l, Nat.add_0_r, E2. f_equal.
    rewrite <- seq_shift, map_map. apply map_ext. intros j.
    f_equal. lia.
Qed.

Lemma read_binary_property_value d pos le el read p el' read' :
  read_binary_property d pos le (el, read) p = Ok (el', read') ->
  el' = <[ ToString (name p) :=
             fst (property_at (this_buffer d) (this_byteOffset d + pos + read) p le) ]> el
  /\ read' = (read + snd (property_at (this_buffer d) (this_byteOffset d + pos + read) p le))%nat.
Proof.
  unfold read_binary_property, property_at, is_list, fixed_size.
  destruct (is_string (type p) "list").
  - destruct (binaryRead d (pos + read) (countType p) le) as [r|] eqn:E; [|discriminate].
    cbn [bind]. destruct (fields r) as [[n size]|] eqn:Ef; [|discriminate]. cbn [bind].
    apply fields_ok in Ef. subst r. apply binaryRead_value in E as [E1 E2].
    rewrite Nat.add_assoc in E2. rewrite E1, E2. cbn [from_option id].
    destruct (loop_count (Some n)) as [k|].
    + destruct (foldM _ (seq 0 k) ([], (read + size)%nat)) as [[l r1]|] eqn:Ei; [|discriminate].
      cbn [bind]. intros [= <- <-].
      eapply read_items_value in Ei as [-> ->]; [|reflexivity].
      cbn [fst snd app from_option id]. split; [|lia].
      do 2 f_equal. apply map_ext. intros j. f_equal. lia.
    + destruct (read_item _ _ _ _ _ _); discriminate.
  - destruct (binaryRead d (pos + read) (type p) le) as [r|] eqn:E; [|discriminate].
    cbn [bind]. destruct (fields r) as [[v size]|] eqn:Ef; [|discriminate]. cbn [bind].
    apply fields_ok in Ef. subst r. apply binaryRead_value in E as [E1 E2].
    rewrite Nat.add_assoc in E2. rewrite E1, E2. cbn [from_option id fst snd of_scalar].
    by intros [= <- <-].
Qed.

Lemma read_record_properties_value d pos le : forall ps st st',
  foldM (read_binary_property d pos le) ps st = Ok st' ->
  st' = fold_left (fun st p =>
                     let '(v, n) := property_at (this_buffer d)
                                      (this_byteOffset d + pos + snd st) p le in
                     (<[ ToString (name p) := v ]> (fst st), (snd st + n)%nat))
                  ps st.
Proof.
  induction ps as [|p ps IH]; intros [el read] st'; cbn [foldM fold_left].
  - by intros [= <-].
  - destruct (read_binary_property d pos le (el, read) p) as [[el1 r1]|] eqn:E; [|discriminate].
    cbn [bind]. intros H. apply IH in H. rewrite H.
    apply read_binary_property_value in E as [-> ->]. cbn [fst snd].
    by destruct (property_at _ _ p le).
Qed.

(** A record that is read is the record that its bytes spell. *)
Lemma binaryReadElement_value d pos ps le r :
  binaryReadElement d pos ps le = Ok r ->
  r = record_at (this_buffer d) (this_byteOffset d + pos) ps le.
Proof. unfold binaryReadElement, record_at. apply read_record_properties_value. Qed.

Lemma read_record_value body e le g loc i g' loc' :
  read_record body e le (g, loc) i = Ok (g', loc') ->
  let r := record_at (this_buffer body) (this_byteOffset body + loc) (properties e) le in
  handle g (element_name e, fst r) = Ok g' /\ loc' = (loc + snd r)%nat.
Proof.
  unfold read_record.
  destruct (binaryReadElement body loc (properties e) le) as [[element read]|] eqn:E;
    [|discriminate].
  cbn [bind]. apply binaryReadElement_value in E. cbv zeta. rewrite <- E. cbn [fst snd].
  unfold handle. cbn [fst snd].
  destruct (handleElement g (element_name e) element) as [g1|]; [|discriminate].
  cbn [bind]. by intros [= <- <-].
Qed.

Lemma read_records_value body e le : forall k i g loc g' loc',
  foldM (read_record body e le) (seq i k) (g, loc) = Ok (g', loc') ->
  foldM handle (records_at (this_buffer body) le (replicate k e) (this_byteOffset body + loc)) g
  = Ok g'
  /\ (this_byteOffset body + loc')%nat
     = end_at (this_buffer body) le (replicate k e) (this_byteOffset body + loc).
Proof.
  induction k as [|k IH]; intros i g loc g' loc'; cbn [seq foldM replicate records_at end_at].
  - by intros [= <- <-].
  - destruct (read_record body e le (g, loc) i) as [[g1 l1]|] eqn:E; [|discriminate].
    cbn [bind]. intros H. apply read_record_value in E as [E1 ->]. apply IH in H as [H1 H2].
    rewrite E1. cbn [bind]. rewrite Nat.add_assoc in H1, H2. auto.
Qed.

Lemma records_at_app buf le es1 : forall es2 o,
  records_at buf le (es1 ++ es2) o
  = records_at buf le es1 o ++ records_at buf le es2 (end_at buf le es1 o).
Proof.
  induction es1 as [|e es1 IH]; intros es2 o; cbn [app records_at end_at]; [reflexivity|].
  by rewrite IH.
Qed.

Lemma end_at_app buf le es1 : forall es2 o,
  end_at buf le (es1 ++ es2) o = end_at buf le es2 (end_at buf le es1 o).
Proof.
  induction es1 as [|e es1 IH]; intros es2 o; cbn [app end_at]; [reflexivity|]. apply IH.
Qed.

Lemma read_elements_value body le : forall es g loc g' loc',
  read_elements body le es (g, loc) = Some (Ok (g', loc')) ->
  let all := flat_map (fun e => replicate (record_count e) e) es in
  foldM handle (records_at (this_buffer body) le all (this_byteOffset body + loc)) g = Ok g'
  /\ (this_byteOffset body + loc')%nat
     = end_at (this_buffer body) le all (this_byteOffset body + loc).
Proof.
  induction es as [|e es IH]; intros g loc g' loc'; cbn [read_elements flat_map].
  - by intros [= <- <-].
  - unfold record_count at 1 3. destruct (iterations (count e)) as [k|]; [|discriminate].
    cbn [from_option id].
    destruct (foldM _ (seq 0 k) (g, loc)) as [[g1 l1]|] eqn:E; [|discriminate].
    intros H. apply read_records_value in E as [E1 E2]. apply IH in H as [H1 H2].
    cbv zeta. rewrite records_at_app, end_at_app, foldM_app, E1. cbn [bind].
    rewrite <- E2. auto.
Qed.

Lemma records_at_names buf le : forall es o,
  map fst (records_at buf le es o) = map element_name es.
Proof.
  induction es as [|e es IH]; intros o; cbn [records_at map fst]; [reflexivity|].
  by rewrite IH.
Qed.

Lemma declared_names (es : list element) :
  map element_name (flat_map (fun e => replicate (record_count e) e) es)
  = flat_map (fun e => replicate (record_count e) (element_name e)) es.
Proof.
  induction es as [|e es IH]; cbn [flat_map map]; [reflexivity|].
  rewrite map_app, IH. f_equal.
  induction (record_count e) as [|n IHn]; cbn [replicate map]; [reflexivity|].
  by rewrite IHn.
Qed.

(** X8: a binary decode that returns a mesh has read every record that
    the header declares, and nothing else: the mesh is what the assembler
    makes of the records that the bytes after the header spell, one after
    the other, for the elements in the order of the header and each as
    often as its count says. A scalar is the word of its bytes in the byte
    order of the file, read by its type; a list is its count and then as
    many items. *)
Theorem parseBinary_records
        (mapping : gmap string string) (data : list byte) (g : Geometry) :
  PLYBinary.parseBinary mapping data = Some (Ok g) ->
  exists header,
    parseHeader mapping (bin2str data) = Ok header
    /\ assemble (records_of data header) = Ok g
    /\ map fst (records_of data header) = declared header.
Proof.
  unfold PLYBinary.parseBinary.
  destruct (parseHeader mapping (bin2str data)) as [header|]; [|discriminate].
  destruct (read_elements _ _ _ _) as [[[g1 loc]|]|] eqn:E; try discriminate.
  intros [= <-]. apply read_elements_value in E as [E _].
  cbn [this_buffer this_byteOffset] in E. rewrite Nat.add_0_r in E.
  exists header. split; [reflexivity|]. split.
  - unfold assemble, records_of. unfold handle in E. rewrite E. reflexivity.
  - unfold records_of, declared. rewrite records_at_names. apply declared_names.
Qed.

End PLYRecordFacts.

(** ** Binary64 numbers of the decoded data *)

Section Valid.

Lemma dyadic_valid s m e :
  0 <= m -> (0 < m -> 0 <= scale m e /\ e - scale m e <= emax - prec) ->
  valid_binary prec emax (dyadic s m e) = true.
Proof.
  intros Hm H. unfold dyadic. destruct (Z.eqb_spec m 0); [reflexivity|].
  cbn [valid_binary]. destruct H as [Hk He]; [lia|]. apply dyadic_bounded; lia.
Qed.

(** What a read returns is a binary64 number in its own right: its
    mantissa and exponent are those of binary64. *)
Lemma decode_valid bits :
  valid_binary prec emax (to_number (decode 8 23 bits)) = true
  /\ valid_binary prec emax (to_number (decode 11 52 bits)) = true.
Proof.
  split; unfold decode.
  - pose proof (Z.mod_pos_bound (bits / 2 ^ 23) (2 ^ 8) ltac:(lia)) as HE.
    pose proof (Z.mod_pos_bound bits (2 ^ 23) ltac:(lia)) as HT.
    set (E := (bits / 2 ^ 23) mod 2 ^ 8) in *. set (T := bits mod 2 ^ 23) in *.
    change (2 ^ 8 - 1) with 255. change (2 ^ (8 - 1) - 1) with 127.
    destruct (Z.eqb_spec E 255); [destruct (T =? 0); reflexivity|].
    destruct (Z.eqb_spec E 0); cbn [to_number]; apply dyadic_valid; try lia.
    + intros H. pose proof (log2_below T 23 ltac:(lia)).
      unfold scale, prec, emax. lia.
    + intros _. unfold scale. rewrite (log2_implicit 23 T) by lia.
      unfold prec, emax. lia.
  - pose proof (Z.mod_pos_bound (bits / 2 ^ 52) (2 ^ 11) ltac:(lia)) as HE.
    pose proof (Z.mod_pos_bound bits (2 ^ 52) ltac:(lia)) as HT.
    set (E := (bits / 2 ^ 52) mod 2 ^ 11) in *. set (T := bits mod 2 ^ 52) in *.
    change (2 ^ 11 - 1) with 2047. change (2 ^ (11 - 1) - 1) with 1023.
    destruct (Z.eqb_spec E 2047); [destruct (T =? 0); reflexivity|].
    destruct (Z.eqb_spec E 0); cbn [to_number]; apply dyadic_valid; try lia.
    + intros H. pose proof (log2_below T 52 ltac:(lia)).
      unfold scale, prec, emax. lia.
    + intros _. unfold scale. rewrite (log2_implicit 52 T) by lia.
      unfold prec, emax. lia.
Qed.

End Valid.

(** ** STL: the arrays of a binary decode *)

Module STLBinaryFacts.
Import STLLoader STLSpec DataView DataViewFacts STLFacts FloatFacts.

Lemma bounded_binary32 (m e : Z) :
  0 < m ->
  (m < 2 ^ 23 /\ e = - 149 \/ 2 ^ 23 <= m < 2 ^ 24 /\ - 149 <= e <= 104) ->
  bounded 24 128 (Z.to_pos m) e = true.
Proof.
  intros Hm H. unfold bounded, canonical_mantissa, fexp, emin.
  rewrite digits2_pos_log2, Z2Pos.id by lia.
  apply andb_true_intro. split; [apply Z.eqb_eq|apply Z.leb_le].
  - destruct H as [[H1 ->] | [H1 H2]].
    + pose proof (log2_below m 23 ltac:(lia)). lia.
    + assert (Z.log2 m = 23) by (apply Z.log2_unique; lia). lia.
  - lia.
Qed.

(** A binary32 number is stored in a [Float32Array] as it is. *)
Lemma fround_decode bits : fround (to_number (decode 8 23 bits)) = to_number (decode 8 23 bits).
Proof.
  unfold decode.
  pose proof (Z.mod_pos_bound (bits / 2 ^ 23) (2 ^ 8) ltac:(lia)) as HE.
  pose proof (Z.mod_pos_bound bits (2 ^ 23) ltac:(lia)) as HT.
  set (E := (bits / 2 ^ 23) mod 2 ^ 8) in *. set (T := bits mod 2 ^ 23) in *.
  set (s := Z.testbit bits (8 + 23)).
  change (2 ^ 8 - 1) with 255. change (2 ^ (8 - 1) - 1) with 127.
  destruct (Z.eqb_spec E 255); [destruct (T =? 0); reflexivity|].
  assert (Hfin : forall m e, 0 <= m ->
            (0 < m -> m < 2 ^ 23 /\ e = - 149 \/ 2 ^ 23 <= m < 2 ^ 24 /\ - 149 <= e <= 104) ->
            fround (dyadic s m e) = dyadic s m e).
  { intros m e Hm0 Hme. unfold dyadic. destruct (Z.eqb_spec m 0); [reflexivity|].
    assert (Hm : 0 < m) by lia. specialize (Hme Hm).
    assert (Hl : 0 <= Z.log2 m < 24).
    { apply log2_below. destruct Hme as [[? _]|[? _]]; lia. }
    set (k := scale m e).
    assert (Hk : k = 53 - (Z.log2 m + 1)).
    { unfold k, scale, prec. destruct Hme as [[_ ->]|[_ ?]]; lia. }
    assert (Hk0 : 0 <= k) by lia.
    assert (Hb : bounded prec emax (Z.to_pos (m * 2 ^ k)) (e - k) = true).
    { apply dyadic_bounded; fold k; unfold emax, prec; destruct Hme as [[_ ->]|[_ ?]]; lia. }
    unfold fround.
    rewrite (binary_round_exact_shr 24 128 s (Z.to_pos (m * 2 ^ k)) (Z.to_pos m) e k).
    - replace e with (e - k + k) at 1 by lia.
      apply binary_round_exact_shl; [exact Hb|exact Hk0|].
      rewrite scaled_pos by lia. rewrite Z2Pos.id by lia. reflexivity.
    - apply bounded_binary32; assumption.
    - exact Hk0.
    - rewrite scaled_pos by lia. rewrite Z2Pos.id by lia. reflexivity. }
  destruct (Z.eqb_spec E 0); cbn [to_number]; apply Hfin; lia.
Qed.

Lemma getFloat32_at buf o :
  getFloat32 (new buf) o (Some true)
  = if (length buf <? o + 4)%nat then Throw RangeError else Ok (float32_at buf o).
Proof.
  unfold getFloat32. rewrite _getBytes_new.
  destruct (Nat.ltb_spec (length buf) (o + 4)); [reflexivity|].
  cbn [truthy negb andb bind]. rewrite float32_of_bytes; [reflexivity|].
  apply length_slice. assumption.
Qed.


Lemma fround_float32_at buf o : fround (float32_at buf o) = float32_at buf o.
Proof. apply fround_decode. Qed.

Lemma vertex_body_result buf h start nx ny nz rgb st i st' :
  vertex_body (new buf) h start (nx, ny, nz) rgb st i = Ok st' ->
  (start + i * 12 + 12 <= length buf)%nat
  /\ offset st' = (offset st + 3)%nat
  /\ vertices st'
     = paint (vertices st) (offset st)
             (Some (float32_at buf (start + i * 12)),
              Some (float32_at buf (start + i * 12 + 4)),
              Some (float32_at buf (start + i * 12 + 8)))
  /\ normals st' = paint (normals st) (offset st) (Some nx, Some ny, Some nz).
Proof.
  unfold vertex_body. destruct rgb as [[r g] b]. rewrite !getFloat32_at.
  destruct (Nat.ltb_spec (length buf) (start + i * 12 + 4)); [discriminate|].
  destruct (Nat.ltb_spec (length buf) (start + i * 12 + 4 + 4)); [discriminate|].
  destruct (Nat.ltb_spec (length buf) (start + i * 12 + 8 + 4)); [discriminate|].
  cbn [bind]. intros [= <-]. cbn. split; [lia|]. auto.
Qed.

Lemma face_body_result buf h st face st' :
  face_body (new buf) h st face = Ok st' ->
  (84 + face * 50 + (if hasColors h then 50 else 48) <= length buf)%nat
  /\ offset st' = (offset st + 9)%nat
  /\ let o := offset st in
     let start := (84 + face * 50)%nat in
     let normal := (Some (float32_at buf start), Some (float32_at buf (start + 4)),
                    Some (float32_at buf (start + 8))) in
     let vertex i := (Some (float32_at buf (start + i * 12)),
                      Some (float32_at buf (start + i * 12 + 4)),
                      Some (float32_at buf (start + i * 12 + 8))) in
     vertices st'
     = paint (paint (paint (vertices st) o (vertex 1%nat)) (o + 3) (vertex 2%nat))
             (o + 6) (vertex 3%nat)
     /\ normals st' = paint (paint (paint (normals st) o normal) (o + 3) normal) (o + 6) normal.
Proof.
  unfold face_body. change (12 * 4 + 2)%nat with 50%nat. rewrite !getFloat32_at.
  destruct (Nat.ltb_spec (length buf) (84 + face * 50 + 4)); [discriminate|].
  destruct (Nat.ltb_spec (length buf) (84 + face * 50 + 4 + 4)); [discriminate|].
  destruct (Nat.ltb_spec (length buf) (84 + face * 50 + 8 + 4)); [discriminate|].
  cbn [bind].
  assert (Hrgb : forall rgb,
             (if hasColors h
              then let* packedColor := getUint16 (new buf) (84 + face * 50 + 48) (Some true) in
                   Ok (face_color h packedColor)
              else Ok (None, None, None)) = Ok rgb ->
             (84 + face * 50 + (if hasColors h then 50 else 48) <= length buf)%nat
             \/ hasColors h = false).
  { intros rgb. destruct (hasColors h); [|auto]. rewrite getUint16_le.
    destruct (Nat.ltb_spec (length buf) (84 + face * 50 + 48 + 2)); [discriminate|].
    left. lia. }
  match goal with |- context [bind ?m _] => destruct m as [rgb|] eqn:Ergb; [|discriminate] end.
  specialize (Hrgb rgb eq_refl).
  cbn [bind foldM].
  destruct (vertex_body _ _ _ _ rgb st 1) as [s1|] eqn:E1; [|discriminate]. cbn [bind].
  destruct (vertex_body _ _ _ _ rgb s1 2) as [s2|] eqn:E2; [|discriminate]. cbn [bind].
  destruct (vertex_body _ _ _ _ rgb s2 3) as [s3|] eqn:E3; [|discriminate]. cbn [bind].
  intros [= <-].
  apply vertex_body_result in E1, E2, E3.
  destruct E1 as (B1 & O1 & V1 & N1), E2 as (B2 & O2 & V2 & N2), E3 as (B3 & O3 & V3 & N3).
  split; [destruct Hrgb as [?| ->]; lia|]. split; [lia|]. cbv zeta.
  rewrite V3, V2, V1, N3, N2, N1, O2, O1.
  replace (offset st + 3 + 3)%nat with (offset st + 6)%nat by lia. split; reflexivity.
Qed.

Lemma paint_lookup3 c o (x0 x1 x2 : number) i :
  (o + 3 <= length c)%nat -> (i < 3)%nat ->
  paint c o (Some x0, Some x1, Some x2) !! (o + i)%nat
  = Some (fround (nth i [x0; x1; x2] x0)).
Proof.
  intros Hc Hi. destruct (paint_lookup c o x0 x1 x2 Hc) as (L0 & L1 & L2).
  assert (i = 0 \/ i = 1 \/ i = 2)%nat as [-> | [-> | ->]] by lia; cbn [nth].
  - rewrite Nat.add_0_r. exact L0.
  - exact L1.
  - exact L2.
Qed.

Lemma face_body_filled buf h size k st st' :
  (9 * (k + 1) <= size)%nat ->
  filled buf size k st ->
  face_body (new buf) h st k = Ok st' ->
  filled buf size (k + 1) st'.
Proof.
  intros Hsize (Ho & Hv & Hn & Hfaces) H.
  apply face_body_result in H. destruct H as (_ & Ho' & Hv' & Hn'). cbv zeta in Hv', Hn'.
  split; [lia|].
  split; [rewrite Hv', !length_paint; exact Hv|].
  split; [rewrite Hn', !length_paint; exact Hn|].
  intros face v i Hface Hv3 Hi3. rewrite Hv', Hn', Ho.
  destruct (Nat.eq_dec face k) as [-> | Hne].
  - assert (v = 0 \/ v = 1 \/ v = 2)%nat as [-> | [-> | ->]] by lia.
    + rewrite !(paint_lookup_other _ (9 * k + 6)), !(paint_lookup_other _ (9 * k + 3)) by lia.
      replace (9 * k + 3 * 0 + i)%nat with (9 * k + i)%nat by lia.
      rewrite !paint_lookup3 by lia.
      assert (i = 0 \/ i = 1 \/ i = 2)%nat as [-> | [-> | ->]] by lia;
        cbn [nth]; rewrite !fround_float32_at; split; do 2 f_equal; lia.
    + rewrite !(paint_lookup_other _ (9 * k + 6)) by lia.
      replace (9 * k + 3 * 1 + i)%nat with (9 * k + 3 + i)%nat by lia.
      rewrite !paint_lookup3 by (rewrite ?length_paint; lia).
      assert (i = 0 \/ i = 1 \/ i = 2)%nat as [-> | [-> | ->]] by lia;
        cbn [nth]; rewrite !fround_float32_at; split; do 2 f_equal; lia.
    + replace (9 * k + 3 * 2 + i)%nat with (9 * k + 6 + i)%nat by lia.
      rewrite !paint_lookup3 by (rewrite ?length_paint; lia).
      assert (i = 0 \/ i = 1 \/ i = 2)%nat as [-> | [-> | ->]] by lia;
        cbn [nth]; rewrite !fround_float32_at; split; do 2 f_equal; lia.
  - specialize (Hfaces face v i ltac:(lia) Hv3 Hi3).
    rewrite !(paint_lookup_other _ (9 * k + 6)), !(paint_lookup_other _ (9 * k + 3)),
      !(paint_lookup_other _ (9 * k)) by lia.
    exact Hfaces.
Qed.

Lemma faces_filled buf h size st0 : forall k st,
  (9 * k <= size)%nat ->
  filled buf size 0 st0 ->
  foldM (face_body (new buf) h) (seq 0 k) st0 = Ok st ->
  filled buf size k st.
Proof.
  induction k as [|k IH]; intros st Hsize H0.
  - cbn [seq foldM]. intros [= <-]. exact H0.
  - rewrite seq_S, foldM_app. cbn [Nat.add].
    destruct (foldM _ (seq 0 k) st0) as [s1|] eqn:E; [|discriminate].
    cbn [bind foldM].
    destruct (face_body _ _ s1 k) as [s2|] eqn:E2; [|discriminate].
    cbn [bind]. intros [= <-].
    replace (S k) with (k + 1)%nat by lia.
    eapply face_body_filled; [lia| |exact E2].
    apply IH; [lia|assumption|reflexivity].
Qed.

Lemma uint32_le_bound buf o : 0 <= uint32_le buf o < 2 ^ 32.
Proof.
  unfold uint32_le. pose proof (at_bound buf o). pose proof (at_bound buf (o + 1)).
  pose proof (at_bound buf (o + 2)). pose proof (at_bound buf (o + 3)). lia.
Qed.

(** X3: in a binary decode the position array holds, for every triangle
    and each of its three vertices, the three little-endian binary32
    numbers at offset [12 (v + 1)] of the 50-byte record, unchanged; the
    normal array holds the three numbers at the start of the record, once
    for each vertex. *)
Theorem parseBinary_coordinates (buf : list byte) (g : BufferGeometry) :
  parseBinary buf = Ok g ->
  forall face v i,
    Z.of_nat face < uint32_le buf 80 -> (v < 3)%nat -> (i < 3)%nat ->
    position g !! (9 * face + 3 * v + i)%nat
    = Some (float32_at buf (84 + 50 * face + 12 * (v + 1) + 4 * i))
    /\ normal g !! (9 * face + 3 * v + i)%nat
       = Some (float32_at buf (84 + 50 * face + 4 * i)).
Proof.
  unfold parseBinary. rewrite getUint32_le.
  destruct (Nat.ltb_spec (length buf) (80 + 4)); [discriminate|]. cbn [bind].
  rewrite scan_header_result by lia. cbn [bind].
  set (h := header_of buf _ _). set (n := uint32_le buf 80).
  destruct (foldM _ (seq 0 (Z.to_nat n)) _) as [st|] eqn:E; [|discriminate].
  cbn [bind]. intros [= <-]. cbn [position normal].
  apply (faces_filled buf h (Z.to_nat (n * 3 * 3))) in E.
  - destruct E as (_ & _ & _ & Hfaces). intros face v i Hface. apply Hfaces. lia.
  - lia.
  - split; [reflexivity|]. cbn [vertices normals].
    rewrite !length_Float32Array. split; [reflexivity|]. split; [reflexivity|].
    intros face v i Hface. lia.
Qed.


(** *** Which buffers decode *)

Lemma foldM_throws {A S : Type} (P : exn -> Prop) (body : S -> A -> result S) :
  (forall s a e, body s a = Throw e -> P e) ->
  forall l s e, foldM body l s = Throw e -> P e.
Proof.
  intros Hbody. induction l as [|a l IH]; intros s e; cbn [foldM]; [discriminate|].
  destruct (body s a) as [s'|e'] eqn:E; cbn [bind].
  - apply IH.
  - intros [= <-]. eapply Hbody, E.
Qed.

Lemma vertex_body_throws buf h start normal rgb st i e :
  vertex_body (new buf) h start normal rgb st i = Throw e -> e = RangeError.
Proof.
  unfold vertex_body. destruct normal as [[nx ny] nz]. destruct rgb as [[r g] b].
  rewrite !getFloat32_at.
  repeat (match goal with |- context [if ?c then _ else _] => destruct c end;
          cbn [bind]; [congruence|]).
  discriminate.
Qed.

Lemma face_body_throws buf h st face e :
  face_body (new buf) h st face = Throw e -> e = RangeError.
Proof.
  unfold face_body. rewrite !getFloat32_at.
  repeat (match goal with |- context [if (_ <? _)%nat then _ else _] => destruct (_ <? _)%nat end;
          cbn [bind]; [congruence|]).
  assert (Hrgb : forall e',
             (if hasColors h
              then let* packedColor :=
                     getUint16 (new buf) (84 + face * (12 * 4 + 2) + 48) (Some true) in
                   Ok (face_color h packedColor)
              else Ok (None, None, None)) = Throw e' -> e' = RangeError).
  { intros e'. destruct (hasColors h); [|discriminate]. rewrite getUint16_le.
    destruct (_ <? _)%nat; cbn [bind]; congruence. }
  match goal with |- context [bind ?m _] => destruct m as [rgb|e'] eqn:Ergb end; cbn [bind].
  - apply (foldM_throws (fun e => e = RangeError)). intros s a e0. apply vertex_body_throws.
  - intros [= <-]. apply Hrgb. reflexivity.
Qed.

Lemma face_body_fits buf h st face :
  (84 + face * 50 + (if hasColors h then 50 else 48) <= length buf)%nat ->
  exists st', face_body (new buf) h st face = Ok st'.
Proof.
  intros H. assert (84 + face * 50 + 48 <= length buf)%nat by (destruct (hasColors h); lia).
  unfold face_body. change (12 * 4 + 2)%nat with 50%nat.
  destruct (getFloat32_succeeds buf (84 + face * 50) (Some true)) as [x ->]; [lia|].
  destruct (getFloat32_succeeds buf (84 + face * 50 + 4) (Some true)) as [y ->]; [lia|].
  destruct (getFloat32_succeeds buf (84 + face * 50 + 8) (Some true)) as [z ->]; [lia|].
  cbn [bind].
  assert (Hrgb : exists rgb,
             (if hasColors h
              then let* packedColor := getUint16 (new buf) (84 + face * 50 + 48) (Some true) in
                   Ok (face_color h packedColor)
              else Ok (None, None, None)) = Ok rgb).
  { destruct (hasColors h); [|eauto]. rewrite getUint16_le.
    destruct (Nat.ltb_spec (length buf) (84 + face * 50 + 48 + 2)); [lia|].
    cbn [bind]. eauto. }
  destruct Hrgb as [rgb ->]. cbn [bind foldM].
  destruct (vertex_body_succeeds buf h (84 + face * 50) (x, y, z) rgb st 1) as [s1 ->]; [lia|].
  cbn [bind].
  destruct (vertex_body_succeeds buf h (84 + face * 50) (x, y, z) rgb s1 2) as [s2 ->]; [lia|].
  cbn [bind].
  destruct (vertex_body_succeeds buf h (84 + face * 50) (x, y, z) rgb s2 3) as [s3 ->]; [lia|].
  cbn [bind]. eauto.
Qed.

Lemma faces_fit buf h k : forall st,
  (k = 0 \/ 84 + (k - 1) * 50 + (if hasColors h then 50 else 48) <= length buf)%nat ->
  exists st', foldM (face_body (new buf) h) (seq 0 k) st = Ok st'.
Proof.
  induction k as [|k IH]; intros st H.
  - cbn. eauto.
  - rewrite seq_S, foldM_app.
    destruct (IH st) as [s1 ->]; [destruct (hasColors h); lia|]. cbn [bind foldM Nat.add].
    destruct (face_body_fits buf h s1 k) as [s2 ->]; [destruct (hasColors h); lia|].
    cbn [bind]. eauto.
Qed.

Lemma hasColors_header_of buf faces :
  (if hasColors (header_of buf faces (last_signature buf)) then 50 else 48) = record_read buf.
Proof. unfold record_read. destruct (last_signature buf); reflexivity. Qed.

(** X4: a buffer decodes when it holds the count and what is read of the
    records, and only then: 84 bytes, and for a count above 0 the records up
    to the attribute of the last one, which is read only when the header
    carries a color. Otherwise the decode throws a [RangeError]. *)
Theorem parseBinary_bounds (buf : list byte) :
  if fits buf then exists g, parseBinary buf = Ok g
  else parseBinary buf = Throw RangeError.
Proof.
  unfold fits, parseBinary. rewrite getUint32_le.
  pose proof (uint32_le_bound buf 80) as Hn.
  destruct (Nat.ltb_spec (length buf) (80 + 4)) as [Hlen | Hlen].
  { destruct (Z.leb_spec 84 (Z.of_nat (length buf))); [lia|]. reflexivity. }
  destruct (Z.leb_spec 84 (Z.of_nat (length buf))); [|lia].
  cbn [bind andb]. rewrite scan_header_result by lia. cbn [bind].
  set (n := uint32_le buf 80) in *.
  set (h := header_of buf n (last_signature buf)).
  pose proof (hasColors_header_of buf n) as Hh. fold h in Hh.
  set (st0 := {| vertices := Float32Array (n * 3 * 3); normals := _; colors := _; offset := _ |}).
  destruct ((n =? 0) || (84 + 50 * (n - 1) + record_read buf <=? Z.of_nat (length buf)))
    eqn:Hfits.
  - destruct (faces_fit buf h (Z.to_nat n) st0) as [st ->].
    + apply orb_true_iff in Hfits. destruct Hfits as [?%Z.eqb_eq | ?%Z.leb_le]; [lia|].
      destruct (Z.eq_dec n 0); [left; lia|].
      right. revert Hh. destruct (hasColors h); lia.
    + cbn [bind]. eauto.
  - apply orb_false_iff in Hfits. destruct Hfits as [H0%Z.eqb_neq Hb%Z.leb_gt].
    destruct (foldM _ (seq 0 (Z.to_nat n)) st0) as [st|e] eqn:E.
    + exfalso. destruct (Z.to_nat n) as [|k] eqn:Ek; [lia|].
      rewrite seq_S, foldM_app in E. cbn [Nat.add] in E.
      destruct (foldM _ (seq 0 k) st0) as [s1|]; [|discriminate].
      cbn [bind foldM] in E.
      destruct (face_body (new buf) h s1 k) as [s2|] eqn:E2; [|discriminate].
      apply face_body_result in E2. destruct E2 as [E2 _].
      revert Hh E2. destruct (hasColors h); lia.
    + cbn [bind]. f_equal. revert E. apply (foldM_throws (fun e => e = RangeError)).
      intros s a e0. apply face_body_throws.
Qed.

(** *** The color of the header *)

(** X5: without the signature [COLOR=] at an offset below 70 the geometry
    has no color array, is not marked as colored and has no opacity; with it
    the geometry is marked, and its opacity is the tenth byte of the last
    signature over 255. *)
Theorem parseBinary_header_color (buf : list byte) (g : BufferGeometry) :
  parseBinary buf = Ok g ->
  match last_signature buf with
  | None => geometry_hasColors g = false /\ color g = None /\ geometry_alpha g = None
  | Some idx =>
      geometry_hasColors g = true
      /\ geometry_alpha g = Some (div (of_Z (at_ buf (idx + 9))) (of_Z 255))
      /\ (idx < 70)%nat /\ signature_at buf idx = true
      /\ forall j, (idx < j < 70)%nat -> signature_at buf j = false
  end.
Proof.
  unfold parseBinary. rewrite getUint32_le.
  destruct (Nat.ltb_spec (length buf) (80 + 4)); [discriminate|]. cbn [bind].
  rewrite scan_header_result by lia. cbn [bind].
  destruct (foldM _ (seq 0 (Z.to_nat (uint32_le buf 80))) _) as [st|]; [|discriminate].
  cbn [bind]. intros [= <-].
  destruct (last_signature buf) as [idx|] eqn:Hsig; cbn.
  - apply last_below_spec in Hsig. destruct Hsig as (? & ? & ?). auto 6.
  - auto.
Qed.

(** *** Bytes after the records *)

Lemma slice_app (buf rest : list byte) o n :
  (o + n <= length buf)%nat -> slice (buf ++ rest) o (o + n) = slice buf o (o + n).
Proof.
  intros H. unfold slice. replace (o + n - o)%nat with n by lia.
  rewrite skipn_app, firstn_app, length_skipn.
  replace (n - (length buf - o))%nat with 0%nat by lia.
  rewrite firstn_0, app_nil_r. reflexivity.
Qed.

Lemma getBytes_app (buf rest : list byte) n o le :
  (o + n <= length buf)%nat ->
  _getBytes (new (buf ++ rest)) n o le = _getBytes (new buf) n o le.
Proof.
  intros H. rewrite !_getBytes_new, length_app, slice_app by exact H.
  destruct (Nat.ltb_spec (length buf + length rest) (o + n)); [lia|].
  destruct (Nat.ltb_spec (length buf) (o + n)); [lia|]. reflexivity.
Qed.

Lemma foldM_ext {A S : Type} (f g : S -> A -> result S) (l : list A) :
  (forall a, In a l -> forall s, f s a = g s a) ->
  forall s, foldM f l s = foldM g l s.
Proof.
  induction l as [|a l IH]; intros H s; cbn [foldM]; [reflexivity|].
  rewrite (H a (or_introl eq_refl)). destruct (g s a); cbn [bind]; [|reflexivity].
  apply IH. intros a' Ha'. apply H. right. exact Ha'.
Qed.

Lemma getUint32_app (buf rest : list byte) o le :
  (o + 4 <= length buf)%nat ->
  getUint32 (new (buf ++ rest)) o le = getUint32 (new buf) o le.
Proof. intros H. unfold getUint32, getInt32. by rewrite getBytes_app. Qed.

Lemma getUint16_app (buf rest : list byte) o le :
  (o + 2 <= length buf)%nat ->
  getUint16 (new (buf ++ rest)) o le = getUint16 (new buf) o le.
Proof. intros H. unfold getUint16. by rewrite getBytes_app. Qed.

Lemma getUint8_app (buf rest : list byte) o :
  (o + 1 <= length buf)%nat ->
  getUint8 (new (buf ++ rest)) o = getUint8 (new buf) o.
Proof. intros H. unfold getUint8. by rewrite getBytes_app. Qed.

Lemma getFloat32_app (buf rest : list byte) o le :
  (o + 4 <= length buf)%nat ->
  getFloat32 (new (buf ++ rest)) o le = getFloat32 (new buf) o le.
Proof. intros H. unfold getFloat32. by rewrite getBytes_app. Qed.

Lemma scan_header_app (buf rest : list byte) faces h i :
  (84 <= length buf)%nat -> (i < 70)%nat ->
  scan_header (new (buf ++ rest)) faces h i = scan_header (new buf) faces h i.
Proof.
  intros Hlen Hi. unfold scan_header.
  rewrite getUint32_app, !getUint8_app by lia. reflexivity.
Qed.

Lemma vertex_body_app (buf rest : list byte) h start normal rgb st i :
  (start + i * 12 + 12 <= length buf)%nat ->
  vertex_body (new (buf ++ rest)) h start normal rgb st i
  = vertex_body (new buf) h start normal rgb st i.
Proof.
  intros H. unfold vertex_body. destruct normal as [[nx ny] nz]. destruct rgb as [[r g] b].
  rewrite !getFloat32_app by lia. reflexivity.
Qed.

Lemma face_body_app (buf rest : list byte) h st face :
  (84 + face * 50 + 50 <= length buf)%nat ->
  face_body (new (buf ++ rest)) h st face = face_body (new buf) h st face.
Proof.
  intros H. unfold face_body. change (12 * 4 + 2)%nat with 50%nat.
  rewrite !getFloat32_app, getUint16_app by lia.
  repeat (match goal with |- bind ?m _ = bind ?m _ => destruct m; cbn [bind]; [|reflexivity] end).
  apply foldM_ext. intros i Hi s. apply vertex_body_app.
  cbn in Hi. lia.
Qed.

(** X6: what follows the last record in the buffer is not looked at: the
    decode is the same with and without it. *)
Theorem parseBinary_trailing_bytes (buf rest : list byte) :
  84 + 50 * uint32_le buf 80 <= Z.of_nat (length buf) ->
  parseBinary (buf ++ rest) = parseBinary buf.
Proof.
  intros H. pose proof (uint32_le_bound buf 80) as Hn.
  unfold parseBinary. rewrite getUint32_app by lia. rewrite getUint32_le.
  destruct (Nat.ltb_spec (length buf) (80 + 4)); [lia|]. cbn [bind].
  rewrite (foldM_ext (scan_header (new (buf ++ rest)) (uint32_le buf 80))
                     (scan_header (new buf) (uint32_le buf 80))).
  - destruct (foldM _ (seq 0 (80 - 10)) no_color) as [h|]; cbn [bind]; [|reflexivity].
    rewrite (foldM_ext (face_body (new (buf ++ rest)) h) (face_body (new buf) h));
      [reflexivity|].
    intros face Hface s. apply in_seq in Hface. apply face_body_app. lia.
  - intros i Hi s. apply in_seq in Hi. apply scan_header_app; lia.
Qed.

End STLBinaryFacts.

(** ** PLY: texts, headers and records *)

Module PLYTextFacts.
Import Str Parse PLYLoader PLYBinary PLYSpec PLYBinarySpec PLYTextSpec PLYBinaryFacts.

(** *** A type without a case *)

Lemma type_size_unknown t :
  type_size t = None ->
  forall n, parseASCIINumber n t = None.
Proof.
  intros H n. destruct t as [t|]; [|reflexivity].
  revert H. unfold type_size, parseASCIINumber, is_integer_type, is_float_type, is_type, is_string.
  cbn [existsb].
  repeat (match goal with |- context [String.eqb t ?n] => destruct (String.eqb t n) end;
          cbn [orb]; [discriminate|]).
  reflexivity.
Qed.

(** X10: a scalar property whose type is none of the sixteen known names:
    a binary record with it is never read, and alone it throws a
    [TypeError]; a text record has the field, with the value
    [undefined]. *)
Theorem unknown_type_throws (p : property) :
  is_list p = false ->
  type_size (type p) = None ->
  (forall d pos le ps qs r, binaryReadElement d pos (ps ++ p :: qs) le <> Ok r)
  /\ (forall d pos le qs, binaryReadElement d pos (p :: qs) le = Throw TypeError)
  /\ (forall line,
        parseASCIIElement [p] line = Ok (<[ToString (name p) := Undefined]> ∅)).
Proof.
  intros Hl Ht. unfold is_list in Hl.
  assert (Hp : forall d pos le st, read_binary_property d pos le st p = Throw TypeError).
  { intros d pos le [el read]. unfold read_binary_property. rewrite Hl.
    by rewrite binaryRead_unknown. }
  split; [|split].
  - intros d pos le ps qs r. unfold binaryReadElement. rewrite foldM_app.
    destruct (foldM _ ps _) as [st|]; cbn [bind foldM]; [|discriminate].
    rewrite Hp. discriminate.
  - intros d pos le qs. unfold binaryReadElement. cbn [foldM]. by rewrite Hp.
  - intros line. unfold parseASCIIElement. cbn [foldM read_property]. rewrite Hl.
    rewrite type_size_unknown by exact Ht. reflexivity.
Qed.

(** *** A text without a terminator *)

Lemma drop_drop n : forall m s, drop n (drop m s) = drop (m + n) s.
Proof.
  intros m. induction m as [|m IH]; intros s; [reflexivity|].
  destruct s as [|c s]; cbn [drop Nat.add]; [by destruct n|]. apply IH.
Qed.

Lemma first_match_none p : forall s i,
  (forall k, p (drop k s) = false) -> first_match p s i = None.
Proof.
  induction s as [|c s IH]; intros i H; cbn [first_match];
    pose proof (H O) as H0; cbn [drop] in H0; rewrite H0.
  - reflexivity.
  - apply IH. intros k. apply (H (S k)).
Qed.

Lemma last_match_none p : forall s i,
  (forall k, p (drop k s) = false) -> last_match p s i = None.
Proof.
  induction s as [|c s IH]; intros i H; cbn [last_match];
    pose proof (H O) as H0; cbn [drop] in H0.
  - by rewrite H0.
  - rewrite IH by (intros k; apply (H (S k))). by rewrite H0.
Qed.

Lemma parseHeader_no_terminator mapping data :
  (forall i, is_terminator (drop i data) = false) ->
  parseHeader mapping data
  = Ok {| format := None; version := None; comments := []; elements := [];
          headerLength := O |}.
Proof.
  intros H. unfold parseHeader, patternHeader.
  destruct (first_match (String.prefix "ply") data 0) as [i|]; [|reflexivity].
  rewrite last_match_none; [reflexivity|].
  intros k. rewrite drop_drop. apply H.
Qed.

(** X11: an input in which [end_header] with a white space after it does
    not occur decodes to the empty mesh, as a text and as a buffer. *)
Theorem parse_without_terminator (mapping : gmap string string) (data : input) :
  (forall i, is_terminator (drop i (text_of data)) = false) ->
  parse mapping data = Some (Ok new_Geometry).
Proof.
  intros H.
  assert (Ha : parseASCII mapping (text_of data) = Ok new_Geometry).
  { unfold parseASCII. rewrite parseHeader_no_terminator by exact H. cbn [bind].
    unfold patternBody. rewrite first_match_none by exact H. reflexivity. }
  destruct data as [buf|s]; cbn [parse text_of] in *; [|by rewrite Ha].
  unfold isASCII. rewrite parseHeader_no_terminator by exact H. cbn.
  unfold PLYBinary.parseBinary. rewrite parseHeader_no_terminator by exact H.
  reflexivity.
Qed.

(** *** A property line before the first element line *)

Lemma header_line_property mapping st line :
  currentElement st = None ->
  is_string (lineType line) "property" = true ->
  header_line mapping st line = Throw TypeError.
Proof.
  intros Hc. unfold header_line, lineType. rewrite Hc.
  destruct (String.eqb (trim line) ""); [discriminate|].
  destruct (hd_error (split_ws (trim line))) as [t|]; [|discriminate]. unfold is_string.
  destruct (String.eqb_spec t "property") as [-> | ?]; [reflexivity|discriminate].
Qed.

Lemma header_line_no_element mapping st line st' :
  currentElement st = None ->
  is_string (lineType line) "element" = false ->
  header_line mapping st line = Ok st' ->
  currentElement st' = None.
Proof.
  intros Hc. unfold header_line, lineType.
  destruct (String.eqb (trim line) ""); [by intros _ [= <-]|].
  set (t := hd_error (split_ws (trim line))).
  intros He. rewrite He.
  destruct (is_string t "format"); [by intros [= <-]|].
  destruct (is_string t "comment"); [by intros [= <-]|].
  rewrite Hc. destruct (is_string t "property"); [discriminate|]. by intros [= <-].
Qed.

Lemma header_line_throws mapping st line e :
  header_line mapping st line = Throw e -> e = TypeError.
Proof.
  unfold header_line.
  destruct (String.eqb (trim line) ""); [discriminate|].
  destruct (is_string _ "format"); [discriminate|].
  destruct (is_string _ "comment"); [discriminate|].
  destruct (is_string _ "element"); [discriminate|].
  destruct (is_string _ "property"); [|discriminate].
  destruct (currentElement st); congruence.
Qed.

Lemma header_lines_property mapping line rest : forall before st,
  currentElement st = None ->
  Forall (fun l => is_string (lineType l) "element" = false) before ->
  is_string (lineType line) "property" = true ->
  foldM (header_line mapping) (before ++ line :: rest) st = Throw TypeError.
Proof.
  induction before as [|l before IH]; intros st Hc Hb Hp; cbn [app foldM].
  - by rewrite header_line_property.
  - inversion Hb as [|? ? Hl Hb']; subst.
    destruct (header_line mapping st l) as [st1|e] eqn:E; cbn [bind].
    + apply IH; [|exact Hb'|exact Hp].
      eapply header_line_no_element; [exact Hc|exact Hl|exact E].
    + f_equal. eapply header_line_throws, E.
Qed.

(** X12: a header with a property line that no element line precedes is
    refused with a [TypeError], by [parseHeader] and so by the decode. *)
Theorem property_before_element
        (mapping : gmap string string) (data : string)
        (before : list string) (line : string) (rest : list string) :
  split "010" (headerText data) = before ++ line :: rest ->
  Forall (fun l => is_string (lineType l) "element" = false) before ->
  is_string (lineType line) "property" = true ->
  parseHeader mapping data = Throw TypeError
  /\ parseASCII mapping data = Throw TypeError.
Proof.
  intros Hs Hb Hp.
  assert (H : parseHeader mapping data = Throw TypeError).
  { unfold parseHeader. unfold headerText in Hs.
    destruct (patternHeader data) as [[text n]|]; cbn [fst] in Hs; rewrite Hs;
      by rewrite header_lines_property. }
  split; [exact H|]. unfold parseASCII. by rewrite H.
Qed.

End PLYTextFacts.

Module PLYDispatchFacts.
Import Str Parse PLYLoader PLYBinary PLYSpec PLYBinarySpec PLYDispatchSpec PLYFacts.

Lemma of_Z_finite k :
  0 < k < 2 ^ 53 ->
  of_Z k = S754_finite false (Z.to_pos (k * 2 ^ (52 - Z.log2 k))) (Z.log2 k - 52)
  /\ 0 <= 52 - Z.log2 k.
Proof.
  intros H. pose proof (log2_below k 53 H) as Hl.
  rewrite of_Z_dyadic by lia. rewrite dyadic_pos by lia.
  assert (Hs : scale k 0 = 52 - Z.log2 k) by (unfold scale, prec; lia).
  rewrite Hs. split; [|lia]. f_equal. lia.
Qed.

Lemma SFleb_of_Z k c :
  0 < k < 2 ^ 53 -> 0 <= c < 2 ^ 53 -> SFleb (of_Z k) (of_Z c) = (k <=? c).
Proof.
  intros Hk Hc. destruct (of_Z_finite k Hk) as [-> Hsk].
  destruct (Z.eq_dec c 0) as [-> | Hc0].
  { cbn. symmetry. apply Z.leb_gt. lia. }
  destruct (of_Z_finite c ltac:(lia)) as [-> Hsc].
  unfold SFleb, SFcompare.
  pose proof (Z.log2_spec k ltac:(lia)) as Bk. pose proof (Z.log2_spec c ltac:(lia)) as Bc.
  destruct (Z.compare_spec (Z.log2 k - 52) (Z.log2 c - 52)) as [He | He | He].
  - assert (Hl : Z.log2 k = Z.log2 c) by lia. rewrite Hl.
    change (PosDef.Pos.compare_cont Eq) with Pos.compare.
    rewrite <- Z2Pos.inj_compare
      by (apply Z.mul_pos_pos; [lia|apply Z.pow_pos_nonneg; lia]).
    assert (0 < 2 ^ (52 - Z.log2 c)) by (apply Z.pow_pos_nonneg; lia).
    destruct (Z.compare_spec (k * 2 ^ (52 - Z.log2 c)) (c * 2 ^ (52 - Z.log2 c)));
      symmetry; [apply Z.leb_le|apply Z.leb_le|apply Z.leb_gt]; nia.
  - symmetry. apply Z.leb_le.
    assert (2 ^ Z.succ (Z.log2 k) <= 2 ^ Z.log2 c) by (apply Z.pow_le_mono_r; lia). lia.
  - symmetry. apply Z.leb_gt.
    assert (2 ^ Z.succ (Z.log2 c) <= 2 ^ Z.log2 k) by (apply Z.pow_le_mono_r; lia). lia.
Qed.

Lemma iterations_of_Z k : 0 < k < 2 ^ 53 -> iterations (of_Z k) = Some (Z.to_nat k).
Proof.
  intros Hk. destruct (of_Z_finite k Hk) as [-> Hs]. unfold iterations.
  assert (Hp : 0 < 2 ^ (52 - Z.log2 k)) by (apply Z.pow_pos_nonneg; lia).
  rewrite Z2Pos.id by (apply Z.mul_pos_pos; lia).
  destruct (Z.leb_spec 0 (Z.log2 k - 52)).
  - replace (Z.log2 k - 52) with 0 by lia. replace (52 - Z.log2 k) with 0 by lia.
    rewrite Z.pow_0_r, !Z.mul_1_r.
    destruct (Z.leb_spec k (2 ^ 53)); [reflexivity|lia].
  - replace (- (Z.log2 k - 52)) with (52 - Z.log2 k) by lia.
    replace ((k * 2 ^ (52 - Z.log2 k) + 2 ^ (52 - Z.log2 k) - 1) / 2 ^ (52 - Z.log2 k))
      with k.
    + destruct (Z.leb_spec k (2 ^ 53)); [reflexivity|lia].
    + apply Z.div_unique with (r := 2 ^ (52 - Z.log2 k) - 1); lia.
Qed.


Lemma counted_count e :
  counted e ->
  exists k, 0 < k < 2 ^ 53 /\ count e = of_Z k /\ record_count e = Z.to_nat k.
Proof.
  intros (k & Hk & He). exists k. split; [exact Hk|]. split; [exact He|].
  unfold record_count. rewrite He, iterations_of_Z by exact Hk. reflexivity.
Qed.

Lemma body_lines_unassigned header g i c : forall lines,
  nth_error (elements header) i = None ->
  Forall (fun l => nonblank l = true) lines ->
  geometry_of (foldM (body_line header) lines
                 {| geometry := g; currentElementIndex := i; currentElementCount := c |})
  = foldM record_of (map (fun l => (None, l)) lines) g.
Proof.
  intros [|line lines] Hi Hl; [reflexivity|].
  inversion Hl as [|? ? Hn _]; subst. unfold nonblank in Hn. apply negb_true_iff in Hn.
  cbn [foldM map]. unfold body_line at 1. rewrite Hn.
  cbn [currentElementIndex]. rewrite Hi. reflexivity.
Qed.

Lemma assign_nil es : assign es [] = [].
Proof.
  induction es as [|e es IH]; cbn [assign map]; [reflexivity|].
  by rewrite firstn_nil, skipn_nil, IH.
Qed.

Lemma body_lines_assigned header : forall lines pre e post c g,
  elements header = pre ++ e :: post ->
  Forall counted (elements header) ->
  Forall (fun l => nonblank l = true) lines ->
  0 <= c <= Z.of_nat (record_count e) ->
  geometry_of (foldM (body_line header) lines
                 {| geometry := g; currentElementIndex := length pre;
                    currentElementCount := c |})
  = foldM record_of
      (map (fun l => (Some e, l)) (firstn (record_count e - Z.to_nat c) lines)
       ++ assign post (skipn (record_count e - Z.to_nat c) lines)) g.
Proof.
  induction lines as [|line lines IH]; intros pre e post c g Hes Hcounted Hl Hc.
  { rewrite firstn_nil, skipn_nil, assign_nil. reflexivity. }
  inversion Hl as [|? ? Hn Hl']; subst. unfold nonblank in Hn. apply negb_true_iff in Hn.
  pose proof (proj1 (List.Forall_forall _ _) Hcounted) as Hin.
  assert (He : counted e) by (apply Hin; rewrite Hes; apply in_elt).
  destruct (counted_count e He) as (k & Hk & Hcount & Hrc).
  assert (Hnth : nth_error (elements header) (length pre) = Some e).
  { rewrite Hes. rewrite nth_error_app2 by lia. by rewrite Nat.sub_diag. }
  cbn [foldM]. unfold body_line at 1. rewrite Hn.
  cbn [currentElementIndex currentElementCount geometry]. rewrite Hnth.
  unfold geq. rewrite Hcount, SFleb_of_Z by lia.
  destruct (Z.leb_spec k c) as [Hkc | Hkc].
  - (* the records of [e] are complete *)
    replace (record_count e - Z.to_nat c)%nat with 0%nat by lia.
    cbn [firstn skipn map app].
    destruct post as [|e' post'].
    + assert (Hnone : nth_error (elements header) (S (length pre)) = None).
      { apply nth_error_None. rewrite Hes, length_app. cbn. lia. }
      rewrite Hnone. reflexivity.
    + assert (Hnth' : nth_error (elements header) (S (length pre)) = Some e').
      { rewrite Hes. rewrite nth_error_app2 by lia.
        replace (S (length pre) - length pre)%nat with 1%nat by lia. reflexivity. }
      rewrite Hnth'. cbn [assign].
      assert (He' : counted e').
      { apply Hin. rewrite Hes. apply in_or_app. right. right. left. reflexivity. }
      destruct (counted_count e' He') as (k' & Hk' & _ & Hrc').
      destruct (record_count e') as [|n'] eqn:En; [lia|].
      cbn [firstn skipn map app foldM record_of fst snd].
      destruct (parseASCIIElement (properties e') (trim line)) as [element|]; cbn [bind];
        [|reflexivity].
      destruct (handleElement g (element_name e') element) as [g1|]; cbn [bind];
        [|reflexivity].
      specialize (IH (pre ++ [e]) e' post' (0 + 1) g1).
      rewrite length_app in IH. cbn [length] in IH.
      replace (length pre + 1)%nat with (S (length pre)) in IH by lia.
      rewrite IH.
      * rewrite En. replace (S n' - Z.to_nat (0 + 1))%nat with n' by lia. reflexivity.
      * rewrite Hes. by rewrite <- app_assoc.
      * exact Hcounted.
      * exact Hl'.
      * lia.
  - (* one more record of [e] *)
    rewrite Hnth.
    destruct (record_count e - Z.to_nat c)%nat as [|n] eqn:En; [lia|].
    cbn [firstn skipn map app foldM record_of fst snd].
    destruct (parseASCIIElement (properties e) (trim line)) as [element|]; cbn [bind];
      [|reflexivity].
    destruct (handleElement g (element_name e) element) as [g1|]; cbn [bind];
      [|reflexivity].
    rewrite (IH pre e post (c + 1) g1); [|exact Hes|exact Hcounted|exact Hl'|lia].
    replace (record_count e - Z.to_nat (c + 1))%nat with n by lia. reflexivity.
Qed.

Lemma Forall_nonblank lines : Forall (fun l => nonblank l = true) (List.filter nonblank lines).
Proof. apply List.Forall_forall. intros l Hl. by apply filter_In in Hl as [_ ?]. Qed.

(** X13: with counts that are whole numbers above 0, the record lines of
    a text are read element by element, as many lines for each as it has
    records, and handed to the assembler in that order; a record line after
    the last declared record throws a [TypeError]. *)
Theorem parseASCII_by_counts
        (mapping : gmap string string) (data : string) (header : header) :
  parseHeader mapping data = Ok header ->
  Forall counted (elements header) ->
  parseASCII mapping data
  = (let* g := foldM record_of (assign (elements header) (record_lines data)) new_Geometry in
     Ok (postProcess g)).
Proof.
  intros Hh Hc. unfold parseASCII. rewrite Hh. cbn [bind].
  fold (body_lines data). rewrite body_lines_nonblank. fold (record_lines data).
  set (st0 := {| geometry := new_Geometry; currentElementIndex := 0;
                 currentElementCount := 0 |}).
  assert (H : geometry_of (foldM (body_line header) (record_lines data) st0)
              = foldM record_of (assign (elements header) (record_lines data)) new_Geometry).
  { destruct (elements header) as [|e es] eqn:Ees.
    - apply body_lines_unassigned; [by rewrite Ees|apply Forall_nonblank].
    - pose proof (body_lines_assigned header (record_lines data) [] e es 0 new_Geometry) as L.
      cbn [length app] in L. rewrite Nat.sub_0_r in L. rewrite <- Ees in Hc.
      apply L; [exact Ees|exact Hc|apply Forall_nonblank|lia]. }
  rewrite <- H. by destruct (foldM (body_line header) (record_lines data) st0).
Qed.

End PLYDispatchFacts.

Module PLYShortFacts.
Import Str Parse PLYLoader PLYBinary PLYSpec PLYBinarySpec PLYFacts.

Lemma parseASCIINumber_missing t :
  type_size t <> None -> parseASCIINumber None t = Some NaN.
Proof.
  destruct t as [t|]; [|intros H; exfalso; apply H; reflexivity].
  unfold type_size, parseASCIINumber, is_integer_type, is_float_type, is_type, is_string.
  cbn [existsb].
  repeat (match goal with
          | |- context [String.eqb t ?n] =>
              destruct (String.eqb_spec t n) as [-> | _]; [intros _; reflexivity|]
          end).
  intros H. exfalso. apply H. reflexivity.
Qed.

Lemma read_property_other st p st' k :
  read_property st p = Ok st' ->
  k <> ToString (name p) ->
  get (snd st') k = get (snd st) k.
Proof.
  destruct st as [values element]. unfold read_property.
  destruct (is_string (type p) "list").
  - destruct (loop_count _) as [n|]; [|discriminate].
    destruct (read_list n (itemType p) (tl values)) as [l rest].
    intros [= <-] Hk. cbn [snd]. by apply get_insert_ne.
  - intros [= <-] Hk. cbn [snd]. by apply get_insert_ne.
Qed.

Lemma read_properties_other k : forall ps st st',
  foldM read_property ps st = Ok st' ->
  Forall (fun q => k <> ToString (name q)) ps ->
  get (snd st') k = get (snd st) k.
Proof.
  induction ps as [|q qs IH]; intros st st'; cbn [foldM].
  - by intros [= <-].
  - destruct (read_property st q) as [st1|] eqn:E; [|discriminate]. cbn [bind].
    intros H Hq. inversion Hq as [|? ? Hq1 Hq2]; subst.
    rewrite (IH _ _ H Hq2). eapply read_property_other; eassumption.
Qed.

Lemma read_properties_scalar : forall ps st,
  forallb (fun q => negb (is_list q)) ps = true ->
  exists st', foldM read_property ps st = Ok st'.
Proof.
  induction ps as [|q qs IH]; intros [values element] Hs; cbn [foldM]; [eauto|].
  cbn [forallb] in Hs. apply andb_true_iff in Hs as [Hq Hs].
  unfold is_list in Hq. apply negb_true_iff in Hq.
  unfold read_property at 1. rewrite Hq. cbn [bind]. by apply IH.
Qed.

Lemma read_properties_value p : forall ps i values element st',
  foldM read_property ps (values, element) = Ok st' ->
  forallb (fun q => negb (is_list q)) ps = true ->
  nth_error ps i = Some p ->
  Forall (fun q => ToString (name p) <> ToString (name q)) (skipn (S i) ps) ->
  get (snd st') (ToString (name p))
  = of_scalar (parseASCIINumber (nth_error values i) (type p)).
Proof.
  induction ps as [|q qs IH]; intros i values element st' H Hs Hi Hn.
  { by destruct i. }
  cbn [forallb] in Hs. apply andb_true_iff in Hs as [Hq Hs].
  unfold is_list in Hq. apply negb_true_iff in Hq.
  cbn [foldM] in H.
  destruct (read_property (values, element) q) as [st1|] eqn:E; [|discriminate].
  cbn [bind] in H. unfold read_property in E. rewrite Hq in E. injection E as <-.
  destruct i as [|i]; cbn [nth_error skipn] in Hi, Hn.
  - injection Hi as ->.
    rewrite (read_properties_other _ _ _ _ H Hn). cbn [snd].
    rewrite get_insert_eq. destruct values; reflexivity.
  - rewrite (IH i _ _ _ H Hs Hi Hn). destruct values; [by destruct i|reflexivity].
Qed.

(** X14: a record line of an element that has only scalar properties is
    always read, however few numbers it has: nothing is thrown. Each
    property holds what [parseASCIINumber] makes of the number at its place
    in the line (as long as no later property has its name), and that is
    [NaN] for a property of a known type that finds no number left. *)
Theorem parseASCIIElement_missing_values (ps : list property) (line : string) :
  forallb (fun q => negb (is_list q)) ps = true ->
  exists element,
    parseASCIIElement ps line = Ok element
    /\ forall i p,
        nth_error ps i = Some p ->
        Forall (fun q => ToString (name p) <> ToString (name q)) (skipn (S i) ps) ->
        get element (ToString (name p))
        = of_scalar (parseASCIINumber (nth_error (split_ws line) i) (type p))
        /\ ((length (split_ws line) <= i)%nat ->
            type_size (type p) <> None ->
            get element (ToString (name p)) = Num NaN).
Proof.
  intros Hs. unfold parseASCIIElement.
  destruct (read_properties_scalar ps (split_ws line, ∅) Hs) as [st E].
  exists (snd st). rewrite E. split; [reflexivity|].
  intros i p Hi Hn.
  pose proof (read_properties_value p ps i (split_ws line) ∅ st E Hs Hi Hn) as Hv.
  split; [exact Hv|].
  intros Hl Ht. rewrite Hv.
  assert (Hnone : nth_error (split_ws line) i = None) by (by apply nth_error_None).
  rewrite Hnone, parseASCIINumber_missing by exact Ht. reflexivity.
Qed.

End PLYShortFacts.

Module PLYHeaderFacts.
Import Str Parse PLYLoader PLYBinary PLYSpec PLYBinarySpec PLYTextSpec PLYHeaderSpec.
Import PLYFacts PLYBinaryFacts DataView.

(** *** The elements of a header *)

Lemma header_line_declaration mapping st line st' :
  header_line mapping st line = Ok st' ->
  declared_so_far st'
  = declared_so_far st ++ from_option (fun d => [d]) [] (declaration line).
Proof.
  unfold header_line, declaration, lineType, declared_so_far.
  destruct (String.eqb (trim line) ""); [intros [= <-]; by rewrite app_nil_r|].
  set (t := hd_error (split_ws (trim line))).
  destruct t as [t|]; [|intros [= <-]; by rewrite app_nil_r].
  unfold is_string.
  destruct (String.eqb_spec t "format") as [-> | ?].
  { intros [= <-]. change ("format" =? "element")%string with false.
    cbn [hdr currentElement elements from_option]. by rewrite app_nil_r. }
  destruct (String.eqb_spec t "comment") as [-> | ?].
  { intros [= <-]. change ("comment" =? "element")%string with false.
    cbn [hdr currentElement elements from_option]. by rewrite app_nil_r. }
  destruct (String.eqb_spec t "element") as [-> | ?].
  { intros [= <-]. cbn [hdr currentElement from_option].
    destruct (currentElement st); cbn [push_element elements];
      rewrite ?app_nil_r, ?map_app; reflexivity. }
  cbn [from_option]. rewrite app_nil_r.
  destruct (String.eqb t "property").
  - destruct (currentElement st); [|discriminate]. intros [= <-].
    cbn [hdr currentElement elements]. rewrite !map_app. reflexivity.
  - by intros [= <-].
Qed.

Lemma header_lines_declarations mapping : forall lines st st',
  foldM (header_line mapping) lines st = Ok st' ->
  declared_so_far st' = declared_so_far st ++ omap declaration lines.
Proof.
  induction lines as [|line lines IH]; intros st st'; cbn.
  - intros [= <-]. by rewrite app_nil_r.
  - destruct (header_line mapping st line) as [st1|] eqn:E; [|discriminate]. cbn.
    intros H. rewrite (IH _ _ H), (header_line_declaration _ _ _ _ E).
    rewrite <- app_assoc. f_equal. destruct (declaration line); reflexivity.
Qed.

(** X21: the elements of a header are its element lines in their order,
    each with the name and the count of its line; the count is what
    [parseInt] makes of the third word. *)
Theorem parseHeader_elements
        (mapping : gmap string string) (data : string) (h : header) :
  parseHeader mapping data = Ok h ->
  map (fun e => (element_name e, count e)) (elements h)
  = omap declaration (split "010" (headerText data)).
Proof.
  unfold parseHeader, headerText.
  set (r := match patternHeader data with Some r => r | None => (EmptyString, O) end).
  replace (match patternHeader data with Some r0 => fst r0 | None => EmptyString end)
    with (fst r) by (unfold r; by destruct (patternHeader data)).
  destruct r as [text n]. cbn [fst].
  destruct (foldM _ _ _) as [st|] eqn:E; [|discriminate]. cbn [bind]. intros [= <-].
  apply header_lines_declarations in E. unfold declared_so_far in E. cbn in E.
  rewrite <- E. by destruct (currentElement st); cbn; rewrite ?app_nil_r.
Qed.


(** *** A face element without the list of its corners *)

Lemma no_such_property ps k :
  Forall (fun p => ToString (name p) <> k) ps ->
  existsb (fun p => String.eqb k (ToString (name p))) ps = false.
Proof.
  induction 1 as [|p ps Hp _ IH]; cbn [existsb]; [reflexivity|].
  rewrite IH, orb_false_r. apply String.eqb_neq. congruence.
Qed.

Lemma handleElement_face_missing g element :
  has element "vertex_indices" = false ->
  handleElement g (Some "face"%string) element = Throw TypeError.
Proof.
  unfold has, handleElement, get. intros H.
  change (is_string (Some "face"%string) "vertex") with false.
  change (is_string (Some "face"%string) "face") with true. cbn match.
  destruct (element !! "vertex_indices"%string) eqn:E; [|reflexivity].
  exfalso. apply bool_decide_eq_false in H. apply H. eauto.
Qed.

(** X22: a record of an element named [face] that has no property named
    [vertex_indices] (after the mapping of the names) is refused with a
    [TypeError], in a text and in a binary body alike. *)
Theorem face_without_vertex_indices (ps : list property) (g : Geometry) :
  Forall (fun p => ToString (name p) <> "vertex_indices"%string) ps ->
  (forall line element,
      parseASCIIElement ps line = Ok element ->
      handleElement g (Some "face"%string) element = Throw TypeError)
  /\ (forall d pos le element read,
         binaryReadElement d pos ps le = Ok (element, read) ->
         handleElement g (Some "face"%string) element = Throw TypeError).
Proof.
  intros H. apply no_such_property in H. split.
  - intros line element He. apply handleElement_face_missing.
    by rewrite (parseASCIIElement_has _ _ _ He).
  - intros d pos le element read He. apply handleElement_face_missing.
    unfold binaryReadElement in He. apply read_properties_ok in He.
    destruct He as (_ & _ & _ & He). rewrite He, H. unfold has.
    by rewrite lookup_empty.
Qed.

(** *** Bodies of scalars *)

Lemma plain_property_fits d pos le el read p :
  negb (is_list p) && bool_decide (type_size (type p) <> None) = true ->
  if (byteLength d <? this_byteOffset d + pos + read + fixed_size p)%nat
  then read_binary_property d pos le (el, read) p = Throw RangeError
  else exists el', read_binary_property d pos le (el, read) p
                   = Ok (el', (read + fixed_size p)%nat).
Proof.
  intros [Hl Ht]%andb_true_iff. apply negb_true_iff in Hl. apply bool_decide_eq_true in Ht.
  unfold read_binary_property, fixed_size. unfold is_list in Hl. rewrite Hl.
  pose proof (binaryRead_cases d (pos + read) (type p) le) as H.
  destruct (type_size (type p)) as [size|]; [|by destruct Ht].
  destruct H as [_ H]. cbn [from_option id].
  replace (this_byteOffset d + (pos + read) + size)%nat
    with (this_byteOffset d + pos + read + size)%nat in H by lia.
  destruct (_ <? _)%nat; [by rewrite H|]. destruct H as [v ->]. cbn. eauto.
Qed.

Lemma plain_properties_fit d pos le : forall ps el read,
  forallb (fun p => negb (is_list p) && bool_decide (type_size (type p) <> None)) ps = true ->
  (this_byteOffset d + pos + read + foldr Nat.add O (map fixed_size ps) <= byteLength d)%nat ->
  exists el', foldM (read_binary_property d pos le) ps (el, read)
              = Ok (el', (read + foldr Nat.add O (map fixed_size ps))%nat).
Proof.
  induction ps as [|p ps IH]; intros el read Hps Hb; cbn [foldM map foldr forallb] in *.
  - rewrite Nat.add_0_r. eauto.
  - apply andb_true_iff in Hps as [Hp Hps].
    pose proof (plain_property_fits d pos le el read p Hp) as H.
    destruct (Nat.ltb_spec (byteLength d) (this_byteOffset d + pos + read + fixed_size p));
      [lia|].
    destruct H as [el1 ->]. cbn [bind].
    destruct (IH el1 (read + fixed_size p)%nat Hps ltac:(lia)) as [el' ->].
    exists el'. do 2 f_equal. lia.
Qed.

Lemma plain_properties_throw d pos le : forall ps st e,
  forallb (fun p => negb (is_list p) && bool_decide (type_size (type p) <> None)) ps = true ->
  foldM (read_binary_property d pos le) ps st = Throw e -> e = RangeError.
Proof.
  induction ps as [|p ps IH]; intros [el read] e Hps; cbn [foldM forallb] in *; [discriminate|].
  apply andb_true_iff in Hps as [Hp Hps].
  pose proof (plain_property_fits d pos le el read p Hp) as H.
  destruct (_ <? _)%nat.
  - rewrite H. cbn. congruence.
  - destruct H as [el1 ->]. cbn [bind]. by apply IH.
Qed.

Lemma handleElement_not_face g name element :
  is_string name "face" = false -> exists g', handleElement g name element = Ok g'.
Proof.
  intros H. unfold handleElement. rewrite H.
  destruct (is_string name "vertex"); [|eauto].
  destruct (has element "red" && has element "green" && has element "blue"); eauto.
Qed.

Lemma plain_record body e le g loc i :
  plain e = true ->
  ((this_byteOffset body + loc + record_size e <= byteLength body)%nat ->
   exists g', read_record body e le (g, loc) i = Ok (g', (loc + record_size e)%nat))
  /\ (forall x, read_record body e le (g, loc) i = Throw x -> x = RangeError).
Proof.
  unfold plain. intros [[Hps Hf]%andb_true_iff _]%andb_true_iff.
  apply negb_true_iff in Hf. unfold read_record, binaryReadElement, record_size. split.
  - intros Hb.
    destruct (plain_properties_fit body loc le (properties e) ∅ O Hps ltac:(lia)) as [el ->].
    cbn [bind Nat.add]. destruct (handleElement_not_face g _ el Hf) as [g' ->].
    cbn [bind]. eauto.
  - intros x. destruct (foldM _ (properties e) (∅, O)) as [[el read]|x'] eqn:E; cbn [bind].
    + destruct (handleElement_not_face g _ el Hf) as [g' ->]. discriminate.
    + intros [= <-]. eapply plain_properties_throw; eassumption.
Qed.

Lemma plain_records body e le : forall k i g loc,
  plain e = true ->
  ((this_byteOffset body + loc + k * record_size e <= byteLength body)%nat ->
   exists g', foldM (read_record body e le) (seq i k) (g, loc)
              = Ok (g', (loc + k * record_size e)%nat))
  /\ (forall x, foldM (read_record body e le) (seq i k) (g, loc) = Throw x -> x = RangeError).
Proof.
  induction k as [|k IH]; intros i g loc He; cbn [seq foldM].
  - split; [|discriminate]. intros _. exists g. do 2 f_equal. lia.
  - destruct (plain_record body e le g loc i He) as [Hfit Hthrow]. split.
    + intros Hb. destruct Hfit as [g1 ->]; [lia|]. cbn [bind].
      destruct (IH (S i) g1 (loc + record_size e)%nat He) as [[g' ->] _]; [lia|].
      exists g'. do 2 f_equal. lia.
    + intros x. destruct (read_record body e le (g, loc) i) as [[g1 l1]|x'] eqn:E; cbn [bind].
      * apply IH. exact He.
      * intros [= <-]. by apply Hthrow.
Qed.

Lemma plain_elements body le : forall es g loc,
  forallb plain es = true ->
  read_elements body le es (g, loc) <> None
  /\ ((this_byteOffset body + loc
       + foldr Nat.add O (map (fun e => (record_count e * record_size e)%nat) es)
       <= byteLength body)%nat ->
      exists st, read_elements body le es (g, loc) = Some (Ok st))
  /\ (forall x, read_elements body le es (g, loc) = Some (Throw x) -> x = RangeError).
Proof.
  induction es as [|e es IH]; intros g loc Hes; cbn [read_elements map foldr forallb] in *.
  - split; [discriminate|]. split; [eauto|discriminate].
  - apply andb_true_iff in Hes as [He Hes].
    assert (Hit : iterations (count e) <> None).
    { unfold plain in He. apply andb_true_iff in He as [_ Hi].
      by apply bool_decide_eq_true in Hi. }
    unfold record_count at 1. destruct (iterations (count e)) as [k|]; [|by destruct Hit].
    cbn [from_option id].
    destruct (plain_records body e le k 0 g loc He) as [Hfit Hthrow].
    destruct (foldM _ (seq 0 k) (g, loc)) as [[g1 l1]|x'] eqn:E.
    + destruct (IH g1 l1 Hes) as (H1 & H2 & H3). split; [exact H1|]. split; [|exact H3].
      intros Hb. apply H2.
      destruct Hfit as [g' Hg']; [lia|]. injection Hg' as -> ->. lia.
    + split; [discriminate|]. split.
      * intros Hb. destruct Hfit as [g' Hg']; [lia|]. discriminate.
      * intros x [= <-]. by apply Hthrow.
Qed.

(** X23: a binary body whose elements are plain, scalars of known types
    and no faces, decodes exactly when the buffer holds the header and the
    bytes of the declared records; otherwise a read passes the end of the
    buffer. *)
Theorem parseBinary_plain
        (mapping : gmap string string) (data : list byte) (header : header) :
  parseHeader mapping (bin2str data) = Ok header ->
  forallb plain (elements header) = true ->
  if (headerLength header + body_size header <=? length data)%nat
  then exists g, PLYBinary.parseBinary mapping data = Some (Ok g)
  else PLYBinary.parseBinary mapping data = Some (Throw RangeError).
Proof.
  intros Hh Hp. unfold PLYBinary.parseBinary. rewrite Hh.
  set (body := new_at data (headerLength header)).
  set (le := is_string (format header) "binary_little_endian").
  destruct (plain_elements body le (elements header) new_Geometry O Hp) as (H1 & H2 & H3).
  destruct (Nat.leb_spec (headerLength header + body_size header) (length data)) as [Hb | Hb];
    unfold body_size in Hb.
  - destruct H2 as [st ->]; [unfold body, byteLength; cbn; lia|]. eauto.
  - destruct (read_elements body le (elements header) (new_Geometry, O))
      as [[[g1 loc]|x]|] eqn:E; [| |by destruct H1].
    + exfalso. apply read_elements_ok in E. destruct E as (E1 & E2 & _).
      apply parseHeader_length in Hh. rewrite length_bin2str in Hh.
      unfold body, byteLength in E2. cbn [this_byteOffset this_buffer] in E2. lia.
    + by rewrite (H3 x eq_refl).
Qed.

End PLYHeaderFacts.

(** ** Integers of more than 53 bits *)

Section LargeIntegers.

Lemma shr_1_m r : 0 <= shr_m r -> shr_m (shr_1 r) = shr_m r / 2.
Proof.
  destruct r as [m r s]. cbn [shr_m]. intros Hm.
  destruct m as [|[p|p|]|p]; cbn [shr_1 shr_m]; try reflexivity; try lia.
  - apply Z.div_unique with (r := 1); lia.
  - apply Z.div_unique with (r := 0); lia.
Qed.

Lemma shr_iter_m n : forall r,
  0 <= shr_m r -> shr_m (Nat.iter n shr_1 r) = shr_m r / 2 ^ Z.of_nat n.
Proof.
  induction n as [|n IH]; intros r Hr.
  - cbn. by rewrite Z.div_1_r.
  - rewrite Nat.iter_succ_r, IH.
    + rewrite shr_1_m by exact Hr. rewrite Nat2Z.inj_succ, Z.pow_succ_r by lia.
      rewrite Z.div_div by (try apply Z.pow_pos_nonneg; lia). reflexivity.
    + rewrite shr_1_m by exact Hr. apply Z.div_pos; lia.
Qed.

Lemma shr_m_shr r e n :
  0 <= shr_m r -> 0 <= n ->
  shr_m (fst (shr r e n)) = shr_m r / 2 ^ n /\ snd (shr r e n) = e + n.
Proof.
  intros Hr Hn. unfold shr. destruct n as [|p|p]; [| |lia]; cbn [fst snd].
  - rewrite Z.pow_0_r, Z.div_1_r. split; [reflexivity|lia].
  - split; [|reflexivity]. rewrite iter_pos_nat, shr_iter_m by exact Hr.
    by rewrite positive_nat_Z.
Qed.

Lemma round_nearest_even_bounds m l :
  m <= round_nearest_even m l <= m + 1.
Proof.
  unfold round_nearest_even. destruct l as [|[| |]]; try lia.
  destruct (Z.even m); lia.
Qed.

Lemma Zdigits2_bounds m : 0 < m -> 2 ^ (Zdigits2 m - 1) <= m < 2 ^ Zdigits2 m.
Proof.
  intros Hm. destruct m as [|p|p]; try lia. cbn [Zdigits2]. apply digits2_pos_bounds.
Qed.

Lemma Zdigits2_unique m d : 0 < m -> 2 ^ (d - 1) <= m < 2 ^ d -> Zdigits2 m = d.
Proof.
  intros Hm H. destruct m as [|p|p]; try lia. cbn [Zdigits2]. by apply digits2_pos_unique.
Qed.

(** An integer of 54 bits or more rounds to a number whose exponent is
    above 0, or to an infinity. *)
Lemma binary_round_large s p :
  2 ^ 53 <= Z.pos p ->
  binary_round prec emax s p 0 = S754_infinity s
  \/ exists m e, binary_round prec emax s p 0 = S754_finite s m e
                 /\ 1 <= e /\ 2 ^ 52 <= Z.pos m.
Proof.
  intros Hp. pose proof (digits2_pos_bounds p) as Hd.
  set (d := Z.pos (digits2_pos p)) in *.
  assert (Hd54 : 54 <= d).
  { destruct (Z.lt_ge_cases d 54) as [H|H]; [|exact H].
    assert (2 ^ d <= 2 ^ 53) by (apply Z.pow_le_mono_r; lia). lia. }
  unfold binary_round, shl_align. fold d.
  assert (Hf : fexp prec emax (d + 0) = d - 53).
  { unfold fexp, SpecFloat.emin, prec, emax. lia. }
  rewrite Hf. destruct (d - 53 - 0) as [|q|q] eqn:Eq; try lia.
  unfold binary_round_aux, shr_fexp. cbn [Zdigits2]. fold d. rewrite Hf.
  cbn [shr_record_of_loc].
  destruct (shr_m_shr {| shr_m := Z.pos p; shr_r := false; shr_s := false |} 0 (d - 53 - 0))
    as [Hm1 He1]; [cbn; lia|lia|].
  destruct (shr _ 0 (d - 53 - 0)) as [mrs' e'] eqn:Es. cbn [fst snd shr_m] in Hm1, He1.
  assert (Hm0 : 2 ^ 52 <= shr_m mrs' < 2 ^ 53).
  { rewrite Hm1. replace (d - 53 - 0) with (d - 53) by lia.
    assert (Hpow : 2 ^ d = 2 ^ 53 * 2 ^ (d - 53)) by (rewrite <- Z.pow_add_r by lia; f_equal; lia).
    assert (Hpow' : 2 ^ (d - 1) = 2 ^ 52 * 2 ^ (d - 53))
      by (rewrite <- Z.pow_add_r by lia; f_equal; lia).
    assert (0 < 2 ^ (d - 53)) by (apply Z.pow_pos_nonneg; lia).
    split.
    - apply Z.div_le_lower_bound; lia.
    - apply Z.div_lt_upper_bound; lia. }
  pose proof (round_nearest_even_bounds (shr_m mrs') (loc_of_shr_record mrs')) as Hr.
  set (m1 := round_nearest_even (shr_m mrs') (loc_of_shr_record mrs')) in *.
  assert (He' : e' = d - 53) by lia.
  destruct (Z.eq_dec m1 (2 ^ 53)) as [Hm53 | Hne].
  - assert (Hdig : Zdigits2 m1 = 54) by (apply Zdigits2_unique; rewrite Hm53; lia).
    rewrite Hdig.
    assert (Hf2 : fexp prec emax (54 + e') - e' = 1)
      by (unfold fexp, SpecFloat.emin, prec, emax; lia).
    rewrite Hf2, Hm53. cbn [shr SpecFloat.iter_pos shr_1 shr_m].
    change (2 ^ 53) with (Z.pos (xO (Z.to_pos (2 ^ 52)))).
    cbn [shr_1 shr_m].
    destruct (e' + 1 <=? emax - prec); [right|left; reflexivity].
    eexists _, _. split; [reflexivity|]. split; [lia|]. vm_compute. discriminate.
  - assert (Hdig : Zdigits2 m1 = 53) by (apply Zdigits2_unique; lia).
    rewrite Hdig.
    assert (Hf2 : fexp prec emax (53 + e') - e' = 0)
      by (unfold fexp, SpecFloat.emin, prec, emax; lia).
    rewrite Hf2. cbn [shr shr_m].
    destruct m1 as [|m|m]; try lia.
    destruct (e' <=? emax - prec); [right|left; reflexivity].
    eexists _, _. split; [reflexivity|]. lia.
Qed.

End LargeIntegers.

(** ** PLY: the lines of a body *)

Module PLYLinesFacts.
Import Str Parse PLYLoader PLYBinary PLYSpec PLYBinarySpec PLYTextSpec PLYDispatchSpec.
Import PLYHeaderSpec PLYLinesSpec PLYFacts PLYDispatchFacts PLYHeaderFacts.

(** *** The counts of a header *)

Lemma digits_nonneg radix : forall s n acc,
  0 < radix -> 0 <= acc -> 0 <= snd (fst (digits radix s n acc)).
Proof.
  induction s as [|c s IH]; intros n acc Hr Hacc; cbn [digits]; [exact Hacc|].
  destruct (digit radix c) as [v|] eqn:E; [|exact Hacc].
  apply IH; [exact Hr|].
  unfold digit in E.
  destruct (_ <? radix) eqn:Ev; [|discriminate]. injection E as <-.
  assert (0 <= (if (48 <=? code c) && (code c <=? 57) then code c - 48
                else if (97 <=? code c) && (code c <=? 122) then code c - 87
                else if (65 <=? code c) && (code c <=? 90) then code c - 55
                else radix)).
  { destruct (Z.leb_spec 48 (code c)); destruct (Z.leb_spec (code c) 57); cbn [andb]; try lia;
      destruct (Z.leb_spec 97 (code c)); destruct (Z.leb_spec (code c) 122); cbn [andb]; try lia;
      destruct (Z.leb_spec 65 (code c)); destruct (Z.leb_spec (code c) 90); cbn [andb]; lia. }
  nia.
Qed.

(** What [parseInt] returns: [NaN], a zero, or an integer. *)
Lemma parseInt_cases o :
  parseInt o = NaN \/ (exists s, parseInt o = S754_zero s) \/ exists z, parseInt o = of_Z z /\ z <> 0.
Proof.
  unfold parseInt. destruct (sign _) as [neg s].
  set (r := match s with
            | String "0"%char (String "x"%char s') => (16, s')
            | String "0"%char (String "X"%char s') => (16, s')
            | _ => (10, s)
            end).
  assert (Hr : 0 < fst r).
  { unfold r.
    repeat match goal with
           | |- context [match ?x with _ => _ end] => destruct x
           end; cbn; lia. }
  destruct r as [radix s1]. cbn [fst] in Hr.
  pose proof (digits_nonneg radix s1 0 0 Hr ltac:(lia)) as Hd.
  destruct (digits radix s1 0 0) as [[n z] rest]. cbn [fst snd] in Hd.
  destruct n as [|n]; [by left|]. right. unfold signed_integer.
  destruct (Z.eqb_spec z 0); [left; eauto|right].
  exists (cond_Zopp neg z). split; [reflexivity|]. destruct neg; cbn; lia.
Qed.


(** *** The test of the count *)

Lemma binary_round_opp p e :
  binary_round prec emax true p e = SFopp (binary_round prec emax false p e).
Proof.
  unfold binary_round. destruct (shl_align _ _ _) as [mz ez].
  unfold binary_round_aux. destruct (shr_fexp _ _ _ _ _) as [mrs' e'].
  destruct (shr_fexp _ _ _ _ _) as [mrs'' e''].
  destruct (shr_m mrs''); [reflexivity| |reflexivity].
  by destruct (_ <=? _).
Qed.

(** A positive integer as a number: finite and above 0, or an infinity. *)
Lemma of_Z_positive z :
  0 < z ->
  of_Z z = S754_infinity false
  \/ exists m e, of_Z z = S754_finite false m e
                 /\ ((z < 2 ^ 53 /\ e <= 0) \/ (2 ^ 53 <= z /\ 1 <= e /\ 2 ^ 52 <= Z.pos m)).
Proof.
  intros Hz. destruct (Z.lt_ge_cases z (2 ^ 53)) as [Hs | Hl].
  - right. destruct (of_Z_finite z ltac:(lia)) as [-> Hk].
    eexists _, _. split; [reflexivity|]. left. split; [exact Hs|].
    pose proof (log2_below z 53 ltac:(lia)). lia.
  - destruct z as [|p|p]; try lia.
    destruct (binary_round_large false p Hl) as [H | (m & e & H & He & Hm)].
    + left. exact H.
    + right. exists m, e. split; [exact H|]. right. auto.
Qed.

Lemma of_Z_negative z :
  z < 0 -> of_Z z = S754_infinity true \/ exists m e, of_Z z = S754_finite true m e.
Proof.
  intros Hz. destruct z as [|p|p]; try lia.
  change (of_Z (Z.neg p)) with (binary_round prec emax true p 0).
  rewrite binary_round_opp.
  change (binary_round prec emax false p 0) with (of_Z (Z.pos p)).
  destruct (of_Z_positive (Z.pos p) ltac:(lia)) as [-> | (m & e & -> & _)].
  - by left.
  - right. by exists m, e.
Qed.

Lemma of_Z_natural c :
  0 <= c < 2 ^ 53 ->
  of_Z c = S754_zero false \/ exists m e, of_Z c = S754_finite false m e /\ e <= 0.
Proof.
  intros Hc. destruct (Z.eq_dec c 0) as [-> | Hne]; [by left|right].
  destruct (of_Z_positive c ltac:(lia)) as [H | (m & e & H & [[_ He] | [Hl _]])]; [|eauto|lia].
  destruct (of_Z_finite c ltac:(lia)) as [E _]. congruence.
Qed.

Lemma lines_wanted_of_Z z : 0 < z < 2 ^ 53 -> lines_wanted (of_Z z) = Some (Z.to_nat z).
Proof.
  intros Hz. destruct (of_Z_finite z Hz) as [-> Hs]. unfold lines_wanted.
  assert (Hp : 0 < 2 ^ (52 - Z.log2 z)) by (apply Z.pow_pos_nonneg; lia).
  rewrite Z2Pos.id by (apply Z.mul_pos_pos; lia).
  destruct (Z.leb_spec 0 (Z.log2 z - 52)).
  - replace (Z.log2 z - 52) with 0 by lia. replace (52 - Z.log2 z) with 0 by lia.
    by rewrite Z.pow_0_r, !Z.mul_1_r.
  - replace (- (Z.log2 z - 52)) with (52 - Z.log2 z) by lia.
    do 2 f_equal. symmetry.
    apply Z.div_unique with (r := 2 ^ (52 - Z.log2 z) - 1); lia.
Qed.

(** The test [currentElementCount >= count] holds from the wanted number
    of lines on. *)
Lemma geq_count x c :
  x = NaN \/ (exists s, x = S754_zero s) \/ (exists z, x = of_Z z /\ z <> 0) ->
  0 <= c < 2 ^ 53 ->
  geq (of_Z c) x = match lines_wanted x with
                   | Some k => Z.of_nat k <=? c
                   | None => false
                   end.
Proof.
  intros Hx Hc. unfold geq.
  destruct Hx as [-> | [[s ->] | (z & -> & Hz)]].
  - reflexivity.
  - cbn [lines_wanted]. change (Z.of_nat 0 <=? c) with (0 <=? c).
    destruct (Z.leb_spec 0 c); [|lia].
    by destruct (of_Z_natural c Hc) as [-> | (m & e & -> & _)].
  - destruct (Z.lt_trichotomy z 0) as [Hneg | [? | Hpos]]; [|lia|].
    + assert (Hw : lines_wanted (of_Z z) = Some O)
        by (by destruct (of_Z_negative z Hneg) as [-> | (m & e & ->)]).
      rewrite Hw. change (Z.of_nat 0 <=? c) with (0 <=? c).
      destruct (Z.leb_spec 0 c); [|lia].
      destruct (of_Z_negative z Hneg) as [-> | (m & e & ->)];
        by destruct (of_Z_natural c Hc) as [-> | (m' & e' & -> & _)].
    + destruct (Z.lt_ge_cases z (2 ^ 53)) as [Hs | Hl].
      * rewrite SFleb_of_Z, lines_wanted_of_Z by lia. f_equal. lia.
      * destruct (of_Z_positive z Hpos) as [-> | (m & e & -> & [[? _] | (_ & He & Hm)])];
          [|lia|].
        { by destruct (of_Z_natural c Hc) as [-> | (m' & e' & -> & _)]. }
        cbn [lines_wanted]. destruct (Z.leb_spec 0 e); [|lia].
        assert (Hbig : 2 ^ 53 <= Z.pos m * 2 ^ e).
        { assert (2 ^ 1 <= 2 ^ e) by (apply Z.pow_le_mono_r; lia).
          change (2 ^ 53) with (2 ^ 52 * 2 ^ 1). apply Z.mul_le_mono_nonneg; lia. }
        rewrite Z2Nat.id by lia.
        destruct (Z.leb_spec (Z.pos m * 2 ^ e) c); [lia|].
        destruct (of_Z_natural c Hc) as [-> | (m' & e' & -> & He')]; [reflexivity|].
        unfold SFleb, SFcompare.
        destruct (Z.compare_spec e e'); (lia || reflexivity).
Qed.


(** *** The lines of a body *)

Lemma parseHeader_parsed mapping data h :
  parseHeader mapping data = Ok h -> Forall parsed (elements h).
Proof.
  unfold parseHeader.
  set (r := match patternHeader data with Some r => r | None => (EmptyString, O) end).
  destruct r as [text n].
  destruct (foldM _ _ _) as [st|] eqn:E; [|discriminate]. cbn [bind]. intros [= <-].
  apply header_lines_declarations in E. unfold declared_so_far in E. cbn in E.
  assert (H : map (fun e => (element_name e, count e))
                  (elements (push_element (hdr st) (currentElement st)))
              = omap declaration (split "010" text)).
  { rewrite <- E. by destruct (currentElement st); cbn; rewrite ?app_nil_r. }
  clear E. revert H.
  generalize (elements (push_element (hdr st) (currentElement st))) as es.
  induction (split "010" text) as [|line lines IH]; intros es H.
  - destruct es; [constructor|discriminate].
  - change (omap declaration (line :: lines))
      with (match declaration line with
            | Some x => x :: omap declaration lines
            | None => omap declaration lines
            end) in H.
    destruct (declaration line) as [[name c]|] eqn:Ed; [|by apply IH].
    unfold declaration in Ed.
    destruct (is_string (lineType line) "element"); [|discriminate].
    injection Ed as _ <-.
    destruct es as [|e es]; [discriminate|]. cbn [map] in H.
    injection H as _ Hc H. constructor; [|by apply IH].
    eexists. exact Hc.
Qed.

Lemma deal_nil first es : deal first es [] = [].
Proof.
  revert first. induction es as [|e es IH]; intros first; cbn [deal map]; [reflexivity|].
  destruct (lines_wanted (count e)) as [k|]; [|reflexivity].
  by rewrite firstn_nil, skipn_nil, IH.
Qed.

(** The lines that an element still takes when it has taken [c]. *)
Lemma body_lines_dealt header : forall lines pre e post c g,
  elements header = pre ++ e :: post ->
  Forall parsed (elements header) ->
  Forall (fun l => nonblank l = true) lines ->
  0 <= c -> c + Z.of_nat (length lines) < 2 ^ 53 ->
  geometry_of (foldM (body_line header) lines
                 {| geometry := g; currentElementIndex := length pre;
                    currentElementCount := c |})
  = foldM record_of
      (match lines_wanted (count e) with
       | Some k =>
           map (fun l => (Some e, l)) (firstn (k - Z.to_nat c) lines)
           ++ deal false post (skipn (k - Z.to_nat c) lines)
       | None => map (fun l => (Some e, l)) lines
       end) g.
Proof.
  induction lines as [|line lines IH]; intros pre e post c g Hes Hp Hl Hc Hn.
  { destruct (lines_wanted (count e)); [|reflexivity].
    by rewrite firstn_nil, skipn_nil, deal_nil. }
  inversion Hl as [|? ? Hnb Hl']; subst. unfold nonblank in Hnb. apply negb_true_iff in Hnb.
  pose proof (proj1 (List.Forall_forall _ _) Hp) as Hin.
  assert (He : parsed e) by (apply Hin; rewrite Hes; apply in_elt).
  assert (Hnth : nth_error (elements header) (length pre) = Some e).
  { rewrite Hes. rewrite nth_error_app2 by lia. by rewrite Nat.sub_diag. }
  cbn [length] in Hn.
  cbn [foldM]. unfold body_line at 1. rewrite Hnb.
  cbn [currentElementIndex currentElementCount geometry]. rewrite Hnth.
  destruct He as [o Ho]. rewrite Ho, (geq_count (parseInt o) c (parseInt_cases o)) by lia.
  rewrite <- Ho.
  destruct (lines_wanted (count e)) as [k|] eqn:Ew.
  - destruct (Z.leb_spec (Z.of_nat k) c) as [Hkc | Hkc].
    + (* the element has its lines: the line goes to the next one *)
      replace (k - Z.to_nat c)%nat with 0%nat by lia.
      cbn [firstn skipn map app].
      destruct post as [|e' post'].
      * assert (Hnone : nth_error (elements header) (S (length pre)) = None).
        { apply nth_error_None. rewrite Hes, length_app. cbn. lia. }
        rewrite Hnone. reflexivity.
      * assert (Hnth' : nth_error (elements header) (S (length pre)) = Some e').
        { rewrite Hes. rewrite nth_error_app2 by lia.
          replace (S (length pre) - length pre)%nat with 1%nat by lia. reflexivity. }
        rewrite Hnth'.
        specialize (IH (pre ++ [e]) e' post' (0 + 1)).
        rewrite length_app in IH. cbn [length] in IH.
        replace (length pre + 1)%nat with (S (length pre)) in IH by lia.
        cbn [deal].
        destruct (lines_wanted (count e')) as [k'|] eqn:Ew'.
        -- replace (Nat.max 1 k') with (S (k' - 1)) by lia.
           cbn [firstn skipn map app foldM record_of fst snd].
           destruct (parseASCIIElement (properties e') (trim line)) as [element|];
             cbn [bind]; [|reflexivity].
           destruct (handleElement g (element_name e') element) as [g1|]; cbn [bind];
             [|reflexivity].
           rewrite IH; [|by rewrite Hes, <- app_assoc|exact Hp|exact Hl'|lia|lia].
           replace (k' - Z.to_nat (0 + 1))%nat with (k' - 1)%nat by lia. reflexivity.
        -- cbn [map foldM record_of fst snd].
           destruct (parseASCIIElement (properties e') (trim line)) as [element|];
             cbn [bind]; [|reflexivity].
           destruct (handleElement g (element_name e') element) as [g1|]; cbn [bind];
             [|reflexivity].
           rewrite IH; [reflexivity|by rewrite Hes, <- app_assoc|exact Hp|exact Hl'|lia|lia].
    + (* one more line of the element *)
      rewrite Hnth.
      replace (k - Z.to_nat c)%nat with (S (k - Z.to_nat (c + 1))) by lia.
      cbn [firstn skipn map app foldM record_of fst snd].
      destruct (parseASCIIElement (properties e) (trim line)) as [element|]; cbn [bind];
        [|reflexivity].
      destruct (handleElement g (element_name e) element) as [g1|]; cbn [bind];
        [|reflexivity].
      rewrite (IH pre e post (c + 1) g1); [|exact Hes|exact Hp|exact Hl'|lia|lia].
      by rewrite Ew.
  - rewrite Hnth. cbn [map foldM record_of fst snd].
    destruct (parseASCIIElement (properties e) (trim line)) as [element|]; cbn [bind];
      [|reflexivity].
    destruct (handleElement g (element_name e) element) as [g1|]; cbn [bind];
      [|reflexivity].
    rewrite (IH pre e post (c + 1) g1); [|exact Hes|exact Hp|exact Hl'|lia|lia].
    by rewrite Ew.
Qed.

(** What a text decodes to: its record lines, dealt to the elements. *)
Lemma parseASCII_dealt mapping data header :
  parseHeader mapping data = Ok header ->
  Z.of_nat (length (record_lines data)) < 2 ^ 53 ->
  parseASCII mapping data
  = (let* g := foldM record_of (deal true (elements header) (record_lines data)) new_Geometry in
     Ok (postProcess g)).
Proof.
  intros Hh Hn. unfold parseASCII. rewrite Hh. cbn [bind].
  fold (body_lines data). rewrite body_lines_nonblank. fold (record_lines data).
  set (st0 := {| geometry := new_Geometry; currentElementIndex := 0;
                 currentElementCount := 0 |}).
  assert (H : geometry_of (foldM (body_line header) (record_lines data) st0)
              = foldM record_of (deal true (elements header) (record_lines data)) new_Geometry).
  { pose proof (parseHeader_parsed _ _ _ Hh) as Hp.
    destruct (elements header) as [|e es] eqn:Ees.
    - apply body_lines_unassigned; [by rewrite Ees|apply Forall_nonblank].
    - pose proof (body_lines_dealt header (record_lines data) [] e es 0 new_Geometry) as L.
      cbn [length app] in L. rewrite <- Ees in Hp.
      unfold st0. rewrite L by (try apply Forall_nonblank; assumption || lia).
      cbn [deal]. change (Z.to_nat 0) with 0%nat.
      destruct (lines_wanted (count e)); [by rewrite Nat.sub_0_r|reflexivity]. }
  rewrite <- H. by destruct (foldM (body_line header) (record_lines data) st0).
Qed.

(** Lines that are no more than the records declared all go to an
    element. *)
Lemma deal_within : forall es first lines,
  within (length lines) es ->
  Forall (fun r => is_Some (fst r)) (deal first es lines).
Proof.
  unfold within. induction es as [|e es IH]; intros first lines; cbn [declared_total deal].
  - intros H. destruct lines; [constructor|cbn in H; lia].
  - destruct (lines_wanted (count e)) as [k|].
    + intros H. apply Forall_app. split.
      * apply List.Forall_forall. intros r [l [<- _]]%in_map_iff. cbn. eauto.
      * apply IH. rewrite length_skipn.
        destruct (declared_total es) as [n|]; [|exact I].
        destruct first; lia.
    + intros _. apply List.Forall_forall. intros r [l [<- _]]%in_map_iff. cbn. eauto.
Qed.

(** C3 (amended): a body with fewer record lines than the header declares
    is not an error: the number of lines is held against no count. The
    record lines, of which a text has fewer than [2 ^ 53], are read in
    their order, each with the properties of the element whose turn it is,
    and handed to the assembler one by one; the decode is the mesh that
    this makes, and it throws only where the reading or the assembling of a
    line that is there throws. With no more lines than records declared,
    every line has an element. And whenever a text decodes, a text with the
    same header whose record lines are only the first of them decodes as
    well, to a mesh that the mesh of the whole text extends: the same
    vertices and faces, then those of the missing lines. *)
Theorem parseASCII_truncated
        (mapping : gmap string string) (data : string) (header : header) :
  parseHeader mapping data = Ok header ->
  Z.of_nat (length (record_lines data)) < 2 ^ 53 ->
  parseASCII mapping data
  = (let* g := foldM record_of (deal true (elements header) (record_lines data))
                     new_Geometry in
     Ok (postProcess g))
  /\ (within (length (record_lines data)) (elements header) ->
      Forall (fun r => is_Some (fst r)) (deal true (elements header) (record_lines data)))
  /\ forall (data' : string) (rest : list string) (g : Geometry),
       parseHeader mapping data' = Ok header ->
       record_lines data = record_lines data' ++ rest ->
       parseASCII mapping data = Ok g ->
       exists g', parseASCII mapping data' = Ok g' /\ extends g' g.
Proof.
  intros Hh Hn. split; [by apply parseASCII_dealt|]. split; [apply deal_within|].
  intros data' rest g Hh' Hlines Hg.
  exact (parseASCII_prefix mapping data data' header rest g Hh Hh' Hlines Hg).
Qed.

End PLYLinesFacts.

Module PLYColorFacts.
Import Str Parse PLYLoader PLYSpec PLYBinarySpec PLYFacts PLYDispatchFacts.

(** *** The colors of the faces *)

Lemma nth_error_lookup {A : Type} (l : list A) : forall n, nth_error l n = l !! n.
Proof. induction l as [|x l IH]; intros [|n]; cbn; auto. Qed.

Lemma array_index_of_Z i : 0 <= i < 2 ^ 53 -> array_index (Some (of_Z i)) = Some (Z.to_nat i).
Proof.
  intros Hi. destruct (Z.eq_dec i 0) as [-> | Hi0]; [reflexivity|].
  destruct (of_Z_finite i ltac:(lia)) as [-> Hs]. unfold array_index.
  assert (Hp : 0 < 2 ^ (52 - Z.log2 i)) by (apply Z.pow_pos_nonneg; lia).
  rewrite Z2Pos.id by (apply Z.mul_pos_pos; lia).
  destruct (Z.leb_spec 0 (Z.log2 i - 52)).
  - replace (Z.log2 i - 52) with 0 by lia. replace (52 - Z.log2 i) with 0 by lia.
    rewrite Z.pow_0_r, !Z.mul_1_r. reflexivity.
  - replace (- (Z.log2 i - 52)) with (52 - Z.log2 i) by lia.
    rewrite Z.mod_mul by lia. cbn. rewrite Z.div_mul by lia. reflexivity.
Qed.

(** X24: in a mesh that is marked as colored every face gets the colors
    of its three corners, the entries of the color list at their indices,
    and [undefined] for an index past its end; the corners stay as they
    are. In a mesh that is not, the faces are left alone. *)
Theorem postProcess_vertex_colors (g : Geometry) (n : nat) (f : Face3) (i j k : Z) :
  faces g !! n = Some f ->
  a f = Some (of_Z i) -> b_ f = Some (of_Z j) -> c f = Some (of_Z k) ->
  0 <= i < 2 ^ 53 -> 0 <= j < 2 ^ 53 -> 0 <= k < 2 ^ 53 ->
  exists f',
    faces (postProcess g) !! n = Some f'
    /\ corners f' = corners f
    /\ vertexColors f'
       = if useColor g
         then Some [colors g !! Z.to_nat i; colors g !! Z.to_nat j; colors g !! Z.to_nat k]
         else vertexColors f.
Proof.
  intros Hn Ha Hb Hc Hi Hj Hk. unfold postProcess.
  destruct (useColor g); [|exists f; auto].
  cbn [faces]. rewrite list_lookup_fmap, Hn. cbn [fmap option_fmap option_map].
  eexists. split; [reflexivity|]. split; [reflexivity|].
  cbn [vertexColors]. unfold color_at.
  rewrite Ha, Hb, Hc, !array_index_of_Z by assumption.
  rewrite !nth_error_lookup. reflexivity.
Qed.

(** *** The items of a list *)

Lemma length_read_list itemType : forall n values l rest,
  read_list n itemType values = (l, rest) -> length l = n.
Proof.
  induction n as [|n IH]; intros values l rest; cbn [read_list].
  - by intros [= <- _].
  - destruct (read_list n itemType (tl values)) as [l' rest'] eqn:E.
    intros [= <- _]. cbn. f_equal. eapply IH, E.
Qed.

Lemma read_list_lookup itemType : forall n values l rest k,
  read_list n itemType values = (l, rest) -> (k < n)%nat ->
  l !! k = Some (parseASCIINumber (nth_error values k) itemType).
Proof.
  induction n as [|n IH]; intros values l rest k; cbn [read_list]; [lia|].
  destruct (read_list n itemType (tl values)) as [l' rest'] eqn:E.
  intros [= <- _] Hk. destruct k as [|k].
  - by destruct values.
  - change ((parseASCIINumber (hd_error values) itemType :: l') !! S k) with (l' !! k).
    rewrite (IH _ _ _ k E) by lia. by destruct values; [destruct k|].
Qed.

(** X25: a list has as many items as its count says, not as many as the
    line has numbers left: the record of a single list property holds an
    array of the length that the first number of the line gives, and its
    items are the numbers that follow, read as the type of the items; where
    the line has no number left the item is read from [undefined]. *)
Theorem parseASCIIElement_list_items
        (p : property) (line : string) (element : gmap string jsval) :
  is_list p = true ->
  parseASCIIElement [p] line = Ok element ->
  exists l,
    get element (ToString (name p)) = Arr l
    /\ loop_count (parseASCIINumber (hd_error (split_ws line)) (countType p))
       = Some (length l)
    /\ forall k, (k < length l)%nat ->
         l !! k = Some (parseASCIINumber (nth_error (split_ws line) (S k)) (itemType p)).
Proof.
  unfold is_list, parseASCIIElement. intros Hl. cbn [foldM read_property]. rewrite Hl.
  destruct (loop_count _) as [n|]; [|discriminate].
  destruct (read_list n (itemType p) (tl (split_ws line))) as [l rest] eqn:E.
  cbn [bind snd]. intros [= <-]. exists l. split; [apply get_insert_eq|].
  pose proof (length_read_list _ _ _ _ _ E) as Hlen. split; [by rewrite Hlen|].
  intros k Hk. rewrite (read_list_lookup _ _ _ _ _ k E) by lia.
  destruct (split_ws line); [destruct k|]; reflexivity.
Qed.

End PLYColorFacts.

(** ** STL: texts and [parse] *)

Module STLTextFacts.
Import Str Parse RegExp STLText STLTextSpec.

Lemma fold_left_snoc {A B : Type} (f : B -> A) (l : list B) : forall vs,
  fold_left (fun vs r => vs ++ [f r]) l vs = vs ++ map f l.
Proof.
  induction l as [|r l IH]; intros vs; cbn [fold_left map].
  - by rewrite app_nil_r.
  - rewrite IH, <- app_assoc. reflexivity.
Qed.

Lemma fold_left_last {A B : Type} (f : B -> A) (l : list B) : forall n,
  fold_left (fun _ r => Some (f r)) l n = fold_left (fun _ x => Some x) (map f l) n.
Proof. induction l as [|r l IH]; intros n; cbn [fold_left map]; [reflexivity|apply IH]. Qed.

Lemma last_of_app {A : Type} (l1 l2 : list A) :
  fold_left (fun _ x => Some x) l2 (last_of l1) = last_of (l1 ++ l2).
Proof. unfold last_of. by rewrite fold_left_app. Qed.

Lemma facets_fold : forall (rs : list RegExp.found) vs ns fs,
  fold_left facet rs ({| vertices := vs; faces := fs |}, last_of ns)
  = state_after vs ns fs (map matched rs).
Proof.
  induction rs as [|r rs IH]; intros vs ns fs; cbn [fold_left map].
  - unfold state_after. cbn. by rewrite !app_nil_r.
  - unfold facet at 2. cbn [vertices faces].
    rewrite fold_left_snoc, fold_left_last, last_of_app.
    fold (vertices_of (matched r)). fold (normals_of (matched r)).
    rewrite IH. unfold state_after. cbn [flat_map length].
    f_equal; [f_equal|].
    + by rewrite <- app_assoc.
    + rewrite <- app_assoc. f_equal. cbn [seq map firstn flat_map app].
      rewrite !app_nil_r. f_equal.
      rewrite <- seq_shift, map_map. apply map_ext. intros k.
      cbn [firstn flat_map]. by rewrite <- !app_assoc.
    + by rewrite <- app_assoc.
Qed.

Lemma parseASCII_result (data : string) :
  vertices (parseASCII data) = flat_map vertices_of (facets data)
  /\ faces (parseASCII data)
     = map (fun k => face_after (firstn (S k) (facets data)))
           (seq 0 (length (facets data))).
Proof.
  unfold parseASCII, facets. change (@None Vector3) with (@last_of Vector3 []).
  rewrite facets_fold. unfold state_after. cbn [fst vertices faces app]. auto.
Qed.

(** X16: the vertices of a text decode are those of its facets, and every
    facet makes one face, whatever it holds: there are as many faces as
    facets, the corners of a face are the last three vertices found so far,
    its normal the last normal found so far. *)
Theorem parseASCII_faces (data : string) :
  vertices (parseASCII data) = flat_map vertices_of (facets data)
  /\ length (faces (parseASCII data)) = length (facets data)
  /\ forall k text,
      facets data !! k = Some text ->
      faces (parseASCII data) !! k = Some (face_after (firstn (S k) (facets data))).
Proof.
  destruct (parseASCII_result data) as [Hv Hf]. split; [exact Hv|]. split.
  - by rewrite Hf, length_map, length_seq.
  - intros k text Hk. rewrite Hf, list_lookup_fmap.
    apply lookup_lt_Some in Hk. by rewrite lookup_seq_lt.
Qed.

Lemma faces_lookup data k t :
  facets data !! k = Some t ->
  faces (parseASCII data) !! k = Some (face_after (firstn (S k) (facets data))).
Proof.
  intros H. destruct (parseASCII_result data) as [_ ->].
  rewrite list_lookup_fmap. apply lookup_lt_Some in H.
  rewrite lookup_seq_lt by exact H. reflexivity.
Qed.



(** X18: a facet without a normal makes a face with the normal of the
    face before it, and one with no normal if it is the first. *)
Theorem parseASCII_normal_carried (data : string) (k : nat) (text : string) :
  facets data !! k = Some text ->
  normals_of text = [] ->
  exists f,
    faces (parseASCII data) !! k = Some f
    /\ normal f
       = match k with
         | O => None
         | S k' => from_option normal None (faces (parseASCII data) !! k')
         end.
Proof.
  intros Hk Hn. eexists. split; [eapply faces_lookup, Hk|].
  unfold face_after at 1. cbn [normal].
  assert (Hsplit : firstn (S k) (facets data) = firstn k (facets data) ++ [text]).
  { by apply take_S_r. }
  rewrite Hsplit, flat_map_app. cbn [flat_map]. rewrite Hn, !app_nil_r.
  destruct k as [|k']; [reflexivity|].
  assert (Hk' : is_Some (facets data !! k')).
  { apply lookup_lt_is_Some. apply lookup_lt_Some in Hk. lia. }
  destruct Hk' as [t' Hk']. rewrite (faces_lookup data k' t' Hk'). reflexivity.
Qed.

(** *** [parse] *)

Lemma ensureBinary_length s : length (STLLoader.ensureBinary s) = String.length s.
Proof.
  unfold STLLoader.ensureBinary. rewrite length_map.
  induction s as [|c0 s IH]; cbn; [reflexivity|]. by rewrite IH.
Qed.

(** X19: an input of fewer than 84 bytes, or characters, is not decoded:
    the read of the count at offset 80 throws, whatever the input holds. *)
Theorem parse_short_input (data : input) :
  (length (ensureBinary data) < 84)%nat ->
  parse data = Throw RangeError.
Proof.
  intros H. unfold parse, STLLoader.isBinary.
  rewrite DataViewFacts.getUint32_le.
  destruct (Nat.ltb_spec (length (ensureBinary data)) (80 + 4)); [reflexivity|lia].
Qed.

Lemma byte_of_ascii (b : byte) :
  byte_of_Z (Z.of_N (Ascii.N_of_ascii (Ascii.ascii_of_byte b))) = b.
Proof. by destruct b. Qed.

(** X20: the bytes of a buffer read as a text, one character each, and
    the text written back as bytes give the buffer again; the text is as
    long as the buffer. *)
Theorem ensureBinary_ensureString (buf : list byte) :
  ensureBinary (Text (ensureString (ArrayBuffer buf))) = buf
  /\ String.length (ensureString (ArrayBuffer buf)) = length buf
  /\ STLLoader.ensureBinary (PLYBinary.bin2str buf) = buf.
Proof.
  assert (H : STLLoader.ensureBinary
                (String.string_of_list_ascii (map Ascii.ascii_of_byte buf)) = buf).
  { unfold STLLoader.ensureBinary. rewrite String.list_ascii_of_string_of_list_ascii.
    rewrite map_map. induction buf as [|b0 buf IH]; cbn [map]; [reflexivity|].
    by rewrite byte_of_ascii, IH. }
  split; [exact H|]. split; [|exact H].
  cbn [ensureString]. rewrite <- (ensureBinary_length _), H. reflexivity.
Qed.

End STLTextFacts.

(** ** The properties on the sample inputs *)

Module Checks.

Import Samples STLLoader STLSpec PLYLoader PLYSpec.

(** *** Floating-point reads *)

(** 1, -2, the least subnormal number [2 ^ -149], the infinities and NaN
    from their binary32 bytes; 1 from its binary64 bytes; and 1 again from
    the binary32 bytes in big-endian order. *)
Example getFloat_samples :
  map (fun o => DataView.getFloat32 (DataView.new float_bytes) o (Some true))
      [0; 4; 8; 12; 16; 20]%nat
  = [Ok one; Ok (S754_finite true 4503599627370496 (-51));
     Ok (S754_finite false 4503599627370496 (-201));
     Ok (S754_infinity false); Ok (S754_infinity true); Ok NaN]
  /\ DataView.getFloat64 (DataView.new float_bytes) 24 (Some true) = Ok one
  /\ DataView.getFloat32 (DataView.new (map byte_of_Z [63; 128; 0; 0])) 0 (Some false)
     = Ok one.
Proof. vm_compute. auto. Qed.

(** C8: given a string or an [ArrayBuffer], the fallback does not return
    the number that the bytes encode. The bytes 00 00 80 3F encode 1 in
    binary32 and the bytes 00 00 00 00 00 00 F0 3F encode 1 in binary64,
    low byte first, and 1 is what the reads return when the buffer is the
    array of these bytes. When it is the string of the characters with
    these codes, or the [ArrayBuffer] of these bytes, the read of 32 bits
    returns 0 and the read of 64 bits [NaN]: [_getBytes] tests
    [this.isString], which nothing sets, and so never takes the codes of
    the characters; and what it slices from an [ArrayBuffer] has no
    elements. *)
Theorem getFloat_other_buffers :
  to_number (decode 8 23 (le_word one_binary32)) = one
  /\ to_number (decode 11 52 (le_word one_binary64)) = one
  /\ Fallback.getFloat32 (Fallback.new (Fallback.Bytes one_binary32) None None)
       (Some 0%nat) (Some true) = Ok one
  /\ Fallback.getFloat64 (Fallback.new (Fallback.Bytes one_binary64) None None)
       (Some 0%nat) (Some true) = Ok one
  /\ Fallback.getFloat32
       (Fallback.new (Fallback.Text (PLYBinary.bin2str one_binary32)) None None)
       (Some 0%nat) (Some true) = Ok zero
  /\ Fallback.getFloat64
       (Fallback.new (Fallback.Text (PLYBinary.bin2str one_binary64)) None None)
       (Some 0%nat) (Some true) = Ok NaN
  /\ Fallback.getFloat32 (Fallback.new (Fallback.ArrayBuffer one_binary32) None None)
       (Some 0%nat) (Some true) = Ok zero
  /\ Fallback.getFloat64 (Fallback.new (Fallback.ArrayBuffer one_binary64) None None)
       (Some 0%nat) (Some true) = Ok NaN.
Proof. vm_compute. repeat split. Qed.

(** *** STL *)

(** The claim C1 as it stands fails on buffers shorter than 84 bytes: the
    file of no triangle is binary, but without its last byte the read of
    the count throws, where the claim has the byte scan classify it; and so
    does a short ASCII file. *)
Lemma isBinary_short_buffer_throws :
  isBinary stl_empty = Ok true
  /\ isBinary (removelast stl_empty) = Throw RangeError
  /\ isBinary (ensureBinary "solid") = Throw RangeError.
Proof. vm_compute. auto. Qed.

Lemma isBinary_classification_witness :
  (84 <= length stl_colored)%nat
  /\ isBinary stl_colored
     = Ok ((Z.of_nat (length stl_colored) =? 84 + 50 * uint32_le stl_colored 80)
           || has_high_byte stl_colored)
  /\ (Z.of_nat (length stl_colored) = 84 + 50 * uint32_le stl_colored 80 ->
      isBinary stl_colored = Ok true
      /\ (1 <= uint32_le stl_colored 80 ->
          isBinary (removelast stl_colored)
          = Ok (has_high_byte (removelast stl_colored)))).
Proof.
  assert (H : (84 <= length stl_colored)%nat) by (vm_compute; lia).
  split; [exact H|]. exact (STLFacts.isBinary_classification stl_colored H).
Defined.

(** On the sample the first face, whose packed color has bit 15 set, has
    the default color of the header, (1, 0, 0), on its three vertices, and
    the second its own, (0, 1, 0). *)
Example stl_colored_colors :
  parseBinary stl_colored = Ok stl_colored_geometry
  /\ color stl_colored_geometry
     = Some [one; zero; zero; one; zero; zero; one; zero; zero;
             zero; one; zero; zero; one; zero; zero; one; zero].
Proof. vm_compute. auto. Qed.

Lemma parseBinary_face_colors_witness :
  parseBinary stl_colored = Ok stl_colored_geometry
  /\ last_signature stl_colored = Some 0%nat
  /\ geometry_hasColors stl_colored_geometry = true
  /\ exists c,
      color stl_colored_geometry = Some c
      /\ length c = Z.to_nat (uint32_le stl_colored 80 * 3 * 3)
      /\ forall face v,
          Z.of_nat face < uint32_le stl_colored 80 -> (v < 3)%nat ->
          let '(r, g, b) := facet_color stl_colored 0 face in
          c !! (9 * face + 3 * v)%nat = Some (fround r)
          /\ c !! (9 * face + 3 * v + 1)%nat = Some (fround g)
          /\ c !! (9 * face + 3 * v + 2)%nat = Some (fround b).
Proof.
  assert (H1 : parseBinary stl_colored = Ok stl_colored_geometry)
    by (vm_compute; reflexivity).
  assert (H2 : last_signature stl_colored = Some 0%nat) by (vm_compute; reflexivity).
  split; [exact H1|]. split; [exact H2|].
  exact (STLFacts.parseBinary_face_colors stl_colored stl_colored_geometry 0 H1 H2).
Defined.

(** The claim C7 as it stands fails: with 1 in bytes 76 to 79 and 0 in
    bytes 80 to 83 the decode yields no triangle. *)
Lemma count_not_in_bytes_76_79 :
  uint32_le stl_count_at_76 76 = 1
  /\ uint32_le stl_count_at_76 80 = 0
  /\ parseBinary stl_count_at_76
     = Ok {| position := []; normal := []; color := None;
             geometry_hasColors := false; geometry_alpha := None |}.
Proof. vm_compute. auto. Qed.

Lemma parseBinary_triangle_count_witness :
  parseBinary stl_colored = Ok stl_colored_geometry
  /\ length (position stl_colored_geometry) = Z.to_nat (uint32_le stl_colored 80 * 3 * 3)
  /\ length (normal stl_colored_geometry) = Z.to_nat (uint32_le stl_colored 80 * 3 * 3)
  /\ (1 <= uint32_le stl_colored 80 ->
      82 + 50 * uint32_le stl_colored 80 <= Z.of_nat (length stl_colored)).
Proof.
  assert (H1 : parseBinary stl_colored = Ok stl_colored_geometry)
    by (vm_compute; reflexivity).
  split; [exact H1|].
  exact (STLFacts.parseBinary_triangle_count stl_colored stl_colored_geometry H1).
Defined.

(** *** PLY *)

(** The claim C3 as it stands fails: the header declares two vertices and
    a face, the body holds one vertex, and the decode returns the mesh of
    that vertex. *)
Lemma parseASCII_truncated_returns_mesh :
  parseASCII ∅ ply_truncated
  = Ok {| vertices := [origin]; colors := []; faces := []; useColor := false;
          elementsNeedUpdate := false |}.
Proof. vm_compute. reflexivity. Qed.

Lemma parseASCII_truncated_witness :
  parseHeader ∅ ply_truncated = Ok ply_schema
  /\ Z.of_nat (length (record_lines ply_truncated)) < 2 ^ 53
  /\ PLYLinesSpec.within (length (record_lines ply_truncated)) (elements ply_schema)
  /\ map (fun r => (from_option element_name None (fst r), snd r))
         (PLYLinesSpec.deal true (elements ply_schema) (record_lines ply_truncated))
     = [(Some "vertex", "0 0 0")]%string
  /\ parseASCII ∅ ply_truncated
     = (let* g := foldM PLYDispatchSpec.record_of
                    (PLYLinesSpec.deal true (elements ply_schema)
                       (record_lines ply_truncated))
                    new_Geometry in
        Ok (postProcess g))
  /\ Forall (fun r => is_Some (fst r))
            (PLYLinesSpec.deal true (elements ply_schema) (record_lines ply_truncated))
  /\ parseASCII ∅ ply_complete = Ok ply_complete_mesh
  /\ exists g', parseASCII ∅ ply_truncated = Ok g' /\ extends g' ply_complete_mesh.
Proof.
  assert (H1 : parseHeader ∅ ply_truncated = Ok ply_schema) by (vm_compute; reflexivity).
  assert (H2 : Z.of_nat (length (record_lines ply_truncated)) < 2 ^ 53)
    by (vm_compute; reflexivity).
  assert (H3 : PLYLinesSpec.within (length (record_lines ply_truncated))
                                   (elements ply_schema))
    by (vm_compute; lia).
  assert (H4 : parseHeader ∅ ply_complete = Ok ply_schema) by (vm_compute; reflexivity).
  assert (H5 : Z.of_nat (length (record_lines ply_complete)) < 2 ^ 53)
    by (vm_compute; reflexivity).
  assert (H6 : record_lines ply_complete
               = record_lines ply_truncated ++ ["1 0 0"; "3 0 1 0"]%string)
    by (vm_compute; reflexivity).
  assert (H7 : parseASCII ∅ ply_complete = Ok ply_complete_mesh)
    by (vm_compute; reflexivity).
  split; [exact H1|]. split; [exact H2|]. split; [exact H3|].
  split; [vm_compute; reflexivity|].
  destruct (PLYLinesFacts.parseASCII_truncated ∅ ply_truncated ply_schema H1 H2)
    as (T1 & T2 & _).
  destruct (PLYLinesFacts.parseASCII_truncated ∅ ply_complete ply_schema H4 H5)
    as (_ & _ & T3).
  split; [exact T1|]. split; [exact (T2 H3)|]. split; [exact H7|].
  exact (T3 ply_truncated ["1 0 0"; "3 0 1 0"]%string ply_complete_mesh H1 H6 H7).
Defined.

(** The claim C4 as it stands fails: a face of five indices raises no
    error, neither in the assembler nor in a whole decode, whose mesh has
    the two vertices and no face. *)
Lemma pentagon_silently_dropped :
  handleElement new_Geometry (Some "face"%string) pentagon = Ok new_Geometry
  /\ parseASCII ∅ ply_pentagon
     = Ok {| vertices := [origin; unit_x]; colors := []; faces := [];
             useColor := false; elementsNeedUpdate := false |}.
Proof. vm_compute. auto. Qed.

Lemma handleElement_face_other_arity_witness :
  length [Some zero; Some one; Some zero; Some one; Some zero] <> 3%nat
  /\ length [Some zero; Some one; Some zero; Some one; Some zero] <> 4%nat
  /\ handleElement new_Geometry (Some "face"%string)
       (<["vertex_indices"%string
          := Arr [Some zero; Some one; Some zero; Some one; Some zero]]> ∅)
     = Ok new_Geometry.
Proof.
  assert (H3 : length [Some zero; Some one; Some zero; Some one; Some zero] <> 3%nat)
    by (cbn; lia).
  assert (H4 : length [Some zero; Some one; Some zero; Some one; Some zero] <> 4%nat)
    by (cbn; lia).
  split; [exact H3|]. split; [exact H4|].
  exact (PLYFacts.handleElement_face_other_arity new_Geometry ∅
           [Some zero; Some one; Some zero; Some one; Some zero] H3 H4).
Defined.

(** The claim C5 as it stands fails: of two vertex records the first
    carries a color and the second does not, and the mesh is marked as
    colored all the same, with one color for two vertices; so it is in the
    decode of a text that declares two such vertex elements. *)
Lemma mixed_vertices_marked_colored :
  forallb has_rgb (vertex_records mixed_records) = false
  /\ assemble mixed_records = Ok mixed_mesh
  /\ parseASCII ∅ ply_mixed = Ok mixed_mesh
  /\ useColor mixed_mesh = true
  /\ length (colors mixed_mesh) = 1%nat
  /\ length (vertices mixed_mesh) = 2%nat.
Proof. vm_compute. auto 10. Qed.

Lemma assemble_color_presence_witness :
  assemble mixed_records = Ok mixed_mesh
  /\ useColor mixed_mesh = existsb has_rgb (vertex_records mixed_records)
  /\ vertices mixed_mesh = map position_of (vertex_records mixed_records)
  /\ colors mixed_mesh
     = map color_of (List.filter has_rgb (vertex_records mixed_records))
  /\ (forallb has_rgb (vertex_records mixed_records) = true ->
      vertex_records mixed_records <> [] ->
      useColor mixed_mesh = true
      /\ length (colors mixed_mesh) = length (vertices mixed_mesh))
  /\ (existsb has_rgb (vertex_records mixed_records) = false ->
      useColor mixed_mesh = false /\ colors mixed_mesh = []).
Proof.
  assert (H : assemble mixed_records = Ok mixed_mesh) by (vm_compute; reflexivity).
  split; [exact H|].
  exact (PLYFacts.assemble_color_presence mixed_records mixed_mesh H).
Defined.

(** The claim C9 as it stands fails: the comment line of the sample has
    two and three spaces between its words, and the comment kept has
    one. *)
Lemma comment_whitespace_collapsed :
  nth_error (Str.split "010" (headerText ply_complete)) 2
  = Some "comment made  by   hand"%string
  /\ comments_of (parseHeader ∅ ply_complete) = ["made by hand"%string].
Proof. vm_compute. auto. Qed.

Lemma parseHeader_comments_witness :
  parseHeader ∅ ply_complete = Ok ply_schema
  /\ comments ply_schema
     = omap comment_of (Str.split "010" (headerText ply_complete))
  /\ Forall (fun c => exists tokens,
                 c = Str.join " " tokens /\ Forall (fun t => no_ws t = true) tokens)
            (comments ply_schema).
Proof.
  assert (H : parseHeader ∅ ply_complete = Ok ply_schema) by (vm_compute; reflexivity).
  split; [exact H|].
  exact (PLYFacts.parseHeader_comments ∅ ply_complete ply_schema H).
Defined.

End Checks.

(** ** The further properties on sample inputs *)

Module Instances.

Import Samples Inputs PLYLoader PLYSpec PLYBinarySpec PLYTextSpec PLYDispatchSpec PLYHeaderSpec.

Lemma parseBinary_coordinates_witness :
  STLLoader.parseBinary stl_colored = Ok stl_colored_geometry
  /\ forall face v i,
      Z.of_nat face < uint32_le stl_colored 80 -> (v < 3)%nat -> (i < 3)%nat ->
      STLLoader.position stl_colored_geometry !! (9 * face + 3 * v + i)%nat
      = Some (STLSpec.float32_at stl_colored (84 + 50 * face + 12 * (v + 1) + 4 * i))
      /\ STLLoader.normal stl_colored_geometry !! (9 * face + 3 * v + i)%nat
         = Some (STLSpec.float32_at stl_colored (84 + 50 * face + 4 * i)).
Proof.
  assert (H : STLLoader.parseBinary stl_colored = Ok stl_colored_geometry)
    by (vm_compute; reflexivity).
  split; [exact H|].
  exact (STLBinaryFacts.parseBinary_coordinates stl_colored stl_colored_geometry H).
Defined.

Lemma parseBinary_header_color_witness :
  STLLoader.parseBinary stl_colored = Ok stl_colored_geometry
  /\ match STLSpec.last_signature stl_colored with
     | None =>
         STLLoader.geometry_hasColors stl_colored_geometry = false
         /\ STLLoader.color stl_colored_geometry = None
         /\ STLLoader.geometry_alpha stl_colored_geometry = None
     | Some idx =>
         STLLoader.geometry_hasColors stl_colored_geometry = true
         /\ STLLoader.geometry_alpha stl_colored_geometry
            = Some (div (of_Z (at_ stl_colored (idx + 9))) (of_Z 255))
         /\ (idx < 70)%nat /\ STLSpec.signature_at stl_colored idx = true
         /\ forall j, (idx < j < 70)%nat -> STLSpec.signature_at stl_colored j = false
     end.
Proof.
  assert (H : STLLoader.parseBinary stl_colored = Ok stl_colored_geometry)
    by (vm_compute; reflexivity).
  split; [exact H|].
  exact (STLBinaryFacts.parseBinary_header_color stl_colored stl_colored_geometry H).
Defined.

Lemma parseBinary_trailing_bytes_witness :
  84 + 50 * uint32_le stl_colored 80 <= Z.of_nat (length stl_colored)
  /\ STLLoader.parseBinary (stl_colored ++ [Byte.x00; Byte.xff])
     = STLLoader.parseBinary stl_colored.
Proof.
  assert (H : 84 + 50 * uint32_le stl_colored 80 <= Z.of_nat (length stl_colored))
    by (vm_compute; discriminate).
  split; [exact H|].
  exact (STLBinaryFacts.parseBinary_trailing_bytes stl_colored [Byte.x00; Byte.xff] H).
Defined.

Lemma binaryReadElement_size_witness :
  PLYBinary.binaryReadElement ply_binary_body 0 (properties vertex_element) true
  = Ok (first_record, 12%nat)
  /\ (record_size vertex_element <= 12)%nat
  /\ (forallb (fun p => negb (is_list p)) (properties vertex_element) = true ->
      12%nat = record_size vertex_element)
  /\ (properties vertex_element <> [] ->
      (DataView.this_byteOffset ply_binary_body + 0 + 12
       <= DataView.byteLength ply_binary_body)%nat)
  /\ forall k, has first_record k
               = existsb (fun p => String.eqb k (Parse.ToString (name p)))
                         (properties vertex_element).
Proof.
  assert (H : PLYBinary.binaryReadElement ply_binary_body 0 (properties vertex_element) true
              = Ok (first_record, 12%nat)) by (vm_compute; reflexivity).
  split; [exact H|].
  exact (PLYBinaryFacts.binaryReadElement_size ply_binary_body 0 vertex_element true
           first_record 12 H).
Defined.


Lemma parseBinary_records_witness :
  PLYBinary.parseBinary ∅ ply_binary = Some (Ok ply_binary_mesh)
  /\ PLYRecordSpec.records_of ply_binary ply_binary_schema
     = [(Some "vertex"%string, first_record);
        (Some "vertex"%string,
         <["z" := Num zero]> (<["y" := Num zero]> (<["x" := Num one]> ∅)));
        (Some "face"%string,
         <["vertex_indices" := Arr [Some zero; Some one; Some zero]]> ∅)]
  /\ exists header,
      parseHeader ∅ (PLYBinary.bin2str ply_binary) = Ok header
      /\ assemble (PLYRecordSpec.records_of ply_binary header) = Ok ply_binary_mesh
      /\ map fst (PLYRecordSpec.records_of ply_binary header) = declared header.
Proof.
  assert (H : PLYBinary.parseBinary ∅ ply_binary = Some (Ok ply_binary_mesh))
    by (vm_compute; reflexivity).
  split; [exact H|]. split; [vm_compute; reflexivity|].
  exact (PLYRecordFacts.parseBinary_records ∅ ply_binary ply_binary_mesh H).
Defined.

Lemma parseBinary_body_size_witness :
  PLYBinary.parseBinary ∅ ply_binary = Some (Ok ply_binary_mesh)
  /\ exists header,
      parseHeader ∅ (PLYBinary.bin2str ply_binary) = Ok header
      /\ (headerLength header + body_size header <= length ply_binary)%nat.
Proof.
  assert (H : PLYBinary.parseBinary ∅ ply_binary = Some (Ok ply_binary_mesh))
    by (vm_compute; reflexivity).
  split; [exact H|].
  exact (PLYBinaryFacts.parseBinary_body_size ∅ ply_binary ply_binary_mesh H).
Defined.

Lemma unknown_type_throws_witness :
  is_list odd_property = false
  /\ type_size (type odd_property) = None
  /\ (forall d pos le ps qs r,
        PLYBinary.binaryReadElement d pos (ps ++ odd_property :: qs) le <> Ok r)
  /\ (forall d pos le qs,
        PLYBinary.binaryReadElement d pos (odd_property :: qs) le = Throw TypeError)
  /\ (forall line,
        parseASCIIElement [odd_property] line
        = Ok (<[Parse.ToString (name odd_property) := Undefined]> ∅)).
Proof.
  assert (H1 : is_list odd_property = false) by reflexivity.
  assert (H2 : type_size (type odd_property) = None) by reflexivity.
  split; [exact H1|]. split; [exact H2|].
  exact (PLYTextFacts.unknown_type_throws odd_property H1 H2).
Defined.

Lemma parse_without_terminator_witness :
  (forall i, is_terminator (Str.drop i (text_of (PLYBinary.Text "ply"))) = false)
  /\ PLYBinary.parse ∅ (PLYBinary.Text "ply") = Some (Ok new_Geometry).
Proof.
  assert (H : forall i, is_terminator (Str.drop i (text_of (PLYBinary.Text "ply"))) = false).
  { intros [|[|[|[|i]]]]; reflexivity. }
  split; [exact H|].
  exact (PLYTextFacts.parse_without_terminator ∅ (PLYBinary.Text "ply") H).
Defined.

Lemma property_before_element_witness :
  Str.split "010" (headerText ply_misplaced)
  = [""; "format ascii 1.0"]%string
    ++ "property float x"%string :: ["element vertex 1"; ""]%string
  /\ Forall (fun l => is_string (lineType l) "element" = false)
            [""; "format ascii 1.0"]%string
  /\ is_string (lineType "property float x") "property" = true
  /\ parseHeader ∅ ply_misplaced = Throw TypeError
  /\ parseASCII ∅ ply_misplaced = Throw TypeError.
Proof.
  assert (H1 : Str.split "010" (headerText ply_misplaced)
               = [""; "format ascii 1.0"]%string
                 ++ "property float x"%string :: ["element vertex 1"; ""]%string)
    by (vm_compute; reflexivity).
  assert (H2 : Forall (fun l => is_string (lineType l) "element" = false)
                      [""; "format ascii 1.0"]%string)
    by (repeat constructor).
  assert (H3 : is_string (lineType "property float x") "property" = true)
    by (vm_compute; reflexivity).
  split; [exact H1|]. split; [exact H2|]. split; [exact H3|].
  exact (PLYTextFacts.property_before_element ∅ ply_misplaced
           [""; "format ascii 1.0"]%string "property float x"
           ["element vertex 1"; ""]%string H1 H2 H3).
Defined.

Lemma parseASCII_by_counts_witness :
  parseHeader ∅ ply_complete = Ok ply_schema
  /\ Forall counted (elements ply_schema)
  /\ parseASCII ∅ ply_complete
     = (let* g := foldM record_of (assign (elements ply_schema) (record_lines ply_complete))
                        new_Geometry in
        Ok (postProcess g)).
Proof.
  assert (H1 : parseHeader ∅ ply_complete = Ok ply_schema) by (vm_compute; reflexivity).
  assert (H2 : Forall counted (elements ply_schema)).
  { repeat constructor.
    - exists 2. split; [lia|reflexivity].
    - exists 1. split; [lia|reflexivity]. }
  split; [exact H1|]. split; [exact H2|].
  exact (PLYDispatchFacts.parseASCII_by_counts ∅ ply_complete ply_schema H1 H2).
Defined.

Lemma parseASCIIElement_missing_values_witness :
  parseASCIIElement (properties vertex_element) "0 0"
  = Ok (<["z" := Num NaN]> (<["y" := Num zero]> (<["x" := Num zero]> ∅)))
  /\ forallb (fun q => negb (is_list q)) (properties vertex_element) = true
  /\ exists element,
      parseASCIIElement (properties vertex_element) "0 0" = Ok element
      /\ forall i p,
          nth_error (properties vertex_element) i = Some p ->
          Forall (fun q => Parse.ToString (name p) <> Parse.ToString (name q))
                 (skipn (S i) (properties vertex_element)) ->
          get element (Parse.ToString (name p))
          = of_scalar (parseASCIINumber (nth_error (Str.split_ws "0 0") i) (type p))
          /\ ((length (Str.split_ws "0 0") <= i)%nat ->
              type_size (type p) <> None ->
              get element (Parse.ToString (name p)) = Num NaN).
Proof.
  assert (H1 : parseASCIIElement (properties vertex_element) "0 0"
               = Ok (<["z" := Num NaN]> (<["y" := Num zero]> (<["x" := Num zero]> ∅))))
    by (vm_compute; reflexivity).
  assert (H2 : forallb (fun q => negb (is_list q)) (properties vertex_element) = true)
    by reflexivity.
  split; [exact H1|]. split; [exact H2|].
  exact (PLYShortFacts.parseASCIIElement_missing_values (properties vertex_element) "0 0" H2).
Defined.


Theorem same_element_same_color_presence_witness :
  parseASCIIElement (properties vertex_element) "0 0 0" = Ok first_record
  /\ parseASCIIElement (properties vertex_element) "0 0"
     = Ok (<["z" := Num NaN]> (<["y" := Num zero]> (<["x" := Num zero]> ∅)))
  /\ has_rgb (Some "vertex"%string, first_record)
     = has_rgb (Some "vertex"%string,
                <["z" := Num NaN]> (<["y" := Num zero]> (<["x" := Num zero]> ∅))).
Proof.
  assert (H1 : parseASCIIElement (properties vertex_element) "0 0 0" = Ok first_record)
    by (vm_compute; reflexivity).
  assert (H2 : parseASCIIElement (properties vertex_element) "0 0"
               = Ok (<["z" := Num NaN]> (<["y" := Num zero]> (<["x" := Num zero]> ∅))))
    by (vm_compute; reflexivity).
  split; [exact H1|]. split; [exact H2|].
  exact (PLYFacts.same_element_same_color_presence (properties vertex_element)
           "0 0 0" "0 0" first_record _ (Some "vertex"%string) (Some "vertex"%string) H1 H2).
Defined.

Lemma parseHeader_elements_witness :
  parseHeader ∅ ply_complete = Ok ply_schema
  /\ map (fun e => (element_name e, count e)) (elements ply_schema)
     = omap declaration (Str.split "010" (headerText ply_complete)).
Proof.
  assert (H : parseHeader ∅ ply_complete = Ok ply_schema) by (vm_compute; reflexivity).
  split; [exact H|].
  exact (PLYHeaderFacts.parseHeader_elements ∅ ply_complete ply_schema H).
Defined.

Lemma face_without_vertex_indices_witness :
  Forall (fun p => Parse.ToString (name p) <> "vertex_indices"%string) [vertex_index]
  /\ (forall line element,
        parseASCIIElement [vertex_index] line = Ok element ->
        handleElement new_Geometry (Some "face"%string) element = Throw TypeError)
  /\ (forall d pos le element read,
        PLYBinary.binaryReadElement d pos [vertex_index] le = Ok (element, read) ->
        handleElement new_Geometry (Some "face"%string) element = Throw TypeError).
Proof.
  assert (H : Forall (fun p => Parse.ToString (name p) <> "vertex_indices"%string)
                     [vertex_index])
    by (repeat constructor; discriminate).
  split; [exact H|].
  exact (PLYHeaderFacts.face_without_vertex_indices [vertex_index] new_Geometry H).
Defined.

Lemma parseBinary_plain_witness :
  parseHeader ∅ (PLYBinary.bin2str ply_points) = Ok ply_points_schema
  /\ forallb plain (elements ply_points_schema) = true
  /\ if (headerLength ply_points_schema + body_size ply_points_schema
         <=? length ply_points)%nat
     then exists g, PLYBinary.parseBinary ∅ ply_points = Some (Ok g)
     else PLYBinary.parseBinary ∅ ply_points = Some (Throw RangeError).
Proof.
  assert (H1 : parseHeader ∅ (PLYBinary.bin2str ply_points) = Ok ply_points_schema)
    by (vm_compute; reflexivity).
  assert (H2 : forallb plain (elements ply_points_schema) = true)
    by (vm_compute; reflexivity).
  split; [exact H1|]. split; [exact H2|].
  exact (PLYHeaderFacts.parseBinary_plain ∅ ply_points ply_points_schema H1 H2).
Defined.


Lemma parseASCII_normal_carried_witness :
  STLTextSpec.facets stl_text !! 1%nat = Some second_facet
  /\ STLTextSpec.normals_of second_facet = []
  /\ exists f,
      STLText.faces (STLText.parseASCII stl_text) !! 1%nat = Some f
      /\ STLText.normal f
         = from_option STLText.normal None
             (STLText.faces (STLText.parseASCII stl_text) !! 0%nat).
Proof.
  assert (H1 : STLTextSpec.facets stl_text !! 1%nat = Some second_facet)
    by (vm_compute; reflexivity).
  assert (H2 : STLTextSpec.normals_of second_facet = []) by (vm_compute; reflexivity).
  split; [exact H1|]. split; [exact H2|].
  exact (STLTextFacts.parseASCII_normal_carried stl_text 1 second_facet H1 H2).
Defined.

Lemma parse_short_input_witness :
  (length (STLText.ensureBinary (STLText.Text "solid")) < 84)%nat
  /\ STLText.parse (STLText.Text "solid") = Throw RangeError.
Proof.
  assert (H : (length (STLText.ensureBinary (STLText.Text "solid")) < 84)%nat)
    by (vm_compute; lia).
  split; [exact H|].
  exact (STLTextFacts.parse_short_input (STLText.Text "solid") H).
Defined.


Lemma postProcess_vertex_colors_witness :
  faces colored_triangle !! 0%nat
  = Some (new_Face3 (Some (of_Z 0)) (Some (of_Z 1)) (Some (of_Z 2)))
  /\ exists f',
      faces (postProcess colored_triangle) !! 0%nat = Some f'
      /\ corners f' = corners (new_Face3 (Some (of_Z 0)) (Some (of_Z 1)) (Some (of_Z 2)))
      /\ vertexColors f'
         = if useColor colored_triangle
           then Some [colors colored_triangle !! Z.to_nat 0;
                      colors colored_triangle !! Z.to_nat 1;
                      colors colored_triangle !! Z.to_nat 2]
           else vertexColors (new_Face3 (Some (of_Z 0)) (Some (of_Z 1)) (Some (of_Z 2))).
Proof.
  assert (H : faces colored_triangle !! 0%nat
              = Some (new_Face3 (Some (of_Z 0)) (Some (of_Z 1)) (Some (of_Z 2))))
    by reflexivity.
  split; [exact H|].
  exact (PLYColorFacts.postProcess_vertex_colors colored_triangle 0
           (new_Face3 (Some (of_Z 0)) (Some (of_Z 1)) (Some (of_Z 2))) 0 1 2
           H eq_refl eq_refl eq_refl
           (conj (Z.le_refl 0) eq_refl) (conj (Z.le_0_1) eq_refl)
           (conj (Z.le_0_2) eq_refl)).
Defined.

Lemma parseASCIIElement_list_items_witness :
  is_list corners_list = true
  /\ parseASCIIElement [corners_list] "3 0 1" = Ok short_face
  /\ exists l,
      get short_face (Parse.ToString (name corners_list)) = Arr l
      /\ loop_count (parseASCIINumber (hd_error (Str.split_ws "3 0 1"))
                       (countType corners_list))
         = Some (length l)
      /\ forall k, (k < length l)%nat ->
           l !! k = Some (parseASCIINumber (nth_error (Str.split_ws "3 0 1") (S k))
                            (itemType corners_list)).
Proof.
  assert (H1 : is_list corners_list = true) by reflexivity.
  assert (H2 : parseASCIIElement [corners_list] "3 0 1" = Ok short_face)
    by (vm_compute; reflexivity).
  split; [exact H1|]. split; [exact H2|].
  exact (PLYColorFacts.parseASCIIElement_list_items corners_list "3 0 1" short_face H1 H2).
Defined.

End Instances.
